(** * UDB multi-index B+Tree: a shallow embedding of [src/UDBE/udb_btree.cpp]

    The development follows the C++ sources function by function.

    - A block (node, leaf, key) is a [list Z] of bytes, each in [0, 256).
      A C++ pointer into a block is the list of bytes that starts at the
      pointed-to address, so that [getNodeKey] is a [skipn] and [memcpy]
      takes a [firstn].
    - Packed structures ([#pragma pack(push, 1)]) are read and written
      through little-endian field accessors at the offsets of
      [NodeHeader], [LeafHeader] and [IndexInfo].
    - The [File] base class is a byte list with one file position and the
      latched [ErrorCode]; the [std::fstream] calls are modelled from the
      C++ standard library's documented behaviour.
    - A C++ exception is the [Throw] outcome of the state-and-exception
      monad [M]; [setError] followed by [throw] latches the code first.
    - [uint16_t] values are wrapped with [u16] where the source stores the
      result of an [int] computation into a [uint16_t]; [int64_t] fields
      wrap when they are stored in a block.
    - The recursive mutex ([LockGuard]) is not modelled: every operation
      runs to completion on one handle. *)

From Stdlib Require Import ZArith List Lia Bool.
Import ListNotations.
Open Scope Z_scope.

(* ================================================================= *)
(** ** Bytes and little-endian fields *)

Module Bytes.

Definition u8 (x : Z) : Z := x mod 256.
Definition u16 (x : Z) : Z := x mod 65536.

(** Two's complement reading of a [bits]-wide unsigned value. *)
Definition signed (bits : Z) (x : Z) : Z :=
  if x <? 2 ^ (bits - 1) then x else x - 2 ^ bits.

(** [n] little-endian bytes of [x] (two's complement for negative [x]). *)
Fixpoint encodeLE (n : nat) (x : Z) : list Z :=
  match n with
  | O => []
  | S n' => x mod 256 :: encodeLE n' (x / 256)
  end.

Fixpoint decodeLE (l : list Z) : Z :=
  match l with
  | [] => 0
  | b :: t => b + 256 * decodeLE t
  end.

Definition nthZ (i : Z) (l : list Z) : Z :=
  if i <? 0 then 0 else nth (Z.to_nat i) l 0.

(** [n] bytes of [buf] from offset [off]; bytes past the end read as 0. *)
Definition peek (buf : list Z) (off : Z) (n : nat) : list Z :=
  let s := firstn n (skipn (Z.to_nat off) buf) in
  s ++ repeat 0 (n - length s).

(** Store [bytes] into [buf] at offset [off]; the block keeps its size
    (a store past the end of the block is dropped). *)
Definition poke (buf : list Z) (off : Z) (bytes : list Z) : list Z :=
  let o := Z.to_nat off in
  firstn o buf
    ++ firstn (length buf - o) bytes
    ++ skipn (o + length bytes) buf.

Definition getU16 (buf : list Z) (off : Z) : Z := decodeLE (peek buf off 2).
Definition setU16 (buf : list Z) (off : Z) (v : Z) : list Z :=
  poke buf off (encodeLE 2 v).
Definition getI64 (buf : list Z) (off : Z) : Z :=
  signed 64 (decodeLE (peek buf off 8)).
Definition setI64 (buf : list Z) (off : Z) (v : Z) : list Z :=
  poke buf off (encodeLE 8 v).

(** [std::memcpy(dst + off, src, n)]. *)
Definition memcpy (dst : list Z) (off : Z) (src : list Z) (n : Z) : list Z :=
  poke dst off (peek src 0 (Z.to_nat n)).

(** [std::vector<uint8_t>(n, 0)]. *)
Definition zeros (n : Z) : list Z := repeat 0 (Z.to_nat n).

End Bytes.
Import Bytes.

(* ================================================================= *)
(** ** Common definitions ([udb_common.h]) *)

Inductive ErrorCode :=
| OK | ERROR | READ_ERROR | WRITE_ERROR | SEEK_ERROR | BAD_DATA
| MEMORY_ERROR | POINTER_ERROR | BAD_FILE_DATA | BAD_FILE_HANDLE
| CREATE_ERROR | GET_FILE_SIZE | OPEN_ERROR | CLOSE_ERROR
| GET_FILE_POS | INIT_ERROR.

Definition ErrorCode_eqb (a b : ErrorCode) : bool :=
  match a, b with
  | OK, OK | ERROR, ERROR | READ_ERROR, READ_ERROR
  | WRITE_ERROR, WRITE_ERROR | SEEK_ERROR, SEEK_ERROR | BAD_DATA, BAD_DATA
  | MEMORY_ERROR, MEMORY_ERROR | POINTER_ERROR, POINTER_ERROR
  | BAD_FILE_DATA, BAD_FILE_DATA | BAD_FILE_HANDLE, BAD_FILE_HANDLE
  | CREATE_ERROR, CREATE_ERROR | GET_FILE_SIZE, GET_FILE_SIZE
  | OPEN_ERROR, OPEN_ERROR | CLOSE_ERROR, CLOSE_ERROR
  | GET_FILE_POS, GET_FILE_POS | INIT_ERROR, INIT_ERROR => true
  | _, _ => false
  end.

Inductive KeyType :=
| VOID | BLOCK | NUM_BLOCK | INTEGER | LONG_INT | STRING | LOGICAL | CHARACTER.

Definition KeyType_to_Z (kt : KeyType) : Z :=
  match kt with
  | VOID => 0 | BLOCK => 1 | NUM_BLOCK => 2 | INTEGER => 3
  | LONG_INT => 4 | STRING => 5 | LOGICAL => 6 | CHARACTER => 7
  end.

(** [IndexAttribute] flags. *)
Definition ATTR_NONE : Z := 0.
Definition ATTR_UNIQUE : Z := 1.
Definition ATTR_ALLOW_DELETE : Z := 2.

(** [PositionState] flags. *)
Definition END_OF_FILE : Z := 1.
Definition BEGIN_OF_FILE : Z := 2.

Definition INVALID_POSITION : Z := -1.

(** [calculateBlockChecksum]: the XOR of the first [blockSize] bytes. *)
Definition calculateBlockChecksum (block : list Z) (blockSize : Z) : Z :=
  fold_left Z.lxor (firstn (Z.to_nat blockSize) block) 0.

(* ================================================================= *)
(** ** Packed structures ([udb_btree.h]) *)

(** [sizeof(MultiIndexHeader)], [sizeof(IndexInfo)], [sizeof(NodeHeader)]
    and [sizeof(LeafHeader)] under [#pragma pack(push, 1)]. *)
Definition sizeof_MultiIndexHeader : Z := 3.
Definition sizeof_IndexInfo : Z := 67.
Definition sizeof_NodeHeader : Z := 19.
Definition sizeof_LeafHeader : Z := 25.

Record IndexInfo := mkIndexInfo {
  checksum : Z;
  attributes : Z;
  keyType : KeyType;
  keySize : Z;
  maxItems : Z;
  freeCreateNodes : Z;
  freeCreateLeaves : Z;
  freeNode : Z;
  freeLeave : Z;
  numLevels : Z;
  rootNode : Z;
  firstLeave : Z;
  lastLeave : Z
}.

Record PositionInfo := mkPositionInfo {
  state : Z;
  currentLeave : Z;
  nextLeave : Z;
  prevLeave : Z;
  currentDataPos : Z
}.

(** The bytes of an [IndexInfo] as it lies in memory. *)
Definition IndexInfo_bytes (i : IndexInfo) : list Z :=
  [u8 (checksum i)]
    ++ encodeLE 2 (attributes i)
    ++ encodeLE 2 (KeyType_to_Z (keyType i))
    ++ encodeLE 2 (keySize i)
    ++ encodeLE 2 (maxItems i)
    ++ encodeLE 8 (freeCreateNodes i)
    ++ encodeLE 8 (freeCreateLeaves i)
    ++ encodeLE 8 (freeNode i)
    ++ encodeLE 8 (freeLeave i)
    ++ encodeLE 2 (numLevels i)
    ++ encodeLE 8 (rootNode i)
    ++ encodeLE 8 (firstLeave i)
    ++ encodeLE 8 (lastLeave i).

(* ================================================================= *)
(** ** The handle: [File] members and [MultiIndex] members *)

Record MultiIndex := mkMultiIndex {
  m_file : list Z;            (* contents of the std::fstream *)
  m_filePos : Z;              (* its file position *)
  m_errorCode : ErrorCode;    (* File::m_errorCode *)
  m_header_checksum : Z;      (* m_header.checksum *)
  m_header_numIndexes : Z;    (* m_header.numIndexes *)
  m_indexInfo : list IndexInfo;
  m_positions : list PositionInfo;
  m_currentIndex : Z
}.

Definition set_file (d : list Z) (p : Z) (s : MultiIndex) : MultiIndex :=
  mkMultiIndex d p (m_errorCode s) (m_header_checksum s)
    (m_header_numIndexes s) (m_indexInfo s) (m_positions s) (m_currentIndex s).

Definition set_filePos (p : Z) (s : MultiIndex) : MultiIndex :=
  set_file (m_file s) p s.

Definition set_indexInfo (l : list IndexInfo) (s : MultiIndex) : MultiIndex :=
  mkMultiIndex (m_file s) (m_filePos s) (m_errorCode s) (m_header_checksum s)
    (m_header_numIndexes s) l (m_positions s) (m_currentIndex s).

Definition set_positions (l : list PositionInfo) (s : MultiIndex) : MultiIndex :=
  mkMultiIndex (m_file s) (m_filePos s) (m_errorCode s) (m_header_checksum s)
    (m_header_numIndexes s) (m_indexInfo s) l (m_currentIndex s).

Definition set_currentIndex (i : Z) (s : MultiIndex) : MultiIndex :=
  mkMultiIndex (m_file s) (m_filePos s) (m_errorCode s) (m_header_checksum s)
    (m_header_numIndexes s) (m_indexInfo s) (m_positions s) i.

Definition set_header_checksum (c : Z) (s : MultiIndex) : MultiIndex :=
  mkMultiIndex (m_file s) (m_filePos s) (m_errorCode s) c
    (m_header_numIndexes s) (m_indexInfo s) (m_positions s) (m_currentIndex s).

(** [File::setError], [File::hasError]. *)
Definition setError (code : ErrorCode) (s : MultiIndex) : MultiIndex :=
  mkMultiIndex (m_file s) (m_filePos s) code (m_header_checksum s)
    (m_header_numIndexes s) (m_indexInfo s) (m_positions s) (m_currentIndex s).

Definition hasError (s : MultiIndex) : bool :=
  negb (ErrorCode_eqb (m_errorCode s) OK).

(** [v[i] = x] on a [std::vector]; an index out of range is undefined
    behaviour in the source and changes nothing here. *)
Fixpoint vector_set {A} (l : list A) (i : nat) (x : A) : list A :=
  match l, i with
  | [], _ => []
  | _ :: t, O => x :: t
  | h :: t, S i' => h :: vector_set t i' x
  end.

(* ================================================================= *)
(** ** State and exception monad *)

(** [Ret a]: the call returns [a].  [Throw e]: the call leaves by a C++
    exception carrying [e].  [OutOfFuel]: a loop of the source whose
    number of turns is bounded by no variable of the program (a walk along
    file pointers) did not finish within the fuel the model gives it. *)
Inductive Result (A : Type) :=
| Ret (a : A)
| Throw (e : ErrorCode)
| OutOfFuel.
Arguments Ret {A} a.
Arguments Throw {A} e.
Arguments OutOfFuel {A}.

Definition M (A : Type) : Type := MultiIndex -> Result A * MultiIndex.

Definition ret {A} (a : A) : M A := fun s => (Ret a, s).

Definition bind {A B} (m : M A) (f : A -> M B) : M B :=
  fun s =>
    match m s with
    | (Ret a, s') => f a s'
    | (Throw e, s') => (Throw e, s')
    | (OutOfFuel, s') => (OutOfFuel, s')
    end.

(** [setError(code); throw ...]: the code is latched, then control leaves. *)
Definition throw {A} (e : ErrorCode) : M A :=
  fun s => (Throw e, setError e s).

Definition outOfFuel {A} : M A := fun s => (OutOfFuel, s).

Definition gets {A} (f : MultiIndex -> A) : M A := fun s => (Ret (f s), s).
Definition modify (f : MultiIndex -> MultiIndex) : M unit :=
  fun s => (Ret tt, f s).

Declare Scope monad_scope.
Delimit Scope monad_scope with monad.
Notation "x <- c1 ;; c2" := (bind c1 (fun x => c2))
  (at level 61, c1 at next level, right associativity) : monad_scope.
Notation "' pat <- c1 ;; c2" := (bind c1 (fun x => match x with pat => c2 end))
  (at level 61, pat pattern, c1 at next level, right associativity) : monad_scope.
Notation "c1 ;;; c2" := (bind c1 (fun _ => c2))
  (at level 61, right associativity) : monad_scope.
Open Scope monad_scope.

(* ================================================================= *)
(** ** [File] ([udb_file.cpp]) *)

(** [File::size]: the position is saved and restored. *)
Definition File_size : M Z := gets (fun s => Z.of_nat (length (m_file s))).

(** [File::seek(pos)] with [SEEK_SET]: a negative offset fails. *)
Definition File_seek (pos : Z) : M Z :=
  fun s =>
    if pos <? 0 then throw SEEK_ERROR s
    else (Ret pos, set_filePos pos s).

(** [File::write(buffer, size, pos)].  [seekp] runs unless [pos] is
    [INVALID_POSITION]; a failed seek makes the write fail.  Writing past
    the end of the file extends it, the gap reading as zero bytes. *)
Definition File_write (buffer : list Z) (size : Z) (pos : Z) : M unit :=
  fun s =>
    let p := if pos =? INVALID_POSITION then m_filePos s else pos in
    if p <? 0 then throw WRITE_ERROR s
    else if size <=? 0 then (Ret tt, set_filePos p s)
    else
      let d := m_file s in
      let bytes := peek buffer 0 (Z.to_nat size) in
      let d' := firstn (Z.to_nat p) d
                  ++ repeat 0 (Z.to_nat p - length d)
                  ++ bytes
                  ++ skipn (Z.to_nat (p + size)) d in
      (Ret tt, set_file d' (p + size) s).

(** [File::read(buffer, size, pos)].  [seekg] runs unless [pos] is
    [INVALID_POSITION]; a failed seek makes the read fail with
    [READ_ERROR].  A read that meets the end of the file is not an error:
    the bytes that were available are stored and the rest of [buffer]
    keeps its previous contents.  The result is the buffer. *)
Definition File_read (buffer : list Z) (size : Z) (pos : Z) : M (list Z) :=
  fun s =>
    let p := if pos =? INVALID_POSITION then m_filePos s else pos in
    if p <? 0 then throw READ_ERROR s
    else
      let got := firstn (Z.to_nat size) (skipn (Z.to_nat p) (m_file s)) in
      (Ret (poke buffer 0 got), set_filePos (p + Z.of_nat (length got)) s).

(* ================================================================= *)
(** ** Index property accessors *)

Definition defaultIndexInfo : IndexInfo :=
  mkIndexInfo 0 0 VOID 0 0 0 0 0 0 0 0 0 0.
Definition defaultPositionInfo : PositionInfo := mkPositionInfo 0 0 0 0 0.

(** [m_indexInfo[m_currentIndex]] and [m_positions[m_currentIndex]]. *)
Definition curInfo (s : MultiIndex) : IndexInfo :=
  nth (Z.to_nat (m_currentIndex s)) (m_indexInfo s) defaultIndexInfo.
Definition curPos (s : MultiIndex) : PositionInfo :=
  nth (Z.to_nat (m_currentIndex s)) (m_positions s) defaultPositionInfo.

Definition updInfo (f : IndexInfo -> IndexInfo) (s : MultiIndex) : MultiIndex :=
  set_indexInfo
    (vector_set (m_indexInfo s) (Z.to_nat (m_currentIndex s)) (f (curInfo s))) s.
Definition updPos (f : PositionInfo -> PositionInfo) (s : MultiIndex) : MultiIndex :=
  set_positions
    (vector_set (m_positions s) (Z.to_nat (m_currentIndex s)) (f (curPos s))) s.

Definition with_checksum (v : Z) (i : IndexInfo) : IndexInfo :=
  mkIndexInfo v (attributes i) (keyType i) (keySize i) (maxItems i)
    (freeCreateNodes i) (freeCreateLeaves i) (freeNode i) (freeLeave i)
    (numLevels i) (rootNode i) (firstLeave i) (lastLeave i).
Definition with_freeNode (v : Z) (i : IndexInfo) : IndexInfo :=
  mkIndexInfo (checksum i) (attributes i) (keyType i) (keySize i) (maxItems i)
    (freeCreateNodes i) (freeCreateLeaves i) v (freeLeave i)
    (numLevels i) (rootNode i) (firstLeave i) (lastLeave i).
Definition with_freeLeave (v : Z) (i : IndexInfo) : IndexInfo :=
  mkIndexInfo (checksum i) (attributes i) (keyType i) (keySize i) (maxItems i)
    (freeCreateNodes i) (freeCreateLeaves i) (freeNode i) v
    (numLevels i) (rootNode i) (firstLeave i) (lastLeave i).
Definition with_numLevels (v : Z) (i : IndexInfo) : IndexInfo :=
  mkIndexInfo (checksum i) (attributes i) (keyType i) (keySize i) (maxItems i)
    (freeCreateNodes i) (freeCreateLeaves i) (freeNode i) (freeLeave i)
    v (rootNode i) (firstLeave i) (lastLeave i).
Definition with_rootNode (v : Z) (i : IndexInfo) : IndexInfo :=
  mkIndexInfo (checksum i) (attributes i) (keyType i) (keySize i) (maxItems i)
    (freeCreateNodes i) (freeCreateLeaves i) (freeNode i) (freeLeave i)
    (numLevels i) v (firstLeave i) (lastLeave i).
Definition with_firstLeave (v : Z) (i : IndexInfo) : IndexInfo :=
  mkIndexInfo (checksum i) (attributes i) (keyType i) (keySize i) (maxItems i)
    (freeCreateNodes i) (freeCreateLeaves i) (freeNode i) (freeLeave i)
    (numLevels i) (rootNode i) v (lastLeave i).
Definition with_lastLeave (v : Z) (i : IndexInfo) : IndexInfo :=
  mkIndexInfo (checksum i) (attributes i) (keyType i) (keySize i) (maxItems i)
    (freeCreateNodes i) (freeCreateLeaves i) (freeNode i) (freeLeave i)
    (numLevels i) (rootNode i) (firstLeave i) v.

Definition getFreeNode (s : MultiIndex) : Z := freeNode (curInfo s).
Definition setFreeNode (pos : Z) : M unit := modify (updInfo (with_freeNode pos)).
Definition getFreeLeave (s : MultiIndex) : Z := freeLeave (curInfo s).
Definition setFreeLeave (pos : Z) : M unit := modify (updInfo (with_freeLeave pos)).
Definition getRootNode (s : MultiIndex) : Z := rootNode (curInfo s).
Definition setRootNode (pos : Z) : M unit := modify (updInfo (with_rootNode pos)).
Definition getFirstLeave (s : MultiIndex) : Z := firstLeave (curInfo s).
Definition setFirstLeave (pos : Z) : M unit := modify (updInfo (with_firstLeave pos)).
Definition getLastLeave (s : MultiIndex) : Z := lastLeave (curInfo s).
Definition setLastLeave (pos : Z) : M unit := modify (updInfo (with_lastLeave pos)).
Definition getNumLevels (s : MultiIndex) : Z := numLevels (curInfo s).
Definition setNumLevels (num : Z) : M unit := modify (updInfo (with_numLevels num)).
Definition incNumLevels : M unit :=
  modify (fun s => updInfo (with_numLevels (u16 (getNumLevels s + 1))) s).
Definition decNumLevels : M unit :=
  modify (fun s => updInfo (with_numLevels (u16 (getNumLevels s - 1))) s).
Definition getFreeCreateNodes (s : MultiIndex) : Z := freeCreateNodes (curInfo s).
Definition getFreeCreateLeaves (s : MultiIndex) : Z := freeCreateLeaves (curInfo s).

(** The public, error-checking accessors. *)
Definition getKeyType (s : MultiIndex) : KeyType :=
  if hasError s then VOID else keyType (curInfo s).
Definition getKeySize (s : MultiIndex) : Z :=
  if hasError s then 0 else keySize (curInfo s).
Definition canDelete (s : MultiIndex) : bool :=
  if hasError s then false
  else negb (Z.land (attributes (curInfo s)) ATTR_ALLOW_DELETE =? 0).
Definition isUnique (s : MultiIndex) : bool :=
  if hasError s then false
  else negb (Z.land (attributes (curInfo s)) ATTR_UNIQUE =? 0).

(** Size calculations; every result is a [uint16_t]. *)
Definition getMaxItems (s : MultiIndex) : Z := maxItems (curInfo s).
Definition getItemSize (s : MultiIndex) : Z := u16 (keySize (curInfo s) + 8).
Definition getNodeHeaderSize : Z := sizeof_NodeHeader.
Definition getNodeSize (s : MultiIndex) : Z :=
  u16 (getItemSize s * getMaxItems s + getNodeHeaderSize).
Definition getLeaveSize (s : MultiIndex) : Z :=
  u16 (keySize (curInfo s) + sizeof_LeafHeader).

Definition allocateNodeBlock (s : MultiIndex) : list Z := zeros (getNodeSize s).
Definition allocateLeaveBlock (s : MultiIndex) : list Z := zeros (getLeaveSize s).
Definition allocateKeyBlock (s : MultiIndex) : list Z := zeros (getKeySize s).

(** [std::vector::resize(n)]. *)
Definition resize (v : list Z) (n : Z) : list Z := peek v 0 (Z.to_nat n).

(* ================================================================= *)
(** ** Node and leaf checksums, block I/O *)

Definition setNodeChecksum (s : MultiIndex) (node : list Z) : list Z :=
  let node0 := poke node 0 [0] in
  poke node0 0 [calculateBlockChecksum node0 (getNodeSize s)].

Definition testNodeChecksum (s : MultiIndex) (node : list Z) : bool :=
  calculateBlockChecksum node (getNodeSize s) =? 0.

Definition setLeaveChecksum (s : MultiIndex) (leave : list Z) : list Z :=
  let leave0 := poke leave 0 [0] in
  poke leave0 0 [calculateBlockChecksum leave0 (getLeaveSize s)].

Definition testLeaveChecksum (s : MultiIndex) (leave : list Z) : bool :=
  calculateBlockChecksum leave (getLeaveSize s) =? 0.

(** [readNode(node, pos)]; the result is the buffer that was read. *)
Definition readNode (node : list Z) (pos : Z) : M (list Z) :=
  sz <- gets getNodeSize ;;
  node' <- File_read (resize node sz) sz pos ;;
  ok <- gets (fun s => testNodeChecksum s node') ;;
  if ok : bool then ret node' else throw BAD_DATA.

(** [writeNode(node, pos)]; the buffer is passed by reference and comes
    back with its checksum byte set. *)
Definition writeNode (node : list Z) (pos : Z) : M (list Z) :=
  node' <- gets (fun s => setNodeChecksum s node) ;;
  sz <- gets getNodeSize ;;
  File_write node' sz pos ;;;
  ret node'.

Definition readLeave (leave : list Z) (pos : Z) : M (list Z) :=
  sz <- gets getLeaveSize ;;
  leave' <- File_read (resize leave sz) sz pos ;;
  ok <- gets (fun s => testLeaveChecksum s leave') ;;
  if ok : bool then ret leave' else throw BAD_DATA.

Definition writeLeave (leave : list Z) (pos : Z) : M (list Z) :=
  leave' <- gets (fun s => setLeaveChecksum s leave) ;;
  sz <- gets getLeaveSize ;;
  File_write leave' sz pos ;;;
  ret leave'.

(* ================================================================= *)
(** ** Node access helpers *)

Definition getNumItems (node : list Z) : Z := getU16 node 1.
Definition setNumItems (node : list Z) (num : Z) : list Z := setU16 node 1 num.
Definition getNextNode (node : list Z) : Z := getI64 node 3.
Definition setNextNode (node : list Z) (pos : Z) : list Z := setI64 node 3 pos.
Definition getPrevNode (node : list Z) : Z := getI64 node 11.
Definition setPrevNode (node : list Z) (pos : Z) : list Z := setI64 node 11 pos.

Definition getNextLeave (leave : list Z) : Z := getI64 leave 1.
Definition setNextLeave (leave : list Z) (pos : Z) : list Z := setI64 leave 1 pos.
Definition getPrevLeave (leave : list Z) : Z := getI64 leave 9.
Definition setPrevLeave (leave : list Z) (pos : Z) : list Z := setI64 leave 9 pos.
Definition getDataPos (leave : list Z) : Z := getI64 leave 17.
Definition setDataPos (leave : list Z) (pos : Z) : list Z := setI64 leave 17 pos.

(** [std::fill(node.begin(), node.end(), 0)]. *)
Definition fill0 (v : list Z) : list Z := repeat 0 (length v).

Definition resetNode (node : list Z) : list Z :=
  setPrevNode (setNextNode (setNumItems (fill0 node) 0) INVALID_POSITION)
    INVALID_POSITION.

Definition resetLeave (leave : list Z) : list Z :=
  setPrevLeave (setNextLeave (fill0 leave) INVALID_POSITION) INVALID_POSITION.

(** Offset of item [itemNo] (1-based) in a node block. *)
Definition nodeKeyOff (s : MultiIndex) (itemNo : Z) : Z :=
  sizeof_NodeHeader + getItemSize s * (itemNo - 1).

(** [getNodeKey(node, itemNo)]: a pointer into the node. *)
Definition getNodeKey (s : MultiIndex) (node : list Z) (itemNo : Z) : list Z :=
  skipn (Z.to_nat (nodeKeyOff s itemNo)) node.

Definition setNodeKey (s : MultiIndex) (node : list Z) (itemNo : Z)
    (key : list Z) : list Z :=
  memcpy node (nodeKeyOff s itemNo) key (getKeySize s).

Definition getLeaveKey (leave : list Z) : list Z :=
  skipn (Z.to_nat sizeof_LeafHeader) leave.

Definition setLeaveKey (s : MultiIndex) (leave : list Z) (key : list Z) : list Z :=
  memcpy leave sizeof_LeafHeader key (getKeySize s).

Definition getChildPos (s : MultiIndex) (node : list Z) (itemNo : Z) : Z :=
  getI64 node (nodeKeyOff s itemNo + getKeySize s).

Definition setChildPos (s : MultiIndex) (node : list Z) (itemNo : Z)
    (pos : Z) : list Z :=
  setI64 node (nodeKeyOff s itemNo + getKeySize s) pos.

(** [std::memmove] inside one block. *)
Definition memmove (buf : list Z) (dest src n : Z) : list Z :=
  poke buf dest (peek buf src (Z.to_nat n)).

Definition insertItem (s : MultiIndex) (node : list Z) (itemNo : Z)
    (key : list Z) (childPos : Z) : list Z :=
  if itemNo =? 0 then node
  else
    let numItems := getNumItems node in
    let node1 := setNumItems node (numItems + 1) in
    if itemNo >=? numItems + 1 then
      let insertAt := u16 (numItems + 1) in
      setChildPos s (setNodeKey s node1 insertAt key) insertAt childPos
    else
      let insertAt := itemNo in
      let itemSize := getItemSize s in
      let node2 :=
        memmove node1
          (sizeof_NodeHeader + itemSize * insertAt)
          (sizeof_NodeHeader + itemSize * (insertAt - 1))
          (itemSize * (numItems - insertAt + 1)) in
      setChildPos s (setNodeKey s node2 insertAt key) insertAt childPos.

Definition deleteItem (s : MultiIndex) (node : list Z) (itemNo : Z) : list Z :=
  let numItems := getNumItems node in
  let node1 :=
    if (itemNo <? numItems) && (itemNo >? 0) then
      let itemSize := getItemSize s in
      memmove node
        (sizeof_NodeHeader + itemSize * (itemNo - 1))
        (sizeof_NodeHeader + itemSize * itemNo)
        (itemSize * (numItems - itemNo))
    else node in
  if numItems >? 0 then setNumItems node1 (numItems - 1) else node1.

(* ================================================================= *)
(** ** Key comparison *)

(** Sign of [a - b] as the source's [(a > b) ? 1 : ((a < b) ? -1 : 0)]. *)
Definition cmp3 (a b : Z) : Z :=
  if a >? b then 1 else if a <? b then -1 else 0.

(** [std::memcmp(p1, p2, n)] reduced to its sign. *)
Fixpoint memcmp (p1 p2 : list Z) (n : nat) : Z :=
  match n with
  | O => 0
  | S n' =>
      let c1 := hd 0 p1 in
      let c2 := hd 0 p2 in
      if c1 =? c2 then memcmp (tl p1) (tl p2) n' else cmp3 c1 c2
  end.

(** The [NUM_BLOCK] loop [for (int i = keySize - 1; i >= 0; --i)];
    [i] counts the bytes still to compare. *)
Fixpoint numBlockCmp (p1 p2 : list Z) (i : nat) : Z :=
  match i with
  | O => 0
  | S j =>
      if nth j p1 0 =? nth j p2 0 then numBlockCmp p1 p2 j
      else if nth j p1 0 >? nth j p2 0 then 1 else -1
  end.

(** [std::strcmp] reduced to its sign; bytes compare as [unsigned char].
    The end of the block acts as a terminator (the source would read on). *)
Fixpoint strcmp (p1 p2 : list Z) : Z :=
  match p1 with
  | [] => cmp3 0 (hd 0 p2)
  | c1 :: t1 =>
      let c2 := hd 0 p2 in
      if c1 =? c2 then (if c1 =? 0 then 0 else strcmp t1 (tl p2))
      else cmp3 c1 c2
  end.

(** [MultiIndex::compare(key1, key2)]; native integers are little-endian. *)
Definition compare (s : MultiIndex) (key1 key2 : list Z) : Z :=
  if hasError s then 0
  else
    match getKeyType s with
    | BLOCK => memcmp key1 key2 (Z.to_nat (getKeySize s))
    | NUM_BLOCK => numBlockCmp key1 key2 (Z.to_nat (getKeySize s))
    | INTEGER =>
        cmp3 (signed 16 (decodeLE (peek key1 0 2)))
             (signed 16 (decodeLE (peek key2 0 2)))
    | LONG_INT =>
        cmp3 (signed 32 (decodeLE (peek key1 0 4)))
             (signed 32 (decodeLE (peek key2 0 4)))
    | STRING => strcmp key1 key2
    | LOGICAL =>
        let b1 := negb (hd 0 key1 =? 0) in
        let b2 := negb (hd 0 key2 =? 0) in
        if b1 && negb b2 then 1 else if negb b1 && b2 then -1 else 0
    | CHARACTER => cmp3 (hd 0 key1) (hd 0 key2)
    | VOID => 0
    end.

(** [MultiIndex::fillEOFKey(keyBlock)]: the bytes stored at [keyBlock]. *)
Definition fillEOFKey (s : MultiIndex) : list Z :=
  let n := getKeySize s in
  let keyBlock := repeat 255 (Z.to_nat n) in
  match getKeyType s with
  | STRING => poke keyBlock (n - 1) [0]
  | NUM_BLOCK | INTEGER => poke keyBlock 0 [Z.land (nthZ 0 keyBlock) 127]
  | LONG_INT => poke keyBlock (n - 1) [Z.land (nthZ (n - 1) keyBlock) 127]
  | _ => keyBlock
  end.

(* ================================================================= *)
(** ** Binary search within a node *)

(** The [while (left < right)] loop; [fuel] bounds the iterations and
    [right - left] shrinks at every turn. *)
Fixpoint binarySearchLoop (s : MultiIndex) (node key : list Z)
    (fuel : nat) (left right : Z) : Z :=
  match fuel with
  | O => left
  | S fuel' =>
      if left <? right then
        let mid := left + (right - left) / 2 in
        let cmp := compare s key (getNodeKey s node mid) in
        if cmp <=? 0 then binarySearchLoop s node key fuel' left mid
        else binarySearchLoop s node key fuel' (mid + 1) right
      else left
  end.

Definition binarySearchNode (s : MultiIndex) (node key : list Z)
    (numItems : Z) : Z * bool :=
  if numItems =? 0 then (1, false)
  else
    let left := binarySearchLoop s node key (Z.to_nat numItems) 1 numItems in
    let finalCmp := compare s key (getNodeKey s node left) in
    (left, finalCmp =? 0).

(* ================================================================= *)
(** ** Navigation stack *)

Definition IndexStack : Type := list (Z * Z).

Definition push (stack : IndexStack) (nodePos childNo : Z) : IndexStack :=
  (nodePos, childNo) :: stack.

(* ================================================================= *)
(** ** Position management *)

Definition resetPosition : M unit :=
  modify (updPos (fun _ =>
    mkPositionInfo 0 INVALID_POSITION INVALID_POSITION INVALID_POSITION
      INVALID_POSITION)).

(** [state |= flag] and [state &= ~flag] on the 16-bit state word. *)
Definition setFlag (flag : Z) (p : PositionInfo) : PositionInfo :=
  mkPositionInfo (Z.lor (state p) flag) (currentLeave p) (nextLeave p)
    (prevLeave p) (currentDataPos p).
Definition resetFlag (flag : Z) (p : PositionInfo) : PositionInfo :=
  mkPositionInfo (Z.land (state p) (65535 - flag)) (currentLeave p)
    (nextLeave p) (prevLeave p) (currentDataPos p).

Definition setEOF : M unit := modify (updPos (setFlag END_OF_FILE)).
Definition resetEOF : M unit := modify (updPos (resetFlag END_OF_FILE)).
Definition setBOF : M unit := modify (updPos (setFlag BEGIN_OF_FILE)).
Definition resetBOF : M unit := modify (updPos (resetFlag BEGIN_OF_FILE)).

Definition setPosition (currentLeave' nextLeave' prevLeave' dataPos : Z) : M unit :=
  modify (updPos (fun p =>
    mkPositionInfo (state p) currentLeave' nextLeave' prevLeave' dataPos)) ;;;
  firstL <- gets getFirstLeave ;;
  (if (prevLeave' =? INVALID_POSITION) || (currentLeave' =? firstL)
   then setBOF else resetBOF) ;;;
  lastL <- gets getLastLeave ;;
  (if (nextLeave' =? INVALID_POSITION) || (nextLeave' =? lastL)
   then setEOF else resetEOF).

Definition setPositionFromLeave (leavePos : Z) (leave : list Z) : M unit :=
  setPosition leavePos (getNextLeave leave) (getPrevLeave leave)
    (getDataPos leave).

Definition isEOFInternal (s : MultiIndex) : bool :=
  if hasError s then true
  else negb (Z.land (state (curPos s)) END_OF_FILE =? 0).

Definition isBOFInternal (s : MultiIndex) : bool :=
  if hasError s then true
  else negb (Z.land (state (curPos s)) BEGIN_OF_FILE =? 0).

(* ================================================================= *)
(** ** Header and descriptor persistence *)

Definition MultiIndexHeader_bytes (s : MultiIndex) : list Z :=
  u8 (m_header_checksum s) :: encodeLE 2 (m_header_numIndexes s).

Definition setHeaderChecksum : M unit :=
  modify (set_header_checksum 0) ;;;
  modify (fun s =>
    set_header_checksum
      (calculateBlockChecksum (MultiIndexHeader_bytes s) sizeof_MultiIndexHeader) s).

Definition writeHeader : M unit :=
  setHeaderChecksum ;;;
  hdr <- gets MultiIndexHeader_bytes ;;
  File_write hdr sizeof_MultiIndexHeader 0.

Definition setInfoChecksumOf (i : IndexInfo) : IndexInfo :=
  let i0 := with_checksum 0 i in
  with_checksum (calculateBlockChecksum (IndexInfo_bytes i0) sizeof_IndexInfo) i0.

Definition getIndexInfoPos (s : MultiIndex) : Z :=
  sizeof_MultiIndexHeader + m_currentIndex s * sizeof_IndexInfo.

Definition writeInfo : M unit :=
  modify (updInfo setInfoChecksumOf) ;;;
  bytes <- gets (fun s => IndexInfo_bytes (curInfo s)) ;;
  pos <- gets getIndexInfoPos ;;
  File_write bytes sizeof_IndexInfo pos.

Definition writeAllInfo : M unit :=
  modify (fun s => set_indexInfo (map setInfoChecksumOf (m_indexInfo s)) s) ;;;
  bytes <- gets (fun s => flat_map IndexInfo_bytes (m_indexInfo s)) ;;
  n <- gets m_header_numIndexes ;;
  File_write bytes (sizeof_IndexInfo * n) sizeof_MultiIndexHeader.

(* ================================================================= *)
(** ** Free lists and bulk pre-allocation *)

(** The [for (counter = 1; counter < numNodes; ++counter)] loop of
    [createNodes]; [n] is the number of turns left. *)
Fixpoint createNodesLoop (n : nat) (fileSize : Z) (tempNode : list Z)
    : M (list Z) :=
  match n with
  | O => ret tempNode
  | S n' =>
      sz <- gets getNodeSize ;;
      let fileSize' := fileSize + sz in
      tempNode' <- writeNode (setNextNode tempNode fileSize') INVALID_POSITION ;;
      createNodesLoop n' fileSize' tempNode'
  end.

Definition createNodes (numNodes : Z) : M unit :=
  if numNodes <=? 0 then ret tt
  else
    fileSize <- File_size ;;
    let firstCreatedNodePos := fileSize in
    tempNode <- gets (fun s => resetNode (allocateNodeBlock s)) ;;
    File_seek fileSize ;;;
    tempNode1 <- createNodesLoop (Z.to_nat (numNodes - 1)) fileSize tempNode ;;
    free <- gets getFreeNode ;;
    writeNode (setNextNode tempNode1 free) INVALID_POSITION ;;;
    setFreeNode firstCreatedNodePos.

Fixpoint createLeavesLoop (n : nat) (fileSize : Z) (tempLeave : list Z)
    : M (list Z) :=
  match n with
  | O => ret tempLeave
  | S n' =>
      sz <- gets getLeaveSize ;;
      let fileSize' := fileSize + sz in
      tempLeave' <- writeLeave (setNextLeave tempLeave fileSize') INVALID_POSITION ;;
      createLeavesLoop n' fileSize' tempLeave'
  end.

Definition createLeaves (numLeaves : Z) : M unit :=
  if numLeaves <=? 0 then ret tt
  else
    fileSize <- File_size ;;
    let firstCreatedLeavePos := fileSize in
    tempLeave <- gets (fun s => resetLeave (allocateLeaveBlock s)) ;;
    File_seek fileSize ;;;
    tempLeave1 <- createLeavesLoop (Z.to_nat (numLeaves - 1)) fileSize tempLeave ;;
    free <- gets getFreeLeave ;;
    writeLeave (setNextLeave tempLeave1 free) INVALID_POSITION ;;;
    setFreeLeave firstCreatedLeavePos.

Definition allocateNode : M Z :=
  nodePos0 <- gets getFreeNode ;;
  nodePos <-
    (if nodePos0 =? INVALID_POSITION then
       n <- gets getFreeCreateNodes ;;
       createNodes n ;;;
       gets getFreeNode
     else ret nodePos0) ;;
  tempNode <- gets allocateNodeBlock ;;
  tempNode' <- readNode tempNode nodePos ;;
  setFreeNode (getNextNode tempNode') ;;;
  ret nodePos.

Definition allocateLeave : M Z :=
  leavePos0 <- gets getFreeLeave ;;
  leavePos <-
    (if leavePos0 =? INVALID_POSITION then
       n <- gets getFreeCreateLeaves ;;
       createLeaves n ;;;
       gets getFreeLeave
     else ret leavePos0) ;;
  tempLeave <- gets allocateLeaveBlock ;;
  tempLeave' <- readLeave tempLeave leavePos ;;
  setFreeLeave (getNextLeave tempLeave') ;;;
  ret leavePos.

Definition freeNodeAt (nodePos : Z) : M unit :=
  tempNode <- gets (fun s => resetNode (allocateNodeBlock s)) ;;
  free <- gets getFreeNode ;;
  writeNode (setNextNode tempNode free) nodePos ;;;
  setFreeNode nodePos.

Definition freeLeaveAt (leavePos : Z) : M unit :=
  tempLeave <- gets (fun s => resetLeave (allocateLeaveBlock s)) ;;
  free <- gets getFreeLeave ;;
  writeLeave (setNextLeave tempLeave free) leavePos ;;;
  setFreeLeave leavePos.

(** [writeNewNode] and [writeNewLeave] give the position; the checksummed
    buffer is not used again by their callers. *)
Definition writeNewNode (node : list Z) : M Z :=
  nodePos <- allocateNode ;;
  writeNode node nodePos ;;;
  ret nodePos.

Definition writeNewLeave (leave : list Z) : M Z :=
  leavePos <- allocateLeave ;;
  writeLeave leave leavePos ;;;
  ret leavePos.

Definition createFirstNode : M unit :=
  node <- gets allocateNodeBlock ;;
  leave <- gets allocateLeaveBlock ;;
  eofKey <- gets fillEOFKey ;;
  let leave1 := poke leave sizeof_LeafHeader eofKey in
  let leave2 := setNextLeave leave1 INVALID_POSITION in
  let leave3 := setPrevLeave leave2 INVALID_POSITION in
  let leave4 := setDataPos leave3 INVALID_POSITION in
  leavePos <- writeNewLeave leave4 ;;
  setFirstLeave leavePos ;;;
  setLastLeave leavePos ;;;
  let node1 := setNumItems (resetNode node) 1 in
  off <- gets (fun s => nodeKeyOff s 1) ;;
  eofKey' <- gets fillEOFKey ;;
  let node2 := poke node1 off eofKey' in
  node3 <- gets (fun s => setChildPos s node2 1 leavePos) ;;
  nodePos <- writeNewNode node3 ;;
  setRootNode nodePos.

(* ================================================================= *)
(** ** Construction and index configuration *)

Definition initialIndexInfo : IndexInfo :=
  mkIndexInfo 0 0 VOID 0 0 0 0 INVALID_POSITION INVALID_POSITION 0
    INVALID_POSITION INVALID_POSITION INVALID_POSITION.

Definition initialPositionInfo : PositionInfo :=
  mkPositionInfo 0 INVALID_POSITION INVALID_POSITION INVALID_POSITION
    INVALID_POSITION.

(** [MultiIndex::MultiIndex(filename, numIndexes)] on a new, empty file. *)
Definition MultiIndex_new (numIndexes : Z) : Result unit * MultiIndex :=
  (writeHeader ;;; writeAllInfo)
    (mkMultiIndex [] 0 OK 0 numIndexes
       (repeat initialIndexInfo (Z.to_nat numIndexes))
       (repeat initialPositionInfo (Z.to_nat numIndexes)) 0).

Definition initIndex (keyType' : KeyType) (keySize' : Z) (attributes' : Z)
    (numItems : Z) (freeCreateNodes' freeCreateLeaves' : Z) : M unit :=
  err <- gets hasError ;;
  if err : bool then ret tt
  else
    modify (updInfo (fun i =>
      mkIndexInfo (checksum i) attributes' keyType' keySize' numItems
        freeCreateNodes' freeCreateLeaves' INVALID_POSITION INVALID_POSITION
        0 INVALID_POSITION (firstLeave i) (lastLeave i))) ;;;
    writeInfo ;;;
    createNodes freeCreateNodes' ;;;
    createLeaves freeCreateLeaves' ;;;
    createFirstNode ;;;
    setNumLevels 1.

Definition setActiveIndex (indexNo : Z) : M unit :=
  err <- gets hasError ;;
  if err : bool then ret tt
  else
    n <- gets m_header_numIndexes ;;
    if (indexNo >? 0) && (indexNo <=? n)
    then modify (set_currentIndex (indexNo - 1))
    else modify (set_currentIndex 0).

Definition getActiveIndex (s : MultiIndex) : Z := u16 (m_currentIndex s + 1).

(* ================================================================= *)
(** ** Navigation *)

(** [bringLeave(leavePos, key)]: the data position, and the key bytes that
    the source copies to [key] when it is not [nullptr]. *)
Definition bringLeave (leavePos : Z) : M (Z * list Z) :=
  if leavePos =? INVALID_POSITION then ret (INVALID_POSITION, [])
  else
    leave <- gets allocateLeaveBlock ;;
    leave' <- readLeave leave leavePos ;;
    setPositionFromLeave leavePos leave' ;;;
    n <- gets getKeySize ;;
    dataPos <- gets (fun s => currentDataPos (curPos s)) ;;
    ret (dataPos, peek (getLeaveKey leave') 0 (Z.to_nat n)).

Definition getFirst : M (Z * list Z) :=
  err <- gets hasError ;;
  if err : bool then ret (INVALID_POSITION, [])
  else
    firstL <- gets getFirstLeave ;;
    lastL <- gets getLastLeave ;;
    if negb (firstL =? lastL) then bringLeave firstL
    else ret (INVALID_POSITION, []).

Definition getNext : M (Z * list Z) :=
  err <- gets hasError ;;
  if err : bool then ret (INVALID_POSITION, [])
  else
    eof <- gets isEOFInternal ;;
    next <- gets (fun s => nextLeave (curPos s)) ;;
    if negb eof && negb (next =? INVALID_POSITION) then bringLeave next
    else ret (INVALID_POSITION, []).

Definition getPrev : M (Z * list Z) :=
  err <- gets hasError ;;
  if err : bool then ret (INVALID_POSITION, [])
  else
    bof <- gets isBOFInternal ;;
    prev <- gets (fun s => prevLeave (curPos s)) ;;
    if negb bof && negb (prev =? INVALID_POSITION) then bringLeave prev
    else ret (INVALID_POSITION, []).

Definition getCurrent : M (Z * list Z) :=
  err <- gets hasError ;;
  if err : bool then ret (INVALID_POSITION, [])
  else
    cur <- gets (fun s => currentLeave (curPos s)) ;;
    bringLeave cur.

(* ================================================================= *)
(** ** Search *)

(** The [while (levelNo > 1 && nodePos != INVALID_POSITION)] loop of
    [findLeave] and [modifyLeave]; [n] is [levelNo - 1].  The result is
    the node buffer and [nodePos] at the exit. *)
Fixpoint descendLoop (n : nat) (key node : list Z) (nodePos : Z)
    : M (list Z * Z) :=
  match n with
  | O => ret (node, nodePos)
  | S n' =>
      if nodePos =? INVALID_POSITION then ret (node, nodePos)
      else
        node' <- readNode node nodePos ;;
        let numItems := getNumItems node' in
        '(keyNo, exactMatch) <-
           gets (fun s => binarySearchNode s node' key numItems) ;;
        if keyNo <=? numItems then
          child <- gets (fun s => getChildPos s node' keyNo) ;;
          descendLoop n' key node' child
        else
          (* the source keeps [levelNo] and leaves by [nodePos] *)
          ret (node', INVALID_POSITION)
  end.

(** [findLeave(key, leavePos)]: the result, and what the call assigns to
    the out-parameter [leavePos].  Where the descent has ended at
    [INVALID_POSITION] the source returns [false] without assigning
    [leavePos], which keeps the value the caller's variable had: that is
    [None] here. *)
Definition findLeave (key : list Z) : M (bool * option Z) :=
  levelNo <- gets getNumLevels ;;
  if levelNo <? 1 then ret (false, Some INVALID_POSITION)
  else
    node <- gets allocateNodeBlock ;;
    root <- gets getRootNode ;;
    '(node1, nodePos) <- descendLoop (Z.to_nat (levelNo - 1)) key node root ;;
    if negb (nodePos =? INVALID_POSITION) then
      node2 <- readNode node1 nodePos ;;
      let numItems := getNumItems node2 in
      '(keyNo, exactMatch) <-
         gets (fun s => binarySearchNode s node2 key numItems) ;;
      if keyNo <=? numItems then
        leavePos <- gets (fun s => getChildPos s node2 keyNo) ;;
        ret (exactMatch, Some leavePos)
      else ret (false, Some INVALID_POSITION)
    else ret (false, None).

(** [find(key)].  The local [int64_t leavePos;] has no initialiser:
    [leavePos0] is the value it holds, which the source tests after a
    [findLeave] that has not assigned it. *)
Definition find (leavePos0 : Z) (key : list Z) : M Z :=
  err <- gets hasError ;;
  if err : bool then ret INVALID_POSITION
  else
    '(found, assigned) <- findLeave key ;;
    let leavePos :=
      match assigned with
      | Some pos => pos
      | None => leavePos0
      end in
    if found : bool then
      '(dataPos, _) <- bringLeave leavePos ;;
      ret dataPos
    else if negb (leavePos =? INVALID_POSITION) then
      bringLeave leavePos ;;;
      ret INVALID_POSITION
    else ret INVALID_POSITION.

(** The [while (nodePos != INVALID_POSITION)] loop of [findPath].  The
    result is [(remainLevels, stack, lastLevelChild)] at the exit. *)
Fixpoint findPathLoop (fuel : nat) (key node : list Z) (nodePos : Z)
    (remainLevels : Z) (notFirstLevel : bool) (stack : IndexStack)
    (lastLevelChild : Z) : M (Z * IndexStack * Z) :=
  if nodePos =? INVALID_POSITION then ret (remainLevels, stack, lastLevelChild)
  else
    match fuel with
    | O => outOfFuel
    | S fuel' =>
        node' <- readNode node nodePos ;;
        let numItems := getNumItems node' in
        if notFirstLevel || (numItems >? 1) then
          '(keyNo, exactMatch) <-
             gets (fun s => binarySearchNode s node' key numItems) ;;
          if keyNo <=? numItems then
            let remainLevels' := u16 (remainLevels - 1) in
            child <- gets (fun s => getChildPos s node' keyNo) ;;
            if remainLevels' =? 0 then
              findPathLoop fuel' key node' INVALID_POSITION remainLevels' true
                (push stack nodePos (if exactMatch : bool then keyNo else 0))
                child
            else
              findPathLoop fuel' key node' child remainLevels' true
                (push stack nodePos keyNo) lastLevelChild
          else
            findPathLoop fuel' key node' INVALID_POSITION remainLevels true
              [] INVALID_POSITION
        else
          levels <- gets getNumLevels ;;
          if levels >? 1 then
            freeNodeAt nodePos ;;;
            child <- gets (fun s => getChildPos s node' 1) ;;
            setRootNode child ;;;
            decNumLevels ;;;
            findPathLoop fuel' key node' child (u16 (remainLevels - 1))
              notFirstLevel stack lastLevelChild
          else
            child <- gets (fun s => getChildPos s node' 1) ;;
            findPathLoop fuel' key node' INVALID_POSITION
              (u16 (remainLevels - 1)) notFirstLevel
              (push stack nodePos 0) child
    end.

(** Every turn of the loop lowers [remainLevels] (a [uint16_t]) or ends
    the loop, and the loop ends when it reaches 0. *)
Definition findPathFuel : nat := Z.to_nat 65537.

(** [findPath(key, stack, lastLevelChild)]: the result and the two
    out-parameters. *)
Definition findPath (key : list Z) : M (bool * IndexStack * Z) :=
  nodePos <- gets getRootNode ;;
  if nodePos =? INVALID_POSITION then ret (false, [], INVALID_POSITION)
  else
    remainLevels <- gets getNumLevels ;;
    node <- gets allocateNodeBlock ;;
    '(remainLevels', stack, lastLevelChild) <-
       findPathLoop findPathFuel key node nodePos remainLevels false []
         INVALID_POSITION ;;
    ret ((remainLevels' =? 0) && negb (match stack with [] => true | _ => false end),
         stack, lastLevelChild).

(* ================================================================= *)
(** ** Insertion into a node *)

(** The balancing loop [while (toMove > 0)] shared by the two branches of
    [insertKey]: the last item of [node] moves to the front of [dst]. *)
Fixpoint balanceLoop (s : MultiIndex) (toMove : nat) (node dst : list Z)
    : list Z * list Z :=
  match toMove with
  | O => (node, dst)
  | S toMove' =>
      let srcNum := getNumItems node in
      let dst' := insertItem s dst 1 (getNodeKey s node srcNum)
                    (getChildPos s node srcNum) in
      let node' := deleteItem s node srcNum in
      balanceLoop s toMove' node' dst'
  end.

(** The key block filled by [allocateKeyBlock] and [memcpy]. *)
Definition copyKey (s : MultiIndex) (key : list Z) : list Z :=
  memcpy (allocateKeyBlock s) 0 key (getKeySize s).

(** [insertKey]: the state (1, 2 or 3) and the out-parameters
    [parentKey], [additionalKey], [additionalChildPos].  A null
    [changedKeyVal] is [None]. *)
Definition insertKey (nodePos : Z) (newKey : list Z) (newChildPos : Z)
    (changedKeyNo : Z) (changedKeyVal : option (list Z))
    : M (Z * list Z * list Z * Z) :=
  node0 <- gets allocateNodeBlock ;;
  node1 <- readNode node0 nodePos ;;
  node <- gets (fun s =>
            match changedKeyVal with
            | Some v => if negb (changedKeyNo =? 0)
                        then setNodeKey s node1 changedKeyNo v else node1
            | None => node1
            end) ;;
  let numItems := getNumItems node in
  '(keyNo, exactMatch) <- gets (fun s => binarySearchNode s node newKey numItems) ;;
  if exactMatch : bool then
    nodeW <- gets (fun s => setChildPos s node keyNo newChildPos) ;;
    writeNode nodeW nodePos ;;;
    ret (1, [], [], INVALID_POSITION)
  else
    maxI <- gets getMaxItems ;;
    if numItems <? maxI then
      nodeW <- gets (fun s => insertItem s node keyNo newKey newChildPos) ;;
      writeNode nodeW nodePos ;;;
      if keyNo <=? numItems then ret (1, [], [], INVALID_POSITION)
      else
        parentKey <- gets (fun s => copyKey s newKey) ;;
        ret (2, parentKey, [], INVALID_POSITION)
    else
      let nextNodePos := getNextNode node in
      (* redistribution to the next node, when it exists and has room *)
      redistributed <-
        (if negb (nextNodePos =? INVALID_POSITION) then
           nextNode0 <- gets allocateNodeBlock ;;
           nextNode <- readNode nextNode0 nextNodePos ;;
           let nextNumItems := getNumItems nextNode in
           if nextNumItems <? maxI then
             '(nodeA, nextA) <- gets (fun s =>
                if keyNo <=? numItems then
                  let nx := insertItem s nextNode 1 (getNodeKey s node numItems)
                              (getChildPos s node numItems) in
                  let nd := deleteItem s node numItems in
                  (insertItem s nd keyNo newKey newChildPos, nx)
                else
                  (node, insertItem s nextNode 1 newKey newChildPos)) ;;
             '(nodeB, nextB) <- gets (fun s =>
                if canDelete s then
                  let toMove :=
                    u16 (Z.quot (getNumItems nodeA - getNumItems nextA) 2) in
                  balanceLoop s (Z.to_nat toMove) nodeA nextA
                else (nodeA, nextA)) ;;
             parentKey <- gets (fun s =>
                copyKey s (getNodeKey s nodeB (getNumItems nodeB))) ;;
             writeNode nodeB nodePos ;;;
             writeNode nextB nextNodePos ;;;
             ret (Some parentKey)
           else ret None
         else ret None) ;;
      match redistributed with
      | Some parentKey => ret (2, parentKey, [], INVALID_POSITION)
      | None =>
          (* create a new node *)
          newNode0 <- gets (fun s => resetNode (allocateNodeBlock s)) ;;
          '(nodeA, newA) <- gets (fun s =>
             if keyNo <=? numItems then
               let nw := insertItem s newNode0 1 (getNodeKey s node numItems)
                           (getChildPos s node numItems) in
               let nd := deleteItem s node numItems in
               (nd, insertItem s nw keyNo newKey newChildPos)
             else
               (node, insertItem s newNode0 1 newKey newChildPos)) ;;
          '(nodeB, newB) <- gets (fun s =>
             if canDelete s then
               let toMove := u16 (Z.quot (getNumItems nodeA - 1) 2) in
               balanceLoop s (Z.to_nat toMove) nodeA newA
             else (nodeA, newA)) ;;
          let newC := setPrevNode (setNextNode newB nextNodePos) nodePos in
          newNodePos <- writeNewNode newC ;;
          let nodeC := setNextNode nodeB newNodePos in
          (if negb (nextNodePos =? INVALID_POSITION) then
             nextNode0 <- gets allocateNodeBlock ;;
             nextNode <- readNode nextNode0 nextNodePos ;;
             writeNode (setPrevNode nextNode newNodePos) nextNodePos ;;;
             ret tt
           else ret tt) ;;;
          nodeD <- writeNode nodeC nodePos ;;
          parentKey <- gets (fun s =>
             copyKey s (getNodeKey s nodeD (getNumItems nodeD))) ;;
          additionalKey <- gets (fun s =>
             copyKey s (getNodeKey s newC (getNumItems newC))) ;;
          ret (3, parentKey, additionalKey, newNodePos)
      end.

(* ================================================================= *)
(** ** Append *)

(** The [do ... while (changedKeyNo == getNumItems(node) && !stack.empty())]
    loop that rewrites routing keys on the way up; entered with a
    non-empty stack.  Shared by [append] and [deleteKeyFromNodes]. *)
Fixpoint updateParents (stack : IndexStack) (parentKey node : list Z) : M unit :=
  match stack with
  | [] => ret tt
  | (nodePos, changedKeyNo) :: rest =>
      node1 <- readNode node nodePos ;;
      node2 <- gets (fun s => setNodeKey s node1 changedKeyNo parentKey) ;;
      node3 <- writeNode node2 nodePos ;;
      if changedKeyNo =? getNumItems node3 then updateParents rest parentKey node3
      else ret tt
  end.

(** The [while (nodePos != INVALID_POSITION)] loop of [append]; it turns
    again only after a split, with the parent popped from the stack. *)
Fixpoint appendLoop (stack : IndexStack) (node : list Z) (nodePos : Z)
    (newKeyBlock : list Z) (newChildPos : Z) (changedKeyNo : Z)
    (changedKeyVal : list Z) : M bool :=
  if nodePos =? INVALID_POSITION then ret true
  else
    '(st, parentKey, additionalKey, additionalChildPos) <-
       insertKey nodePos newKeyBlock newChildPos changedKeyNo
         (match changedKeyVal with [] => None | _ => Some changedKeyVal end) ;;
    if st =? 1 then ret true
    else if st =? 2 then
      updateParents stack parentKey node ;;;
      ret true
    else if st =? 3 then
      match stack with
      | (nodePos', changedKeyNo') :: rest =>
          appendLoop rest node nodePos' additionalKey additionalChildPos
            changedKeyNo' parentKey
      | [] =>
          node1 <- gets (fun s =>
            let n1 := setNumItems (resetNode node) 2 in
            let n2 := setNodeKey s n1 1 parentKey in
            let n3 := setChildPos s n2 1 nodePos in
            let n4 := setNodeKey s n3 2 additionalKey in
            setChildPos s n4 2 additionalChildPos) ;;
          newRoot <- writeNewNode node1 ;;
          setRootNode newRoot ;;;
          incNumLevels ;;;
          ret true
      end
    else ret false.

Definition append (newKey : list Z) (newDataPos : Z) : M bool :=
  err <- gets hasError ;;
  if err : bool then ret false
  else
    '(found, stack, nextLeavePos) <- findPath newKey ;;
    if negb found then ret false
    else
      node <- gets allocateNodeBlock ;;
      newLeave <- gets allocateLeaveBlock ;;
      tempLeave <- gets allocateLeaveBlock ;;
      leavePos <- allocateLeave ;;
      let newLeave1 := setNextLeave newLeave nextLeavePos in
      tempLeave1 <- readLeave tempLeave nextLeavePos ;;
      let prevLeavePos := getPrevLeave tempLeave1 in
      let newLeave2 := setPrevLeave newLeave1 prevLeavePos in
      tempLeave2 <- writeLeave (setPrevLeave tempLeave1 leavePos) nextLeavePos ;;
      tempLeave3 <-
        (if negb (prevLeavePos =? INVALID_POSITION) then
           t <- readLeave tempLeave2 prevLeavePos ;;
           writeLeave (setNextLeave t leavePos) prevLeavePos
         else
           setFirstLeave leavePos ;;;
           ret tempLeave2) ;;
      newLeave3 <- gets (fun s => setLeaveKey s newLeave2 newKey) ;;
      newLeave4 <- writeLeave (setDataPos newLeave3 newDataPos) leavePos ;;
      setPositionFromLeave leavePos newLeave4 ;;;
      (* stack.pop(nodePos, keyNo); findPath left the stack non-empty *)
      let '(nodePos, keyNo, stack') :=
        match stack with
        | (p, k) :: rest => (p, k, rest)
        | [] => (INVALID_POSITION, 0, [])
        end in
      if keyNo >? 0 then
        isUniqueIdx <- gets (fun s =>
          negb (Z.lor (attributes (curInfo s)) ATTR_UNIQUE =? 0)) ;;
        if isUniqueIdx : bool then
          t1 <- readLeave tempLeave3 nextLeavePos ;;
          t2 <- writeLeave (setPrevLeave t1 prevLeavePos) nextLeavePos ;;
          (if negb (prevLeavePos =? INVALID_POSITION) then
             t3 <- readLeave t2 prevLeavePos ;;
             writeLeave (setNextLeave t3 nextLeavePos) prevLeavePos ;;;
             ret tt
           else setFirstLeave nextLeavePos) ;;;
          freeLeaveAt leavePos ;;;
          ret false
        else
          node1 <- readNode node nodePos ;;
          node2 <- gets (fun s => setChildPos s node1 keyNo leavePos) ;;
          writeNode node2 nodePos ;;;
          ret true
      else if nodePos =? INVALID_POSITION then ret true
      else
        newKeyBlock <- gets (fun s => copyKey s newKey) ;;
        appendLoop stack' node nodePos newKeyBlock leavePos 0 [].

(* ================================================================= *)
(** ** Delete *)

Definition modifyLeave (key : list Z) (newLeavePos : Z) : M Z :=
  levelNo <- gets getNumLevels ;;
  if levelNo <? 1 then ret INVALID_POSITION
  else
    node <- gets allocateNodeBlock ;;
    root <- gets getRootNode ;;
    '(node1, nodePos) <- descendLoop (Z.to_nat (levelNo - 1)) key node root ;;
    if negb (nodePos =? INVALID_POSITION) then
      node2 <- readNode node1 nodePos ;;
      let numItems := getNumItems node2 in
      '(keyNo, exactMatch) <-
         gets (fun s => binarySearchNode s node2 key numItems) ;;
      if (keyNo <=? numItems) && exactMatch then
        result <- gets (fun s => getChildPos s node2 keyNo) ;;
        node3 <- gets (fun s => setChildPos s node2 keyNo newLeavePos) ;;
        writeNode node3 nodePos ;;;
        ret result
      else ret INVALID_POSITION
    else ret INVALID_POSITION.

(** The merge loop [for (i = 1; i <= numItems; ++i)] of [removeKey];
    [n] counts the turns left and [i] is the source's [i]. *)
Fixpoint mergeLoop (s : MultiIndex) (n : nat) (i : Z) (node nextNode : list Z)
    : list Z :=
  match n with
  | O => nextNode
  | S n' =>
      mergeLoop s n' (i + 1) node
        (insertItem s nextNode i (getNodeKey s node i) (getChildPos s node i))
  end.

(** The borrow loop [while (toMove > 0)] of [removeKey]. *)
Fixpoint borrowLoop (s : MultiIndex) (toMove : nat) (numItems : Z)
    (node nextNode : list Z) : list Z * list Z :=
  match toMove with
  | O => (node, nextNode)
  | S toMove' =>
      let numItems' := u16 (numItems + 1) in
      let node' := insertItem s node numItems' (getNodeKey s nextNode 1)
                     (getChildPos s nextNode 1) in
      let nextNode' := deleteItem s nextNode 1 in
      borrowLoop s toMove' numItems' node' nextNode'
  end.

(** [removeKey]: the state (1, 2 or 3) and the out-parameter [parentKey]. *)
Definition removeKey (nodePos : Z) (removeKeyNo : Z) : M (Z * list Z) :=
  node0 <- gets allocateNodeBlock ;;
  node1 <- readNode node0 nodePos ;;
  let numItems0 := getNumItems node1 in
  if (removeKeyNo >? numItems0) || (removeKeyNo <? 1) then ret (1, [])
  else
    node2 <- gets (fun s => deleteItem s node1 removeKeyNo) ;;
    let lastChanged0 := removeKeyNo =? numItems0 in
    let numItems := u16 (numItems0 - 1) in
    '(resultState, lastChanged, node) <-
      (if negb (numItems =? 0) then
         let nextNodePos := getNextNode node2 in
         if negb (nextNodePos =? INVALID_POSITION) then
           nextNode0 <- gets allocateNodeBlock ;;
           nextNode <- readNode nextNode0 nextNodePos ;;
           let nextNumItems := getNumItems nextNode in
           maxI <- gets getMaxItems ;;
           if nextNumItems + numItems <=? maxI / 2 then
             nextNode1 <- gets (fun s =>
               mergeLoop s (Z.to_nat numItems) 1 node2 nextNode) ;;
             let prevNodePos := getPrevNode node2 in
             (if negb (prevNodePos =? INVALID_POSITION) then
                prevNode0 <- gets allocateNodeBlock ;;
                prevNode <- readNode prevNode0 prevNodePos ;;
                writeNode (setNextNode prevNode nextNodePos) prevNodePos ;;;
                ret tt
              else ret tt) ;;;
             writeNode (setPrevNode nextNode1 prevNodePos) nextNodePos ;;;
             freeNodeAt nodePos ;;;
             ret (3, lastChanged0, node2)
           else if nextNumItems >? numItems + 1 then
             let toMove := u16 (Z.quot (nextNumItems - numItems) 2) in
             '(node3, nextNode1) <- gets (fun s =>
               borrowLoop s (Z.to_nat toMove) numItems node2 nextNode) ;;
             writeNode nextNode1 nextNodePos ;;;
             node4 <- writeNode node3 nodePos ;;
             ret (1, true, node4)
           else
             node3 <- writeNode node2 nodePos ;;
             ret (1, lastChanged0, node3)
         else
           node3 <- writeNode node2 nodePos ;;
           ret (1, lastChanged0, node3)
       else
         let nextNodePos := getNextNode node2 in
         let prevNodePos := getPrevNode node2 in
         (if negb (nextNodePos =? INVALID_POSITION) then
            nextNode0 <- gets allocateNodeBlock ;;
            nextNode <- readNode nextNode0 nextNodePos ;;
            writeNode (setPrevNode nextNode prevNodePos) nextNodePos ;;;
            ret tt
          else ret tt) ;;;
         (if negb (prevNodePos =? INVALID_POSITION) then
            prevNode0 <- gets allocateNodeBlock ;;
            prevNode <- readNode prevNode0 prevNodePos ;;
            writeNode (setNextNode prevNode nextNodePos) prevNodePos ;;;
            ret tt
          else ret tt) ;;;
         freeNodeAt nodePos ;;;
         ret (3, lastChanged0, node2)) ;;
    if negb (resultState =? 3) && lastChanged then
      parentKey <- gets (fun s => copyKey s (getNodeKey s node (getNumItems node))) ;;
      ret (2, parentKey)
    else ret (resultState, []).

(** The [while (nodePos != INVALID_POSITION)] loop of
    [deleteKeyFromNodes]; it turns again only after a node was removed. *)
Fixpoint deleteKeyFromNodesLoop (stack : IndexStack) (nodePos keyNoToRemove : Z)
    (leavePos : Z) : M Z :=
  if nodePos =? INVALID_POSITION then ret leavePos
  else
    '(st, parentKey) <- removeKey nodePos keyNoToRemove ;;
    if st =? 1 then ret leavePos
    else if st =? 2 then
      node <- gets allocateNodeBlock ;;
      updateParents stack parentKey node ;;;
      ret leavePos
    else if st =? 3 then
      match stack with
      | (nodePos', keyNoToRemove') :: rest =>
          deleteKeyFromNodesLoop rest nodePos' keyNoToRemove' leavePos
      | [] => ret leavePos
      end
    else ret INVALID_POSITION.

Definition deleteKeyFromNodes (deleteKey : list Z) : M Z :=
  '(found, stack, leavePos) <- findPath deleteKey ;;
  if negb found then ret INVALID_POSITION
  else
    let '(nodePos, keyNoToRemove, stack') :=
      match stack with
      | (p, k) :: rest => (p, k, rest)
      | [] => (INVALID_POSITION, 0, [])
      end in
    if keyNoToRemove =? 0 then ret INVALID_POSITION
    else deleteKeyFromNodesLoop stack' nodePos keyNoToRemove leavePos.

(** The [do ... while (compare(getLeaveKey(tempLeave), deleteKey) == 0)]
    loop of [deleteKey]; the result is [(tempLeavePos, tempLeave)]. *)
Fixpoint deleteLeavesLoop (fuel : nat) (deleteKey : list Z) (tempLeavePos : Z)
    (tempLeave : list Z) : M (Z * list Z) :=
  match fuel with
  | O => outOfFuel
  | S fuel' =>
      freeLeaveAt tempLeavePos ;;;
      let tempLeavePos' := getNextLeave tempLeave in
      if tempLeavePos' =? INVALID_POSITION then ret (tempLeavePos', tempLeave)
      else
        tempLeave' <- readLeave tempLeave tempLeavePos' ;;
        c <- gets (fun s => compare s (getLeaveKey tempLeave') deleteKey) ;;
        if c =? 0 then deleteLeavesLoop fuel' deleteKey tempLeavePos' tempLeave'
        else ret (tempLeavePos', tempLeave')
  end.

Definition deleteKey (key : list Z) : M bool :=
  err <- gets hasError ;;
  if err : bool then ret false
  else
    leavePos <- deleteKeyFromNodes key ;;
    if leavePos =? INVALID_POSITION then ret false
    else
      firstLeave0 <- gets allocateLeaveBlock ;;
      tempLeave0 <- gets allocateLeaveBlock ;;
      tempLeave1 <- readLeave tempLeave0 leavePos ;;
      let firstLeavePos := getPrevLeave tempLeave1 in
      fuel <- gets (fun s => S (length (m_file s))) ;;
      '(tempLeavePos, tempLeave2) <- deleteLeavesLoop fuel key leavePos tempLeave1 ;;
      tempLeave3 <- writeLeave (setPrevLeave tempLeave2 firstLeavePos) tempLeavePos ;;
      firstLeave1 <-
        (if negb (firstLeavePos =? INVALID_POSITION) then
           f <- readLeave firstLeave0 firstLeavePos ;;
           writeLeave (setNextLeave f tempLeavePos) firstLeavePos
         else
           setFirstLeave tempLeavePos ;;;
           ret firstLeave0) ;;
      lastL <- gets getLastLeave ;;
      (if negb (tempLeavePos =? lastL) then
         setPositionFromLeave tempLeavePos tempLeave3
       else if negb (firstLeavePos =? INVALID_POSITION) then
         setPositionFromLeave firstLeavePos firstLeave1
       else resetPosition) ;;;
      ret true.

Definition deleteCurrent : M Z :=
  err <- gets hasError ;;
  if err : bool then ret INVALID_POSITION
  else
    cur <- gets (fun s => currentLeave (curPos s)) ;;
    lastL <- gets getLastLeave ;;
    if (cur =? INVALID_POSITION) || (cur =? lastL) then ret INVALID_POSITION
    else
      deletedLeave0 <- gets allocateLeaveBlock ;;
      prevLeave0 <- gets allocateLeaveBlock ;;
      nextLeave0 <- gets allocateLeaveBlock ;;
      deletedLeave <- readLeave deletedLeave0 cur ;;
      let dataPos := getDataPos deletedLeave in
      prevPos <- gets (fun s => prevLeave (curPos s)) ;;
      nextPos <- gets (fun s => nextLeave (curPos s)) ;;
      '(prevLeave1, prevEqual) <-
        (if negb (prevPos =? INVALID_POSITION) then
           p <- readLeave prevLeave0 prevPos ;;
           p' <- writeLeave (setNextLeave p nextPos) prevPos ;;
           c <- gets (fun s =>
                  compare s (getLeaveKey p') (getLeaveKey deletedLeave)) ;;
           ret (p', c =? 0)
         else
           setFirstLeave nextPos ;;;
           ret (prevLeave0, false)) ;;
      '(nextLeave1, nextEqual) <-
        (if negb (nextPos =? INVALID_POSITION) then
           n <- readLeave nextLeave0 nextPos ;;
           n' <- writeLeave (setPrevLeave n prevPos) nextPos ;;
           c <- gets (fun s =>
                  compare s (getLeaveKey n') (getLeaveKey deletedLeave)) ;;
           ret (n', c =? 0)
         else ret (nextLeave0, false)) ;;
      freeLeaveAt cur ;;;
      (if negb prevEqual then
         if nextEqual : bool then
           modifyLeave (getLeaveKey deletedLeave) nextPos ;;;
           ret tt
         else
           deleteKeyFromNodes (getLeaveKey deletedLeave) ;;;
           ret tt
       else ret tt) ;;;
      lastL' <- gets getLastLeave ;;
      (if negb (nextPos =? INVALID_POSITION) && negb (nextPos =? lastL') then
         setPositionFromLeave nextPos nextLeave1
       else if negb (prevPos =? INVALID_POSITION) then
         setPositionFromLeave prevPos prevLeave1
       else resetPosition) ;;;
      ret dataPos.

(* ================================================================= *)
(** ** Running the operations *)

(** The handle after a call, and what the call gave. *)
Definition exec {A} (m : M A) (s : MultiIndex) : MultiIndex := snd (m s).
Definition outcome {A} (m : M A) (s : MultiIndex) : Result A := fst (m s).

(** A new file with one index, initialised the way the test suite does:
    [MultiIndex index(file, 1); index.setActiveIndex(1);
     index.initIndex(keyType, keySize, attributes, numItems, nodes, leaves)]. *)
Definition newIndex (kt : KeyType) (keySize' attributes' numItems
    nodes leaves : Z) : MultiIndex :=
  exec (setActiveIndex 1 ;;; initIndex kt keySize' attributes' numItems nodes leaves)
    (snd (MultiIndex_new 1)).

(** A [STRING] index with 4-byte keys, [ALLOW_DELETE], 3 items per node,
    pre-allocating 2 nodes and 3 leaves. *)
Definition stringIndex : MultiIndex := newIndex STRING 4 ATTR_ALLOW_DELETE 3 2 3.

(** A three-character key in a 4-byte [STRING] key block. *)
Definition str3 (a b c : Z) : list Z := [a; b; c; 0].

(** The block at the root position, as [readNode] would deliver it. *)
Definition rootBlock (s : MultiIndex) : list Z :=
  peek (m_file s) (getRootNode s) (Z.to_nat (getNodeSize s)).

(** [stringIndex] after [append("001", 1); append("002", 2)]: the root
    holds "001", "002" and the sentinel key. *)
Definition twoKeys : MultiIndex :=
  exec (append (str3 48 48 50) 2) (exec (append (str3 48 48 49) 1) stringIndex).

(* ================================================================= *)
(** ** Notions used by the statements *)

(** The handle [s] with another file position and other cursors: what a
    computation that only reads may differ by. *)
Definition touch (p : Z) (q : list PositionInfo) (s : MultiIndex) : MultiIndex :=
  mkMultiIndex (m_file s) p (m_errorCode s) (m_header_checksum s)
    (m_header_numIndexes s) (m_indexInfo s) q (m_currentIndex s).

(** The file position after a computation that either left it alone or
    moved it to a fixed place. *)
Definition movePos (o : option Z) (p : Z) : Z :=
  match o with
  | None => p
  | Some p1 => p1
  end.

(** A computation is read-only when a normal return from [s] means that,
    started from [s] with any file position and any cursors, it returns
    the same value, keeps the cursors and everything else, and leaves the
    file position alone or at a place that does not depend on the start. *)
Definition readOnly {A} (c : M A) : Prop :=
  forall s a s1, c s = (Ret a, s1) ->
    exists o, forall p q, c (touch p q s) = (Ret a, touch (movePos o p) q s).

(** The cursor that [setPosition] stores, given the one it replaces. *)
Definition positioned (s : MultiIndex) (leavePos : Z) (leave : list Z)
    (old : PositionInfo) : PositionInfo :=
  let bof := (getPrevLeave leave =? INVALID_POSITION)
             || (leavePos =? getFirstLeave s) in
  let eof := (getNextLeave leave =? INVALID_POSITION)
             || (getNextLeave leave =? getLastLeave s) in
  let p0 := mkPositionInfo (state old) leavePos (getNextLeave leave)
              (getPrevLeave leave) (getDataPos leave) in
  let p1 := if bof then setFlag BEGIN_OF_FILE p0 else resetFlag BEGIN_OF_FILE p0 in
  if eof then setFlag END_OF_FILE p1 else resetFlag END_OF_FILE p1.

(** "The XOR of all bytes of the block", in the words of the
    specification: a second definition, written from those words and not
    from the loop of [calculateBlockChecksum], which the statements on
    checksums compare with the code. *)
Fixpoint xorOfBytes (block : list Z) : Z :=
  match block with
  | [] => 0
  | b :: rest => Z.lxor b (xorOfBytes rest)
  end.

(** A computation keeps the disk when, whatever its outcome, the file
    contents and the index descriptors are those it started with. *)
Definition keepsDisk {A} (c : M A) : Prop :=
  forall s, m_file (snd (c s)) = m_file s
            /\ m_indexInfo (snd (c s)) = m_indexInfo s.

(* ================================================================= *)
(** ** The structure on disk, read off the file *)

(** The node and the leaf that lie at [pos]. *)
Definition nodeAt (s : MultiIndex) (pos : Z) : list Z :=
  peek (m_file s) pos (Z.to_nat (getNodeSize s)).
Definition leafAt (s : MultiIndex) (pos : Z) : list Z :=
  peek (m_file s) pos (Z.to_nat (getLeaveSize s)).

(** The key bytes of the leaf at [pos]. *)
Definition leafKeyAt (s : MultiIndex) (pos : Z) : list Z :=
  peek (getLeaveKey (leafAt s pos)) 0 (Z.to_nat (getKeySize s)).

(** The positions met by following [nextLeave] from [pos]. *)
Fixpoint chainFrom (s : MultiIndex) (fuel : nat) (pos : Z) : list Z :=
  match fuel with
  | O => []
  | S fuel' =>
      if pos =? INVALID_POSITION then []
      else pos :: chainFrom s fuel' (getNextLeave (leafAt s pos))
  end.

(** The leaf chain: the positions from [firstLeave] on. *)
Definition leafChain (s : MultiIndex) : list Z :=
  chainFrom s (length (m_file s)) (getFirstLeave s).

(** The free-leaf list: the positions from [freeLeave] on, at most [n]. *)
Definition freeLeafList (s : MultiIndex) (n : nat) : list Z :=
  chainFrom s n (getFreeLeave s).

(** Invariant 4 and order: every leaf of the chain points back to the
    one before it, keys do not decrease, and the chain ends at the
    sentinel [lastLeave]. *)
Fixpoint chainLinked (s : MultiIndex) (prev : Z) (l : list Z) : bool :=
  match l with
  | [] => true
  | p :: t =>
      (getPrevLeave (leafAt s p) =? prev)
      && match t with
         | [] => p =? getLastLeave s
         | n :: _ => compare s (leafKeyAt s p) (leafKeyAt s n) <=? 0
         end
      && chainLinked s p t
  end.

Definition chainWellFormed (s : MultiIndex) : bool :=
  match leafChain s with
  | [] => false
  | l => chainLinked s INVALID_POSITION l
  end.

(** The keys of the leaves under the block at [pos]; [level] is the
    number of interior levels from [pos] down, 0 for a leaf. *)
Fixpoint subtreeKeys (s : MultiIndex) (level : nat) (pos : Z) : list (list Z) :=
  match level with
  | O => [leafKeyAt s pos]
  | S level' =>
      let node := nodeAt s pos in
      flat_map
        (fun i => subtreeKeys s level' (getChildPos s node (Z.of_nat i)))
        (seq 1 (Z.to_nat (getNumItems node)))
  end.

(** Routing correctness of one entry [(k, c)]: every key under [c] is
    [<= k] and one of them equals [k]. *)
Definition entryRouted (s : MultiIndex) (level' : nat) (node : list Z)
    (i : nat) : bool :=
  let k := getNodeKey s node (Z.of_nat i) in
  let keys := subtreeKeys s level' (getChildPos s node (Z.of_nat i)) in
  forallb (fun x => compare s x k <=? 0) keys
  && existsb (fun x => compare s x k =? 0) keys.

(** Routing correctness of every entry of the node at [pos] and below. *)
Fixpoint routedBelow (s : MultiIndex) (level : nat) (pos : Z) : bool :=
  match level with
  | O => true
  | S level' =>
      let node := nodeAt s pos in
      forallb
        (fun i => entryRouted s level' node i
                  && routedBelow s level' (getChildPos s node (Z.of_nat i)))
        (seq 1 (Z.to_nat (getNumItems node)))
  end.

Definition routingCorrect (s : MultiIndex) : bool :=
  routedBelow s (Z.to_nat (getNumLevels s)) (getRootNode s).

(** Entries of every node sorted non-decreasing (invariant 2). *)
Fixpoint nodesSorted (s : MultiIndex) (level : nat) (pos : Z) : bool :=
  match level with
  | O => true
  | S level' =>
      let node := nodeAt s pos in
      let n := Z.to_nat (getNumItems node) in
      forallb
        (fun i => compare s (getNodeKey s node (Z.of_nat i))
                    (getNodeKey s node (Z.of_nat i + 1)) <=? 0)
        (seq 1 (n - 1))
      && forallb
           (fun i => nodesSorted s level' (getChildPos s node (Z.of_nat i)))
           (seq 1 n)
  end.

(** The structural invariants that can be read off the file: routing,
    sorted nodes, a well-formed leaf chain, and a tree of height >= 1. *)
Definition structureOK (s : MultiIndex) : bool :=
  (1 <=? getNumLevels s)
  && routingCorrect s
  && nodesSorted s (Z.to_nat (getNumLevels s)) (getRootNode s)
  && chainWellFormed s.

(* ================================================================= *)
(** ** More scenarios *)

(** A [LONG_INT] index, [UNIQUE | ALLOW_DELETE], 5 items per node,
    pre-allocating 2 nodes and 3 leaves; and its key blocks. *)
Definition longIndex : MultiIndex :=
  newIndex LONG_INT 4 (Z.lor ATTR_UNIQUE ATTR_ALLOW_DELETE) 5 2 3.
Definition long (x : Z) : list Z := encodeLE 4 x.

(** [longIndex] after [append(1, 10)]. *)
Definition oneLong : MultiIndex := exec (append (long 1) 10) longIndex.

(** [oneLong] after a second [append(1, 20)], which is rejected. *)
Definition oneLongRejected : MultiIndex := exec (append (long 1) 20) oneLong.

(** A new file with one [LONG_INT] index, initialised as [longIndex] is
    but with both pre-allocation counts 0:
    [index.initIndex(KeyType::LONG_INT, 4, attributes, 5, 0, 0)]. *)
Definition noBulk : MultiIndex :=
  newIndex LONG_INT 4 (Z.lor ATTR_UNIQUE ATTR_ALLOW_DELETE) 5 0 0.

(** The same index pre-allocating one leaf at a time, after [append(1, 10)]. *)
Definition oneLongBulk1 : MultiIndex :=
  exec (append (long 1) 10)
    (newIndex LONG_INT 4 (Z.lor ATTR_UNIQUE ATTR_ALLOW_DELETE) 5 2 1).

(** An [INTEGER] index and a [NUM_BLOCK] index with 2-byte keys. *)
Definition integerIndex : MultiIndex := newIndex INTEGER 2 ATTR_ALLOW_DELETE 5 2 3.
Definition numBlockIndex : MultiIndex := newIndex NUM_BLOCK 2 ATTR_ALLOW_DELETE 5 2 3.

(** [stringIndex] after [append("dup", 1)]. *)
Definition oneDup : MultiIndex := exec (append (str3 100 117 112) 1) stringIndex.

(** [twoKeys] after [append("003", 3)]: the root of 3 items splits. *)
Definition threeKeys : MultiIndex := exec (append (str3 48 48 51) 3) twoKeys.

(* ================================================================= *)
(** ** Notions for the rejected [append] *)

(** [oneLong]'s index pre-allocating 4 leaves at a time, after
    [append(1, 10)] and [append(2, 20)]: the leaf of key 2 has the leaf
    of key 1 before it, and one leaf is left on the free-leaf list. *)
Definition twoLongs : MultiIndex :=
  exec (append (long 1) 10 ;;; append (long 2) 20)
    (newIndex LONG_INT 4 (Z.lor ATTR_UNIQUE ATTR_ALLOW_DELETE) 5 2 4).

(** The values a [uint8_t] of the file takes. *)
Definition isByte (b : Z) : bool := (0 <=? b) && (b <? 256).
Definition byteOK (b : Z) : Prop := 0 <= b < 256.

(** The handle [s] with the file [d] at position [p], the descriptor [X]
    for the active index and the cursors [Q]. *)
Definition stOf (s : MultiIndex) (d : list Z) (p : Z) (X : IndexInfo)
    (Q : list PositionInfo) : MultiIndex :=
  mkMultiIndex d p (m_errorCode s) (m_header_checksum s) (m_header_numIndexes s)
    (vector_set (m_indexInfo s) (Z.to_nat (m_currentIndex s)) X) Q
    (m_currentIndex s).

(** [m_currentIndex] is an index of [m_indexInfo]. *)
Definition activeIn (s : MultiIndex) : Prop :=
  (Z.to_nat (m_currentIndex s) < length (m_indexInfo s))%nat.

(** The leaf size when the descriptor is [X]. *)
Definition leaveSizeOf (X : IndexInfo) : Z := u16 (keySize X + sizeof_LeafHeader).

(** [setLeaveChecksum] and [setNodeChecksum] for a block size [n]. *)
Definition setChecksumOf (n : Z) (b : list Z) : list Z :=
  poke (poke b 0 [0]) 0 [calculateBlockChecksum (poke b 0 [0]) n].

(** A leaf block at [pos] lies inside the file. *)
Definition leafBlockIn (s : MultiIndex) (pos : Z) : Prop :=
  0 <= pos /\ pos + getLeaveSize s <= Z.of_nat (length (m_file s)).

(** The leaf block at [pos] passes [testLeaveChecksum]. *)
Definition validLeaf (s : MultiIndex) (pos : Z) : Prop :=
  leafBlockIn s pos
  /\ calculateBlockChecksum (leafAt s pos) (getLeaveSize s) = 0.

(** The leaf block at [pos] is as [createLeaves] and [freeLeave] write a
    free leaf: zeroed, its [nextLeave] link and its checksum apart. *)
Definition freeLeafBlock (s : MultiIndex) (pos : Z) : Prop :=
  leafBlockIn s pos
  /\ leafAt s pos
     = setLeaveChecksum s
         (setNextLeave (resetLeave (allocateLeaveBlock s))
            (getNextLeave (leafAt s pos))).

(** The leaf blocks at [a] and [b] do not overlap. *)
Definition apart (s : MultiIndex) (a b : Z) : Prop :=
  a + getLeaveSize s <= b \/ b + getLeaveSize s <= a.


(* ================================================================= *)
(** ** More of the source: header tests and flushing *)

(** [testHeaderChecksum] and [testInfoChecksum(indexNo)]. *)
Definition testHeaderChecksum (s : MultiIndex) : bool :=
  calculateBlockChecksum (MultiIndexHeader_bytes s) sizeof_MultiIndexHeader =? 0.

Definition testInfoChecksum (s : MultiIndex) (indexNo : Z) : bool :=
  calculateBlockChecksum
    (IndexInfo_bytes (nth (Z.to_nat indexNo) (m_indexInfo s) defaultIndexInfo))
    sizeof_IndexInfo =? 0.

(** [flushIndex] writes the header, [flushFile] the descriptors. *)
Definition flushIndex : M unit :=
  err <- gets hasError ;;
  if err : bool then ret tt else writeHeader.

Definition flushFile : M unit :=
  err <- gets hasError ;;
  if err : bool then ret tt else writeAllInfo.

(** [isEOF] and [isBOF], the public tests. *)
Definition isEOF (s : MultiIndex) : bool := isEOFInternal s.
Definition isBOF (s : MultiIndex) : bool := isBOFInternal s.

(** [IndexStack::pop] and [IndexStack::top]: [None] for the [false]
    result, which leaves the out-parameters alone. *)
Definition pop (stack : IndexStack) : option (Z * Z * IndexStack) :=
  match stack with
  | [] => None
  | (nodePos, childNo) :: rest => Some (nodePos, childNo, rest)
  end.

Definition top (stack : IndexStack) : option (Z * Z) :=
  match stack with
  | [] => None
  | item :: _ => Some item
  end.

(* ================================================================= *)
(** ** The items of a node *)

(** The key bytes of item [itemNo] of a node: the [keySize] bytes
    [getNodeKey] points to. *)
Definition itemKey (s : MultiIndex) (node : list Z) (itemNo : Z) : list Z :=
  peek (getNodeKey s node itemNo) 0 (Z.to_nat (getKeySize s)).

(* ================================================================= *)
(** ** Node blocks and the first blocks of an index *)

(** A node block at [pos] lies inside the file and passes
    [testNodeChecksum]. *)
Definition validNode (s : MultiIndex) (pos : Z) : Prop :=
  (0 <= pos /\ pos + getNodeSize s <= Z.of_nat (length (m_file s)))
  /\ calculateBlockChecksum (nodeAt s pos) (getNodeSize s) = 0.

(** The node size when the descriptor is [X]. *)
Definition nodeSizeOf (X : IndexInfo) : Z :=
  u16 (u16 (keySize X + 8) * maxItems X + sizeof_NodeHeader).

(** Two handles that agree on what the key accessors read. *)
Definition sameKeys (s t : MultiIndex) : Prop :=
  hasError t = hasError s
  /\ keyType (curInfo t) = keyType (curInfo s)
  /\ keySize (curInfo t) = keySize (curInfo s)
  /\ maxItems (curInfo t) = maxItems (curInfo s).

(** The leaf and the node that [createFirstNode] builds in its buffers
    before it writes them: the sentinel leaf with the EOF key, and the
    root whose one item is that key with the leaf at [leavePos] below. *)
Definition sentinelLeaf (s : MultiIndex) : list Z :=
  setDataPos
    (setPrevLeave
       (setNextLeave (poke (allocateLeaveBlock s) sizeof_LeafHeader (fillEOFKey s))
          INVALID_POSITION)
       INVALID_POSITION)
    INVALID_POSITION.
Definition firstRoot (s : MultiIndex) (leavePos : Z) : list Z :=
  setChildPos s
    (poke (setNumItems (resetNode (allocateNodeBlock s)) 1) (nodeKeyOff s 1)
       (fillEOFKey s))
    1 leavePos.

(* ================================================================= *)
(** ** What the operations leave alone *)

(** The fields of a descriptor that [initIndex] sets. *)
Definition configOf (i : IndexInfo) : Z * KeyType * Z * Z * Z * Z :=
  (attributes i, keyType i, keySize i, maxItems i,
   freeCreateNodes i, freeCreateLeaves i).

(** [framed s s']: from [s] to [s'] the active index, the header, the
    number of descriptors and cursors, the descriptor and the cursor of
    every index but the active one and the configuration of the active
    one are the same, and the file is not shorter. *)
Definition framed (s s' : MultiIndex) : Prop :=
  m_currentIndex s' = m_currentIndex s
  /\ m_header_numIndexes s' = m_header_numIndexes s
  /\ m_header_checksum s' = m_header_checksum s
  /\ length (m_indexInfo s') = length (m_indexInfo s)
  /\ length (m_positions s') = length (m_positions s)
  /\ (forall j, j <> Z.to_nat (m_currentIndex s) ->
        nth j (m_indexInfo s') defaultIndexInfo
        = nth j (m_indexInfo s) defaultIndexInfo
        /\ nth j (m_positions s') defaultPositionInfo
           = nth j (m_positions s) defaultPositionInfo)
  /\ configOf (curInfo s') = configOf (curInfo s)
  /\ (length (m_file s) <= length (m_file s'))%nat.

(** [behaves c]: whatever the outcome of [c], the handle after it is
    [framed] by the handle before; an exception has latched its code,
    which is not [OK], and any other outcome leaves the error code as it
    was. *)
Definition behaves {A} (c : M A) : Prop :=
  forall s,
    framed s (snd (c s))
    /\ match fst (c s) with
       | Throw e => m_errorCode (snd (c s)) = e /\ e <> OK
       | _ => m_errorCode (snd (c s)) = m_errorCode s
       end.

(** The operations of the public interface on the active index, and what
    they answer.  [Find] carries, with the key, the value that the
    uninitialised local of [find] holds. *)
Inductive Operation :=
| Append (key : list Z) (dataPos : Z)
| Find (leavePos0 : Z) (key : list Z)
| DeleteKey (key : list Z)
| DeleteCurrent
| GetFirst
| GetNext
| GetPrev
| GetCurrent.

Inductive Answer :=
| Flag (b : bool)
| Position (dataPos : Z)
| Entry (dataPos : Z) (key : list Z).

Definition runOp (op : Operation) : M Answer :=
  match op with
  | Append key dataPos => b <- append key dataPos ;; ret (Flag b)
  | Find leavePos0 key => p <- find leavePos0 key ;; ret (Position p)
  | DeleteKey key => b <- deleteKey key ;; ret (Flag b)
  | DeleteCurrent => p <- deleteCurrent ;; ret (Position p)
  | GetFirst => '(p, k) <- getFirst ;; ret (Entry p k)
  | GetNext => '(p, k) <- getNext ;; ret (Entry p k)
  | GetPrev => '(p, k) <- getPrev ;; ret (Entry p k)
  | GetCurrent => '(p, k) <- getCurrent ;; ret (Entry p k)
  end.

(** What an operation answers when it does nothing: [false], or
    [INVALID_POSITION] with no key. *)
Definition failure (op : Operation) : Answer :=
  match op with
  | Append _ _ | DeleteKey _ => Flag false
  | Find _ _ | DeleteCurrent => Position INVALID_POSITION
  | GetFirst | GetNext | GetPrev | GetCurrent => Entry INVALID_POSITION []
  end.

(** [endsKept s s']: the active index is the same and its leaf chain has
    the same two ends; [keepsEnds c]: so it is after [c], however it
    ends. *)
Definition endsKept (s s' : MultiIndex) : Prop :=
  m_currentIndex s' = m_currentIndex s
  /\ length (m_indexInfo s') = length (m_indexInfo s)
  /\ firstLeave (curInfo s') = firstLeave (curInfo s)
  /\ lastLeave (curInfo s') = lastLeave (curInfo s).

Definition keepsEnds {A} (c : M A) : Prop := forall s, endsKept s (snd (c s)).

(** [keyInBlock s key]: a comparison with [key] reads no byte past a key
    block of the index: a [STRING] key has its terminator inside the block
    (a key shorter than the block counts as terminated), and the block is
    wide enough for a native value. *)
Definition keyInBlock (s : MultiIndex) (key : list Z) : bool :=
  match getKeyType s with
  | STRING => existsb (fun c => c =? 0) (peek key 0 (Z.to_nat (getKeySize s)))
  | INTEGER => 2 <=? getKeySize s
  | LONG_INT => 4 <=? getKeySize s
  | LOGICAL | CHARACTER => 1 <=? getKeySize s
  | BLOCK | NUM_BLOCK | VOID => true
  end.

(* ================================================================= *)
(** ** A damaged file *)

(** [oneLong] with the lowest bit of one byte of its root node flipped. *)
Definition corruptedRoot : MultiIndex :=
  set_file (poke (m_file oneLong) 75 [Z.lxor (nthZ 75 (m_file oneLong)) 1]) 0
    oneLong.

(** [oneLong] with the lowest bit of one byte of the leaf of key 1 flipped:
    byte 274 is the first byte of the [dataPos] field of the leaf at 257. *)
Definition corruptedLeaf : MultiIndex :=
  set_file (poke (m_file oneLong) 274 [Z.lxor (nthZ 274 (m_file oneLong)) 1]) 0
    oneLong.

(* ================================================================= *)
(** * Properties *)

(** ** Lists of bytes *)

Lemma peek_length (buf : list Z) (off : Z) (n : nat) :
  length (peek buf off n) = n.
Proof.
  unfold peek. rewrite length_app, repeat_length.
  assert (length (firstn n (skipn (Z.to_nat off) buf)) <= n)%nat
    by apply firstn_le_length.
  lia.
Qed.

Lemma poke_length (buf : list Z) (off : Z) (bytes : list Z) :
  (Z.to_nat off <= length buf)%nat -> length (poke buf off bytes) = length buf.
Proof.
  intros H. unfold poke.
  rewrite !length_app, length_firstn, length_firstn, length_skipn. lia.
Qed.

Lemma poke_cons_0 (b : Z) (t : list Z) (x : Z) : poke (b :: t) 0 [x] = x :: t.
Proof. unfold poke. simpl. now rewrite firstn_nil. Qed.

Lemma fold_left_lxor_acc (l : list Z) (a : Z) :
  fold_left Z.lxor l a = Z.lxor a (fold_left Z.lxor l 0).
Proof.
  revert a. induction l as [|x l IH]; intros a; simpl.
  - now rewrite Z.lxor_0_r.
  - rewrite (IH (Z.lxor a x)), (IH x). now rewrite Z.lxor_assoc.
Qed.

Lemma fold_left_lxor_zeros (n : nat) (a : Z) :
  fold_left Z.lxor (repeat 0 n) a = a.
Proof.
  revert a. induction n as [|n IH]; intros a; simpl; [reflexivity|].
  now rewrite Z.lxor_0_r, IH.
Qed.

(** ** The checksum byte *)

(** Setting the checksum byte the way [setNodeChecksum] and
    [setLeaveChecksum] do makes the block XOR to zero. *)
Lemma checksum_after_set (blk : list Z) (n : Z) :
  let blk0 := poke blk 0 [0] in
  calculateBlockChecksum (poke blk0 0 [calculateBlockChecksum blk0 n]) n = 0.
Proof.
  destruct blk as [|b t]; [unfold calculateBlockChecksum; simpl;
                           now rewrite firstn_nil|].
  cbv zeta. rewrite !poke_cons_0. unfold calculateBlockChecksum.
  destruct (Z.to_nat n) as [|m]; [reflexivity|].
  simpl firstn. simpl fold_left.
  rewrite (fold_left_lxor_acc _ (fold_left Z.lxor (firstn m t) 0)).
  apply Z.lxor_nilpotent.
Qed.

Lemma checksum_set_tail (blk : list Z) (c : Z) :
  tl (poke (poke blk 0 [0]) 0 [c]) = tl blk.
Proof. destruct blk; [reflexivity|]. now rewrite !poke_cons_0. Qed.

Lemma checksum_peek (blk : list Z) (n : Z) :
  calculateBlockChecksum (peek blk 0 (Z.to_nat n)) n = calculateBlockChecksum blk n.
Proof.
  unfold calculateBlockChecksum, peek. simpl skipn.
  rewrite firstn_all2
    by (rewrite length_app, repeat_length;
        pose proof (firstn_le_length (Z.to_nat n) blk); lia).
  now rewrite fold_left_app, fold_left_lxor_zeros.
Qed.

(** What [File::write] leaves in the file at the position it wrote to. *)
Lemma File_write_on_disk (buffer : list Z) (size pos : Z) (s s' : MultiIndex) :
  File_write buffer size pos s = (Ret tt, s') ->
  let p := if pos =? INVALID_POSITION then m_filePos s else pos in
  firstn (Z.to_nat size) (skipn (Z.to_nat p) (m_file s'))
  = peek buffer 0 (Z.to_nat size).
Proof.
  unfold File_write. cbv zeta.
  set (p := if pos =? INVALID_POSITION then m_filePos s else pos).
  destruct (p <? 0); [discriminate|].
  destruct (size <=? 0) eqn:Hs.
  - intros _. apply Z.leb_le in Hs.
    replace (Z.to_nat size) with 0%nat by lia. reflexivity.
  - intros H. inversion H; subst; clear H. simpl m_file.
    rewrite app_assoc, skipn_app.
    assert (L : length (firstn (Z.to_nat p) (m_file s)
                          ++ repeat 0 (Z.to_nat p - length (m_file s)))
                = Z.to_nat p)
      by (rewrite length_app, length_firstn, repeat_length; lia).
    rewrite L, Nat.sub_diag, skipn_all2 by lia. simpl.
    rewrite firstn_app, peek_length, Nat.sub_diag, firstn_all2
      by (rewrite peek_length; lia).
    simpl. now rewrite app_nil_r.
Qed.

Lemma writeNode_inv (node : list Z) (pos : Z) (s s' : MultiIndex) (node' : list Z) :
  writeNode node pos s = (Ret node', s') ->
  node' = setNodeChecksum s node
  /\ File_write node' (getNodeSize s) pos s = (Ret tt, s').
Proof.
  unfold writeNode, bind, gets, ret.
  destruct (File_write (setNodeChecksum s node) (getNodeSize s) pos s)
    as [[[]| |] s1] eqn:E; intros H; inversion H; subst; auto.
Qed.

Lemma writeLeave_inv (leave : list Z) (pos : Z) (s s' : MultiIndex) (leave' : list Z) :
  writeLeave leave pos s = (Ret leave', s') ->
  leave' = setLeaveChecksum s leave
  /\ File_write leave' (getLeaveSize s) pos s = (Ret tt, s').
Proof.
  unfold writeLeave, bind, gets, ret.
  destruct (File_write (setLeaveChecksum s leave) (getLeaveSize s) pos s)
    as [[[]| |] s1] eqn:E; intros H; inversion H; subst; auto.
Qed.

Lemma File_read_frame (buffer : list Z) (size pos : Z) (s s1 : MultiIndex)
    (blk : list Z) :
  File_read buffer size pos s = (Ret blk, s1) ->
  s1 = set_filePos (m_filePos s1) s.
Proof.
  unfold File_read, throw.
  destruct ((if pos =? INVALID_POSITION then m_filePos s else pos) <? 0);
    intros H; inversion H; subst; reflexivity.
Qed.

Lemma readNode_spec (node : list Z) (pos : Z) (s s1 : MultiIndex) (blk : list Z) :
  File_read (resize node (getNodeSize s)) (getNodeSize s) pos s = (Ret blk, s1) ->
  readNode node pos s =
    if calculateBlockChecksum blk (getNodeSize s) =? 0
    then (Ret blk, s1) else (Throw BAD_DATA, setError BAD_DATA s1).
Proof.
  intros H. unfold readNode, bind, gets. rewrite H.
  pose proof (File_read_frame _ _ _ _ _ _ H) as F.
  unfold testNodeChecksum. rewrite F. unfold getNodeSize, getItemSize, getMaxItems, curInfo.
  simpl. destruct (_ =? 0); reflexivity.
Qed.

Lemma readLeave_spec (leave : list Z) (pos : Z) (s s1 : MultiIndex) (blk : list Z) :
  File_read (resize leave (getLeaveSize s)) (getLeaveSize s) pos s = (Ret blk, s1) ->
  readLeave leave pos s =
    if calculateBlockChecksum blk (getLeaveSize s) =? 0
    then (Ret blk, s1) else (Throw BAD_DATA, setError BAD_DATA s1).
Proof.
  intros H. unfold readLeave, bind, gets. rewrite H.
  pose proof (File_read_frame _ _ _ _ _ _ H) as F.
  unfold testLeaveChecksum. rewrite F. unfold getLeaveSize, curInfo.
  simpl. destruct (_ =? 0); reflexivity.
Qed.

(** ** C5: the checksum boundary *)

(** The loop of [calculateBlockChecksum] computes the XOR of the first
    [blockSize] bytes of the block. *)
Lemma fold_left_lxor_xorOfBytes (l : list Z) :
  fold_left Z.lxor l 0 = xorOfBytes l.
Proof.
  induction l as [|x l IH]; [reflexivity|].
  cbn [fold_left xorOfBytes]. rewrite fold_left_lxor_acc, IH.
  now rewrite Z.lxor_0_l.
Qed.

Lemma calculateBlockChecksum_xor (block : list Z) (blockSize : Z) :
  calculateBlockChecksum block blockSize
  = xorOfBytes (firstn (Z.to_nat blockSize) block).
Proof. unfold calculateBlockChecksum. apply fold_left_lxor_xorOfBytes. Qed.

Lemma xorOfBytes_whole (block : list Z) (blockSize : Z) :
  length block = Z.to_nat blockSize ->
  xorOfBytes block = calculateBlockChecksum block blockSize.
Proof.
  intros L. rewrite calculateBlockChecksum_xor, <- L. now rewrite firstn_all.
Qed.

Lemma File_read_length (buffer : list Z) (size pos : Z) (s s1 : MultiIndex)
    (blk : list Z) :
  File_read (resize buffer size) size pos s = (Ret blk, s1) ->
  length blk = Z.to_nat size.
Proof.
  unfold File_read, throw.
  destruct ((if pos =? INVALID_POSITION then m_filePos s else pos) <? 0);
    intros H; inversion H; subst.
  rewrite poke_length; unfold resize; rewrite peek_length; [reflexivity|].
  simpl. lia.
Qed.

(** C5.  [calculateBlockChecksum] is the XOR of the bytes of the block.
    A block written through [writeNode] or [writeLeave] lies in the file
    with a first byte that makes the XOR of all its bytes zero, the other
    bytes being those of the caller's block.  [readNode] and [readLeave]
    throw [BAD_DATA], latched on the handle, exactly when the XOR of all
    bytes of the block as read is not zero, and otherwise return the block
    and latch nothing. *)
Theorem block_checksum_boundary :
  (forall block blockSize,
      calculateBlockChecksum block blockSize
      = xorOfBytes (firstn (Z.to_nat blockSize) block))
  /\ (forall s blk pos blk' s',
      writeNode blk pos s = (Ret blk', s') ->
      let p := if pos =? INVALID_POSITION then m_filePos s else pos in
      let onDisk :=
        firstn (Z.to_nat (getNodeSize s)) (skipn (Z.to_nat p) (m_file s')) in
      xorOfBytes onDisk = 0
      /\ onDisk = peek blk' 0 (Z.to_nat (getNodeSize s))
      /\ tl blk' = tl blk)
  /\ (forall s blk pos blk' s',
      writeLeave blk pos s = (Ret blk', s') ->
      let p := if pos =? INVALID_POSITION then m_filePos s else pos in
      let onDisk :=
        firstn (Z.to_nat (getLeaveSize s)) (skipn (Z.to_nat p) (m_file s')) in
      xorOfBytes onDisk = 0
      /\ onDisk = peek blk' 0 (Z.to_nat (getLeaveSize s))
      /\ tl blk' = tl blk)
  /\ (forall s buf pos blk s1,
      File_read (resize buf (getNodeSize s)) (getNodeSize s) pos s = (Ret blk, s1) ->
      length blk = Z.to_nat (getNodeSize s)
      /\ (xorOfBytes blk <> 0 <->
          readNode buf pos s = (Throw BAD_DATA, setError BAD_DATA s1))
      /\ (xorOfBytes blk = 0 <-> readNode buf pos s = (Ret blk, s1))
      /\ m_errorCode s1 = m_errorCode s)
  /\ (forall s buf pos blk s1,
      File_read (resize buf (getLeaveSize s)) (getLeaveSize s) pos s = (Ret blk, s1) ->
      length blk = Z.to_nat (getLeaveSize s)
      /\ (xorOfBytes blk <> 0 <->
          readLeave buf pos s = (Throw BAD_DATA, setError BAD_DATA s1))
      /\ (xorOfBytes blk = 0 <-> readLeave buf pos s = (Ret blk, s1))
      /\ m_errorCode s1 = m_errorCode s).
Proof.
  split; [exact calculateBlockChecksum_xor|].
  split; [|split; [|split]].
  - intros s blk pos blk' s' H. cbv zeta.
    apply writeNode_inv in H as [-> W].
    rewrite (File_write_on_disk _ _ _ _ _ W).
    split; [|split; [reflexivity | apply checksum_set_tail]].
    rewrite (xorOfBytes_whole _ (getNodeSize s)) by apply peek_length.
    rewrite checksum_peek. apply checksum_after_set.
  - intros s blk pos blk' s' H. cbv zeta.
    apply writeLeave_inv in H as [-> W].
    rewrite (File_write_on_disk _ _ _ _ _ W).
    split; [|split; [reflexivity | apply checksum_set_tail]].
    rewrite (xorOfBytes_whole _ (getLeaveSize s)) by apply peek_length.
    rewrite checksum_peek. apply checksum_after_set.
  - intros s buf pos blk s1 H.
    pose proof (File_read_length _ _ _ _ _ _ H) as L.
    rewrite (xorOfBytes_whole _ _ L), (readNode_spec _ _ _ _ _ H).
    split; [exact L|]. repeat split.
    + intros N. apply Z.eqb_neq in N. now rewrite N.
    + destruct (_ =? 0) eqn:E; [discriminate | intros _; now apply Z.eqb_neq].
    + intros N. rewrite N. reflexivity.
    + destruct (_ =? 0) eqn:E; [intros _; now apply Z.eqb_eq | discriminate].
    + rewrite (File_read_frame _ _ _ _ _ _ H). reflexivity.
  - intros s buf pos blk s1 H.
    pose proof (File_read_length _ _ _ _ _ _ H) as L.
    rewrite (xorOfBytes_whole _ _ L), (readLeave_spec _ _ _ _ _ H).
    split; [exact L|]. repeat split.
    + intros N. apply Z.eqb_neq in N. now rewrite N.
    + destruct (_ =? 0) eqn:E; [discriminate | intros _; now apply Z.eqb_neq].
    + intros N. rewrite N. reflexivity.
    + destruct (_ =? 0) eqn:E; [intros _; now apply Z.eqb_eq | discriminate].
    + rewrite (File_read_frame _ _ _ _ _ _ H). reflexivity.
Qed.

(** In [oneLong] the root node lies at offset 70, the leaf of key 1 at 257,
    a free node at 149 and a free leaf at 286.  A node and a leaf with
    changed fields are written to the free blocks; the root and the leaf of
    key 1 are read back; and the same two reads fail with [BAD_DATA] once
    one bit of the block has been flipped in the file. *)
Lemma block_checksum_boundary_witness :
  xorOfBytes
    (firstn 79
       (skipn 149
          (m_file (exec (writeNode (setNextNode (rootBlock oneLong) 149) 149)
                     oneLong)))) = 0
  /\ xorOfBytes
       (firstn 29
          (skipn 286
             (m_file (exec (writeLeave (setDataPos (leafAt oneLong 257) 11) 286)
                        oneLong)))) = 0
  /\ readNode [] 70 oneLong = (Ret (rootBlock oneLong), set_filePos 149 oneLong)
  /\ readLeave [] 257 oneLong
     = (Ret (leafAt oneLong 257), set_filePos 286 oneLong)
  /\ readNode [] 70 corruptedRoot
     = (Throw BAD_DATA, setError BAD_DATA (set_filePos 149 corruptedRoot))
  /\ readLeave [] 257 corruptedLeaf
     = (Throw BAD_DATA, setError BAD_DATA (set_filePos 286 corruptedLeaf)).
Proof.
  destruct block_checksum_boundary as (_ & W1 & W2 & R1 & R2).
  split; [|split; [|split; [|split; [|split]]]].
  - refine (proj1 (W1 oneLong (setNextNode (rootBlock oneLong) 149) 149
                     (setNodeChecksum oneLong (setNextNode (rootBlock oneLong) 149))
                     (exec (writeNode (setNextNode (rootBlock oneLong) 149) 149)
                        oneLong) _)).
    vm_compute. reflexivity.
  - refine (proj1 (W2 oneLong (setDataPos (leafAt oneLong 257) 11) 286
                     (setLeaveChecksum oneLong (setDataPos (leafAt oneLong 257) 11))
                     (exec (writeLeave (setDataPos (leafAt oneLong 257) 11) 286)
                        oneLong) _)).
    vm_compute. reflexivity.
  - apply (proj1 (proj1 (proj2 (proj2 (R1 oneLong [] 70 (rootBlock oneLong)
               (set_filePos 149 oneLong) ltac:(vm_compute; reflexivity)))))).
    vm_compute. reflexivity.
  - apply (proj1 (proj1 (proj2 (proj2 (R2 oneLong [] 257 (leafAt oneLong 257)
               (set_filePos 286 oneLong) ltac:(vm_compute; reflexivity)))))).
    vm_compute. reflexivity.
  - apply (proj1 (proj1 (proj2 (R1 corruptedRoot [] 70
               (peek (m_file corruptedRoot) 70 79)
               (set_filePos 149 corruptedRoot) ltac:(vm_compute; reflexivity))))).
    vm_compute. discriminate.
  - apply (proj1 (proj1 (proj2 (R2 corruptedLeaf [] 257
               (peek (m_file corruptedLeaf) 257 29)
               (set_filePos 286 corruptedLeaf) ltac:(vm_compute; reflexivity))))).
    vm_compute. discriminate.
Defined.

(** ** C10: the active-index selector *)

Lemma setActiveIndex_no_error (s : MultiIndex) (i : Z) :
  hasError s = false ->
  setActiveIndex i s =
    (Ret tt,
     set_currentIndex
       (if (i >? 0) && (i <=? m_header_numIndexes s) then i - 1 else 0) s).
Proof.
  intros H. unfold setActiveIndex, bind, gets, modify. rewrite H.
  now destruct ((i >? 0) && (i <=? m_header_numIndexes s)).
Qed.

(** C10, as the code has it.  [indexNo] and [numIndexes] are [uint16_t].
    With no error latched, [setActiveIndex(i)] selects index [i] when
    [1 <= i <= numIndexes] and index 1 for every other argument, returns
    normally and latches nothing; [getActiveIndex()] then gives the
    selected 1-based number, which lies in [1, numIndexes] as soon as the
    file has an index at all.  With an error latched the call changes
    nothing. *)
Theorem setActiveIndex_selects (s : MultiIndex) (i : Z) :
  0 <= i < 65536 ->
  0 <= m_header_numIndexes s < 65536 ->
  (hasError s = false ->
     outcome (setActiveIndex i) s = Ret tt
     /\ hasError (exec (setActiveIndex i) s) = false
     /\ (1 <= i <= m_header_numIndexes s ->
         getActiveIndex (exec (setActiveIndex i) s) = i)
     /\ (i = 0 \/ i > m_header_numIndexes s ->
         getActiveIndex (exec (setActiveIndex i) s) = 1)
     /\ (1 <= m_header_numIndexes s ->
         1 <= getActiveIndex (exec (setActiveIndex i) s) <= m_header_numIndexes s))
  /\ (hasError s = true -> setActiveIndex i s = (Ret tt, s)).
Proof.
  intros Hi Hn. split.
  - intros E. unfold outcome, exec. rewrite (setActiveIndex_no_error s i E).
    simpl. unfold getActiveIndex, u16. simpl.
    repeat split; auto.
    + intros R.
      replace ((i >? 0) && (i <=? m_header_numIndexes s)) with true
        by (symmetry; apply andb_true_iff; split; [apply Z.gtb_lt|apply Z.leb_le]; lia).
      rewrite Z.mod_small by lia. lia.
    + intros R.
      replace ((i >? 0) && (i <=? m_header_numIndexes s)) with false; [reflexivity|].
      symmetry. apply andb_false_iff.
      destruct R; [left; subst; reflexivity | right; apply Z.leb_gt; lia].
    + destruct ((i >? 0) && (i <=? m_header_numIndexes s)) eqn:B.
      * apply andb_true_iff in B as [B1 B2].
        apply Z.gtb_lt in B1. apply Z.leb_le in B2.
        rewrite Z.mod_small by lia. lia.
      * rewrite Z.mod_small by lia. lia.
    + destruct ((i >? 0) && (i <=? m_header_numIndexes s)) eqn:B.
      * apply andb_true_iff in B as [B1 B2].
        apply Z.gtb_lt in B1. apply Z.leb_le in B2.
        rewrite Z.mod_small by lia. lia.
      * rewrite Z.mod_small by lia. lia.
  - intros E. unfold setActiveIndex, bind, gets. now rewrite E.
Qed.

(** A file with three indexes: selecting index 2, and an argument out of
    range. *)
Lemma setActiveIndex_selects_witness :
  getActiveIndex (exec (setActiveIndex 2) (snd (MultiIndex_new 3))) = 2
  /\ getActiveIndex (exec (setActiveIndex 7) (snd (MultiIndex_new 3))) = 1.
Proof.
  split.
  - apply (setActiveIndex_selects (snd (MultiIndex_new 3)) 2);
      vm_compute; try split; try reflexivity; discriminate.
  - apply (setActiveIndex_selects (snd (MultiIndex_new 3)) 7);
      vm_compute; try split; try reflexivity; try discriminate.
    right. reflexivity.
Defined.

(** C10 as stated fails on a handle with a latched error (here a failed
    [seek] on a file with two indexes): [setActiveIndex(2)] leaves index 1
    selected.  It also fails on a file created with no index, where
    [getActiveIndex()] gives 1, outside [1, numIndexes]. *)
Lemma setActiveIndex_counterexample :
  let s := exec (File_seek (-5)) (snd (MultiIndex_new 2)) in
  (1 <= 2 <= m_header_numIndexes s
   /\ getActiveIndex (exec (setActiveIndex 2) s) <> 2)
  /\ (getActiveIndex (exec (setActiveIndex 1) (snd (MultiIndex_new 0))) = 1
      /\ m_header_numIndexes (exec (setActiveIndex 1) (snd (MultiIndex_new 0))) = 0).
Proof. vm_compute. repeat split; discriminate. Qed.

(** ** C6: binary search within a node *)

Lemma cmp3_le (a b : Z) : cmp3 a b <= 0 <-> a <= b.
Proof.
  unfold cmp3. destruct (a >? b) eqn:G; [apply Z.gtb_lt in G; lia|].
  destruct (a <? b) eqn:L; [apply Z.ltb_lt in L; lia|].
  apply Z.ltb_ge in L. rewrite Z.gtb_ltb in G. apply Z.ltb_ge in G. lia.
Qed.

Lemma cmp3_eq (a b : Z) : cmp3 a b = 0 <-> a = b.
Proof.
  unfold cmp3. destruct (a >? b) eqn:G; [apply Z.gtb_lt in G; lia|].
  destruct (a <? b) eqn:L; [apply Z.ltb_lt in L; lia|].
  apply Z.ltb_ge in L. rewrite Z.gtb_ltb in G. apply Z.ltb_ge in G. lia.
Qed.

Lemma cmp3_trans (a b c : Z) : cmp3 a b <= 0 -> cmp3 b c <= 0 -> cmp3 a c <= 0.
Proof. rewrite !cmp3_le. lia. Qed.

Lemma memcmp_trans (n : nat) : forall p1 p2 p3,
  memcmp p1 p2 n <= 0 -> memcmp p2 p3 n <= 0 -> memcmp p1 p3 n <= 0.
Proof.
  induction n as [|n IH]; intros p1 p2 p3; simpl; [lia|].
  destruct (hd 0 p1 =? hd 0 p2) eqn:E12; destruct (hd 0 p2 =? hd 0 p3) eqn:E23;
    destruct (hd 0 p1 =? hd 0 p3) eqn:E13;
    repeat match goal with
           | H : (_ =? _) = true |- _ => apply Z.eqb_eq in H
           | H : (_ =? _) = false |- _ => apply Z.eqb_neq in H
           end;
    rewrite ?cmp3_le; try lia.
  apply IH.
Qed.

Lemma numBlockCmp_trans (i : nat) : forall p1 p2 p3,
  numBlockCmp p1 p2 i <= 0 -> numBlockCmp p2 p3 i <= 0 -> numBlockCmp p1 p3 i <= 0.
Proof.
  induction i as [|j IH]; intros p1 p2 p3; simpl; [lia|].
  destruct (nth j p1 0 =? nth j p2 0) eqn:E12;
    destruct (nth j p2 0 =? nth j p3 0) eqn:E23;
    destruct (nth j p1 0 =? nth j p3 0) eqn:E13;
    destruct (nth j p1 0 >? nth j p2 0) eqn:G12;
    destruct (nth j p2 0 >? nth j p3 0) eqn:G23;
    destruct (nth j p1 0 >? nth j p3 0) eqn:G13;
    repeat match goal with
           | H : (_ =? _) = true |- _ => apply Z.eqb_eq in H
           | H : (_ =? _) = false |- _ => apply Z.eqb_neq in H
           | H : (_ >? _) = true |- _ => apply Z.gtb_lt in H
           | H : (_ >? _) = false |- _ =>
               rewrite Z.gtb_ltb in H; apply Z.ltb_ge in H
           end;
    try lia.
  apply IH.
Qed.

Lemma strcmp_trans : forall p1 p2 p3,
  strcmp p1 p2 <= 0 -> strcmp p2 p3 <= 0 -> strcmp p1 p3 <= 0.
Proof.
  induction p1 as [|c1 t1 IH]; intros p2 p3;
    destruct p2 as [|c2 t2]; destruct p3 as [|c3 t3]; simpl;
    repeat match goal with
           | |- context [?a =? ?b] =>
               let E := fresh "E" in destruct (a =? b) eqn:E
           end;
    repeat match goal with
           | H : (_ =? _) = true |- _ => apply Z.eqb_eq in H
           | H : (_ =? _) = false |- _ => apply Z.eqb_neq in H
           end;
    rewrite ?cmp3_le; try lia.
  apply IH.
Qed.

(** [compare] is transitive for every key type, and under a latched
    error (where it is constantly 0). *)
Lemma compare_trans (s : MultiIndex) (k1 k2 k3 : list Z) :
  compare s k1 k2 <= 0 -> compare s k2 k3 <= 0 -> compare s k1 k3 <= 0.
Proof.
  unfold compare. destruct (hasError s); [lia|].
  destruct (getKeyType s).
  - lia.
  - apply memcmp_trans.
  - apply numBlockCmp_trans.
  - apply cmp3_trans.
  - apply cmp3_trans.
  - apply strcmp_trans.
  - destruct (hd 0 k1 =? 0), (hd 0 k2 =? 0), (hd 0 k3 =? 0); simpl; lia.
  - apply cmp3_trans.
Qed.

Section BinarySearch.

Variables (s : MultiIndex) (node key : list Z) (numItems : Z).

Hypothesis sorted :
  forall i, 1 <= i < numItems -> compare s (getNodeKey s node i) (getNodeKey s node (i + 1)) <= 0.

Lemma sorted_lt (d : nat) : forall i,
  1 <= i -> i + Z.of_nat (S d) <= numItems ->
  compare s (getNodeKey s node i) (getNodeKey s node (i + Z.of_nat (S d))) <= 0.
Proof.
  induction d as [|d IH]; intros i H1 H2.
  - replace (i + Z.of_nat 1) with (i + 1) by lia. apply sorted. lia.
  - apply compare_trans with (k2 := getNodeKey s node (i + Z.of_nat (S d))).
    + apply IH; lia.
    + replace (i + Z.of_nat (S (S d))) with (i + Z.of_nat (S d) + 1) by lia.
      apply sorted. lia.
Qed.

(** The search predicate is monotone along a sorted node. *)
Lemma key_le_mono (i j : Z) :
  1 <= i <= j -> j <= numItems ->
  compare s key (getNodeKey s node i) <= 0 -> compare s key (getNodeKey s node j) <= 0.
Proof.
  intros Hij Hj Hi.
  destruct (Z.eq_dec i j) as [->|N]; [assumption|].
  apply compare_trans with (k2 := getNodeKey s node i); [assumption|].
  replace j with (i + Z.of_nat (S (Z.to_nat (j - i - 1)))) by lia.
  apply sorted_lt; lia.
Qed.

Lemma binarySearchLoop_spec (fuel : nat) : forall left right,
  1 <= left <= right -> right <= numItems ->
  right - left < Z.of_nat fuel ->
  compare s key (getNodeKey s node right) <= 0 ->
  (forall q, 1 <= q < left -> compare s key (getNodeKey s node q) > 0) ->
  let p := binarySearchLoop s node key fuel left right in
  left <= p <= right
  /\ compare s key (getNodeKey s node p) <= 0
  /\ (forall q, 1 <= q < p -> compare s key (getNodeKey s node q) > 0).
Proof.
  induction fuel as [|fuel IH]; intros left right Hlr Hr Hf Hright Hleft;
    [lia|].
  simpl. destruct (left <? right) eqn:L.
  - apply Z.ltb_lt in L.
    set (mid := left + (right - left) / 2).
    assert (Hmid : left <= mid < right)
      by (unfold mid; Z.div_mod_to_equations; lia).
    destruct (compare s key (getNodeKey s node mid) <=? 0) eqn:C.
    + apply Z.leb_le in C.
      destruct (IH left mid) as (P1 & P2 & P3); try lia; auto.
      repeat split; auto; lia.
    + apply Z.leb_gt in C.
      destruct (IH (mid + 1) right) as (P1 & P2 & P3); try lia; auto.
      * intros q Hq.
        destruct (Z_le_gt_dec (compare s key (getNodeKey s node q)) 0) as [Le|Gt];
          [|assumption].
        pose proof (key_le_mono q mid ltac:(lia) ltac:(lia) Le). lia.
      * repeat split; auto; lia.
  - apply Z.ltb_ge in L. assert (left = right) by lia. subst.
    repeat split; auto; lia.
Qed.

End BinarySearch.

(** C6.  In a node whose [numItems >= 1] entries are sorted
    non-decreasing under [compare], for a search key that compares [<=]
    the key of the last entry, [binarySearchNode] gives the smallest
    1-based position [p] with [compare(key, nodeKey(p)) <= 0], and its
    exact-match flag is true if and only if
    [compare(key, nodeKey(p)) == 0]. *)
Theorem binarySearchNode_lower_bound (s : MultiIndex) (node key : list Z)
    (numItems : Z) :
  1 <= numItems ->
  (forall i, 1 <= i < numItems ->
     compare s (getNodeKey s node i) (getNodeKey s node (i + 1)) <= 0) ->
  compare s key (getNodeKey s node numItems) <= 0 ->
  let p := fst (binarySearchNode s node key numItems) in
  let exactMatch := snd (binarySearchNode s node key numItems) in
  1 <= p <= numItems
  /\ compare s key (getNodeKey s node p) <= 0
  /\ (forall q, 1 <= q < p -> compare s key (getNodeKey s node q) > 0)
  /\ (exactMatch = true <-> compare s key (getNodeKey s node p) = 0).
Proof.
  intros Hn Hsorted Hlast. unfold binarySearchNode.
  destruct (numItems =? 0) eqn:Z0; [apply Z.eqb_eq in Z0; lia|].
  cbv zeta. simpl fst. simpl snd.
  assert (Hbelow : forall q, 1 <= q < 1 ->
                     compare s key (getNodeKey s node q) > 0)
    by (intros q Hq; lia).
  destruct (binarySearchLoop_spec s node key numItems Hsorted
              (Z.to_nat numItems) 1 numItems
              ltac:(lia) ltac:(lia) ltac:(lia) Hlast Hbelow)
    as (P1 & P2 & P3).
  split; [lia|]. split; [exact P2|]. split; [exact P3|].
  split; intros E; now apply Z.eqb_eq.
Qed.

(** The root of [twoKeys] holds "001", "002" and the sentinel; searching
    it for "002". *)
Lemma binarySearchNode_lower_bound_witness :
  let p := fst (binarySearchNode twoKeys (rootBlock twoKeys) (str3 48 48 50) 3) in
  let exactMatch :=
    snd (binarySearchNode twoKeys (rootBlock twoKeys) (str3 48 48 50) 3) in
  1 <= p <= 3
  /\ compare twoKeys (str3 48 48 50) (getNodeKey twoKeys (rootBlock twoKeys) p) <= 0
  /\ (forall q, 1 <= q < p ->
        compare twoKeys (str3 48 48 50) (getNodeKey twoKeys (rootBlock twoKeys) q) > 0)
  /\ (exactMatch = true <->
      compare twoKeys (str3 48 48 50) (getNodeKey twoKeys (rootBlock twoKeys) p) = 0).
Proof.
  apply (binarySearchNode_lower_bound twoKeys (rootBlock twoKeys) (str3 48 48 50) 3).
  - lia.
  - intros i Hi. assert (C : i = 1 \/ i = 2) by lia.
    destruct C as [-> | ->]; vm_compute; discriminate.
  - vm_compute. discriminate.
Defined.

Example binarySearchNode_finds_002 :
  binarySearchNode twoKeys (rootBlock twoKeys) (str3 48 48 50) 3 = (2, true).
Proof. vm_compute. reflexivity. Qed.

(** ** [find] is read-only *)

Lemma touch_eta (s : MultiIndex) : touch (m_filePos s) (m_positions s) s = s.
Proof. destruct s; reflexivity. Qed.

Lemma touch_touch (p p' : Z) (q q' : list PositionInfo) (s : MultiIndex) :
  touch p q (touch p' q' s) = touch p q s.
Proof. reflexivity. Qed.

Lemma readOnly_ret {A} (a : A) : readOnly (ret a).
Proof. intros s a' s1 H. exists None. intros p q. inversion H; subst. reflexivity. Qed.

Lemma readOnly_gets {A} (f : MultiIndex -> A) :
  (forall s p q, f (touch p q s) = f s) -> readOnly (gets f).
Proof.
  intros Hf s a s1 H. exists None. intros p q. unfold gets in *.
  inversion H; subst. now rewrite Hf.
Qed.

Lemma readOnly_throw {A} (e : ErrorCode) : readOnly (@throw A e).
Proof. intros s a s1 H. discriminate. Qed.

Lemma readOnly_bind {A B} (c : M A) (f : A -> M B) :
  readOnly c -> (forall a, readOnly (f a)) -> readOnly (bind c f).
Proof.
  intros Hc Hf s b s2 H. unfold bind in H.
  destruct (c s) as [[a| |] s1] eqn:E; try discriminate.
  destruct (Hc s a s1 E) as [o1 H1].
  assert (S1 : s1 = touch (movePos o1 (m_filePos s)) (m_positions s) s).
  { specialize (H1 (m_filePos s) (m_positions s)).
    rewrite touch_eta in H1. congruence. }
  destruct (Hf a s1 b s2 H) as [o2 H2].
  exists (match o2 with Some x => Some x | None => o1 end).
  intros p q. unfold bind. rewrite H1.
  specialize (H2 (movePos o1 p) q). subst s1. rewrite touch_touch in H2.
  rewrite H2. destruct o2; reflexivity.
Qed.

Lemma readOnly_File_read (buffer : list Z) (size pos : Z) :
  pos <> INVALID_POSITION -> readOnly (File_read buffer size pos).
Proof.
  intros Hp s a s1 H. unfold File_read in *.
  apply Z.eqb_neq in Hp. rewrite Hp in *.
  destruct (pos <? 0) eqn:N; [discriminate|].
  inversion H; subst.
  exists (Some (pos + Z.of_nat (length (firstn (Z.to_nat size)
                                          (skipn (Z.to_nat pos) (m_file s)))))).
  intros p q. reflexivity.
Qed.

Lemma readOnly_readNode (node : list Z) (pos : Z) :
  pos <> INVALID_POSITION -> readOnly (readNode node pos).
Proof.
  intros Hp. unfold readNode.
  apply readOnly_bind; [apply readOnly_gets; reflexivity|]. intros sz.
  apply readOnly_bind; [now apply readOnly_File_read|]. intros node'.
  apply readOnly_bind; [apply readOnly_gets; reflexivity|]. intros [|].
  - apply readOnly_ret.
  - apply readOnly_throw.
Qed.

Lemma readOnly_readLeave (leave : list Z) (pos : Z) :
  pos <> INVALID_POSITION -> readOnly (readLeave leave pos).
Proof.
  intros Hp. unfold readLeave.
  apply readOnly_bind; [apply readOnly_gets; reflexivity|]. intros sz.
  apply readOnly_bind; [now apply readOnly_File_read|]. intros leave'.
  apply readOnly_bind; [apply readOnly_gets; reflexivity|]. intros [|].
  - apply readOnly_ret.
  - apply readOnly_throw.
Qed.

Lemma binarySearchLoop_touch (s : MultiIndex) (p : Z) (q : list PositionInfo)
    (node key : list Z) (fuel : nat) : forall left right,
  binarySearchLoop (touch p q s) node key fuel left right
  = binarySearchLoop s node key fuel left right.
Proof.
  induction fuel as [|fuel IH]; intros left right; simpl; [reflexivity|].
  change (compare (touch p q s)) with (compare s).
  change (getNodeKey (touch p q s)) with (getNodeKey s).
  now rewrite !IH.
Qed.

Lemma binarySearchNode_touch (s : MultiIndex) (p : Z) (q : list PositionInfo)
    (node key : list Z) (numItems : Z) :
  binarySearchNode (touch p q s) node key numItems
  = binarySearchNode s node key numItems.
Proof.
  unfold binarySearchNode. rewrite binarySearchLoop_touch. reflexivity.
Qed.

Lemma readOnly_descendLoop (key : list Z) (n : nat) : forall node nodePos,
  readOnly (descendLoop n key node nodePos).
Proof.
  induction n as [|n IH]; intros node nodePos; simpl.
  - apply readOnly_ret.
  - destruct (nodePos =? INVALID_POSITION) eqn:E; [apply readOnly_ret|].
    apply Z.eqb_neq in E.
    apply readOnly_bind; [now apply readOnly_readNode|]. intros node'.
    apply readOnly_bind;
      [apply readOnly_gets; intros; apply binarySearchNode_touch|].
    intros [keyNo exactMatch].
    destruct (keyNo <=? getNumItems node'); [|apply readOnly_ret].
    apply readOnly_bind; [apply readOnly_gets; reflexivity|]. intros child.
    apply IH.
Qed.

Lemma readOnly_findLeave (key : list Z) : readOnly (findLeave key).
Proof.
  unfold findLeave.
  apply readOnly_bind; [apply readOnly_gets; reflexivity|]. intros levelNo.
  destruct (levelNo <? 1); [apply readOnly_ret|].
  apply readOnly_bind; [apply readOnly_gets; reflexivity|]. intros node.
  apply readOnly_bind; [apply readOnly_gets; reflexivity|]. intros root.
  apply readOnly_bind; [apply readOnly_descendLoop|]. intros [node1 nodePos].
  destruct (nodePos =? INVALID_POSITION) eqn:E; simpl; [apply readOnly_ret|].
  apply Z.eqb_neq in E.
  apply readOnly_bind; [now apply readOnly_readNode|]. intros node2.
  apply readOnly_bind;
    [apply readOnly_gets; intros; apply binarySearchNode_touch|].
  intros [keyNo exactMatch].
  destruct (keyNo <=? getNumItems node2); [|apply readOnly_ret].
  apply readOnly_bind; [apply readOnly_gets; reflexivity|]. intros leavePos.
  apply readOnly_ret.
Qed.

Lemma vector_set_twice {A} (g : A -> A) (d : A) : forall (l : list A) (i : nat) (x : A),
  vector_set (vector_set l i x) i (g (nth i (vector_set l i x) d))
  = vector_set l i (g x).
Proof.
  induction l as [|h t IH]; intros i x; [destruct i; reflexivity|].
  destruct i as [|i]; simpl; [reflexivity|]. now rewrite IH.
Qed.

Lemma updPos_touch (f : PositionInfo -> PositionInfo) (p : Z)
    (q : list PositionInfo) (s : MultiIndex) :
  updPos f (touch p q s)
  = touch p (vector_set q (Z.to_nat (m_currentIndex s))
               (f (nth (Z.to_nat (m_currentIndex s)) q defaultPositionInfo))) s.
Proof. reflexivity. Qed.

(** [setPosition] stores [positioned] in the cursor of the active index. *)
Lemma setPositionFromLeave_touch (leavePos : Z) (leave : list Z) (p : Z)
    (q : list PositionInfo) (s : MultiIndex) :
  setPositionFromLeave leavePos leave (touch p q s)
  = (Ret tt,
     touch p (vector_set q (Z.to_nat (m_currentIndex s))
                (positioned s leavePos leave
                   (nth (Z.to_nat (m_currentIndex s)) q defaultPositionInfo))) s).
Proof.
  unfold setPositionFromLeave, setPosition, positioned, bind, modify, gets,
    setBOF, resetBOF, setEOF, resetEOF.
  rewrite updPos_touch.
  change (getFirstLeave (touch ?a ?b s)) with (getFirstLeave s).
  destruct ((getPrevLeave leave =? INVALID_POSITION)
            || (leavePos =? getFirstLeave s));
    unfold modify; rewrite updPos_touch, vector_set_twice;
    change (getLastLeave (touch ?a ?b s)) with (getLastLeave s);
    destruct ((getNextLeave leave =? INVALID_POSITION)
              || (getNextLeave leave =? getLastLeave s));
    rewrite updPos_touch, vector_set_twice; reflexivity.
Qed.

Lemma flag_ops_idem (b1 b2 : bool) (x : Z) :
  let opB y := if b1 then Z.lor y BEGIN_OF_FILE
               else Z.land y (65535 - BEGIN_OF_FILE) in
  let opE y := if b2 then Z.lor y END_OF_FILE
               else Z.land y (65535 - END_OF_FILE) in
  opE (opB (opE (opB x))) = opE (opB x).
Proof.
  cbv zeta. destruct b1, b2; apply Z.bits_inj'; intros n Hn;
    repeat (rewrite Z.lor_spec || rewrite Z.land_spec);
    repeat match goal with
           | |- context [Z.testbit ?a n] => destruct (Z.testbit a n)
           end; reflexivity.
Qed.

Lemma positioned_idem (s : MultiIndex) (leavePos : Z) (leave : list Z)
    (old : PositionInfo) :
  positioned s leavePos leave (positioned s leavePos leave old)
  = positioned s leavePos leave old.
Proof.
  unfold positioned.
  pose proof (flag_ops_idem
                ((getPrevLeave leave =? INVALID_POSITION)
                 || (leavePos =? getFirstLeave s))
                ((getNextLeave leave =? INVALID_POSITION)
                 || (getNextLeave leave =? getLastLeave s))
                (state old)) as F.
  cbv zeta in *.
  destruct ((getPrevLeave leave =? INVALID_POSITION)
            || (leavePos =? getFirstLeave s));
    destruct ((getNextLeave leave =? INVALID_POSITION)
              || (getNextLeave leave =? getLastLeave s));
    unfold setFlag, resetFlag; simpl; f_equal; exact F.
Qed.

(** [bringLeave] from any file position and cursors. *)
Lemma bringLeave_touch (leavePos : Z) (s s1 : MultiIndex) (r : Z * list Z) :
  bringLeave leavePos s = (Ret r, s1) ->
  exists (o : option Z) (setq : list PositionInfo -> list PositionInfo)
         (rf : list PositionInfo -> Z * list Z),
    (forall p q,
        bringLeave leavePos (touch p q s) = (Ret (rf q), touch (movePos o p) (setq q) s))
    /\ (forall q, setq (setq q) = setq q)
    /\ (forall q, rf (setq q) = rf q).
Proof.
  unfold bringLeave.
  destruct (leavePos =? INVALID_POSITION) eqn:E.
  - intros _. exists None, (fun q => q), (fun _ => (INVALID_POSITION, [])).
    repeat split.
  - apply Z.eqb_neq in E. unfold bind at 1. unfold gets at 1.
    unfold bind at 1.
    destruct (readLeave (allocateLeaveBlock s) leavePos s) as [[leave| |] s2] eqn:R;
      try discriminate.
    intros _.
    destruct (readOnly_readLeave (allocateLeaveBlock s) leavePos E s leave s2 R) as [o Ho].
    set (i := Z.to_nat (m_currentIndex s)).
    exists o,
      (fun q => vector_set q i
                  (positioned s leavePos leave (nth i q defaultPositionInfo))),
      (fun q => (currentDataPos
                   (nth i (vector_set q i
                             (positioned s leavePos leave
                                (nth i q defaultPositionInfo)))
                      defaultPositionInfo),
                 peek (getLeaveKey leave) 0 (Z.to_nat (getKeySize s)))).
    split; [|split].
    + intros p q. unfold bind at 1. unfold gets at 1.
      change (allocateLeaveBlock (touch p q s)) with (allocateLeaveBlock s).
      unfold bind at 1. rewrite Ho.
      unfold bind at 1. rewrite setPositionFromLeave_touch.
      reflexivity.
    + intros q. rewrite (vector_set_twice (positioned s leavePos leave)).
      now rewrite positioned_idem.
    + intros q. rewrite (vector_set_twice (positioned s leavePos leave)).
      now rewrite positioned_idem.
Qed.

Lemma find_touch (leavePos0 : Z) (key : list Z) (s s' : MultiIndex) (r : Z) :
  find leavePos0 key s = (Ret r, s') ->
  exists (o : option Z) (setq : list PositionInfo -> list PositionInfo)
         (rf : list PositionInfo -> Z),
    (forall p q,
        find leavePos0 key (touch p q s)
        = (Ret (rf q), touch (movePos o p) (setq q) s))
    /\ (forall q, setq (setq q) = setq q)
    /\ (forall q, rf (setq q) = rf q).
Proof.
  unfold find. unfold bind at 1. unfold gets at 1.
  destruct (hasError s) eqn:Err.
  - intros _. exists None, (fun q => q), (fun _ => INVALID_POSITION).
    split; [|split]; auto.
    intros p q. unfold bind, gets.
    change (hasError (touch p q s)) with (hasError s). now rewrite Err.
  - unfold bind at 1.
    destruct (findLeave key s) as [[[found assigned]| |] s1] eqn:FL;
      try discriminate.
    destruct (readOnly_findLeave key s _ s1 FL) as [o1 H1].
    assert (S1 : s1 = touch (movePos o1 (m_filePos s)) (m_positions s) s).
    { specialize (H1 (m_filePos s) (m_positions s)).
      rewrite touch_eta in H1. congruence. }
    cbv zeta.
    set (leavePos := match assigned with
                     | Some pos => pos
                     | None => leavePos0
                     end).
    destruct found.
    + unfold bind at 1.
      destruct (bringLeave leavePos s1) as [[[dataPos k]| |] s2] eqn:BL;
        try discriminate.
      intros _.
      destruct (bringLeave_touch leavePos s1 _ _ BL) as (o2 & setq & rf & B1 & B2 & B3).
      exists (match o2 with Some x => Some x | None => o1 end), setq,
        (fun q => fst (rf q)).
      split; [|split]; auto.
      * intros p q. unfold bind at 1. unfold gets at 1.
        change (hasError (touch p q s)) with (hasError s). rewrite Err.
        unfold bind at 1. rewrite H1. cbv zeta. fold leavePos. unfold bind at 1.
        specialize (B1 (movePos o1 p) q). subst s1.
        rewrite touch_touch in B1. rewrite B1.
        destruct (rf q). destruct o2; reflexivity.
      * intros q. now rewrite B3.
    + destruct (negb (leavePos =? INVALID_POSITION)) eqn:NL.
      * unfold bind at 1.
        destruct (bringLeave leavePos s1) as [[[dataPos k]| |] s2] eqn:BL;
          try discriminate.
        intros _.
        destruct (bringLeave_touch leavePos s1 _ _ BL)
          as (o2 & setq & rf & B1 & B2 & B3).
        exists (match o2 with Some x => Some x | None => o1 end), setq,
          (fun _ => INVALID_POSITION).
        split; [|split]; auto.
        intros p q. unfold bind at 1. unfold gets at 1.
        change (hasError (touch p q s)) with (hasError s). rewrite Err.
        unfold bind at 1. rewrite H1. cbv zeta. fold leavePos. rewrite NL.
        unfold bind at 1.
        specialize (B1 (movePos o1 p) q). subst s1.
        rewrite touch_touch in B1. rewrite B1.
        destruct o2; reflexivity.
      * intros _. exists o1, (fun q => q), (fun _ => INVALID_POSITION).
        split; [|split]; auto.
        intros p q. unfold bind at 1. unfold gets at 1.
        change (hasError (touch p q s)) with (hasError s). rewrite Err.
        unfold bind at 1. rewrite H1. cbv zeta. fold leavePos. rewrite NL.
        reflexivity.
Qed.

Lemma movePos_idem (o : option Z) (p : Z) : movePos o (movePos o p) = movePos o p.
Proof. destruct o; reflexivity. Qed.

Lemma keepsDisk_ret {A} (a : A) : keepsDisk (ret a).
Proof. intros s. split; reflexivity. Qed.

Lemma keepsDisk_gets {A} (f : MultiIndex -> A) : keepsDisk (gets f).
Proof. intros s. split; reflexivity. Qed.

Lemma keepsDisk_throw {A} (e : ErrorCode) : keepsDisk (@throw A e).
Proof. intros s. split; reflexivity. Qed.

Lemma keepsDisk_bind {A B} (c : M A) (f : A -> M B) :
  keepsDisk c -> (forall a, keepsDisk (f a)) -> keepsDisk (bind c f).
Proof.
  intros Hc Hf s. unfold bind. specialize (Hc s).
  destruct (c s) as [[a| |] s1]; simpl in Hc; try exact Hc.
  destruct (Hf a s1) as [F1 F2]. destruct Hc as [C1 C2]. split; congruence.
Qed.

Lemma keepsDisk_File_read (buffer : list Z) (size pos : Z) :
  keepsDisk (File_read buffer size pos).
Proof.
  intros s. unfold File_read.
  destruct ((if pos =? INVALID_POSITION then m_filePos s else pos) <? 0);
    split; reflexivity.
Qed.

Lemma keepsDisk_updPos (f : PositionInfo -> PositionInfo) :
  keepsDisk (modify (updPos f)).
Proof. intros s. split; reflexivity. Qed.

Lemma keepsDisk_readNode (node : list Z) (pos : Z) : keepsDisk (readNode node pos).
Proof.
  unfold readNode.
  apply keepsDisk_bind; [apply keepsDisk_gets|]. intros sz.
  apply keepsDisk_bind; [apply keepsDisk_File_read|]. intros node'.
  apply keepsDisk_bind; [apply keepsDisk_gets|]. intros [|].
  - apply keepsDisk_ret.
  - apply keepsDisk_throw.
Qed.

Lemma keepsDisk_readLeave (leave : list Z) (pos : Z) :
  keepsDisk (readLeave leave pos).
Proof.
  unfold readLeave.
  apply keepsDisk_bind; [apply keepsDisk_gets|]. intros sz.
  apply keepsDisk_bind; [apply keepsDisk_File_read|]. intros leave'.
  apply keepsDisk_bind; [apply keepsDisk_gets|]. intros [|].
  - apply keepsDisk_ret.
  - apply keepsDisk_throw.
Qed.

Lemma keepsDisk_descendLoop (key : list Z) (n : nat) : forall node nodePos,
  keepsDisk (descendLoop n key node nodePos).
Proof.
  induction n as [|n IH]; intros node nodePos; simpl.
  - apply keepsDisk_ret.
  - destruct (nodePos =? INVALID_POSITION); [apply keepsDisk_ret|].
    apply keepsDisk_bind; [apply keepsDisk_readNode|]. intros node'.
    apply keepsDisk_bind; [apply keepsDisk_gets|]. intros [keyNo exactMatch].
    destruct (keyNo <=? getNumItems node'); [|apply keepsDisk_ret].
    apply keepsDisk_bind; [apply keepsDisk_gets|]. intros child. apply IH.
Qed.

Lemma keepsDisk_findLeave (key : list Z) : keepsDisk (findLeave key).
Proof.
  unfold findLeave.
  apply keepsDisk_bind; [apply keepsDisk_gets|]. intros levelNo.
  destruct (levelNo <? 1); [apply keepsDisk_ret|].
  apply keepsDisk_bind; [apply keepsDisk_gets|]. intros node.
  apply keepsDisk_bind; [apply keepsDisk_gets|]. intros root.
  apply keepsDisk_bind; [apply keepsDisk_descendLoop|]. intros [node1 nodePos].
  destruct (negb (nodePos =? INVALID_POSITION)); [|apply keepsDisk_ret].
  apply keepsDisk_bind; [apply keepsDisk_readNode|]. intros node2.
  apply keepsDisk_bind; [apply keepsDisk_gets|]. intros [keyNo exactMatch].
  destruct (keyNo <=? getNumItems node2); [|apply keepsDisk_ret].
  apply keepsDisk_bind; [apply keepsDisk_gets|]. intros leavePos.
  apply keepsDisk_ret.
Qed.

Lemma keepsDisk_setPositionFromLeave (leavePos : Z) (leave : list Z) :
  keepsDisk (setPositionFromLeave leavePos leave).
Proof.
  unfold setPositionFromLeave, setPosition.
  apply keepsDisk_bind; [apply keepsDisk_updPos|]. intros _.
  apply keepsDisk_bind; [apply keepsDisk_gets|]. intros firstL.
  apply keepsDisk_bind;
    [destruct (_ || _); apply keepsDisk_updPos|]. intros _.
  apply keepsDisk_bind; [apply keepsDisk_gets|]. intros lastL.
  destruct (_ || _); apply keepsDisk_updPos.
Qed.

Lemma keepsDisk_bringLeave (leavePos : Z) : keepsDisk (bringLeave leavePos).
Proof.
  unfold bringLeave.
  destruct (leavePos =? INVALID_POSITION); [apply keepsDisk_ret|].
  apply keepsDisk_bind; [apply keepsDisk_gets|]. intros leave.
  apply keepsDisk_bind; [apply keepsDisk_readLeave|]. intros leave'.
  apply keepsDisk_bind; [apply keepsDisk_setPositionFromLeave|]. intros _.
  apply keepsDisk_bind; [apply keepsDisk_gets|]. intros n.
  apply keepsDisk_bind; [apply keepsDisk_gets|]. intros dataPos.
  apply keepsDisk_ret.
Qed.

Lemma keepsDisk_find (leavePos0 : Z) (key : list Z) :
  keepsDisk (find leavePos0 key).
Proof.
  unfold find.
  apply keepsDisk_bind; [apply keepsDisk_gets|]. intros [|];
    [apply keepsDisk_ret|].
  apply keepsDisk_bind; [apply keepsDisk_findLeave|]. intros [found assigned].
  cbv zeta.
  set (leavePos := match assigned with
                   | Some pos => pos
                   | None => leavePos0
                   end).
  destruct found.
  - apply keepsDisk_bind; [apply keepsDisk_bringLeave|]. intros [dataPos k].
    apply keepsDisk_ret.
  - destruct (negb (leavePos =? INVALID_POSITION)); [|apply keepsDisk_ret].
    apply keepsDisk_bind; [apply keepsDisk_bringLeave|]. intros _.
    apply keepsDisk_ret.
Qed.

(** Where [findLeave] does not return without assigning [leavePos],
    [find] does not look at the value its local had. *)
Lemma find_assigned (leavePos0 leavePos1 : Z) (key : list Z) (t : MultiIndex) :
  (forall found t1, findLeave key t <> (Ret (found, None), t1)) ->
  find leavePos0 key t = find leavePos1 key t.
Proof.
  intros H. unfold find, bind, gets.
  destruct (hasError t); [reflexivity|].
  destruct (findLeave key t) as [[[found [pos|]]| |] t1] eqn:E; try reflexivity.
  exfalso. apply (H found t1). reflexivity.
Qed.

(** [findLeave] assigns [leavePos] or not whatever the file position and
    the cursors are. *)
Lemma findLeave_assigns_touch (key : list Z) (s : MultiIndex) (p : Z)
    (q : list PositionInfo) :
  (forall found s1, findLeave key s <> (Ret (found, None), s1)) ->
  forall found t1, findLeave key (touch p q s) <> (Ret (found, None), t1).
Proof.
  intros H found t1 E.
  destruct (readOnly_findLeave key (touch p q s) _ t1 E) as [o Ho].
  specialize (Ho (m_filePos s) (m_positions s)).
  rewrite touch_touch, touch_eta in Ho.
  exact (H found _ Ho).
Qed.

(** With the same value in the uninitialised local, a second [find]
    repeats the first. *)
Lemma find_twice (leavePos0 : Z) (key : list Z) (s s' : MultiIndex) (r : Z) :
  find leavePos0 key s = (Ret r, s') ->
  find leavePos0 key s' = (Ret r, s')
  /\ exists p q, s' = touch p q s.
Proof.
  intros H.
  destruct (find_touch leavePos0 key s s' r H) as (o & setq & rf & F1 & F2 & F3).
  pose proof (F1 (m_filePos s) (m_positions s)) as First.
  rewrite touch_eta in First.
  assert (r = rf (m_positions s)) by congruence.
  assert (s' = touch (movePos o (m_filePos s)) (setq (m_positions s)) s)
    by congruence.
  subst r s'. split.
  - rewrite F1, movePos_idem, F2, F3. reflexivity.
  - eauto.
Qed.

(** ** C7: [find] and its uninitialised local *)

(** C7, evaluated on the code.  [noBulk] is a new index initialised with
    both pre-allocation counts 0: no error is latched, it has one level
    and its root is [INVALID_POSITION].  There [findLeave] returns false
    without assigning [leavePos], and [find] goes on to test the value its
    uninitialised local holds.  With 400 in it the cursor goes to 400, and
    a second [find] of the same key with 500 in it moves the cursor to
    500; with 1 in it [find] throws [BAD_DATA] and latches the error; with
    [INVALID_POSITION] in it the cursor stays where it was. *)
Theorem find_reads_unassigned_leavePos :
  hasError noBulk = false
  /\ getNumLevels noBulk = 1
  /\ getRootNode noBulk = INVALID_POSITION
  /\ outcome (findLeave (long 1)) noBulk = Ret (false, None)
  /\ outcome (find 400 (long 1)) noBulk = Ret INVALID_POSITION
  /\ currentLeave (curPos (exec (find 400 (long 1)) noBulk)) = 400
  /\ outcome (find 500 (long 1)) (exec (find 400 (long 1)) noBulk)
     = Ret INVALID_POSITION
  /\ currentLeave
       (curPos (exec (find 500 (long 1)) (exec (find 400 (long 1)) noBulk)))
     = 500
  /\ outcome (find 1 (long 1)) noBulk = Throw BAD_DATA
  /\ hasError (exec (find 1 (long 1)) noBulk) = true
  /\ curPos (exec (find INVALID_POSITION (long 1)) noBulk) = curPos noBulk.
Proof. vm_compute. repeat split; reflexivity. Qed.

(** ** C1: [append] on an index without [UNIQUE] *)

(** C1, evaluated on the code.  [stringIndex] has [ALLOW_DELETE] only, so
    it is not [UNIQUE]; yet after [append("dup", 1)] a second
    [append("dup", 2)] returns false, where the claim says it succeeds.
    The leaf chain still holds the one "dup" leaf and [find("dup")] still
    gives 1: [append] tests [(attributes | UNIQUE) != 0], which holds for
    every index. *)
Theorem append_rejects_duplicate_without_UNIQUE :
  isUnique stringIndex = false
  /\ outcome (append (str3 100 117 112) 1) stringIndex = Ret true
  /\ outcome (append (str3 100 117 112) 2) oneDup = Ret false
  /\ leafChain (exec (append (str3 100 117 112) 2) oneDup) = leafChain oneDup
  /\ length (leafChain oneDup) = 2%nat
  /\ (forall leavePos0,
        outcome (find leavePos0 (str3 100 117 112))
          (exec (append (str3 100 117 112) 2) oneDup) = Ret 1).
Proof. vm_compute. repeat split; reflexivity. Qed.

(** ** C2: the sentinel key *)

(** C2, evaluated on the code.  For [INTEGER] (a 2-byte key) [fillEOFKey]
    gives the bytes [7F FF]: bit 7 is cleared in byte 0, the least
    significant byte of the little-endian [int16_t], so the sentinel is
    -129 and the key 0 compares greater.  For [NUM_BLOCK], which compares
    unsigned bytes from the last to the first, the same bytes [7F FF] lie
    below the key [FF FF]. *)
Theorem eofKey_not_maximal_INTEGER_NUM_BLOCK :
  fillEOFKey integerIndex = [127; 255]
  /\ signed 16 (decodeLE (fillEOFKey integerIndex)) = -129
  /\ compare integerIndex (encodeLE 2 0) (fillEOFKey integerIndex) = 1
  /\ fillEOFKey numBlockIndex = [127; 255]
  /\ compare numBlockIndex [255; 255] (fillEOFKey numBlockIndex) = 1.
Proof. vm_compute. repeat split; reflexivity. Qed.

(** ** C3: [deleteKey] *)

(** C3, evaluated on the code.  [oneLong] is a [LONG_INT] index holding
    the key 1 with data position 10; it satisfies the structural
    invariants.  [deleteKey(2147483647)], the key of the sentinel leaf,
    returns true: it removes the sentinel's routing entry, frees the
    sentinel leaf, and then writes the leaf buffer at
    [INVALID_POSITION], that is at the current file position, over the
    leaf of key 1.  Afterwards [find(1)] gives -1 instead of 10 and the
    chain no longer ends at [lastLeave]. *)
Theorem deleteKey_of_sentinel_key :
  structureOK oneLong = true
  /\ (forall leavePos0, outcome (find leavePos0 (long 1)) oneLong = Ret 10)
  /\ leafKeyAt oneLong (getLastLeave oneLong) = long 2147483647
  /\ outcome (deleteKey (long 2147483647)) oneLong = Ret true
  /\ (forall leavePos0,
        outcome (find leavePos0 (long 1))
          (exec (deleteKey (long 2147483647)) oneLong)
        = Ret (-1))
  /\ leafChain (exec (deleteKey (long 2147483647)) oneLong) = [257]
  /\ getLastLeave (exec (deleteKey (long 2147483647)) oneLong) = 228
  /\ structureOK (exec (deleteKey (long 2147483647)) oneLong) = false.
Proof. vm_compute. repeat split; reflexivity. Qed.

(** ** C4: routing correctness *)

(** C4, evaluated on the code.  With 3 items per node, the fresh index
    and the index after [append("001", 1); append("002", 2)] satisfy the
    invariants.  [append("003", 3)] returns true and splits the full
    root; [insertKey] puts the new key into the new node after the
    sentinel entry, so the new root routes the new node by "003" while
    the sentinel key under it is greater.  Routing correctness fails in
    this reachable state, and [find("003")] gives -1. *)
Theorem split_breaks_routing :
  structureOK stringIndex = true
  /\ structureOK twoKeys = true
  /\ outcome (append (str3 48 48 51) 3) twoKeys = Ret true
  /\ getNumLevels threeKeys = 2
  /\ routingCorrect threeKeys = false
  /\ (forall leavePos0,
        outcome (find leavePos0 (str3 48 48 51)) threeKeys = Ret (-1)).
Proof. vm_compute. repeat split; reflexivity. Qed.

(** ** C8: [deleteCurrent] *)

(** C8, evaluated on the code.  After the rejected [append(1, 20)] the
    cursor of [oneLongRejected] stands on leaf 286, which is the head of
    the free list and not in the leaf chain, and not on the sentinel
    (228).  [deleteCurrent()] then returns 0, the [dataPos] field of the
    free block, removes no leaf from the chain, and pushes leaf 286 onto
    the free list a second time, so that the free list loops on it. *)
Theorem deleteCurrent_after_rejected_append :
  outcome (append (long 1) 20) oneLong = Ret false
  /\ currentLeave (curPos oneLongRejected) = 286
  /\ getLastLeave oneLongRejected = 228
  /\ leafChain oneLongRejected = [257; 228]
  /\ freeLeafList oneLongRejected 3 = [286]
  /\ outcome deleteCurrent oneLongRejected = Ret 0
  /\ leafChain (exec deleteCurrent oneLongRejected) = [257; 228]
  /\ freeLeafList (exec deleteCurrent oneLongRejected) 3 = [286; 286; 286].
Proof. vm_compute. repeat split; reflexivity. Qed.

(** ** Blocks of the file, byte by byte *)

Lemma nth_peek (buf : list Z) (off : Z) (n j : nat) :
  nth j (peek buf off n) 0 = if (j <? n)%nat then nth (Z.to_nat off + j) buf 0 else 0.
Proof.
  unfold peek.
  set (sl := firstn n (skipn (Z.to_nat off) buf)).
  assert (Lsl : (length sl <= n)%nat) by apply firstn_le_length.
  destruct (j <? n)%nat eqn:J.
  - apply Nat.ltb_lt in J.
    destruct (Nat.lt_ge_cases j (length sl)) as [In|Out].
    + rewrite app_nth1 by assumption. unfold sl.
      rewrite nth_firstn. apply Nat.ltb_lt in J. rewrite J.
      apply nth_skipn.
    + rewrite app_nth2 by assumption.
      rewrite nth_repeat.
      unfold sl in Out. rewrite length_firstn, length_skipn in Out.
      symmetry. apply nth_overflow. lia.
  - apply Nat.ltb_ge in J. apply nth_overflow.
    rewrite length_app, repeat_length. lia.
Qed.

Lemma nth_poke (buf : list Z) (off : Z) (x : list Z) (j : nat) :
  (Z.to_nat off + length x <= length buf)%nat ->
  nth j (poke buf off x) 0 =
    if ((Z.to_nat off <=? j) && (j <? Z.to_nat off + length x))%nat
    then nth (j - Z.to_nat off) x 0 else nth j buf 0.
Proof.
  intros R. unfold poke. set (o := Z.to_nat off) in *.
  rewrite (firstn_all2 x) by lia.
  destruct (o <=? j)%nat eqn:A; simpl.
  - apply Nat.leb_le in A.
    rewrite app_nth2 by (rewrite length_firstn; lia).
    rewrite length_firstn, Nat.min_l by lia.
    destruct (j <? o + length x)%nat eqn:B.
    + apply Nat.ltb_lt in B. rewrite app_nth1 by lia. reflexivity.
    + apply Nat.ltb_ge in B. rewrite app_nth2 by lia.
      rewrite nth_skipn. f_equal. lia.
  - apply Nat.leb_gt in A.
    rewrite app_nth1 by (rewrite length_firstn; lia).
    rewrite nth_firstn. apply Nat.ltb_lt in A. now rewrite A.
Qed.

Lemma poke_length_in (buf : list Z) (off : Z) (x : list Z) :
  (Z.to_nat off + length x <= length buf)%nat ->
  length (poke buf off x) = length buf.
Proof. intros R. apply poke_length. lia. Qed.

(** Putting back what is there changes nothing. *)
Lemma poke_peek_same (buf : list Z) (off : Z) (n : nat) :
  (Z.to_nat off + n <= length buf)%nat ->
  poke buf off (peek buf off n) = buf.
Proof.
  intros R. apply nth_ext with (d := 0) (d' := 0).
  - apply poke_length_in. rewrite peek_length. lia.
  - intros j _. rewrite nth_poke by (rewrite peek_length; lia).
    rewrite peek_length.
    destruct ((Z.to_nat off <=? j) && (j <? Z.to_nat off + n))%nat eqn:C;
      [|reflexivity].
    apply andb_true_iff in C as [C1 C2].
    apply Nat.leb_le in C1. apply Nat.ltb_lt in C2.
    rewrite nth_peek.
    replace (j - Z.to_nat off <? n)%nat with true
      by (symmetry; apply Nat.ltb_lt; lia).
    f_equal. lia.
Qed.

Lemma peek_poke_same (buf : list Z) (off : Z) (x : list Z) :
  (Z.to_nat off + length x <= length buf)%nat ->
  peek (poke buf off x) off (length x) = x.
Proof.
  intros R. apply nth_ext with (d := 0) (d' := 0).
  - apply peek_length.
  - intros j Hj. rewrite peek_length in Hj.
    rewrite nth_peek. apply Nat.ltb_lt in Hj. rewrite Hj. apply Nat.ltb_lt in Hj.
    rewrite nth_poke by assumption.
    replace ((Z.to_nat off <=? Z.to_nat off + j)
             && (Z.to_nat off + j <? Z.to_nat off + length x))%nat with true
      by (symmetry; apply andb_true_iff; split;
          [apply Nat.leb_le|apply Nat.ltb_lt]; lia).
    f_equal. lia.
Qed.

Lemma peek_poke_apart (buf : list Z) (off off' : Z) (x : list Z) (n : nat) :
  (Z.to_nat off + length x <= length buf)%nat ->
  (Z.to_nat off' + n <= Z.to_nat off
   \/ Z.to_nat off + length x <= Z.to_nat off')%nat ->
  peek (poke buf off x) off' n = peek buf off' n.
Proof.
  intros R D. apply nth_ext with (d := 0) (d' := 0).
  - now rewrite !peek_length.
  - intros j Hj. rewrite peek_length in Hj. rewrite !nth_peek.
    apply Nat.ltb_lt in Hj. rewrite Hj. apply Nat.ltb_lt in Hj.
    rewrite nth_poke by assumption.
    replace ((Z.to_nat off <=? Z.to_nat off' + j)
             && (Z.to_nat off' + j <? Z.to_nat off + length x))%nat with false;
      [reflexivity|].
    symmetry. apply andb_false_iff.
    destruct D; [left; apply Nat.leb_gt | right; apply Nat.ltb_ge]; lia.
Qed.

Lemma poke_poke_same (buf : list Z) (off : Z) (x y : list Z) :
  (Z.to_nat off + length x <= length buf)%nat -> length y = length x ->
  poke (poke buf off x) off y = poke buf off y.
Proof.
  intros R E. apply nth_ext with (d := 0) (d' := 0).
  - rewrite !poke_length_in; rewrite ?poke_length_in; lia.
  - intros j _.
    rewrite nth_poke by (rewrite poke_length_in; lia).
    rewrite (nth_poke buf off y) by lia. rewrite E.
    destruct ((Z.to_nat off <=? j) && (j <? Z.to_nat off + length x))%nat eqn:C;
      [reflexivity|].
    rewrite nth_poke by assumption. now rewrite C.
Qed.

Lemma poke_poke_comm (buf : list Z) (off off' : Z) (x y : list Z) :
  (Z.to_nat off + length x <= length buf)%nat ->
  (Z.to_nat off' + length y <= length buf)%nat ->
  (Z.to_nat off' + length y <= Z.to_nat off
   \/ Z.to_nat off + length x <= Z.to_nat off')%nat ->
  poke (poke buf off x) off' y = poke (poke buf off' y) off x.
Proof.
  intros R R' D. apply nth_ext with (d := 0) (d' := 0).
  - rewrite !poke_length_in; rewrite ?poke_length_in; lia.
  - intros j _.
    rewrite !nth_poke by (rewrite ?poke_length_in; lia).
    destruct ((Z.to_nat off' <=? j) && (j <? Z.to_nat off' + length y))%nat eqn:C1;
      destruct ((Z.to_nat off <=? j) && (j <? Z.to_nat off + length x))%nat eqn:C2;
      try reflexivity.
    apply andb_true_iff in C1 as [A1 A2]. apply andb_true_iff in C2 as [B1 B2].
    apply Nat.leb_le in A1, B1. apply Nat.ltb_lt in A2, B2. lia.
Qed.

(** ** Little-endian fields *)

Lemma encodeLE_length (n : nat) : forall v, length (encodeLE n v) = n.
Proof. induction n as [|n IH]; intros v; simpl; [reflexivity|]. now rewrite IH. Qed.

Lemma encodeLE_decodeLE (bs : list Z) :
  Forall byteOK bs -> encodeLE (length bs) (decodeLE bs) = bs.
Proof.
  induction 1 as [|b t Hb Ht IH]; cbn [encodeLE decodeLE length]; [reflexivity|].
  unfold byteOK in Hb.
  replace ((b + 256 * decodeLE t) mod 256) with b
    by (Z.div_mod_to_equations; lia).
  replace ((b + 256 * decodeLE t) / 256) with (decodeLE t)
    by (Z.div_mod_to_equations; lia).
  now rewrite IH.
Qed.

Lemma encodeLE_sub (n : nat) : forall v,
  encodeLE n (v - 256 ^ Z.of_nat n) = encodeLE n v.
Proof.
  induction n as [|n IH]; intros v; [reflexivity|].
  cbn [encodeLE].
  rewrite Nat2Z.inj_succ, Z.pow_succ_r by lia.
  set (k := 256 ^ Z.of_nat n).
  replace ((v - 256 * k) mod 256) with (v mod 256)
    by (Z.div_mod_to_equations; lia).
  replace ((v - 256 * k) / 256) with (v / 256 - k)
    by (Z.div_mod_to_equations; lia).
  now rewrite IH.
Qed.

Lemma encodeLE_signed64 (v : Z) : encodeLE 8 (signed 64 v) = encodeLE 8 v.
Proof.
  unfold signed. destruct (v <? 2 ^ (64 - 1)); [reflexivity|].
  change (2 ^ 64) with (256 ^ Z.of_nat 8). apply encodeLE_sub.
Qed.

(** Blocks read from a file of bytes hold bytes. *)
Lemma Forall_firstn_bytes (n : nat) : forall l : list Z,
  Forall byteOK l -> Forall byteOK (firstn n l).
Proof.
  induction n as [|n IH]; intros l H; [constructor|].
  destruct H as [|b t Hb Ht]; [constructor|].
  simpl. constructor; auto.
Qed.

Lemma Forall_skipn_bytes (n : nat) : forall l : list Z,
  Forall byteOK l -> Forall byteOK (skipn n l).
Proof.
  induction n as [|n IH]; intros l H; [exact H|].
  destruct H as [|b t Hb Ht]; [constructor|].
  simpl. auto.
Qed.

Lemma Forall_peek (buf : list Z) (off : Z) (n : nat) :
  Forall byteOK buf -> Forall byteOK (peek buf off n).
Proof.
  intros H. unfold peek. apply Forall_app. split.
  - now apply Forall_firstn_bytes, Forall_skipn_bytes.
  - apply Forall_forall. intros x Hx. apply repeat_spec in Hx. subst.
    unfold byteOK. lia.
Qed.

(** Storing back the 64-bit field that is there. *)
Lemma setI64_getI64 (buf : list Z) (off : Z) :
  Forall byteOK buf -> (Z.to_nat off + 8 <= length buf)%nat ->
  setI64 buf off (getI64 buf off) = buf.
Proof.
  intros B R. unfold setI64, getI64.
  rewrite encodeLE_signed64.
  pose proof (encodeLE_decodeLE (peek buf off 8) (Forall_peek buf off 8 B)) as E.
  rewrite peek_length in E. rewrite E. now apply poke_peek_same.
Qed.

Lemma setI64_setI64 (buf : list Z) (off v w : Z) :
  (Z.to_nat off + 8 <= length buf)%nat ->
  setI64 (setI64 buf off v) off w = setI64 buf off w.
Proof.
  intros R. unfold setI64. apply poke_poke_same.
  - rewrite encodeLE_length. lia.
  - now rewrite !encodeLE_length.
Qed.

Lemma setI64_length (buf : list Z) (off v : Z) :
  (Z.to_nat off + 8 <= length buf)%nat -> length (setI64 buf off v) = length buf.
Proof. intros R. unfold setI64. apply poke_length. lia. Qed.

(** The checksum byte, at offset 0, is apart from every field. *)
Lemma poke_cons (c : Z) (t : list Z) (off : Z) (x : list Z) :
  1 <= off -> poke (c :: t) off x = c :: poke t (off - 1) x.
Proof.
  intros H. unfold poke.
  replace (Z.to_nat off) with (S (Z.to_nat (off - 1))) by lia.
  reflexivity.
Qed.

Lemma peek_cons (c : Z) (t : list Z) (off : Z) (n : nat) :
  1 <= off -> peek (c :: t) off n = peek t (off - 1) n.
Proof.
  intros H. unfold peek.
  replace (Z.to_nat off) with (S (Z.to_nat (off - 1))) by lia.
  reflexivity.
Qed.

Lemma setI64_cons (c : Z) (t : list Z) (off v : Z) :
  1 <= off -> setI64 (c :: t) off v = c :: setI64 t (off - 1) v.
Proof. intros H. unfold setI64. now apply poke_cons. Qed.

Lemma getI64_cons (c : Z) (t : list Z) (off : Z) :
  1 <= off -> getI64 (c :: t) off = getI64 t (off - 1).
Proof. intros H. unfold getI64. now rewrite peek_cons. Qed.

(** The checksum byte is a function of the rest of the block. *)
Lemma setChecksum_cons (c : Z) (t : list Z) (n : Z) :
  poke (poke (c :: t) 0 [0]) 0 [calculateBlockChecksum (poke (c :: t) 0 [0]) n]
  = calculateBlockChecksum (0 :: t) n :: t.
Proof. now rewrite !poke_cons_0. Qed.

Lemma checksum_head (c : Z) (t : list Z) (n : Z) :
  1 <= n -> calculateBlockChecksum (c :: t) n = 0 ->
  calculateBlockChecksum (0 :: t) n = c.
Proof.
  unfold calculateBlockChecksum. intros Hn.
  replace (Z.to_nat n) with (S (Z.to_nat (n - 1))) by lia.
  simpl. rewrite (fold_left_lxor_acc _ c). intros H.
  apply Z.lxor_eq in H. congruence.
Qed.

(** A block with a valid checksum is what [setLeaveChecksum] makes of
    any block with the same bytes after the first. *)
Lemma setLeaveChecksum_restore (s : MultiIndex) (c c' : Z) (t : list Z) :
  1 <= getLeaveSize s ->
  calculateBlockChecksum (c :: t) (getLeaveSize s) = 0 ->
  setLeaveChecksum s (c' :: t) = c :: t.
Proof.
  intros Hn H. unfold setLeaveChecksum. rewrite setChecksum_cons.
  now rewrite (checksum_head c t _ Hn H).
Qed.

Lemma setLeaveChecksum_cons (s : MultiIndex) (c : Z) (t : list Z) :
  setLeaveChecksum s (c :: t) = calculateBlockChecksum (0 :: t) (getLeaveSize s) :: t.
Proof. unfold setLeaveChecksum. apply setChecksum_cons. Qed.

Lemma setLeaveChecksum_length (s : MultiIndex) (b : list Z) :
  length (setLeaveChecksum s b) = length b.
Proof. destruct b; [reflexivity|]. now rewrite setLeaveChecksum_cons. Qed.

(** The test [(attributes | UNIQUE) != 0] of [append] holds whatever
    the attributes are. *)
Lemma lor_1_nonzero (a : Z) : (Z.lor a ATTR_UNIQUE =? 0) = false.
Proof.
  apply Z.eqb_neq. intros H.
  assert (T : Z.testbit (Z.lor a ATTR_UNIQUE) 0 = true)
    by (rewrite Z.lor_spec; apply orb_true_r).
  rewrite H in T. discriminate.
Qed.

(** ** The handle in normal form *)

Lemma vector_set_nth {A} (d : A) : forall (l : list A) (i : nat),
  vector_set l i (nth i l d) = l.
Proof.
  induction l as [|h t IH]; intros [|i]; simpl; try reflexivity.
  now rewrite IH.
Qed.

Lemma nth_vector_set {A} (d x : A) : forall (l : list A) (i : nat),
  (i < length l)%nat -> nth i (vector_set l i x) d = x.
Proof.
  induction l as [|h t IH]; intros [|i] H; simpl in *; try lia; try reflexivity.
  apply IH. lia.
Qed.

Lemma stOf_self (s : MultiIndex) :
  stOf s (m_file s) (m_filePos s) (curInfo s) (m_positions s) = s.
Proof.
  unfold stOf, curInfo. rewrite vector_set_nth. destruct s; reflexivity.
Qed.

Lemma curInfo_stOf s d p X Q : activeIn s -> curInfo (stOf s d p X Q) = X.
Proof. intros H. unfold curInfo, stOf. simpl. now apply nth_vector_set. Qed.

Lemma vector_set_vector_set {A} (x y : A) : forall (l : list A) (i : nat),
  vector_set (vector_set l i x) i y = vector_set l i y.
Proof.
  induction l as [|h t IH]; intros [|i]; simpl; try reflexivity.
  now rewrite IH.
Qed.

Lemma updInfo_stOf f s d p X Q :
  activeIn s -> updInfo f (stOf s d p X Q) = stOf s d p (f X) Q.
Proof.
  intros H. unfold updInfo. rewrite curInfo_stOf by assumption.
  unfold stOf, set_indexInfo. simpl. now rewrite vector_set_vector_set.
Qed.

Lemma updPos_stOf f s d p X Q :
  updPos f (stOf s d p X Q)
  = stOf s d p X (vector_set Q (Z.to_nat (m_currentIndex s))
                    (f (nth (Z.to_nat (m_currentIndex s)) Q defaultPositionInfo))).
Proof. reflexivity. Qed.

Lemma getLeaveSize_stOf s d p X Q :
  activeIn s -> getLeaveSize (stOf s d p X Q) = leaveSizeOf X.
Proof. intros H. unfold getLeaveSize. now rewrite curInfo_stOf. Qed.

(** Reading and writing inside the file. *)
Lemma File_read_in (buffer : list Z) (size pos : Z) (s : MultiIndex) :
  0 <= pos -> 0 <= size -> pos + size <= Z.of_nat (length (m_file s)) ->
  length buffer = Z.to_nat size ->
  File_read buffer size pos s
  = (Ret (peek (m_file s) pos (Z.to_nat size)), set_filePos (pos + size) s).
Proof.
  intros Hp Hs Hin Hb. unfold File_read.
  replace (pos =? INVALID_POSITION) with false
    by (symmetry; apply Z.eqb_neq; unfold INVALID_POSITION; lia).
  replace (pos <? 0) with false by (symmetry; apply Z.ltb_ge; lia).
  set (got := firstn (Z.to_nat size) (skipn (Z.to_nat pos) (m_file s))).
  assert (Lg : length got = Z.to_nat size)
    by (unfold got; rewrite length_firstn, length_skipn; lia).
  f_equal.
  - f_equal. unfold peek. fold got. rewrite Lg, Nat.sub_diag, app_nil_r.
    unfold poke. simpl. rewrite Nat.sub_0_r, Hb, <- Lg, firstn_all.
    rewrite skipn_all2 by lia. now rewrite app_nil_r.
  - now rewrite Lg, Z2Nat.id by lia.
Qed.

Lemma File_write_in (buffer : list Z) (size pos : Z) (s : MultiIndex) :
  0 <= pos -> 0 < size -> pos + size <= Z.of_nat (length (m_file s)) ->
  length buffer = Z.to_nat size ->
  File_write buffer size pos s
  = (Ret tt, set_file (poke (m_file s) pos buffer) (pos + size) s).
Proof.
  intros Hp Hs Hin Hb. unfold File_write.
  replace (pos =? INVALID_POSITION) with false
    by (symmetry; apply Z.eqb_neq; unfold INVALID_POSITION; lia).
  replace (pos <? 0) with false by (symmetry; apply Z.ltb_ge; lia).
  replace (size <=? 0) with false by (symmetry; apply Z.leb_gt; lia).
  f_equal. f_equal. unfold poke, peek. simpl skipn.
  replace (Z.to_nat pos - length (m_file s))%nat with 0%nat by lia.
  rewrite <- Hb, firstn_all, Nat.sub_diag. simpl.
  rewrite app_nil_r.
  rewrite (firstn_all2 buffer) by lia.
  replace (Z.to_nat (pos + size)) with (Z.to_nat pos + length buffer)%nat by lia.
  reflexivity.
Qed.

(** ** Running a sequence of steps *)

Lemma bind_eq {A B} (m : M A) (f : A -> M B) (t t' : MultiIndex) (a : A) :
  m t = (Ret a, t') -> bind m f t = f a t'.
Proof. intros H. unfold bind. now rewrite H. Qed.

Lemma bind_gets {A B} (g : MultiIndex -> A) (f : A -> M B) (t : MultiIndex) :
  bind (gets g) f t = f (g t) t.
Proof. reflexivity. Qed.

Lemma bind_modify {B} (g : MultiIndex -> MultiIndex) (f : unit -> M B)
    (t : MultiIndex) :
  bind (modify g) f t = f tt (g t).
Proof. reflexivity. Qed.

Lemma bind_ret {A B} (a : A) (f : A -> M B) (t : MultiIndex) :
  bind (ret a) f t = f a t.
Proof. reflexivity. Qed.

Lemma bind_assoc {A B C} (m : M A) (f : A -> M B) (g : B -> M C) (t : MultiIndex) :
  bind (bind m f) g t = bind m (fun a => bind (f a) g) t.
Proof. unfold bind. destruct (m t) as [[a| |] t1]; reflexivity. Qed.

Lemma setChecksumOf_length n b : length (setChecksumOf n b) = length b.
Proof. destruct b; [reflexivity|]. unfold setChecksumOf. now rewrite !poke_cons_0. Qed.

Lemma leaveSizeOf_nonneg X : 0 <= leaveSizeOf X.
Proof. unfold leaveSizeOf, u16. apply Z.mod_pos_bound. lia. Qed.

(** ** The steps of [append] on a handle in normal form *)

Lemma readLeave_stOf s d p X Q buf pos :
  activeIn s -> 0 <= pos ->
  pos + leaveSizeOf X <= Z.of_nat (length d) ->
  calculateBlockChecksum (peek d pos (Z.to_nat (leaveSizeOf X))) (leaveSizeOf X) = 0 ->
  readLeave buf pos (stOf s d p X Q)
  = (Ret (peek d pos (Z.to_nat (leaveSizeOf X))), stOf s d (pos + leaveSizeOf X) X Q).
Proof.
  intros A Hp Hin Hc. pose proof (leaveSizeOf_nonneg X) as Hn.
  unfold readLeave. rewrite bind_gets, getLeaveSize_stOf by assumption.
  erewrite bind_eq
    by (apply File_read_in; simpl; try assumption; apply peek_length).
  rewrite bind_gets. unfold testLeaveChecksum.
  change (set_filePos ?a (stOf s d p X Q)) with (stOf s d a X Q).
  rewrite getLeaveSize_stOf by assumption.
  change (m_file (stOf s d p X Q)) with d. rewrite Hc. reflexivity.
Qed.

Lemma writeLeave_stOf s d p X Q blk pos :
  activeIn s -> 0 <= pos -> 0 < leaveSizeOf X ->
  pos + leaveSizeOf X <= Z.of_nat (length d) ->
  length blk = Z.to_nat (leaveSizeOf X) ->
  writeLeave blk pos (stOf s d p X Q)
  = (Ret (setChecksumOf (leaveSizeOf X) blk),
     stOf s (poke d pos (setChecksumOf (leaveSizeOf X) blk))
       (pos + leaveSizeOf X) X Q).
Proof.
  intros A Hp Hn Hin Hb.
  unfold writeLeave. rewrite bind_gets.
  change (setLeaveChecksum (stOf s d p X Q) blk)
    with (setChecksumOf (getLeaveSize (stOf s d p X Q)) blk).
  rewrite bind_gets, getLeaveSize_stOf by assumption.
  erewrite bind_eq
    by (apply File_write_in; simpl; try assumption;
        now rewrite setChecksumOf_length).
  reflexivity.
Qed.

Lemma set_filePos_stOf (s : MultiIndex) (p : Z) :
  set_filePos p s = stOf s (m_file s) p (curInfo s) (m_positions s).
Proof.
  unfold stOf, curInfo. rewrite vector_set_nth. reflexivity.
Qed.

Lemma allocateLeave_stOf s d p X Q :
  activeIn s ->
  freeLeave X <> INVALID_POSITION ->
  0 <= freeLeave X ->
  freeLeave X + leaveSizeOf X <= Z.of_nat (length d) ->
  calculateBlockChecksum (peek d (freeLeave X) (Z.to_nat (leaveSizeOf X)))
    (leaveSizeOf X) = 0 ->
  allocateLeave (stOf s d p X Q)
  = (Ret (freeLeave X),
     stOf s d (freeLeave X + leaveSizeOf X)
       (with_freeLeave
          (getNextLeave (peek d (freeLeave X) (Z.to_nat (leaveSizeOf X)))) X) Q).
Proof.
  intros A Hf H0 H1 Hc. unfold allocateLeave.
  rewrite bind_gets. unfold getFreeLeave. rewrite !curInfo_stOf by assumption.
  apply Z.eqb_neq in Hf. rewrite Hf. rewrite bind_ret, bind_gets.
  unfold allocateLeaveBlock.
  erewrite bind_eq by (apply readLeave_stOf; assumption).
  unfold setFreeLeave. rewrite bind_modify, updInfo_stOf by assumption.
  reflexivity.
Qed.

Lemma resetLeave_length (b : list Z) :
  (25 <= length b)%nat -> length (resetLeave b) = length b.
Proof.
  intros H. unfold resetLeave, setPrevLeave, setNextLeave.
  assert (F : length (fill0 b) = length b) by apply repeat_length.
  assert (F1 : length (setI64 (fill0 b) 1 INVALID_POSITION) = length b)
    by (rewrite setI64_length; [exact F | rewrite F; simpl; lia]).
  rewrite setI64_length; [exact F1 | rewrite F1; simpl; lia].
Qed.

Lemma zeros_length (n : Z) : length (zeros n) = Z.to_nat n.
Proof. apply repeat_length. Qed.

Lemma freeLeaveAt_stOf s d p X Q pos :
  activeIn s -> 0 <= pos -> 25 <= leaveSizeOf X ->
  pos + leaveSizeOf X <= Z.of_nat (length d) ->
  freeLeaveAt pos (stOf s d p X Q)
  = (Ret tt,
     stOf s
       (poke d pos
          (setChecksumOf (leaveSizeOf X)
             (setNextLeave (resetLeave (zeros (leaveSizeOf X))) (freeLeave X))))
       (pos + leaveSizeOf X) (with_freeLeave pos X) Q).
Proof.
  intros A H0 Hn H1. unfold freeLeaveAt.
  rewrite bind_gets. unfold allocateLeaveBlock.
  rewrite getLeaveSize_stOf by assumption.
  rewrite bind_gets. unfold getFreeLeave. rewrite curInfo_stOf by assumption.
  erewrite bind_eq.
  2:{ apply writeLeave_stOf; try assumption; try lia.
      unfold setNextLeave.
      rewrite setI64_length; rewrite resetLeave_length; rewrite ?zeros_length;
        simpl; lia. }
  unfold setFreeLeave, modify. rewrite updInfo_stOf by assumption.
  reflexivity.
Qed.

Lemma setFirstLeave_stOf s d p X Q v :
  activeIn s ->
  setFirstLeave v (stOf s d p X Q) = (Ret tt, stOf s d p (with_firstLeave v X) Q).
Proof.
  intros A. unfold setFirstLeave, modify. now rewrite updInfo_stOf.
Qed.

Lemma setPositionFromLeave_stOf s d p X Q leavePos leave :
  setPositionFromLeave leavePos leave (stOf s d p X Q)
  = (Ret tt,
     stOf s d p X
       (vector_set Q (Z.to_nat (m_currentIndex s))
          (positioned (stOf s d p X Q) leavePos leave
             (nth (Z.to_nat (m_currentIndex s)) Q defaultPositionInfo)))).
Proof.
  change (stOf s d p X Q) with (touch p Q (stOf s d p X Q)) at 1.
  rewrite setPositionFromLeave_touch. reflexivity.
Qed.

Lemma currentLeave_positioned t leavePos leave old :
  currentLeave (positioned t leavePos leave old) = leavePos.
Proof.
  unfold positioned.
  destruct (_ || _); destruct (_ || _); reflexivity.
Qed.

(** ** Blocks written and written back *)

Lemma setChecksumOf_cons (n c : Z) (t : list Z) :
  setChecksumOf n (c :: t) = calculateBlockChecksum (0 :: t) n :: t.
Proof. unfold setChecksumOf. now rewrite !poke_cons_0. Qed.

Lemma setChecksumOf_valid (n : Z) (b : list Z) :
  calculateBlockChecksum (setChecksumOf n b) n = 0.
Proof. apply checksum_after_set. Qed.

(** Changing a 64-bit field of a valid block, writing it, reading it back
    and storing the old value again gives the block as it was. *)
Lemma restore_field (n : Z) (B : list Z) (off v : Z) :
  1 <= off -> off + 8 <= n -> length B = Z.to_nat n ->
  Forall byteOK B -> calculateBlockChecksum B n = 0 ->
  setChecksumOf n (setI64 (setChecksumOf n (setI64 B off v)) off (getI64 B off))
  = B.
Proof.
  intros H1 H2 HL HB HC.
  destruct B as [|b0 t]; [simpl in HL; lia|].
  simpl in HL. inversion HB as [|? ? Hb0 Ht]; subst.
  rewrite setI64_cons, setChecksumOf_cons, setI64_cons, getI64_cons by assumption.
  rewrite setI64_setI64 by lia.
  rewrite setI64_getI64 by (try assumption; lia).
  rewrite setChecksumOf_cons.
  now rewrite (checksum_head b0 t n ltac:(lia) HC).
Qed.

Ltac split_range :=
  repeat match goal with
         | H : (_ && _)%bool = true |- _ =>
             apply andb_true_iff in H; destruct H
         | H : (_ && _)%bool = false |- _ =>
             apply andb_false_iff in H
         | H : (_ <=? _)%nat = true |- _ => apply Nat.leb_le in H
         | H : (_ <=? _)%nat = false |- _ => apply Nat.leb_gt in H
         | H : (_ <? _)%nat = true |- _ => apply Nat.ltb_lt in H
         | H : (_ <? _)%nat = false |- _ => apply Nat.ltb_ge in H
         end.

(** A block that holds what the file holds at its place. *)
Lemma nth_block (d : list Z) (pos : Z) (k j : nat) :
  (Z.to_nat pos <= j)%nat -> (j < Z.to_nat pos + k)%nat ->
  nth (j - Z.to_nat pos) (peek d pos k) 0 = nth j d 0.
Proof.
  intros A B. rewrite nth_peek.
  replace (j - Z.to_nat pos <? k)%nat with true
    by (symmetry; apply Nat.ltb_lt; lia).
  f_equal. lia.
Qed.

(** Three blocks of the file overwritten and then put back. *)
Lemma three_blocks_restored (d : list Z) (k : nat) (N P L : Z)
    (n1 p1 nl : list Z) :
  length n1 = k -> length p1 = k -> length nl = k ->
  (Z.to_nat N + k <= length d)%nat ->
  (Z.to_nat P + k <= length d)%nat ->
  (Z.to_nat L + k <= length d)%nat ->
  poke (poke (poke (poke (poke (poke d N n1) P p1) L nl)
                N (peek d N k)) P (peek d P k)) L (peek d L k)
  = d.
Proof.
  intros Ln Lp Ll RN RP RL.
  apply nth_ext with (d := 0) (d' := 0).
  - repeat (rewrite poke_length_in;
            rewrite ?poke_length_in, ?peek_length; try lia).
  - intros j _.
    repeat (rewrite nth_poke
              by (repeat (rewrite poke_length_in;
                          rewrite ?poke_length_in, ?peek_length; try lia);
                  rewrite ?peek_length; lia)).
    rewrite !peek_length, Ln, Lp, Ll.
    destruct ((Z.to_nat L <=? j) && (j <? Z.to_nat L + k))%nat eqn:CL;
      [split_range; now apply nth_block|].
    destruct ((Z.to_nat P <=? j) && (j <? Z.to_nat P + k))%nat eqn:CP;
      [split_range; now apply nth_block|].
    destruct ((Z.to_nat N <=? j) && (j <? Z.to_nat N + k))%nat eqn:CN;
      [split_range; now apply nth_block|].
    reflexivity.
Qed.

Lemma two_blocks_restored (d : list Z) (k : nat) (N L : Z) (n1 nl : list Z) :
  length n1 = k -> length nl = k ->
  (Z.to_nat N + k <= length d)%nat ->
  (Z.to_nat L + k <= length d)%nat ->
  poke (poke (poke (poke d N n1) L nl) N (peek d N k)) L (peek d L k) = d.
Proof.
  intros Ln Ll RN RL.
  apply nth_ext with (d := 0) (d' := 0).
  - repeat (rewrite poke_length_in;
            rewrite ?poke_length_in, ?peek_length; try lia).
  - intros j _.
    repeat (rewrite nth_poke
              by (repeat (rewrite poke_length_in;
                          rewrite ?poke_length_in, ?peek_length; try lia);
                  rewrite ?peek_length; lia)).
    rewrite !peek_length, Ln, Ll.
    destruct ((Z.to_nat L <=? j) && (j <? Z.to_nat L + k))%nat eqn:CL;
      [split_range; now apply nth_block|].
    destruct ((Z.to_nat N <=? j) && (j <? Z.to_nat N + k))%nat eqn:CN;
      [split_range; now apply nth_block|].
    reflexivity.
Qed.

(** ** The descriptor put back *)

Lemma with_freeLeave_restore (X : IndexInfo) (v : Z) :
  with_freeLeave (freeLeave X) (with_freeLeave v X) = X.
Proof. destruct X; reflexivity. Qed.

Lemma with_firstLeave_restore (X : IndexInfo) (v w : Z) :
  with_freeLeave (freeLeave X)
    (with_firstLeave (firstLeave X) (with_firstLeave w (with_freeLeave v X))) = X.
Proof. destruct X; reflexivity. Qed.

Lemma stOf_result {A} (a : A) s d d' p X X' Q :
  d' = d -> X' = X ->
  (Ret a, stOf s d' p X' Q) = (Ret a, stOf s d p X Q).
Proof. intros -> ->. reflexivity. Qed.

Lemma setLeaveKey_length t (b key : list Z) :
  (25 <= length b)%nat -> length (setLeaveKey t b key) = length b.
Proof.
  intros H. unfold setLeaveKey, memcpy. apply poke_length.
  unfold sizeof_LeafHeader. simpl. lia.
Qed.

(** ** The rejected [append], step by step *)

(** The path of [append] that ends in the rejection of a duplicate,
    followed on a handle whose free-leaf list holds a free leaf [L] and
    whose descent to the leaf [N] only moved the file position: the leaf
    [L] is linked before [N] and unlinked again, and every block and
    every descriptor field the path writes gets the value it had.  What
    is left of the call is the file position and the cursor of the
    active index, now on [L]. *)
Lemma append_duplicate_path s newKey newDataPos nodePos keyNo stack N p :
  hasError s = false ->
  activeIn s ->
  sizeof_LeafHeader <= getLeaveSize s ->
  Forall byteOK (m_file s) ->
  findPath newKey s = (Ret (true, (nodePos, keyNo) :: stack, N), set_filePos p s) ->
  keyNo > 0 ->
  getFreeLeave s <> INVALID_POSITION ->
  freeLeafBlock s (getFreeLeave s) ->
  validLeaf s N ->
  apart s (getFreeLeave s) N ->
  (getPrevLeave (leafAt s N) <> INVALID_POSITION ->
     validLeaf s (getPrevLeave (leafAt s N))
     /\ getNextLeave (leafAt s (getPrevLeave (leafAt s N))) = N
     /\ apart s (getPrevLeave (leafAt s N)) N
     /\ apart s (getPrevLeave (leafAt s N)) (getFreeLeave s)) ->
  (getPrevLeave (leafAt s N) = INVALID_POSITION -> getFirstLeave s = N) ->
  exists p' old leave,
    append newKey newDataPos s
    = (Ret false,
       stOf s (m_file s) p' (curInfo s)
         (vector_set (m_positions s) (Z.to_nat (m_currentIndex s))
            (positioned old (getFreeLeave s) leave
               (nth (Z.to_nat (m_currentIndex s)) (m_positions s)
                  defaultPositionInfo)))).
Proof.
  intros Herr Act Hsz Hbytes Hfind Hk Hfree [[HL0 HL1] Hcanon] [[HN0 HN1] HNc]
    HapLN HP HfirstN.
  unfold apart, validLeaf, leafBlockIn in *.
  set (X0 := curInfo s) in *.
  set (d := m_file s) in *.
  set (LS := getLeaveSize s) in *.
  set (L := getFreeLeave s) in *.
  unfold leafAt in *. fold d LS in HNc, HP, HfirstN, Hcanon |- *.
  set (k := Z.to_nat LS) in *.
  set (BN := peek d N k) in *.
  set (FL := peek d L k) in *.
  set (P := getPrevLeave BN) in *.
  assert (HLS : leaveSizeOf X0 = LS) by reflexivity.
  assert (HfL : freeLeave X0 = L) by reflexivity.
  unfold sizeof_LeafHeader in Hsz.
  assert (HFLc : calculateBlockChecksum FL LS = 0)
    by (rewrite Hcanon; apply checksum_after_set).
  assert (LBN : length BN = k) by apply peek_length.
  assert (BBN : Forall byteOK BN) by now apply Forall_peek.
  set (X1 := with_freeLeave (getNextLeave FL) X0).
  assert (HLS1 : leaveSizeOf X1 = LS) by reflexivity.
  set (n1 := setChecksumOf LS (setPrevLeave BN L)).
  assert (Ln1 : length n1 = k)
    by (unfold n1, setPrevLeave; rewrite setChecksumOf_length, setI64_length;
        [assumption | rewrite LBN; unfold k; simpl; lia]).
  set (zl := zeros LS).
  assert (Lzl : length zl = k) by apply zeros_length.
  set (d1 := poke d N n1).
  assert (Ld1 : length d1 = length d)
    by (apply poke_length_in; rewrite Ln1; unfold k; lia).
  set (nl0 := setPrevLeave (setNextLeave zl N) P).
  assert (Lnl0 : length nl0 = k)
    by (unfold nl0, setPrevLeave, setNextLeave;
        rewrite !setI64_length; rewrite ?setI64_length; rewrite ?Lzl;
        unfold k; simpl; lia).
  (* the steps shared by both shapes of the chain *)
  destruct (P =? INVALID_POSITION) eqn:EP.
  all: do 3 eexists.
  all: unfold append; rewrite bind_gets, Herr.
  all: erewrite bind_eq by exact Hfind; cbn beta iota; cbn [negb].
  all: rewrite set_filePos_stOf; fold X0 d.
  all: rewrite !bind_gets.
  all: unfold allocateLeaveBlock at 1 2; rewrite !getLeaveSize_stOf by assumption.
  all: rewrite HLS; fold zl.
  all: erewrite bind_eq
         by (apply allocateLeave_stOf; rewrite ?HLS, ?HfL; assumption).
  all: rewrite HLS, HfL; fold k; fold FL; fold X1.
  all: erewrite bind_eq
         by (apply readLeave_stOf; rewrite ?HLS1; assumption).
  all: rewrite HLS1; fold k; fold BN.
  all: erewrite bind_eq
         by (apply writeLeave_stOf; rewrite ?HLS1; try assumption; try lia;
             unfold setPrevLeave; rewrite setI64_length;
             [assumption | rewrite LBN; unfold k; simpl; lia]).
  all: rewrite HLS1; fold n1; fold P; fold d1; fold nl0.
  all: rewrite EP; cbn [negb].
  - (* no predecessor: firstLeave is moved and moved back *)
    apply Z.eqb_eq in EP. specialize (HfirstN EP). clear HP.
    rewrite bind_assoc.
    erewrite bind_eq by (apply setFirstLeave_stOf; assumption).
    rewrite bind_ret, bind_gets.
    set (X2 := with_firstLeave L X1).
    assert (HLS2 : leaveSizeOf X2 = LS) by reflexivity.
    set (nl1 := setDataPos (setLeaveKey _ nl0 newKey) newDataPos).
    assert (Lnl1 : length nl1 = k).
    { unfold nl1, setDataPos. rewrite setI64_length;
        rewrite setLeaveKey_length; rewrite ?Lnl0; unfold k; simpl; lia. }
    erewrite bind_eq
      by (apply writeLeave_stOf; rewrite ?HLS2, ?Ld1; try assumption; lia).
    rewrite HLS2.
    set (nl := setChecksumOf LS nl1).
    assert (Lnl : length nl = k)
      by (unfold nl; now rewrite setChecksumOf_length).
    set (d3 := poke d1 L nl).
    assert (Ld3 : length d3 = length d)
      by (unfold d3; rewrite poke_length_in; rewrite ?Ld1, ?Lnl; unfold k; lia).
    erewrite bind_eq by apply setPositionFromLeave_stOf.
    replace (keyNo >? 0) with true by (symmetry; apply Z.gtb_lt; lia).
    rewrite bind_gets, lor_1_nonzero. cbn [negb].
    assert (E3 : peek d3 N k = n1).
    { unfold d3. rewrite peek_poke_apart
        by (rewrite ?Ld1, ?Lnl; unfold k; lia).
      unfold d1. rewrite <- Ln1. apply peek_poke_same. rewrite Ln1. unfold k. lia. }
    erewrite bind_eq
      by (apply readLeave_stOf; rewrite ?HLS2, ?Ld3; fold k; try assumption;
          rewrite E3; apply setChecksumOf_valid).
    rewrite HLS2. fold k. rewrite E3.
    assert (R1 : setChecksumOf LS (setPrevLeave n1 P) = BN)
      by (apply restore_field; try assumption; lia).
    erewrite bind_eq
      by (apply writeLeave_stOf; rewrite ?HLS2, ?Ld3; try assumption; try lia;
          unfold setPrevLeave; rewrite setI64_length;
          [assumption | rewrite Ln1; unfold k; simpl; lia]).
    rewrite HLS2, R1.
    set (d4 := poke d3 N BN).
    assert (Ld4 : length d4 = length d)
      by (unfold d4; rewrite poke_length_in; rewrite ?Ld3, ?LBN; unfold k; lia).
    erewrite bind_eq by (apply setFirstLeave_stOf; assumption).
    erewrite bind_eq
      by (apply freeLeaveAt_stOf; try assumption; rewrite ?Ld4; lia
          || (change (leaveSizeOf _) with LS; rewrite ?Ld4; lia)).
    change (leaveSizeOf (with_firstLeave N X2)) with LS.
    change (freeLeave (with_firstLeave N X2)) with (getNextLeave FL).
    fold zl. 
    assert (RF : setChecksumOf LS (setNextLeave (resetLeave zl) (getNextLeave FL)) = FL)
      by (symmetry; exact Hcanon).
    rewrite RF. unfold ret.
    apply stOf_result.
    + unfold d4, d3, d1. apply two_blocks_restored; try assumption; unfold k; lia.
    + unfold X2, X1. rewrite <- HfirstN.
      change L with (freeLeave X0).
      change (getFirstLeave s) with (firstLeave X0).
      apply with_firstLeave_restore.
  - (* a predecessor: its [nextLeave] is moved and moved back *)
    apply Z.eqb_neq in EP. clear HfirstN.
    destruct (HP EP) as ([[HP0 HP1] HPc] & HPn & HapPN & HapPL). clear HP.
    set (BP := peek d P k) in *.
    assert (LBP : length BP = k) by apply peek_length.
    assert (BBP : Forall byteOK BP) by now apply Forall_peek.
    assert (E1 : peek d1 P k = BP)
      by (unfold d1; apply peek_poke_apart; rewrite Ln1; unfold k; lia).
    rewrite bind_assoc.
    erewrite bind_eq
      by (apply readLeave_stOf; rewrite ?HLS1, ?Ld1; fold k; try assumption;
          rewrite E1; assumption).
    rewrite HLS1. fold k. rewrite E1.
    set (p1 := setChecksumOf LS (setNextLeave BP L)).
    assert (Lp1 : length p1 = k)
      by (unfold p1, setNextLeave; rewrite setChecksumOf_length, setI64_length;
          [assumption | rewrite LBP; unfold k; simpl; lia]).
    erewrite bind_eq
      by (apply writeLeave_stOf; rewrite ?HLS1, ?Ld1; try assumption; try lia;
          unfold setNextLeave; rewrite setI64_length;
          [assumption | rewrite LBP; unfold k; simpl; lia]).
    rewrite HLS1. fold p1.
    set (d2 := poke d1 P p1).
    assert (Ld2 : length d2 = length d)
      by (unfold d2; rewrite poke_length_in; rewrite ?Ld1, ?Lp1; unfold k; lia).
    rewrite bind_gets.
    set (nl1 := setDataPos (setLeaveKey _ nl0 newKey) newDataPos).
    assert (Lnl1 : length nl1 = k).
    { unfold nl1, setDataPos. rewrite setI64_length;
        rewrite setLeaveKey_length; rewrite ?Lnl0; unfold k; simpl; lia. }
    erewrite bind_eq
      by (apply writeLeave_stOf; rewrite ?HLS1, ?Ld2; try assumption; lia).
    rewrite HLS1.
    set (nl := setChecksumOf LS nl1).
    assert (Lnl : length nl = k)
      by (unfold nl; now rewrite setChecksumOf_length).
    set (d3 := poke d2 L nl).
    assert (Ld3 : length d3 = length d)
      by (unfold d3; rewrite poke_length_in; rewrite ?Ld2, ?Lnl; unfold k; lia).
    erewrite bind_eq by apply setPositionFromLeave_stOf.
    replace (keyNo >? 0) with true by (symmetry; apply Z.gtb_lt; lia).
    rewrite bind_gets, lor_1_nonzero. cbn [negb].
    assert (E3 : peek d3 N k = n1).
    { unfold d3. rewrite peek_poke_apart
        by (rewrite ?Ld2, ?Lnl; unfold k; lia).
      unfold d2. rewrite peek_poke_apart
        by (rewrite ?Ld1, ?Lp1; unfold k; lia).
      unfold d1. rewrite <- Ln1. apply peek_poke_same. rewrite Ln1. unfold k. lia. }
    erewrite bind_eq
      by (apply readLeave_stOf; rewrite ?HLS1, ?Ld3; fold k; try assumption;
          rewrite E3; apply setChecksumOf_valid).
    rewrite HLS1. fold k. rewrite E3.
    assert (R1 : setChecksumOf LS (setPrevLeave n1 P) = BN)
      by (apply restore_field; try assumption; lia).
    erewrite bind_eq
      by (apply writeLeave_stOf; rewrite ?HLS1, ?Ld3; try assumption; try lia;
          unfold setPrevLeave; rewrite setI64_length;
          [assumption | rewrite Ln1; unfold k; simpl; lia]).
    rewrite HLS1, R1.
    set (d4 := poke d3 N BN).
    assert (Ld4 : length d4 = length d)
      by (unfold d4; rewrite poke_length_in; rewrite ?Ld3, ?LBN; unfold k; lia).
    assert (E4 : peek d4 P k = p1).
    { unfold d4. rewrite peek_poke_apart
        by (rewrite ?Ld3, ?LBN; unfold k; lia).
      unfold d3. rewrite peek_poke_apart
        by (rewrite ?Ld2, ?Lnl; unfold k; lia).
      unfold d2. rewrite <- Lp1. apply peek_poke_same. 
      rewrite Ld1, Lp1. unfold k. lia. }
    rewrite !bind_assoc.
    erewrite bind_eq
      by (apply readLeave_stOf; rewrite ?HLS1, ?Ld4; fold k; try assumption;
          rewrite E4; apply setChecksumOf_valid).
    rewrite HLS1. fold k. rewrite E4.
    assert (R2 : setChecksumOf LS (setNextLeave p1 N) = BP).
    { assert (R : setChecksumOf LS
                    (setI64 (setChecksumOf LS (setI64 BP 1 L)) 1 (getI64 BP 1)) = BP)
        by (apply restore_field; try assumption; lia).
      unfold getNextLeave in HPn. rewrite HPn in R. exact R. }
    rewrite !bind_assoc.
    erewrite bind_eq
      by (apply writeLeave_stOf; rewrite ?HLS1, ?Ld4; try assumption; try lia;
          unfold setNextLeave; rewrite setI64_length;
          [assumption | rewrite Lp1; unfold k; simpl; lia]).
    rewrite HLS1, R2. rewrite bind_ret.
    set (d5 := poke d4 P BP).
    assert (Ld5 : length d5 = length d)
      by (unfold d5; rewrite poke_length_in; rewrite ?Ld4, ?LBP; unfold k; lia).
    erewrite bind_eq
      by (apply freeLeaveAt_stOf; try assumption; rewrite ?HLS1, ?Ld5; lia).
    rewrite HLS1.
    change (freeLeave X1) with (getNextLeave FL).
    fold zl.
    assert (RF : setChecksumOf LS (setNextLeave (resetLeave zl) (getNextLeave FL)) = FL)
      by (symmetry; exact Hcanon).
    rewrite RF. unfold ret.
    apply stOf_result.
    + unfold d5, d4, d3, d2, d1.
      apply three_blocks_restored; try assumption; unfold k; lia.
    + unfold X1. change L with (freeLeave X0). apply with_freeLeave_restore.
Qed.

(** ** C9: the rejected [append] *)

(** C9 as stated fails when the free-leaf list is empty at the call.
    [oneLongBulk1] pre-allocates one leaf at a time; the rejected
    [append(1, 20)], whose descent ends on the exact routing match of
    entry 1 of the root, first lets [allocateLeave] append a leaf block
    to the file.  The file is one leaf longer afterwards and the
    free-leaf-list head has moved from [INVALID_POSITION] to that
    leaf. *)
Lemma rejected_append_grows_file :
  outcome (findPath (long 1)) oneLongBulk1 = Ret (true, [(70, 1)], 257)
  /\ outcome (append (long 1) 20) oneLongBulk1 = Ret false
  /\ getFreeLeave oneLongBulk1 = INVALID_POSITION
  /\ getFreeLeave (exec (append (long 1) 20) oneLongBulk1) = 286
  /\ length (m_file oneLongBulk1) = 286%nat
  /\ length (m_file (exec (append (long 1) 20) oneLongBulk1)) = 315%nat
  /\ m_file (exec (append (long 1) 20) oneLongBulk1) <> m_file oneLongBulk1.
Proof.
  repeat split; try (vm_compute; reflexivity).
  intros E. apply (f_equal (@length Z)) in E. vm_compute in E. discriminate.
Qed.

(** A list whose members pass [isByte] is a list of bytes. *)
Lemma Forall_byteOK (l : list Z) : forallb isByte l = true -> Forall byteOK l.
Proof.
  intros H. apply Forall_forall. intros x Hx.
  rewrite forallb_forall in H. specialize (H x Hx).
  unfold isByte in H. apply andb_true_iff in H. destruct H as [H1 H2].
  apply Z.leb_le in H1. apply Z.ltb_lt in H2. split; assumption.
Qed.

(** C9, amended: a duplicate-rejecting [append] puts the disk back
    when its descent wrote nothing, the free-leaf list is not empty, and
    the leaf chain is well formed around the leaf the descent ended on.
    Precisely: no error is latched; the descent [findPath] ends on an
    exact routing-key match ([keyNo > 0]) with child leaf [N] and only
    moves the file position (no root collapse); the head [L] of the
    free-leaf list is a free leaf block inside the file; the leaf [N]
    passes its checksum; its predecessor [P], when there is one, passes
    its checksum and has [N] as its [nextLeave], and otherwise [N] is
    [firstLeave]; and the blocks [L], [N], [P] do not overlap.  Then
    [append] returns [false], the file holds the bytes it held (leaf
    chain links and interior nodes), the index descriptors are the ones
    before the call ([firstLeave], the free-leaf-list head), no error is
    latched, and the cursor of the active index is on [L], the temporary
    leaf, which is again the head of the free-leaf list. *)
Theorem rejected_append_restores_disk
    (s : MultiIndex) (newKey : list Z) (newDataPos nodePos keyNo : Z)
    (stack : IndexStack) (N p : Z) :
  hasError s = false ->
  activeIn s ->
  (Z.to_nat (m_currentIndex s) < length (m_positions s))%nat ->
  sizeof_LeafHeader <= getLeaveSize s ->
  forallb isByte (m_file s) = true ->
  findPath newKey s = (Ret (true, (nodePos, keyNo) :: stack, N), set_filePos p s) ->
  keyNo > 0 ->
  getFreeLeave s <> INVALID_POSITION ->
  freeLeafBlock s (getFreeLeave s) ->
  validLeaf s N ->
  apart s (getFreeLeave s) N ->
  (getPrevLeave (leafAt s N) <> INVALID_POSITION ->
     validLeaf s (getPrevLeave (leafAt s N))
     /\ getNextLeave (leafAt s (getPrevLeave (leafAt s N))) = N
     /\ apart s (getPrevLeave (leafAt s N)) N
     /\ apart s (getPrevLeave (leafAt s N)) (getFreeLeave s)) ->
  (getPrevLeave (leafAt s N) = INVALID_POSITION -> getFirstLeave s = N) ->
  let s' := exec (append newKey newDataPos) s in
  outcome (append newKey newDataPos) s = Ret false
  /\ m_file s' = m_file s
  /\ m_indexInfo s' = m_indexInfo s
  /\ m_errorCode s' = m_errorCode s
  /\ getFreeLeave s' = getFreeLeave s
  /\ currentLeave (curPos s') = getFreeLeave s.
Proof.
  intros Herr Act Hpos Hsz Hbytes Hfind Hk Hfree HL HN Hap HP Hfirst s'.
  apply Forall_byteOK in Hbytes.
  destruct (append_duplicate_path s newKey newDataPos nodePos keyNo stack N p
              Herr Act Hsz Hbytes Hfind Hk Hfree HL HN Hap HP Hfirst)
    as (p' & old & leave & E).
  subst s'. unfold outcome, exec. rewrite E. cbn [fst snd].
  repeat split.
  - unfold stOf. cbn [m_indexInfo]. unfold curInfo. apply vector_set_nth.
  - unfold getFreeLeave. now rewrite curInfo_stOf.
  - unfold curPos, stOf. cbn [m_positions m_currentIndex].
    rewrite nth_vector_set by assumption. apply currentLeave_positioned.
Qed.

(** The theorem at [twoLongs] and the rejected [append(2, 30)]: the
    descent ends on entry 2 of the root at 70 and the leaf at 286, whose
    predecessor is the leaf at 257; the free-leaf list starts at 315. *)
Lemma rejected_append_restores_disk_witness :
  outcome (append (long 2) 30) twoLongs = Ret false
  /\ m_file (exec (append (long 2) 30) twoLongs) = m_file twoLongs
  /\ m_indexInfo (exec (append (long 2) 30) twoLongs) = m_indexInfo twoLongs
  /\ m_errorCode (exec (append (long 2) 30) twoLongs) = m_errorCode twoLongs
  /\ getFreeLeave (exec (append (long 2) 30) twoLongs) = getFreeLeave twoLongs
  /\ currentLeave (curPos (exec (append (long 2) 30) twoLongs))
     = getFreeLeave twoLongs.
Proof.
  apply (rejected_append_restores_disk twoLongs (long 2) 30 70 2 [] 286 149).
  - vm_compute. reflexivity.
  - vm_compute. lia.
  - vm_compute. lia.
  - vm_compute. discriminate.
  - vm_compute. reflexivity.
  - vm_compute. reflexivity.
  - lia.
  - vm_compute. discriminate.
  - vm_compute. repeat split; discriminate.
  - vm_compute. repeat split; discriminate.
  - vm_compute. right. discriminate.
  - intros _. vm_compute. repeat split; try discriminate.
    + left. discriminate.
    + left. discriminate.
  - intros H. vm_compute in H. discriminate H.
Defined.

(* ================================================================= *)
(** * More properties of the code *)

(** ** The order of the keys *)

Lemma cmp3_opp (a b : Z) : cmp3 a b = - cmp3 b a.
Proof.
  unfold cmp3.
  destruct (a >? b) eqn:G; destruct (a <? b) eqn:L;
    destruct (b >? a) eqn:G'; destruct (b <? a) eqn:L';
    repeat match goal with
           | H : (_ >? _) = true |- _ => apply Z.gtb_lt in H
           | H : (_ >? _) = false |- _ =>
               rewrite Z.gtb_ltb in H; apply Z.ltb_ge in H
           | H : (_ <? _) = true |- _ => apply Z.ltb_lt in H
           | H : (_ <? _) = false |- _ => apply Z.ltb_ge in H
           end; lia.
Qed.

Lemma cmp3_sign (a b : Z) : cmp3 a b = -1 \/ cmp3 a b = 0 \/ cmp3 a b = 1.
Proof. unfold cmp3. destruct (a >? b); destruct (a <? b); auto. Qed.

Lemma cmp3_refl (a : Z) : cmp3 a a = 0.
Proof. apply cmp3_eq. reflexivity. Qed.

Lemma memcmp_opp (n : nat) : forall p1 p2, memcmp p1 p2 n = - memcmp p2 p1 n.
Proof.
  induction n as [|n IH]; intros p1 p2; simpl; [reflexivity|].
  rewrite (Z.eqb_sym (hd 0 p2)).
  destruct (hd 0 p1 =? hd 0 p2); [apply IH | apply cmp3_opp].
Qed.

Lemma memcmp_sign (n : nat) : forall p1 p2,
  memcmp p1 p2 n = -1 \/ memcmp p1 p2 n = 0 \/ memcmp p1 p2 n = 1.
Proof.
  induction n as [|n IH]; intros p1 p2; simpl; [auto|].
  destruct (hd 0 p1 =? hd 0 p2); [apply IH | apply cmp3_sign].
Qed.

Lemma memcmp_refl (n : nat) : forall p, memcmp p p n = 0.
Proof.
  induction n as [|n IH]; intros p; simpl; [reflexivity|].
  rewrite Z.eqb_refl. apply IH.
Qed.

Lemma numBlockCmp_opp (i : nat) : forall p1 p2,
  numBlockCmp p1 p2 i = - numBlockCmp p2 p1 i.
Proof.
  induction i as [|j IH]; intros p1 p2; simpl; [reflexivity|].
  rewrite (Z.eqb_sym (nth j p2 0)).
  destruct (nth j p1 0 =? nth j p2 0) eqn:E; [apply IH|].
  apply Z.eqb_neq in E.
  destruct (nth j p1 0 >? nth j p2 0) eqn:G; destruct (nth j p2 0 >? nth j p1 0) eqn:G';
    repeat match goal with
           | H : (_ >? _) = true |- _ => apply Z.gtb_lt in H
           | H : (_ >? _) = false |- _ =>
               rewrite Z.gtb_ltb in H; apply Z.ltb_ge in H
           end; lia.
Qed.

Lemma numBlockCmp_sign (i : nat) : forall p1 p2,
  numBlockCmp p1 p2 i = -1 \/ numBlockCmp p1 p2 i = 0 \/ numBlockCmp p1 p2 i = 1.
Proof.
  induction i as [|j IH]; intros p1 p2; simpl; [auto|].
  destruct (nth j p1 0 =? nth j p2 0); [apply IH|].
  destruct (nth j p1 0 >? nth j p2 0); auto.
Qed.

Lemma numBlockCmp_refl (i : nat) : forall p, numBlockCmp p p i = 0.
Proof.
  induction i as [|j IH]; intros p; simpl; [reflexivity|].
  rewrite Z.eqb_refl. apply IH.
Qed.

Lemma strcmp_opp : forall p1 p2, strcmp p1 p2 = - strcmp p2 p1.
Proof.
  induction p1 as [|c1 t1 IH]; intros [|c2 t2]; simpl.
  - reflexivity.
  - destruct (c2 =? 0) eqn:E.
    + apply Z.eqb_eq in E. subst. reflexivity.
    + apply cmp3_opp.
  - destruct (c1 =? 0) eqn:E.
    + apply Z.eqb_eq in E. subst. reflexivity.
    + apply cmp3_opp.
  - rewrite (Z.eqb_sym c2).
    destruct (c1 =? c2) eqn:E; [|apply cmp3_opp].
    apply Z.eqb_eq in E. subst c2.
    destruct (c1 =? 0); [reflexivity | apply IH].
Qed.

Lemma strcmp_sign : forall p1 p2,
  strcmp p1 p2 = -1 \/ strcmp p1 p2 = 0 \/ strcmp p1 p2 = 1.
Proof.
  induction p1 as [|c1 t1 IH]; intros p2; simpl; [apply cmp3_sign|].
  destruct (c1 =? hd 0 p2); [|apply cmp3_sign].
  destruct (c1 =? 0); [auto | apply IH].
Qed.

Lemma strcmp_refl : forall p, strcmp p p = 0.
Proof.
  induction p as [|c t IH]; simpl; [reflexivity|].
  rewrite Z.eqb_refl. destruct (c =? 0); [reflexivity | apply IH].
Qed.

Lemma compare_opp (s : MultiIndex) (a b : list Z) :
  compare s a b = - compare s b a.
Proof.
  unfold compare. destruct (hasError s); [reflexivity|].
  destruct (getKeyType s).
  - reflexivity.
  - apply memcmp_opp.
  - apply numBlockCmp_opp.
  - apply cmp3_opp.
  - apply cmp3_opp.
  - apply strcmp_opp.
  - destruct (hd 0 a =? 0), (hd 0 b =? 0); reflexivity.
  - apply cmp3_opp.
Qed.

Lemma compare_sign (s : MultiIndex) (a b : list Z) :
  compare s a b = -1 \/ compare s a b = 0 \/ compare s a b = 1.
Proof.
  unfold compare. destruct (hasError s); [auto|].
  destruct (getKeyType s).
  - auto.
  - apply memcmp_sign.
  - apply numBlockCmp_sign.
  - apply cmp3_sign.
  - apply cmp3_sign.
  - apply strcmp_sign.
  - destruct (hd 0 a =? 0), (hd 0 b =? 0); simpl; auto.
  - apply cmp3_sign.
Qed.

Lemma compare_refl (s : MultiIndex) (k : list Z) : compare s k k = 0.
Proof.
  unfold compare. destruct (hasError s); [reflexivity|].
  destruct (getKeyType s).
  - reflexivity.
  - apply memcmp_refl.
  - apply numBlockCmp_refl.
  - apply cmp3_refl.
  - apply cmp3_refl.
  - apply strcmp_refl.
  - destruct (hd 0 k =? 0); reflexivity.
  - apply cmp3_refl.
Qed.

(** [compare] is a total preorder on key blocks, for every key type and
    every handle: its result is -1, 0 or 1, a key equals itself, swapping
    the arguments negates the result, and [<=] is transitive. *)
Theorem compare_total_preorder (s : MultiIndex) :
  (forall a b, compare s a b = -1 \/ compare s a b = 0 \/ compare s a b = 1)
  /\ (forall k, compare s k k = 0)
  /\ (forall a b, compare s a b = - compare s b a)
  /\ (forall a b c,
        compare s a b <= 0 -> compare s b c <= 0 -> compare s a c <= 0).
Proof.
  repeat split.
  - apply compare_sign.
  - apply compare_refl.
  - apply compare_opp.
  - apply compare_trans.
Qed.

(** ** Keys as numbers *)

Lemma decodeLE_encodeLE (n : nat) : forall v,
  decodeLE (encodeLE n v) = v mod 256 ^ Z.of_nat n.
Proof.
  induction n as [|n IH]; intros v.
  - simpl. now rewrite Z.mod_1_r.
  - cbn [encodeLE decodeLE]. rewrite IH.
    rewrite Nat2Z.inj_succ, Z.pow_succ_r by lia.
    rewrite Z.rem_mul_r by lia. reflexivity.
Qed.

Lemma signed_wrap (bits : Z) (x : Z) :
  1 <= bits -> - 2 ^ (bits - 1) <= x < 2 ^ (bits - 1) ->
  signed bits (x mod 2 ^ bits) = x.
Proof.
  intros Hb Hx. unfold signed.
  assert (E : 2 ^ bits = 2 * 2 ^ (bits - 1)).
  { replace bits with (Z.succ (bits - 1)) at 1 by lia.
    apply Z.pow_succ_r. lia. }
  assert (0 < 2 ^ (bits - 1)) by (apply Z.pow_pos_nonneg; lia).
  destruct (Z_lt_le_dec x 0) as [Hneg|Hpos].
  - assert (M : x mod 2 ^ bits = x + 2 ^ bits).
    { symmetry. apply Z.mod_unique with (q := -1); lia. }
    rewrite M.
    destruct (x + 2 ^ bits <? 2 ^ (bits - 1)) eqn:L;
      [apply Z.ltb_lt in L; lia | lia].
  - rewrite Z.mod_small by lia.
    destruct (x <? 2 ^ (bits - 1)) eqn:L;
      [reflexivity | apply Z.ltb_ge in L; lia].
Qed.

Lemma peek_firstn (k : list Z) (n : nat) (e : list Z) :
  firstn n k = e -> length e = n -> peek k 0 n = e.
Proof.
  intros H L. unfold peek. simpl. rewrite H, L, Nat.sub_diag. apply app_nil_r.
Qed.

(** [INTEGER] and [LONG_INT] keys compare as the signed integers their
    first 2, respectively 4, bytes hold in little-endian order. *)
Theorem compare_native_integers (s : MultiIndex) (k1 k2 : list Z) (x y : Z)
    (n : nat) :
  hasError s = false ->
  (keyType (curInfo s) = INTEGER /\ n = 2%nat)
  \/ (keyType (curInfo s) = LONG_INT /\ n = 4%nat) ->
  - 2 ^ (8 * Z.of_nat n - 1) <= x < 2 ^ (8 * Z.of_nat n - 1) ->
  - 2 ^ (8 * Z.of_nat n - 1) <= y < 2 ^ (8 * Z.of_nat n - 1) ->
  firstn n k1 = encodeLE n x ->
  firstn n k2 = encodeLE n y ->
  compare s k1 k2 = cmp3 x y.
Proof.
  intros Herr [[Hkt ->]|[Hkt ->]] Hx Hy H1 H2;
    unfold compare, getKeyType; rewrite Herr, Hkt.
  - rewrite (peek_firstn k1 2 _ H1 eq_refl), (peek_firstn k2 2 _ H2 eq_refl).
    rewrite !decodeLE_encodeLE.
    change (256 ^ Z.of_nat 2) with (2 ^ 16).
    rewrite !signed_wrap by (simpl in *; lia). reflexivity.
  - rewrite (peek_firstn k1 4 _ H1 eq_refl), (peek_firstn k2 4 _ H2 eq_refl).
    rewrite !decodeLE_encodeLE.
    change (256 ^ Z.of_nat 4) with (2 ^ 32).
    rewrite !signed_wrap by (simpl in *; lia). reflexivity.
Qed.

Lemma compare_native_integers_witness :
  compare longIndex (long (-5)) (long 7) = cmp3 (-5) 7.
Proof.
  apply (compare_native_integers longIndex (long (-5)) (long 7) (-5) 7 4).
  - vm_compute. reflexivity.
  - right. split; vm_compute; reflexivity.
  - simpl. lia.
  - simpl. lia.
  - vm_compute. reflexivity.
  - vm_compute. reflexivity.
Defined.

Lemma decodeLE_bound (l : list Z) :
  Forall byteOK l -> 0 <= decodeLE l < 256 ^ Z.of_nat (length l).
Proof.
  induction 1 as [|b t Hb Ht IH]; cbn [decodeLE length].
  - simpl. lia.
  - rewrite Nat2Z.inj_succ, Z.pow_succ_r by lia.
    unfold byteOK in Hb. lia.
Qed.

Lemma decodeLE_app (a b : list Z) :
  decodeLE (a ++ b) = decodeLE a + 256 ^ Z.of_nat (length a) * decodeLE b.
Proof.
  induction a as [|x a IH]; cbn [decodeLE length app].
  - rewrite Z.pow_0_r. lia.
  - rewrite IH, Nat2Z.inj_succ, Z.pow_succ_r by lia. ring.
Qed.

Lemma firstn_S_nth (j : nat) (p : list Z) :
  (j < length p)%nat -> firstn (S j) p = firstn j p ++ [nth j p 0].
Proof.
  revert p. induction j as [|j IH]; intros [|x p] H; simpl in *; try lia.
  - reflexivity.
  - f_equal. apply IH. lia.
Qed.

Lemma numBlockCmp_decode (n : nat) : forall p1 p2,
  Forall byteOK p1 -> Forall byteOK p2 ->
  (n <= length p1)%nat -> (n <= length p2)%nat ->
  numBlockCmp p1 p2 n = cmp3 (decodeLE (firstn n p1)) (decodeLE (firstn n p2)).
Proof.
  induction n as [|j IH]; intros p1 p2 B1 B2 L1 L2.
  - reflexivity.
  - cbn [numBlockCmp].
    rewrite !firstn_S_nth by lia. rewrite !decodeLE_app.
    rewrite !length_firstn, !Nat.min_l by lia.
    pose proof (decodeLE_bound (firstn j p1) (Forall_firstn_bytes j p1 B1)) as D1.
    pose proof (decodeLE_bound (firstn j p2) (Forall_firstn_bytes j p2 B2)) as D2.
    rewrite length_firstn, Nat.min_l in D1, D2 by lia.
    cbn [decodeLE]. rewrite !Z.mul_0_r, !Z.add_0_r.
    assert (0 < 256 ^ Z.of_nat j) by (apply Z.pow_pos_nonneg; lia).
    destruct (nth j p1 0 =? nth j p2 0) eqn:E.
    + apply Z.eqb_eq in E. rewrite E, IH by (try assumption; lia).
      unfold cmp3.
      rewrite !Z.gtb_ltb.
      set (a := decodeLE (firstn j p1)) in *.
      set (b := decodeLE (firstn j p2)) in *.
      set (c := 256 ^ Z.of_nat j * nth j p2 0).
      destruct (b <? a) eqn:X1; destruct (b + c <? a + c) eqn:X2;
        destruct (a <? b) eqn:X3; destruct (a + c <? b + c) eqn:X4;
        repeat match goal with
               | H : (_ <? _) = true |- _ => apply Z.ltb_lt in H
               | H : (_ <? _) = false |- _ => apply Z.ltb_ge in H
               end; try lia; reflexivity.
    + apply Z.eqb_neq in E. unfold cmp3. rewrite !Z.gtb_ltb.
      set (a := decodeLE (firstn j p1)) in *.
      set (b := decodeLE (firstn j p2)) in *.
      set (u := nth j p1 0) in *. set (v := nth j p2 0) in *.
      set (c := 256 ^ Z.of_nat j) in *.
      destruct (v <? u) eqn:X1;
        destruct (b + c * v <? a + c * u) eqn:X2;
        destruct (a + c * u <? b + c * v) eqn:X4;
        repeat match goal with
               | H : (_ <? _) = true |- _ => apply Z.ltb_lt in H
               | H : (_ <? _) = false |- _ => apply Z.ltb_ge in H
               end; try reflexivity; exfalso; nia.
Qed.

(** [NUM_BLOCK] keys compare as the unsigned numbers their [keySize]
    bytes hold in little-endian order. *)
Theorem compare_NUM_BLOCK_unsigned (s : MultiIndex) (k1 k2 : list Z) :
  hasError s = false ->
  keyType (curInfo s) = NUM_BLOCK ->
  Forall byteOK k1 -> Forall byteOK k2 ->
  (Z.to_nat (keySize (curInfo s)) <= length k1)%nat ->
  (Z.to_nat (keySize (curInfo s)) <= length k2)%nat ->
  compare s k1 k2
  = cmp3 (decodeLE (firstn (Z.to_nat (keySize (curInfo s))) k1))
         (decodeLE (firstn (Z.to_nat (keySize (curInfo s))) k2)).
Proof.
  intros Herr Hkt B1 B2 L1 L2.
  unfold compare, getKeyType, getKeySize. rewrite Herr, Hkt.
  now apply numBlockCmp_decode.
Qed.

Lemma compare_NUM_BLOCK_unsigned_witness :
  compare numBlockIndex [1; 2] [255; 1]
  = cmp3 (decodeLE (firstn (Z.to_nat (keySize (curInfo numBlockIndex))) [1; 2]))
         (decodeLE (firstn (Z.to_nat (keySize (curInfo numBlockIndex))) [255; 1])).
Proof.
  apply (compare_NUM_BLOCK_unsigned numBlockIndex [1; 2] [255; 1]).
  - vm_compute. reflexivity.
  - vm_compute. reflexivity.
  - apply Forall_byteOK. vm_compute. reflexivity.
  - apply Forall_byteOK. vm_compute. reflexivity.
  - vm_compute. lia.
  - vm_compute. lia.
Defined.

(** ** The sentinel key where it is the maximum *)

Lemma memcmp_all_255 (n : nat) : forall k,
  Forall byteOK k -> memcmp k (repeat 255 n) n <= 0.
Proof.
  induction n as [|n IH]; intros k Hk; simpl; [lia|].
  destruct (hd 0 k =? 255) eqn:E.
  - apply IH. destruct k; [constructor | now inversion Hk].
  - apply Z.eqb_neq in E. apply cmp3_le.
    destruct k as [|c t]; simpl in *; [lia|].
    inversion Hk as [|? ? Hc _]; subst. unfold byteOK in Hc. lia.
Qed.

Lemma strcmp_terminated (m : nat) : forall k,
  Forall byteOK k -> In 0 (firstn (S m) k) ->
  strcmp k (repeat 255 m ++ [0]) <= 0.
Proof.
  induction m as [|m IH]; intros [|c t] Hk Hin; try (simpl in Hin; tauto).
  - simpl in Hin. destruct Hin as [->|Hin].
    + simpl. lia.
    + destruct t; simpl in Hin; contradiction.
  - inversion Hk as [|? ? Hc Ht]; subst.
    cbn [repeat app strcmp hd tl].
    destruct (c =? 255) eqn:E.
    + apply Z.eqb_eq in E. subst c. simpl (255 =? 0).
      cbn iota. apply IH; [assumption|].
      change (firstn (S (S m)) (255 :: t)) with (255 :: firstn (S m) t) in Hin.
      destruct Hin as [H|H]; [discriminate H | exact H].
    + apply Z.eqb_neq in E. apply cmp3_le. unfold byteOK in Hc. lia.
Qed.

Lemma firstn_repeat_le {A} (x : A) (m n : nat) :
  (m <= n)%nat -> firstn m (repeat x n) = repeat x m.
Proof.
  revert n. induction m as [|m IH]; intros [|n] H; simpl; try lia; try reflexivity.
  f_equal. apply IH. lia.
Qed.

Lemma poke_last_repeat (n : nat) (x y : Z) :
  poke (repeat x (S n)) (Z.of_nat n) [y] = repeat x n ++ [y].
Proof.
  unfold poke. rewrite Nat2Z.id, repeat_length.
  rewrite firstn_repeat_le by lia.
  replace (S n - n)%nat with 1%nat by lia.
  rewrite skipn_all2 by (rewrite repeat_length; simpl; lia).
  simpl. reflexivity.
Qed.

Lemma signed32_max (v : Z) : 0 <= v < 2 ^ 32 -> signed 32 v <= 2147483647.
Proof.
  intros H. unfold signed. simpl (32 - 1).
  destruct (v <? 2 ^ 31) eqn:L; [apply Z.ltb_lt in L|]; lia.
Qed.

(** The key [fillEOFKey] writes is the maximum of [compare] for the key
    types [BLOCK], [CHARACTER], [LOGICAL] (and [VOID], whose keys are all
    equal), for [LONG_INT] when the key size is 4, and for [STRING] over
    the keys that hold a terminator within the key size. *)
Theorem eofKey_maximal (s : MultiIndex) (k : list Z) :
  hasError s = false ->
  1 <= keySize (curInfo s) ->
  Forall byteOK k ->
  match keyType (curInfo s) with
  | VOID | BLOCK | CHARACTER | LOGICAL => True
  | LONG_INT => keySize (curInfo s) = 4
  | STRING => In 0 (firstn (Z.to_nat (keySize (curInfo s))) k)
  | NUM_BLOCK | INTEGER => False
  end ->
  compare s k (fillEOFKey s) <= 0.
Proof.
  intros Herr Hn Hk Hty.
  unfold compare, fillEOFKey, getKeyType, getKeySize. rewrite Herr.
  destruct (keyType (curInfo s)) eqn:Hkt; try contradiction.
  - lia.
  - now apply memcmp_all_255.
  - rewrite Hty. change (poke (repeat 255 (Z.to_nat 4)) (4 - 1)
                           [Z.land (nthZ (4 - 1) (repeat 255 (Z.to_nat 4))) 127])
      with [255; 255; 255; 127].
    change (signed 32 (decodeLE (peek [255; 255; 255; 127] 0 4))) with 2147483647.
    apply cmp3_le. apply signed32_max.
    pose proof (decodeLE_bound (peek k 0 4) (Forall_peek k 0 4 Hk)) as B.
    rewrite peek_length in B. exact B.
  - set (n := Z.to_nat (keySize (curInfo s))) in *.
    assert (Hn' : n = S (n - 1)) by (unfold n; lia).
    replace (keySize (curInfo s) - 1) with (Z.of_nat (n - 1)) by (unfold n; lia).
    rewrite Hn' at 1. rewrite poke_last_repeat.
    apply strcmp_terminated; [assumption|]. now rewrite <- Hn'.
  - assert (H255 : hd 0 (repeat 255 (Z.to_nat (keySize (curInfo s)))) = 255).
    { destruct (Z.to_nat (keySize (curInfo s))) eqn:E; [lia | reflexivity]. }
    rewrite H255. simpl (255 =? 0).
    destruct (hd 0 k =? 0); simpl; lia.
  - assert (H255 : hd 0 (repeat 255 (Z.to_nat (keySize (curInfo s)))) = 255).
    { destruct (Z.to_nat (keySize (curInfo s))) eqn:E; [lia | reflexivity]. }
    rewrite H255. apply cmp3_le.
    destruct k as [|c t]; simpl; [lia|].
    inversion Hk as [|? ? Hc _]; subst. unfold byteOK in Hc. lia.
Qed.

Lemma eofKey_maximal_witness :
  compare stringIndex (str3 48 48 49) (fillEOFKey stringIndex) <= 0.
Proof.
  apply (eofKey_maximal stringIndex (str3 48 48 49)).
  - vm_compute. reflexivity.
  - vm_compute. discriminate.
  - apply Forall_byteOK. vm_compute. reflexivity.
  - vm_compute. right. right. right. left. reflexivity.
Defined.

(** ** The range of the binary search *)

Lemma binarySearchLoop_range (s : MultiIndex) (node key : list Z) (fuel : nat) :
  forall left right, left <= right ->
  left <= binarySearchLoop s node key fuel left right <= right.
Proof.
  induction fuel as [|fuel IH]; intros left right H; simpl; [lia|].
  destruct (left <? right) eqn:L; [apply Z.ltb_lt in L | lia].
  assert (M : left <= left + (right - left) / 2 < right).
  { pose proof (Z.div_pos (right - left) 2 ltac:(lia) ltac:(lia)).
    pose proof (Z.div_lt_upper_bound (right - left) 2 (right - left)
                  ltac:(lia) ltac:(lia)).
    lia. }
  destruct (compare s key (getNodeKey s node (left + (right - left) / 2)) <=? 0).
  - specialize (IH left (left + (right - left) / 2) ltac:(lia)). lia.
  - specialize (IH (left + (right - left) / 2 + 1) right ltac:(lia)). lia.
Qed.

(** Whatever the node holds, sorted or not, [binarySearchNode] returns a
    position from 1 to [numItems] when the node has items; for an empty
    node it returns the position 1, beyond [numItems], with no match.  So
    the test [keyNo <= numItems] of [findLeave], [findPath] and
    [modifyLeave] fails exactly on an empty node. *)
Theorem binarySearchNode_range (s : MultiIndex) (node key : list Z)
    (numItems : Z) :
  0 <= numItems ->
  1 <= fst (binarySearchNode s node key numItems)
  /\ (fst (binarySearchNode s node key numItems) <= numItems <-> numItems <> 0)
  /\ (numItems = 0 -> binarySearchNode s node key numItems = (1, false)).
Proof.
  intros H. unfold binarySearchNode.
  destruct (numItems =? 0) eqn:E.
  - apply Z.eqb_eq in E. subst. simpl.
    split; [lia|]. split; [split; lia | reflexivity].
  - apply Z.eqb_neq in E. cbn [fst].
    pose proof (binarySearchLoop_range s node key (Z.to_nat numItems) 1 numItems
                  ltac:(lia)).
    split; [lia|]. split; [split; intros; lia | intros N; lia].
Qed.

(** The root of [twoKeys], searched as the node of 3 items it is and as if
    it were empty. *)
Lemma binarySearchNode_range_witness :
  (1 <= fst (binarySearchNode twoKeys (rootBlock twoKeys) (str3 48 48 50) 3)
   /\ (fst (binarySearchNode twoKeys (rootBlock twoKeys) (str3 48 48 50) 3) <= 3
       <-> 3 <> 0)
   /\ (3 = 0 ->
       binarySearchNode twoKeys (rootBlock twoKeys) (str3 48 48 50) 3
       = (1, false)))
  /\ binarySearchNode twoKeys (rootBlock twoKeys) (str3 48 48 50) 0 = (1, false).
Proof.
  split.
  - apply (binarySearchNode_range twoKeys (rootBlock twoKeys) (str3 48 48 50) 3).
    lia.
  - apply (binarySearchNode_range twoKeys (rootBlock twoKeys) (str3 48 48 50) 0);
      [lia | reflexivity].
Defined.

(** ** The cursor and its two flags *)

Lemma flag_set_test (x f : Z) : f <> 0 -> (Z.land (Z.lor x f) f =? 0) = false.
Proof.
  intros Hf. apply Z.eqb_neq. rewrite Z.land_lor_distr_l, Z.land_diag.
  intros E. apply Z.lor_eq_0_iff in E. tauto.
Qed.

Lemma state_positioned (t : MultiIndex) (leavePos : Z) (leave : list Z)
    (old : PositionInfo) :
  let bof := (getPrevLeave leave =? INVALID_POSITION)
             || (leavePos =? getFirstLeave t) in
  let eof := (getNextLeave leave =? INVALID_POSITION)
             || (getNextLeave leave =? getLastLeave t) in
  negb (Z.land (state (positioned t leavePos leave old)) BEGIN_OF_FILE =? 0) = bof
  /\ negb (Z.land (state (positioned t leavePos leave old)) END_OF_FILE =? 0) = eof.
Proof.
  unfold positioned.
  destruct ((getPrevLeave leave =? INVALID_POSITION) || (leavePos =? getFirstLeave t));
    destruct ((getNextLeave leave =? INVALID_POSITION)
              || (getNextLeave leave =? getLastLeave t));
    cbn [state setFlag resetFlag]; unfold BEGIN_OF_FILE, END_OF_FILE;
    cbn [Z.sub Z.add Z.opp Z.pos_sub Pos.pred_double Z.succ_double Z.pred_double
         Z.double].
  - split.
    + rewrite Z.land_lor_distr_l. change (Z.land 1 2) with 0. rewrite Z.lor_0_r.
      now rewrite flag_set_test.
    + now rewrite flag_set_test.
  - split.
    + rewrite <- Z.land_assoc. change (Z.land (65535 - 1) 2) with 2.
      now rewrite flag_set_test.
    + rewrite <- Z.land_assoc. change (Z.land (65535 - 1) 1) with 0.
      now rewrite Z.land_0_r.
  - split.
    + rewrite Z.land_lor_distr_l. change (Z.land 1 2) with 0. rewrite Z.lor_0_r.
      rewrite <- Z.land_assoc. change (Z.land (65535 - 2) 2) with 0.
      now rewrite Z.land_0_r.
    + now rewrite flag_set_test.
  - split.
    + rewrite <- !Z.land_assoc. change (Z.land (65535 - 2) (Z.land (65535 - 1) 2)) with 0.
      now rewrite Z.land_0_r.
    + rewrite <- !Z.land_assoc. change (Z.land (65535 - 1) 1) with 0.
      now rewrite !Z.land_0_r.
Qed.

(** [setPositionFromLeave(leavePos, leave)] stores the leaf's position,
    links and data position in the cursor of the active index and sets the
    two flags from them alone, whatever the flags were: BOF exactly when
    the leaf has no predecessor or is [firstLeave], EOF exactly when it has
    no successor or its successor is [lastLeave], the sentinel.  Nothing
    else of the handle changes. *)
Theorem setPositionFromLeave_flags (s : MultiIndex) (leavePos : Z)
    (leave : list Z) :
  hasError s = false ->
  (Z.to_nat (m_currentIndex s) < length (m_positions s))%nat ->
  let s' := exec (setPositionFromLeave leavePos leave) s in
  outcome (setPositionFromLeave leavePos leave) s = Ret tt
  /\ currentLeave (curPos s') = leavePos
  /\ nextLeave (curPos s') = getNextLeave leave
  /\ prevLeave (curPos s') = getPrevLeave leave
  /\ currentDataPos (curPos s') = getDataPos leave
  /\ isBOFInternal s'
     = (getPrevLeave leave =? INVALID_POSITION) || (leavePos =? getFirstLeave s)
  /\ isEOFInternal s'
     = (getNextLeave leave =? INVALID_POSITION)
       || (getNextLeave leave =? getLastLeave s)
  /\ m_file s' = m_file s /\ m_indexInfo s' = m_indexInfo s.
Proof.
  intros Herr Hin s'.
  assert (E : setPositionFromLeave leavePos leave s
              = (Ret tt,
                 touch (m_filePos s)
                   (vector_set (m_positions s) (Z.to_nat (m_currentIndex s))
                      (positioned s leavePos leave (curPos s))) s)).
  { rewrite <- (touch_eta s) at 1. apply setPositionFromLeave_touch. }
  subst s'. unfold outcome, exec. rewrite E. cbn [fst snd].
  destruct (state_positioned s leavePos leave (curPos s)) as [HB HE].
  set (P := positioned s leavePos leave (curPos s)) in *.
  assert (C : curPos (touch (m_filePos s)
                        (vector_set (m_positions s) (Z.to_nat (m_currentIndex s)) P) s)
              = P).
  { unfold curPos. cbn [touch m_positions m_currentIndex].
    now apply nth_vector_set. }
  unfold isBOFInternal, isEOFInternal. rewrite C.
  change (hasError (touch ?a ?b s)) with (hasError s). rewrite Herr, HB, HE.
  repeat split; unfold P, positioned;
    destruct ((getPrevLeave leave =? INVALID_POSITION) || (leavePos =? getFirstLeave s));
    destruct ((getNextLeave leave =? INVALID_POSITION)
              || (getNextLeave leave =? getLastLeave s)); reflexivity.
Qed.

Lemma setPositionFromLeave_flags_witness :
  let s' := exec (setPositionFromLeave 257 (leafAt oneLong 257)) oneLong in
  outcome (setPositionFromLeave 257 (leafAt oneLong 257)) oneLong = Ret tt
  /\ currentLeave (curPos s') = 257
  /\ nextLeave (curPos s') = getNextLeave (leafAt oneLong 257)
  /\ prevLeave (curPos s') = getPrevLeave (leafAt oneLong 257)
  /\ currentDataPos (curPos s') = getDataPos (leafAt oneLong 257)
  /\ isBOFInternal s'
     = (getPrevLeave (leafAt oneLong 257) =? INVALID_POSITION)
       || (257 =? getFirstLeave oneLong)
  /\ isEOFInternal s'
     = (getNextLeave (leafAt oneLong 257) =? INVALID_POSITION)
       || (getNextLeave (leafAt oneLong 257) =? getLastLeave oneLong)
  /\ m_file s' = m_file oneLong /\ m_indexInfo s' = m_indexInfo oneLong.
Proof.
  apply (setPositionFromLeave_flags oneLong 257 (leafAt oneLong 257)).
  - vm_compute. reflexivity.
  - vm_compute. lia.
Defined.

(** ** Navigation *)

Lemma keepsDisk_getFirst : keepsDisk getFirst.
Proof.
  unfold getFirst.
  apply keepsDisk_bind; [apply keepsDisk_gets|]. intros [|];
    [apply keepsDisk_ret|].
  apply keepsDisk_bind; [apply keepsDisk_gets|]. intros firstL.
  apply keepsDisk_bind; [apply keepsDisk_gets|]. intros lastL.
  destruct (negb (firstL =? lastL));
    [apply keepsDisk_bringLeave | apply keepsDisk_ret].
Qed.

Lemma keepsDisk_getNext : keepsDisk getNext.
Proof.
  unfold getNext.
  apply keepsDisk_bind; [apply keepsDisk_gets|]. intros [|];
    [apply keepsDisk_ret|].
  apply keepsDisk_bind; [apply keepsDisk_gets|]. intros eof.
  apply keepsDisk_bind; [apply keepsDisk_gets|]. intros next.
  destruct (negb eof && negb (next =? INVALID_POSITION));
    [apply keepsDisk_bringLeave | apply keepsDisk_ret].
Qed.

Lemma keepsDisk_getPrev : keepsDisk getPrev.
Proof.
  unfold getPrev.
  apply keepsDisk_bind; [apply keepsDisk_gets|]. intros [|];
    [apply keepsDisk_ret|].
  apply keepsDisk_bind; [apply keepsDisk_gets|]. intros bof.
  apply keepsDisk_bind; [apply keepsDisk_gets|]. intros prev.
  destruct (negb bof && negb (prev =? INVALID_POSITION));
    [apply keepsDisk_bringLeave | apply keepsDisk_ret].
Qed.

Lemma keepsDisk_getCurrent : keepsDisk getCurrent.
Proof.
  unfold getCurrent.
  apply keepsDisk_bind; [apply keepsDisk_gets|]. intros [|];
    [apply keepsDisk_ret|].
  apply keepsDisk_bind; [apply keepsDisk_gets|]. intros cur.
  apply keepsDisk_bringLeave.
Qed.

(** [getFirst], [getNext], [getPrev] and [getCurrent] never write: however
    they end, the file holds the bytes it held and the index descriptors
    are the ones before the call. *)
Theorem navigation_never_writes (s : MultiIndex) :
  (m_file (exec getFirst s) = m_file s
   /\ m_indexInfo (exec getFirst s) = m_indexInfo s)
  /\ (m_file (exec getNext s) = m_file s
      /\ m_indexInfo (exec getNext s) = m_indexInfo s)
  /\ (m_file (exec getPrev s) = m_file s
      /\ m_indexInfo (exec getPrev s) = m_indexInfo s)
  /\ (m_file (exec getCurrent s) = m_file s
      /\ m_indexInfo (exec getCurrent s) = m_indexInfo s).
Proof.
  split; [apply keepsDisk_getFirst|].
  split; [apply keepsDisk_getNext|].
  split; [apply keepsDisk_getPrev | apply keepsDisk_getCurrent].
Qed.

(** What [bringLeave] does on a handle, given the leaf it reads. *)
Lemma bringLeave_on (leavePos : Z) (s s1 : MultiIndex) (r : Z * list Z) :
  leavePos <> INVALID_POSITION ->
  bringLeave leavePos s = (Ret r, s1) ->
  exists (o : option Z) (leave : list Z),
    forall p q,
      let q' := vector_set q (Z.to_nat (m_currentIndex s))
                  (positioned s leavePos leave
                     (nth (Z.to_nat (m_currentIndex s)) q defaultPositionInfo)) in
      bringLeave leavePos (touch p q s)
      = (Ret (currentDataPos
                (nth (Z.to_nat (m_currentIndex s)) q' defaultPositionInfo),
              peek (getLeaveKey leave) 0 (Z.to_nat (getKeySize s))),
         touch (movePos o p) q' s).
Proof.
  intros E. unfold bringLeave.
  destruct (leavePos =? INVALID_POSITION) eqn:E'; [apply Z.eqb_eq in E'; tauto|].
  unfold bind at 1. unfold gets at 1. unfold bind at 1.
  destruct (readLeave (allocateLeaveBlock s) leavePos s) as [[leave| |] s2] eqn:R;
    try discriminate.
  intros _.
  destruct (readOnly_readLeave (allocateLeaveBlock s) leavePos E s leave s2 R) as [o Ho].
  exists o, leave. intros p q. cbv zeta.
  unfold bind at 1. unfold gets at 1.
  change (allocateLeaveBlock (touch p q s)) with (allocateLeaveBlock s).
  unfold bind at 1. rewrite Ho.
  unfold bind at 1. rewrite setPositionFromLeave_touch.
  reflexivity.
Qed.

(** After a [find] that returned a data position, [getCurrent] returns
    that data position again and leaves the handle as [find] left it. *)
Theorem getCurrent_after_find (leavePos0 : Z) (key : list Z) (s s' : MultiIndex)
    (r : Z) :
  (Z.to_nat (m_currentIndex s) < length (m_positions s))%nat ->
  find leavePos0 key s = (Ret r, s') ->
  r <> INVALID_POSITION ->
  exists k, getCurrent s' = (Ret (r, k), s').
Proof.
  intros Hin H Hr. unfold find in H. unfold bind at 1 in H. unfold gets at 1 in H.
  destruct (hasError s) eqn:Herr.
  { inversion H. congruence. }
  unfold bind at 1 in H.
  destruct (findLeave key s) as [[[found assigned]| |] s1] eqn:F; try discriminate.
  destruct (readOnly_findLeave key s (found, assigned) s1 F) as [o1 H1].
  assert (S1 : s1 = touch (movePos o1 (m_filePos s)) (m_positions s) s).
  { specialize (H1 (m_filePos s) (m_positions s)).
    rewrite touch_eta in H1. congruence. }
  cbv zeta in H.
  set (leavePos := match assigned with
                   | Some pos => pos
                   | None => leavePos0
                   end) in *.
  destruct found.
  2:{ destruct (negb (leavePos =? INVALID_POSITION)).
      - unfold bind at 1 in H.
        destruct (bringLeave leavePos s1) as [[x| |] s2]; inversion H; congruence.
      - inversion H. congruence. }
  unfold bind at 1 in H.
  destruct (bringLeave leavePos s1) as [[[dataPos k]| |] s2] eqn:B; try discriminate.
  inversion H; subst dataPos s2. clear H.
  assert (Hl : leavePos <> INVALID_POSITION).
  { intros ->. unfold bringLeave in B. simpl in B. inversion B. congruence. }
  destruct (bringLeave_on leavePos s1 s' (r, k) Hl B) as (o & leave & Hb).
  set (i := Z.to_nat (m_currentIndex s)) in *.
  assert (Hi : Z.to_nat (m_currentIndex s1) = i) by (rewrite S1; reflexivity).
  rewrite Hi in Hb.
  set (g := fun q => vector_set q i
                       (positioned s1 leavePos leave (nth i q defaultPositionInfo))).
  pose proof (Hb (m_filePos s1) (m_positions s1)) as B1.
  cbv zeta in B1. rewrite touch_eta in B1. fold (g (m_positions s1)) in B1.
  rewrite B in B1.
  assert (Er : r = currentDataPos (nth i (g (m_positions s1)) defaultPositionInfo))
    by congruence.
  assert (Ek : k = peek (getLeaveKey leave) 0 (Z.to_nat (getKeySize s1)))
    by congruence.
  assert (Es : s' = touch (movePos o (m_filePos s1)) (g (m_positions s1)) s1)
    by congruence.
  clear B1.
  assert (Lq : (i < length (m_positions s1))%nat) by (rewrite S1; exact Hin).
  exists k. unfold getCurrent. unfold bind at 1. unfold gets at 1.
  assert (Herr' : hasError s' = false).
  { rewrite Es, S1. exact Herr. }
  rewrite Herr'. unfold bind at 1. unfold gets at 1.
  assert (Hc : currentLeave (curPos s') = leavePos).
  { rewrite Es. unfold curPos. cbn [touch m_positions m_currentIndex].
    rewrite Hi. unfold g. rewrite nth_vector_set by assumption.
    apply currentLeave_positioned. }
  rewrite Hc. rewrite Es at 1.
  rewrite (Hb (movePos o (m_filePos s1)) (g (m_positions s1))).
  cbv zeta. fold (g (g (m_positions s1))).
  assert (G : g (g (m_positions s1)) = g (m_positions s1)).
  { unfold g. rewrite (vector_set_twice (positioned s1 leavePos leave)).
    now rewrite positioned_idem. }
  rewrite G, movePos_idem. rewrite <- Es, <- Er, <- Ek. reflexivity.
Qed.

Lemma getCurrent_after_find_witness :
  exists k, getCurrent (exec (find 0 (str3 48 48 50)) twoKeys)
            = (Ret (2, k), exec (find 0 (str3 48 48 50)) twoKeys).
Proof.
  apply (getCurrent_after_find 0 (str3 48 48 50) twoKeys
           (exec (find 0 (str3 48 48 50)) twoKeys) 2).
  - vm_compute. lia.
  - vm_compute. reflexivity.
  - discriminate.
Defined.

(** ** Blocks written and read back *)

Lemma File_write_state (buffer : list Z) (size pos : Z) (s : MultiIndex) :
  0 <= pos -> 0 < size ->
  exists d, File_write buffer size pos s = (Ret tt, set_file d (pos + size) s)
            /\ firstn (Z.to_nat size) (skipn (Z.to_nat pos) d)
               = peek buffer 0 (Z.to_nat size).
Proof.
  intros Hp Hs.
  set (d := firstn (Z.to_nat pos) (m_file s)
              ++ repeat 0 (Z.to_nat pos - length (m_file s))
              ++ peek buffer 0 (Z.to_nat size)
              ++ skipn (Z.to_nat (pos + size)) (m_file s)).
  assert (W : File_write buffer size pos s = (Ret tt, set_file d (pos + size) s)).
  { unfold File_write.
    replace (pos =? INVALID_POSITION) with false
      by (symmetry; apply Z.eqb_neq; unfold INVALID_POSITION; lia).
    replace (pos <? 0) with false by (symmetry; apply Z.ltb_ge; lia).
    replace (size <=? 0) with false by (symmetry; apply Z.leb_gt; lia).
    reflexivity. }
  exists d. split; [exact W|].
  pose proof (File_write_on_disk buffer size pos s _ W) as D. cbv zeta in D.
  replace (pos =? INVALID_POSITION) with false in D
    by (symmetry; apply Z.eqb_neq; unfold INVALID_POSITION; lia).
  exact D.
Qed.

Lemma File_read_got (buf : list Z) (size pos : Z) (s : MultiIndex) (blk : list Z) :
  0 <= pos -> 0 <= size ->
  length buf = Z.to_nat size -> length blk = Z.to_nat size ->
  firstn (Z.to_nat size) (skipn (Z.to_nat pos) (m_file s)) = blk ->
  File_read buf size pos s = (Ret blk, set_filePos (pos + size) s).
Proof.
  intros Hp Hs Lb Lk G. unfold File_read.
  replace (pos =? INVALID_POSITION) with false
    by (symmetry; apply Z.eqb_neq; unfold INVALID_POSITION; lia).
  replace (pos <? 0) with false by (symmetry; apply Z.ltb_ge; lia).
  rewrite G. f_equal.
  - f_equal. unfold poke. simpl. rewrite Nat.sub_0_r, Lb, <- Lk, firstn_all.
    rewrite skipn_all2 by lia. apply app_nil_r.
  - rewrite Lk. f_equal. lia.
Qed.

Lemma setNodeChecksum_length (s : MultiIndex) (b : list Z) :
  length (setNodeChecksum s b) = length b.
Proof.
  destruct b; [reflexivity|]. unfold setNodeChecksum. now rewrite !poke_cons_0.
Qed.

Lemma peek_whole (b : list Z) (n : nat) : length b = n -> peek b 0 n = b.
Proof.
  intros H. unfold peek. simpl. rewrite <- H, firstn_all, Nat.sub_diag.
  apply app_nil_r.
Qed.

(** A block written by [writeLeave] or [writeNode] at a position, inside
    the file or beyond its end, is what [readLeave] or [readNode] returns
    from that position next, with the checksum byte the write has set; the
    read does not fail and no error is latched. *)
Theorem block_write_read_round_trip (s : MultiIndex) (leave node buf : list Z)
    (pos : Z) :
  0 <= pos ->
  0 < getLeaveSize s -> length leave = Z.to_nat (getLeaveSize s) ->
  0 < getNodeSize s -> length node = Z.to_nat (getNodeSize s) ->
  (outcome (writeLeave leave pos ;;; readLeave buf pos) s
   = Ret (setLeaveChecksum s leave)
   /\ m_errorCode (exec (writeLeave leave pos ;;; readLeave buf pos) s)
      = m_errorCode s)
  /\ (outcome (writeNode node pos ;;; readNode buf pos) s
      = Ret (setNodeChecksum s node)
      /\ m_errorCode (exec (writeNode node pos ;;; readNode buf pos) s)
         = m_errorCode s).
Proof.
  intros Hp Hs Hl Hs' Hl'. split.
  - destruct (File_write_state (setLeaveChecksum s leave) (getLeaveSize s) pos s Hp Hs)
      as (d & W & D).
    rewrite peek_whole in D by (now rewrite setLeaveChecksum_length).
    set (s1 := set_file d (pos + getLeaveSize s) s) in *.
    assert (R : readLeave buf pos s1 = (Ret (setLeaveChecksum s leave),
                                        set_filePos (pos + getLeaveSize s) s1)).
    { rewrite (readLeave_spec buf pos s1 (set_filePos (pos + getLeaveSize s) s1)
                 (setLeaveChecksum s leave)).
      - change (getLeaveSize s1) with (getLeaveSize s).
        unfold setLeaveChecksum at 1. rewrite checksum_after_set. reflexivity.
      - change (getLeaveSize s1) with (getLeaveSize s).
        apply File_read_got; try assumption; try lia.
        + unfold resize. apply peek_length.
        + now rewrite setLeaveChecksum_length. }
    unfold outcome, exec, bind, writeLeave, bind, gets, ret.
    rewrite W. fold s1. rewrite R. split; reflexivity.
  - destruct (File_write_state (setNodeChecksum s node) (getNodeSize s) pos s Hp Hs')
      as (d & W & D).
    rewrite peek_whole in D by (now rewrite setNodeChecksum_length).
    set (s1 := set_file d (pos + getNodeSize s) s) in *.
    assert (R : readNode buf pos s1 = (Ret (setNodeChecksum s node),
                                       set_filePos (pos + getNodeSize s) s1)).
    { rewrite (readNode_spec buf pos s1 (set_filePos (pos + getNodeSize s) s1)
                 (setNodeChecksum s node)).
      - change (getNodeSize s1) with (getNodeSize s).
        unfold setNodeChecksum at 1. rewrite checksum_after_set. reflexivity.
      - change (getNodeSize s1) with (getNodeSize s).
        apply File_read_got; try assumption; try lia.
        + unfold resize. apply peek_length.
        + now rewrite setNodeChecksum_length. }
    unfold outcome, exec, bind, writeNode, bind, gets, ret.
    rewrite W. fold s1. rewrite R. split; reflexivity.
Qed.

Lemma block_write_read_round_trip_witness :
  (outcome (writeLeave (leafAt oneLong 257) 1000 ;;; readLeave [] 1000) oneLong
   = Ret (setLeaveChecksum oneLong (leafAt oneLong 257))
   /\ m_errorCode (exec (writeLeave (leafAt oneLong 257) 1000 ;;; readLeave [] 1000)
                     oneLong)
      = m_errorCode oneLong)
  /\ (outcome (writeNode (rootBlock oneLong) 1000 ;;; readNode [] 1000) oneLong
      = Ret (setNodeChecksum oneLong (rootBlock oneLong))
      /\ m_errorCode (exec (writeNode (rootBlock oneLong) 1000 ;;; readNode [] 1000)
                        oneLong)
         = m_errorCode oneLong).
Proof.
  apply (block_write_read_round_trip oneLong (leafAt oneLong 257)
           (rootBlock oneLong) [] 1000).
  - lia.
  - vm_compute. reflexivity.
  - vm_compute. reflexivity.
  - vm_compute. reflexivity.
  - vm_compute. reflexivity.
Defined.

(** ** Reading beyond the end of the file *)

(** A read that meets the end of the file is not an error.  At a position
    at or beyond the end, [readLeave] and [readNode] get no byte: the
    zeroed buffer of [allocateLeaveBlock] or [allocateNodeBlock] comes
    back as it was, passes the checksum test, and the call returns it, not
    latching any error. *)
Theorem read_beyond_end_of_file (s : MultiIndex) (pos : Z) :
  Z.of_nat (length (m_file s)) <= pos ->
  readLeave (allocateLeaveBlock s) pos s
  = (Ret (allocateLeaveBlock s), set_filePos pos s)
  /\ readNode (allocateNodeBlock s) pos s
     = (Ret (allocateNodeBlock s), set_filePos pos s).
Proof.
  intros Hp.
  assert (G : forall n, firstn n (skipn (Z.to_nat pos) (m_file s)) = []).
  { intros n. rewrite skipn_all2 by lia. apply firstn_nil. }
  assert (Z0 : forall n, calculateBlockChecksum (zeros n) n = 0).
  { intros n. unfold calculateBlockChecksum, zeros.
    rewrite firstn_all2 by (rewrite repeat_length; lia).
    apply fold_left_lxor_zeros. }
  assert (RZ : forall n, resize (zeros n) n = zeros n).
  { intros n. unfold resize. apply peek_whole. apply zeros_length. }
  assert (P0 : forall b : list Z, poke b 0 [] = b).
  { intros b. unfold poke. simpl. destruct (length b - 0)%nat; reflexivity. }
  split.
  - rewrite (readLeave_spec _ pos s (set_filePos pos s) (allocateLeaveBlock s)).
    + unfold allocateLeaveBlock. now rewrite Z0.
    + unfold File_read, allocateLeaveBlock.
      replace (pos =? INVALID_POSITION) with false
        by (symmetry; apply Z.eqb_neq; unfold INVALID_POSITION; lia).
      replace (pos <? 0) with false by (symmetry; apply Z.ltb_ge; lia).
      rewrite G, RZ, P0. simpl. now rewrite Z.add_0_r.
  - rewrite (readNode_spec _ pos s (set_filePos pos s) (allocateNodeBlock s)).
    + unfold allocateNodeBlock. now rewrite Z0.
    + unfold File_read, allocateNodeBlock.
      replace (pos =? INVALID_POSITION) with false
        by (symmetry; apply Z.eqb_neq; unfold INVALID_POSITION; lia).
      replace (pos <? 0) with false by (symmetry; apply Z.ltb_ge; lia).
      rewrite G, RZ, P0. simpl. now rewrite Z.add_0_r.
Qed.

Lemma read_beyond_end_of_file_witness :
  readLeave (allocateLeaveBlock oneLong) 5000 oneLong
  = (Ret (allocateLeaveBlock oneLong), set_filePos 5000 oneLong)
  /\ readNode (allocateNodeBlock oneLong) 5000 oneLong
     = (Ret (allocateNodeBlock oneLong), set_filePos 5000 oneLong).
Proof.
  apply (read_beyond_end_of_file oneLong 5000).
  vm_compute. discriminate.
Defined.

(** ** The checksums of the header and of the descriptors *)

Lemma lxor_byte (a b : Z) : byteOK a -> byteOK b -> byteOK (Z.lxor a b).
Proof.
  unfold byteOK. intros Ha Hb.
  assert (N : 0 <= Z.lxor a b) by (apply Z.lxor_nonneg; lia).
  split; [exact N|].
  destruct (Z.eq_dec (Z.lxor a b) 0) as [E|E]; [lia|].
  change 256 with (2 ^ 8).
  apply (proj2 (Z.log2_lt_pow2 (Z.lxor a b) 8 ltac:(lia))).
  pose proof (Z.log2_lxor a b ltac:(lia) ltac:(lia)) as L.
  assert (La : Z.log2 a < 8).
  { destruct (Z.eq_dec a 0) as [->|]; [simpl; lia|].
    apply (proj1 (Z.log2_lt_pow2 a 8 ltac:(lia))). simpl. lia. }
  assert (Lb : Z.log2 b < 8).
  { destruct (Z.eq_dec b 0) as [->|]; [simpl; lia|].
    apply (proj1 (Z.log2_lt_pow2 b 8 ltac:(lia))). simpl. lia. }
  lia.
Qed.

Lemma fold_lxor_byte (l : list Z) : forall a,
  byteOK a -> Forall byteOK l -> byteOK (fold_left Z.lxor l a).
Proof.
  induction l as [|x l IH]; intros a Ha Hl; simpl; [exact Ha|].
  inversion Hl; subst. apply IH; [now apply lxor_byte | assumption].
Qed.

Lemma encodeLE_bytes (n : nat) : forall v, Forall byteOK (encodeLE n v).
Proof.
  induction n as [|n IH]; intros v; simpl; constructor; [|apply IH].
  unfold byteOK. apply Z.mod_pos_bound. lia.
Qed.

Lemma u8_byte (c : Z) : byteOK c -> u8 c = c.
Proof. unfold byteOK, u8. intros H. now apply Z.mod_small. Qed.

(** A block whose first byte is the XOR of the others XORs to zero. *)
Lemma checksum_headed (rest : list Z) (n : nat) :
  length rest = n ->
  Forall byteOK rest ->
  let c := calculateBlockChecksum (0 :: rest) (Z.of_nat (S n)) in
  u8 c = c
  /\ calculateBlockChecksum (c :: rest) (Z.of_nat (S n)) = 0.
Proof.
  intros L B c. subst c. unfold calculateBlockChecksum.
  rewrite Nat2Z.id. cbn [firstn fold_left].
  rewrite firstn_all2 by lia.
  change (Z.lxor 0 0) with 0.
  split.
  - apply u8_byte. apply fold_lxor_byte; [unfold byteOK; lia | assumption].
  - rewrite Z.lxor_0_l.
    rewrite (fold_left_lxor_acc rest (fold_left Z.lxor rest 0)).
    apply Z.lxor_nilpotent.
Qed.

Lemma IndexInfo_bytes_tail (i : IndexInfo) :
  exists rest,
    length rest = 66%nat /\ Forall byteOK rest
    /\ forall c, IndexInfo_bytes (with_checksum c i) = u8 c :: rest.
Proof.
  eexists. split; [|split].
  3:{ intros c. unfold IndexInfo_bytes. cbn [with_checksum checksum attributes
        keyType keySize maxItems freeCreateNodes freeCreateLeaves freeNode
        freeLeave numLevels rootNode firstLeave lastLeave app]. reflexivity. }
  - rewrite !length_app, !encodeLE_length. reflexivity.
  - repeat (apply Forall_app; split); apply encodeLE_bytes.
Qed.

Lemma setInfoChecksumOf_valid (i : IndexInfo) :
  calculateBlockChecksum (IndexInfo_bytes (setInfoChecksumOf i)) sizeof_IndexInfo = 0.
Proof.
  unfold setInfoChecksumOf.
  destruct (IndexInfo_bytes_tail (with_checksum 0 i)) as (rest & L & B & E).
  assert (E0 : IndexInfo_bytes (with_checksum 0 i) = 0 :: rest).
  { specialize (E 0). destruct i. exact E. }
  rewrite E0.
  replace (with_checksum (calculateBlockChecksum (0 :: rest) sizeof_IndexInfo)
             (with_checksum 0 i))
    with (with_checksum (calculateBlockChecksum (0 :: rest) sizeof_IndexInfo)
            (with_checksum 0 (with_checksum 0 i)))
    by (destruct i; reflexivity).
  rewrite E.
  destruct (checksum_headed rest 66 L B) as [U C].
  change (Z.of_nat 67) with sizeof_IndexInfo in U, C.
  rewrite U. exact C.
Qed.

Lemma IndexInfo_bytes_length (i : IndexInfo) : length (IndexInfo_bytes i) = 67%nat.
Proof.
  unfold IndexInfo_bytes. rewrite !length_app, !encodeLE_length. reflexivity.
Qed.

Lemma setHeaderChecksum_valid (s : MultiIndex) :
  testHeaderChecksum (exec setHeaderChecksum s) = true
  /\ exists c, exec setHeaderChecksum s = set_header_checksum c s.
Proof.
  unfold setHeaderChecksum, exec, bind, modify, testHeaderChecksum. cbn [snd].
  split; [|eexists; reflexivity].
  unfold MultiIndexHeader_bytes.
  cbn [set_header_checksum m_header_checksum m_header_numIndexes].
  change (u8 0) with 0.
  destruct (checksum_headed (encodeLE 2 (m_header_numIndexes s)) 2
              (encodeLE_length 2 _) (encodeLE_bytes 2 _)) as [U C].
  change (Z.of_nat 3) with sizeof_MultiIndexHeader in U, C.
  rewrite U, C. reflexivity.
Qed.

(** The header and the descriptors are written with checksums that their
    tests accept.  After [writeHeader] the header passes
    [testHeaderChecksum] and its 3 bytes open the file; after [writeInfo]
    the descriptor of the active index passes [testInfoChecksum] and its
    67 bytes lie in the file at [getIndexInfoPos]; after [writeAllInfo]
    every descriptor passes [testInfoChecksum].  None of the three calls
    fails. *)
Theorem header_and_descriptors_checksummed (s : MultiIndex) :
  0 <= m_currentIndex s ->
  activeIn s ->
  (outcome writeHeader s = Ret tt
   /\ testHeaderChecksum (exec writeHeader s) = true
   /\ firstn 3 (m_file (exec writeHeader s))
      = MultiIndexHeader_bytes (exec writeHeader s))
  /\ (outcome writeInfo s = Ret tt
      /\ testInfoChecksum (exec writeInfo s) (m_currentIndex s) = true
      /\ firstn 67 (skipn (Z.to_nat (getIndexInfoPos s)) (m_file (exec writeInfo s)))
         = IndexInfo_bytes (curInfo (exec writeInfo s)))
  /\ (outcome writeAllInfo s = Ret tt
      /\ forall i, testInfoChecksum (exec writeAllInfo s) i = true).
Proof.
  intros Hc Act. split; [|split].
  - destruct (setHeaderChecksum_valid s) as [T [c E]].
    unfold writeHeader, outcome, exec, bind in *.
    destruct (setHeaderChecksum s) as [[[]| |] s1] eqn:S;
      try (unfold setHeaderChecksum, bind, modify in S; discriminate).
    cbn [snd] in T, E. unfold gets.
    destruct (File_write_state (MultiIndexHeader_bytes s1) sizeof_MultiIndexHeader 0 s1
                ltac:(lia) ltac:(reflexivity)) as (d & W & D).
    rewrite W. cbn [fst snd]. split; [reflexivity|]. split.
    + exact T.
    + change (m_file (set_file d (0 + sizeof_MultiIndexHeader) s1)) with d.
      change (MultiIndexHeader_bytes (set_file d (0 + sizeof_MultiIndexHeader) s1))
        with (MultiIndexHeader_bytes s1).
      simpl skipn in D. rewrite peek_whole in D by reflexivity. exact D.
  - unfold writeInfo, outcome, exec, bind, modify, gets.
    set (s1 := updInfo setInfoChecksumOf s).
    assert (C1 : curInfo s1 = setInfoChecksumOf (curInfo s)).
    { unfold s1, updInfo, curInfo. cbn [set_indexInfo m_indexInfo m_currentIndex].
      now apply nth_vector_set. }
    assert (Hpos : 0 <= getIndexInfoPos s1).
    { unfold getIndexInfoPos, sizeof_MultiIndexHeader, sizeof_IndexInfo.
      change (m_currentIndex s1) with (m_currentIndex s). lia. }
    destruct (File_write_state (IndexInfo_bytes (curInfo s1)) sizeof_IndexInfo
                (getIndexInfoPos s1) s1 Hpos ltac:(reflexivity)) as (d & W & D).
    rewrite W. cbn [fst snd]. split; [reflexivity|]. split.
    + unfold testInfoChecksum.
      change (nth (Z.to_nat (m_currentIndex s)) (m_indexInfo (set_file d _ s1))
                defaultIndexInfo) with (curInfo s1).
      rewrite C1, setInfoChecksumOf_valid. reflexivity.
    + change (m_file (set_file d (getIndexInfoPos s1 + sizeof_IndexInfo) s1)) with d.
      change (curInfo (set_file d (getIndexInfoPos s1 + sizeof_IndexInfo) s1))
        with (curInfo s1).
      change (getIndexInfoPos s) with (getIndexInfoPos s1).
      rewrite peek_whole in D by apply IndexInfo_bytes_length. exact D.
  - unfold writeAllInfo, outcome, exec, bind, modify, gets.
    set (s1 := set_indexInfo (map setInfoChecksumOf (m_indexInfo s)) s).
    assert (W : exists d p,
               File_write (flat_map IndexInfo_bytes (m_indexInfo s1))
                 (sizeof_IndexInfo * m_header_numIndexes s1) sizeof_MultiIndexHeader s1
               = (Ret tt, set_file d p s1)).
    { unfold File_write. simpl (sizeof_MultiIndexHeader =? INVALID_POSITION).
      simpl (sizeof_MultiIndexHeader <? 0). cbv iota.
      destruct (sizeof_IndexInfo * m_header_numIndexes s1 <=? 0).
      - exists (m_file s1), sizeof_MultiIndexHeader. reflexivity.
      - eexists. eexists. reflexivity. }
    destruct W as (d & p & W). rewrite W. cbn [fst snd].
    split; [reflexivity|]. intros i. unfold testInfoChecksum.
    change (m_indexInfo (set_file d p s1)) with (map setInfoChecksumOf (m_indexInfo s)).
    destruct (Nat.lt_ge_cases (Z.to_nat i) (length (m_indexInfo s))) as [L|L].
    + rewrite (nth_indep _ defaultIndexInfo (setInfoChecksumOf defaultIndexInfo))
        by (now rewrite length_map).
      rewrite map_nth, setInfoChecksumOf_valid. reflexivity.
    + rewrite nth_overflow by (now rewrite length_map). reflexivity.
Qed.

Lemma header_and_descriptors_checksummed_witness :
  (outcome writeHeader oneLong = Ret tt
   /\ testHeaderChecksum (exec writeHeader oneLong) = true
   /\ firstn 3 (m_file (exec writeHeader oneLong))
      = MultiIndexHeader_bytes (exec writeHeader oneLong))
  /\ (outcome writeInfo oneLong = Ret tt
      /\ testInfoChecksum (exec writeInfo oneLong) (m_currentIndex oneLong) = true
      /\ firstn 67 (skipn (Z.to_nat (getIndexInfoPos oneLong))
                      (m_file (exec writeInfo oneLong)))
         = IndexInfo_bytes (curInfo (exec writeInfo oneLong)))
  /\ (outcome writeAllInfo oneLong = Ret tt
      /\ forall i, testInfoChecksum (exec writeAllInfo oneLong) i = true).
Proof.
  apply (header_and_descriptors_checksummed oneLong).
  - vm_compute. discriminate.
  - vm_compute. lia.
Defined.

(** ** Bytes of a block by their offset *)

Lemma nthZ_peek (buf : list Z) (off : Z) (n : nat) (z : Z) :
  0 <= off -> 0 <= z ->
  nthZ z (peek buf off n) = if z <? Z.of_nat n then nthZ (off + z) buf else 0.
Proof.
  intros Ho Hz. unfold nthZ.
  replace (z <? 0) with false by (symmetry; apply Z.ltb_ge; lia).
  replace (off + z <? 0) with false by (symmetry; apply Z.ltb_ge; lia).
  rewrite nth_peek.
  destruct (z <? Z.of_nat n) eqn:E.
  - apply Z.ltb_lt in E.
    replace (Z.to_nat z <? n)%nat with true by (symmetry; apply Nat.ltb_lt; lia).
    f_equal. lia.
  - apply Z.ltb_ge in E.
    replace (Z.to_nat z <? n)%nat with false by (symmetry; apply Nat.ltb_ge; lia).
    reflexivity.
Qed.

Lemma nthZ_peek_any (buf : list Z) (off : Z) (n : nat) (z : Z) :
  0 <= off ->
  nthZ z (peek buf off n)
  = if (0 <=? z) && (z <? Z.of_nat n) then nthZ (off + z) buf else 0.
Proof.
  intros Ho. destruct (0 <=? z) eqn:E.
  - apply Z.leb_le in E. simpl. now apply nthZ_peek.
  - apply Z.leb_gt in E. simpl. unfold nthZ.
    replace (z <? 0) with true by (symmetry; apply Z.ltb_lt; lia). reflexivity.
Qed.

Lemma nthZ_poke (buf : list Z) (off : Z) (x : list Z) (z : Z) :
  0 <= off -> 0 <= z ->
  off + Z.of_nat (length x) <= Z.of_nat (length buf) ->
  nthZ z (poke buf off x)
  = if (off <=? z) && (z <? off + Z.of_nat (length x))
    then nthZ (z - off) x else nthZ z buf.
Proof.
  intros Ho Hz R. unfold nthZ.
  replace (z <? 0) with false by (symmetry; apply Z.ltb_ge; lia).
  rewrite nth_poke by lia.
  destruct ((off <=? z) && (z <? off + Z.of_nat (length x))) eqn:E.
  - apply andb_true_iff in E. destruct E as [E1 E2].
    apply Z.leb_le in E1. apply Z.ltb_lt in E2.
    replace ((Z.to_nat off <=? Z.to_nat z)
             && (Z.to_nat z <? Z.to_nat off + length x))%nat with true
      by (symmetry; apply andb_true_iff; split;
          [apply Nat.leb_le | apply Nat.ltb_lt]; lia).
    replace (z - off <? 0) with false by (symmetry; apply Z.ltb_ge; lia).
    f_equal. lia.
  - replace ((Z.to_nat off <=? Z.to_nat z)
             && (Z.to_nat z <? Z.to_nat off + length x))%nat with false;
      [reflexivity|].
    symmetry. apply andb_false_iff. apply andb_false_iff in E.
    destruct E as [E|E]; [left; apply Nat.leb_gt; apply Z.leb_gt in E; lia
                         | right; apply Nat.ltb_ge; apply Z.ltb_ge in E; lia].
Qed.

Lemma nthZ_skipn (buf : list Z) (off z : Z) :
  0 <= off -> 0 <= z -> nthZ z (skipn (Z.to_nat off) buf) = nthZ (off + z) buf.
Proof.
  intros Ho Hz. unfold nthZ.
  replace (z <? 0) with false by (symmetry; apply Z.ltb_ge; lia).
  replace (off + z <? 0) with false by (symmetry; apply Z.ltb_ge; lia).
  rewrite nth_skipn. f_equal. lia.
Qed.

Lemma nthZ_ext (a b : list Z) :
  length a = length b ->
  (forall z, 0 <= z < Z.of_nat (length a) -> nthZ z a = nthZ z b) ->
  a = b.
Proof.
  intros L H. apply nth_ext with (d := 0) (d' := 0); [exact L|].
  intros j Hj. specialize (H (Z.of_nat j) ltac:(lia)). unfold nthZ in H.
  replace (Z.of_nat j <? 0) with false in H by (symmetry; apply Z.ltb_ge; lia).
  now rewrite Nat2Z.id in H.
Qed.

(** Two windows that show the same bytes. *)
Lemma peek_ext (a b : list Z) (oa ob : Z) (n : nat) :
  0 <= oa -> 0 <= ob ->
  (forall z, 0 <= z < Z.of_nat n -> nthZ (oa + z) a = nthZ (ob + z) b) ->
  peek a oa n = peek b ob n.
Proof.
  intros Ha Hb H. apply nthZ_ext; [now rewrite !peek_length|].
  rewrite peek_length. intros z Hz.
  rewrite !nthZ_peek by lia.
  replace (z <? Z.of_nat n) with true by (symmetry; apply Z.ltb_lt; lia).
  now apply H.
Qed.

Lemma peek_is (a x : list Z) (oa : Z) :
  0 <= oa ->
  (forall z, 0 <= z < Z.of_nat (length x) -> nthZ (oa + z) a = nthZ z x) ->
  peek a oa (length x) = x.
Proof.
  intros Ha H. apply nthZ_ext; [apply peek_length|].
  rewrite peek_length. intros z Hz.
  rewrite nthZ_peek by lia.
  replace (z <? Z.of_nat (length x)) with true by (symmetry; apply Z.ltb_lt; lia).
  now apply H.
Qed.

(** ** 64-bit and 16-bit fields *)

Lemma getI64_window (a b : list Z) (oa ob : Z) :
  peek a oa 8 = peek b ob 8 -> getI64 a oa = getI64 b ob.
Proof. unfold getI64. now intros ->. Qed.

Lemma getI64_is (a : list Z) (off v : Z) :
  - 2 ^ 63 <= v < 2 ^ 63 ->
  peek a off 8 = encodeLE 8 v -> getI64 a off = v.
Proof.
  intros Hv H. unfold getI64. rewrite H, decodeLE_encodeLE.
  change (256 ^ Z.of_nat 8) with (2 ^ 64).
  apply signed_wrap; simpl; lia.
Qed.

Lemma getU16_is (a : list Z) (off v : Z) :
  0 <= v < 65536 ->
  peek a off 2 = encodeLE 2 v -> getU16 a off = v.
Proof.
  intros Hv H. unfold getU16. rewrite H, decodeLE_encodeLE.
  change (256 ^ Z.of_nat 2) with 65536. now apply Z.mod_small.
Qed.

(** ** The fields of a leaf *)

Lemma setI64_window_same (b : list Z) (off v : Z) :
  0 <= off -> off + 8 <= Z.of_nat (length b) ->
  peek (setI64 b off v) off 8 = encodeLE 8 v.
Proof.
  intros Ho Hl. unfold setI64.
  change 8%nat with (length (encodeLE 8 v)) at 1.
  apply peek_poke_same. rewrite encodeLE_length. lia.
Qed.

Lemma setI64_window_apart (b : list Z) (off off' v : Z) (n : nat) :
  0 <= off -> 0 <= off' -> off + 8 <= Z.of_nat (length b) ->
  off' + Z.of_nat n <= off \/ off + 8 <= off' ->
  peek (setI64 b off v) off' n = peek b off' n.
Proof.
  intros Ho Ho' Hl Hd. unfold setI64.
  apply peek_poke_apart; rewrite encodeLE_length; lia.
Qed.

Lemma skipn_setI64 (b : list Z) (off v : Z) (k : nat) :
  0 <= off -> off + 8 <= Z.of_nat (length b) -> off + 8 <= Z.of_nat k ->
  skipn k (setI64 b off v) = skipn k b.
Proof.
  intros Ho Hl Hk. unfold setI64, poke.
  rewrite encodeLE_length.
  rewrite (firstn_all2 (encodeLE 8 v)) by (rewrite encodeLE_length; lia).
  rewrite app_assoc, skipn_app.
  rewrite skipn_all2
    by (rewrite length_app, length_firstn, encodeLE_length; lia).
  rewrite length_app, length_firstn, encodeLE_length, Nat.min_l by lia.
  rewrite skipn_skipn. simpl. f_equal. lia.
Qed.

Lemma setLeaveKey_window (s : MultiIndex) (b key : list Z) :
  0 <= getKeySize s ->
  sizeof_LeafHeader + getKeySize s <= Z.of_nat (length b) ->
  peek (getLeaveKey (setLeaveKey s b key)) 0 (Z.to_nat (getKeySize s))
  = peek key 0 (Z.to_nat (getKeySize s)).
Proof.
  intros Hk Hl. unfold getLeaveKey, setLeaveKey, memcpy, sizeof_LeafHeader in *.
  set (x := peek key 0 (Z.to_nat (getKeySize s))).
  assert (Lx : length x = Z.to_nat (getKeySize s)) by apply peek_length.
  rewrite <- Lx. apply peek_is; [lia|].
  intros z Hz. rewrite Z.add_0_l, nthZ_skipn by lia.
  rewrite nthZ_poke by lia.
  replace ((25 <=? 25 + z) && (25 + z <? 25 + Z.of_nat (length x))) with true
    by (symmetry; apply andb_true_iff; split;
        [apply Z.leb_le | apply Z.ltb_lt]; lia).
  replace (25 + z - 25) with z by lia. reflexivity.
Qed.

Lemma setLeaveKey_header (s : MultiIndex) (b key : list Z) (off : Z) :
  0 <= getKeySize s ->
  sizeof_LeafHeader + getKeySize s <= Z.of_nat (length b) ->
  0 <= off -> off + 8 <= sizeof_LeafHeader ->
  getI64 (setLeaveKey s b key) off = getI64 b off.
Proof.
  intros Hk Hl Ho Ho'. apply getI64_window.
  unfold setLeaveKey, memcpy, sizeof_LeafHeader in *.
  apply peek_poke_apart; rewrite peek_length; lia.
Qed.

(** The fields of a leaf block are apart: each setter stores a value that
    its getter returns and leaves the other fields and the key alone, and
    [setLeaveKey] stores the first [keySize] bytes of the key and leaves
    the three links alone. *)
Theorem leaf_fields_round_trip (s : MultiIndex) (b key : list Z) (v : Z) :
  0 <= getKeySize s ->
  sizeof_LeafHeader + getKeySize s <= Z.of_nat (length b) ->
  - 2 ^ 63 <= v < 2 ^ 63 ->
  (getNextLeave (setNextLeave b v) = v
   /\ getPrevLeave (setNextLeave b v) = getPrevLeave b
   /\ getDataPos (setNextLeave b v) = getDataPos b
   /\ getLeaveKey (setNextLeave b v) = getLeaveKey b)
  /\ (getPrevLeave (setPrevLeave b v) = v
      /\ getNextLeave (setPrevLeave b v) = getNextLeave b
      /\ getDataPos (setPrevLeave b v) = getDataPos b
      /\ getLeaveKey (setPrevLeave b v) = getLeaveKey b)
  /\ (getDataPos (setDataPos b v) = v
      /\ getNextLeave (setDataPos b v) = getNextLeave b
      /\ getPrevLeave (setDataPos b v) = getPrevLeave b
      /\ getLeaveKey (setDataPos b v) = getLeaveKey b)
  /\ (peek (getLeaveKey (setLeaveKey s b key)) 0 (Z.to_nat (getKeySize s))
      = peek key 0 (Z.to_nat (getKeySize s))
      /\ getNextLeave (setLeaveKey s b key) = getNextLeave b
      /\ getPrevLeave (setLeaveKey s b key) = getPrevLeave b
      /\ getDataPos (setLeaveKey s b key) = getDataPos b).
Proof.
  intros Hk Hl Hv. unfold sizeof_LeafHeader in Hl.
  unfold getNextLeave, setNextLeave, getPrevLeave, setPrevLeave, getDataPos,
    setDataPos, getLeaveKey, sizeof_LeafHeader.
  repeat split;
    try (apply getI64_is; [assumption | apply setI64_window_same; lia]);
    try (apply getI64_window; apply setI64_window_apart; lia);
    try (apply skipn_setI64; simpl; lia);
    try (apply setLeaveKey_header; unfold sizeof_LeafHeader; lia).
  now apply setLeaveKey_window.
Qed.

Lemma leaf_fields_round_trip_witness :
  (getNextLeave (setNextLeave (leafAt oneLong 257) (-7)) = -7
   /\ getPrevLeave (setNextLeave (leafAt oneLong 257) (-7))
      = getPrevLeave (leafAt oneLong 257)
   /\ getDataPos (setNextLeave (leafAt oneLong 257) (-7))
      = getDataPos (leafAt oneLong 257)
   /\ getLeaveKey (setNextLeave (leafAt oneLong 257) (-7))
      = getLeaveKey (leafAt oneLong 257))
  /\ (getPrevLeave (setPrevLeave (leafAt oneLong 257) (-7)) = -7
      /\ getNextLeave (setPrevLeave (leafAt oneLong 257) (-7))
         = getNextLeave (leafAt oneLong 257)
      /\ getDataPos (setPrevLeave (leafAt oneLong 257) (-7))
         = getDataPos (leafAt oneLong 257)
      /\ getLeaveKey (setPrevLeave (leafAt oneLong 257) (-7))
         = getLeaveKey (leafAt oneLong 257))
  /\ (getDataPos (setDataPos (leafAt oneLong 257) (-7)) = -7
      /\ getNextLeave (setDataPos (leafAt oneLong 257) (-7))
         = getNextLeave (leafAt oneLong 257)
      /\ getPrevLeave (setDataPos (leafAt oneLong 257) (-7))
         = getPrevLeave (leafAt oneLong 257)
      /\ getLeaveKey (setDataPos (leafAt oneLong 257) (-7))
         = getLeaveKey (leafAt oneLong 257))
  /\ (peek (getLeaveKey (setLeaveKey oneLong (leafAt oneLong 257) (long 9))) 0
        (Z.to_nat (getKeySize oneLong))
      = peek (long 9) 0 (Z.to_nat (getKeySize oneLong))
      /\ getNextLeave (setLeaveKey oneLong (leafAt oneLong 257) (long 9))
         = getNextLeave (leafAt oneLong 257)
      /\ getPrevLeave (setLeaveKey oneLong (leafAt oneLong 257) (long 9))
         = getPrevLeave (leafAt oneLong 257)
      /\ getDataPos (setLeaveKey oneLong (leafAt oneLong 257) (long 9))
         = getDataPos (leafAt oneLong 257)).
Proof.
  apply (leaf_fields_round_trip oneLong (leafAt oneLong 257) (long 9) (-7)).
  - vm_compute. discriminate.
  - vm_compute. discriminate.
  - simpl. lia.
Defined.

(** ** The items of a node, byte by byte *)

Ltac bool_cases :=
  repeat match goal with
         | H : (_ && _) = true |- _ => apply andb_true_iff in H; destruct H
         | H : (_ && _) = false |- _ => apply andb_false_iff in H
         | H : (_ <=? _) = true |- _ => apply Z.leb_le in H
         | H : (_ <=? _) = false |- _ => apply Z.leb_gt in H
         | H : (_ <? _) = true |- _ => apply Z.ltb_lt in H
         | H : (_ <? _) = false |- _ => apply Z.ltb_ge in H
         end.

Section NodeItems.

Variable s : MultiIndex.
Hypothesis Herr : hasError s = false.
Hypothesis Hk0 : 0 <= keySize (curInfo s).
Hypothesis Hk1 : keySize (curInfo s) + 8 < 65536.

Lemma keySize_known : getKeySize s = keySize (curInfo s).
Proof. unfold getKeySize. now rewrite Herr. Qed.

Lemma itemSize_known : getItemSize s = keySize (curInfo s) + 8.
Proof. unfold getItemSize, u16. apply Z.mod_small. lia. Qed.

Lemma nodeKeyOff_known (q : Z) :
  nodeKeyOff s q = 19 + (keySize (curInfo s) + 8) * (q - 1).
Proof. unfold nodeKeyOff. now rewrite itemSize_known. Qed.

(** Two items that show the same bytes have the same key and child. *)
Lemma item_window (X Y : list Z) (q q' : Z) :
  1 <= q -> 1 <= q' ->
  (forall z, 0 <= z < keySize (curInfo s) + 8 ->
             nthZ (nodeKeyOff s q + z) X = nthZ (nodeKeyOff s q' + z) Y) ->
  itemKey s X q = itemKey s Y q' /\ getChildPos s X q = getChildPos s Y q'.
Proof.
  intros Hq Hq' H.
  assert (O : 0 <= nodeKeyOff s q) by (rewrite nodeKeyOff_known; nia).
  assert (O' : 0 <= nodeKeyOff s q') by (rewrite nodeKeyOff_known; nia).
  split.
  - unfold itemKey, getNodeKey. rewrite keySize_known.
    apply nthZ_ext; [now rewrite !peek_length|].
    rewrite peek_length. intros z Hz.
    rewrite !nthZ_peek by lia.
    replace (z <? Z.of_nat (Z.to_nat (keySize (curInfo s)))) with true
      by (symmetry; apply Z.ltb_lt; lia).
    rewrite !Z.add_0_l, !nthZ_skipn by lia. apply H. lia.
  - unfold getChildPos. apply getI64_window. rewrite keySize_known.
    apply peek_ext; try lia.
    intros z Hz. rewrite <- !Z.add_assoc. apply H.
    change (Z.of_nat 8) with 8 in Hz. lia.
Qed.

(** An item that shows a key and a child position. *)
Lemma item_is (X key : list Z) (q c : Z) :
  1 <= q -> - 2 ^ 63 <= c < 2 ^ 63 ->
  (forall z, 0 <= z < keySize (curInfo s) ->
             nthZ (nodeKeyOff s q + z) X
             = nthZ z (peek key 0 (Z.to_nat (keySize (curInfo s))))) ->
  (forall z, 0 <= z < 8 ->
             nthZ (nodeKeyOff s q + keySize (curInfo s) + z) X
             = nthZ z (encodeLE 8 c)) ->
  itemKey s X q = peek key 0 (Z.to_nat (getKeySize s))
  /\ getChildPos s X q = c.
Proof.
  intros Hq Hc HK HC.
  assert (O : 0 <= nodeKeyOff s q) by (rewrite nodeKeyOff_known; nia).
  split.
  - unfold itemKey, getNodeKey. rewrite keySize_known.
    apply nthZ_ext; [now rewrite !peek_length|].
    rewrite peek_length. intros z Hz.
    rewrite (nthZ_peek (skipn _ X)) by lia.
    replace (z <? Z.of_nat (Z.to_nat (keySize (curInfo s)))) with true
      by (symmetry; apply Z.ltb_lt; lia).
    rewrite Z.add_0_l, nthZ_skipn by lia. apply HK. lia.
  - unfold getChildPos. apply getI64_is; [assumption|].
    rewrite keySize_known.
    change 8%nat with (length (encodeLE 8 c)).
    apply peek_is; [lia|]. intros z Hz. apply HC.
    pose proof (encodeLE_length 8 c) as L8. rewrite L8 in Hz. lia.
Qed.

Lemma nodeKeyOff_step (q : Z) :
  nodeKeyOff s (q + 1) = nodeKeyOff s q + (keySize (curInfo s) + 8).
Proof. rewrite !nodeKeyOff_known. ring. Qed.

Lemma nodeKeyOff_mono (q q' : Z) :
  q <= q' -> nodeKeyOff s q <= nodeKeyOff s q'.
Proof. intros H. rewrite !nodeKeyOff_known. nia. Qed.

Lemma nodeKeyOff_first : nodeKeyOff s 1 = 19.
Proof. rewrite nodeKeyOff_known. ring. Qed.

(** The bytes of a node after [insertItem]. *)
Lemma insertItem_bytes (node key : list Z) (itemNo c : Z) :
  1 <= itemNo ->
  0 <= getNumItems node -> getNumItems node + 1 < 65536 ->
  nodeKeyOff s (getNumItems node + 2) <= Z.of_nat (length node) ->
  length (insertItem s node itemNo key c) = length node
  /\ forall z, 0 <= z ->
       nthZ z (insertItem s node itemNo key c)
       = let p := Z.min itemNo (getNumItems node + 1) in
         let K := keySize (curInfo s) in
         if (1 <=? z) && (z <? 3)
         then nthZ (z - 1) (encodeLE 2 (getNumItems node + 1))
         else if (nodeKeyOff s p <=? z) && (z <? nodeKeyOff s p + K)
         then nthZ (z - nodeKeyOff s p) (peek key 0 (Z.to_nat K))
         else if (nodeKeyOff s p + K <=? z) && (z <? nodeKeyOff s p + K + 8)
         then nthZ (z - (nodeKeyOff s p + K)) (encodeLE 8 c)
         else if (nodeKeyOff s (p + 1) <=? z)
                 && (z <? nodeKeyOff s (getNumItems node + 2))
         then nthZ (z - (K + 8)) node
         else nthZ z node.
Proof.
  intros Hi Hn0 Hn1 Hcap. cbv zeta.
  set (n := getNumItems node) in *.
  set (K := keySize (curInfo s)) in *.
  unfold insertItem. fold n.
  replace (itemNo =? 0) with false by (symmetry; apply Z.eqb_neq; lia).
  unfold setChildPos, setNodeKey, memcpy, setI64, setNumItems, setU16, memmove.
  rewrite keySize_known, itemSize_known. fold K.
  set (kb := peek key 0 (Z.to_nat K)).
  assert (Lkb : Z.of_nat (length kb) = K) by (unfold kb; rewrite peek_length; lia).
  set (cb := encodeLE 8 c).
  assert (Lcb : Z.of_nat (length cb) = 8) by (unfold cb; now rewrite encodeLE_length).
  set (nb := encodeLE 2 (n + 1)).
  assert (Lnb : Z.of_nat (length nb) = 2) by (unfold nb; now rewrite encodeLE_length).
  set (node1 := poke node 1 nb).
  pose proof (nodeKeyOff_first) as O1.
  pose proof (nodeKeyOff_mono 1 (n + 2) ltac:(lia)) as Ocap.
  assert (L1 : length node1 = length node)
    by (apply poke_length_in; lia).
  destruct (itemNo >=? n + 1) eqn:C.
  - (* the item goes after the last one *)
    assert (Hp : Z.min itemNo (n + 1) = n + 1)
      by (apply Z.geb_le in C; lia).
    rewrite Hp. unfold u16. rewrite Z.mod_small by lia.
    pose proof (nodeKeyOff_mono 1 (n + 1) ltac:(lia)) as Op.
    pose proof (nodeKeyOff_step (n + 1)) as Os.
    replace (n + 1 + 1) with (n + 2) in * by lia. fold K in Os.
    set (o := nodeKeyOff s (n + 1)) in *.
    set (node3 := poke node1 o kb).
    assert (L3 : length node3 = length node)
      by (unfold node3; rewrite poke_length_in; lia).
    split; [rewrite poke_length_in; lia|].
    intros z Hz.
    rewrite nthZ_poke by lia. unfold node3.
    rewrite nthZ_poke by lia. unfold node1.
    rewrite nthZ_poke by lia.
    rewrite Lkb, Lcb, Lnb.
    replace (1 + 2) with 3 by lia.
    destruct ((1 <=? z) && (z <? 3)) eqn:E1;
      destruct ((o <=? z) && (z <? o + K)) eqn:E2;
      destruct ((o + K <=? z) && (z <? o + K + 8)) eqn:E3;
      destruct ((nodeKeyOff s (n + 2) <=? z) && (z <? nodeKeyOff s (n + 2))) eqn:E4;
      bool_cases; try reflexivity; try lia.
  - (* the items from [itemNo] on move up by one *)
    assert (C' : itemNo < n + 1)
      by (rewrite Z.geb_leb in C; apply Z.leb_gt in C; lia).
    assert (Hp : Z.min itemNo (n + 1) = itemNo) by lia.
    rewrite Hp.
    pose proof (nodeKeyOff_mono 1 itemNo ltac:(lia)) as Op.
    pose proof (nodeKeyOff_step itemNo) as Os. fold K in Os.
    pose proof (nodeKeyOff_mono (itemNo + 1) (n + 2) ltac:(lia)) as Om.
    assert (Ospan : nodeKeyOff s (n + 2)
                    = nodeKeyOff s (itemNo + 1) + (K + 8) * (n - itemNo + 1))
      by (rewrite !nodeKeyOff_known; fold K; ring).
    assert (Esrc : sizeof_NodeHeader + (K + 8) * (itemNo - 1) = nodeKeyOff s itemNo)
      by (rewrite nodeKeyOff_known; reflexivity).
    assert (Edst : sizeof_NodeHeader + (K + 8) * itemNo = nodeKeyOff s (itemNo + 1))
      by (rewrite nodeKeyOff_known; fold K; unfold sizeof_NodeHeader; ring).
    rewrite Esrc, Edst.
    set (len := (K + 8) * (n - itemNo + 1)) in *.
    assert (Hlen : 0 <= len) by (unfold len; nia).
    set (o := nodeKeyOff s itemNo) in *.
    set (o' := nodeKeyOff s (itemNo + 1)) in *.
    set (mv := peek node1 o (Z.to_nat len)).
    assert (Lmv : Z.of_nat (length mv) = len)
      by (unfold mv; rewrite peek_length; lia).
    set (node2 := poke node1 o' mv).
    assert (L2 : length node2 = length node)
      by (unfold node2; rewrite poke_length_in; lia).
    set (node3 := poke node2 o kb).
    assert (L3 : length node3 = length node)
      by (unfold node3; rewrite poke_length_in; lia).
    split; [rewrite poke_length_in; lia|].
    intros z Hz.
    rewrite nthZ_poke by lia. unfold node3.
    rewrite nthZ_poke by lia. unfold node2.
    rewrite nthZ_poke by lia.
    rewrite Lkb, Lcb, Lmv. unfold mv.
    rewrite nthZ_peek_any by lia. unfold node1.
    rewrite (nthZ_poke node 1 nb z) by lia.
    rewrite Lnb.
    replace (1 + 2) with 3 by lia.
    replace (Z.of_nat (Z.to_nat len)) with len by lia.
    rewrite Ospan.
    replace (o + (z - o')) with (z - (K + 8)) by lia.
    destruct ((1 <=? z) && (z <? 3)) eqn:E1;
      destruct ((o <=? z) && (z <? o + K)) eqn:E2;
      destruct ((o + K <=? z) && (z <? o + K + 8)) eqn:E3;
      destruct ((o' <=? z) && (z <? o' + len)) eqn:E4;
      destruct ((0 <=? z - o') && (z - o' <? len)) eqn:E5;
      bool_cases; try reflexivity; try lia.
    all: rewrite nthZ_poke by lia; rewrite Lnb.
    all: replace ((1 <=? z - (K + 8)) && (z - (K + 8) <? 1 + 2)) with false
           by (symmetry; apply andb_false_iff; right; apply Z.ltb_ge; lia).
    all: reflexivity.
Qed.

(** The bytes of a node after [deleteItem]. *)
Lemma deleteItem_bytes (node : list Z) (itemNo : Z) :
  1 <= getNumItems node -> getNumItems node < 65536 ->
  nodeKeyOff s (getNumItems node + 1) <= Z.of_nat (length node) ->
  length (deleteItem s node itemNo) = length node
  /\ forall z, 0 <= z ->
       nthZ z (deleteItem s node itemNo)
       = if (1 <=? z) && (z <? 3)
         then nthZ (z - 1) (encodeLE 2 (getNumItems node - 1))
         else if ((1 <=? itemNo) && (itemNo <? getNumItems node))
                 && ((nodeKeyOff s itemNo <=? z)
                     && (z <? nodeKeyOff s (getNumItems node)))
         then nthZ (z + (keySize (curInfo s) + 8)) node
         else nthZ z node.
Proof.
  intros Hn0 Hn1 Hcap.
  set (n := getNumItems node) in *.
  set (K := keySize (curInfo s)) in *.
  unfold deleteItem. fold n.
  replace (n >? 0) with true by (symmetry; apply Z.gtb_lt; lia).
  unfold setNumItems, setU16, memmove. rewrite itemSize_known. fold K.
  set (nb := encodeLE 2 (n - 1)).
  assert (Lnb : Z.of_nat (length nb) = 2) by (unfold nb; now rewrite encodeLE_length).
  pose proof (nodeKeyOff_first) as O1.
  pose proof (nodeKeyOff_mono 1 (n + 1) ltac:(lia)) as Ocap.
  destruct ((itemNo <? n) && (itemNo >? 0)) eqn:C.
  - apply andb_true_iff in C. destruct C as [C1 C2].
    apply Z.ltb_lt in C1. apply Z.gtb_lt in C2.
    replace ((1 <=? itemNo) && (itemNo <? n)) with true
      by (symmetry; apply andb_true_iff; split;
          [apply Z.leb_le | apply Z.ltb_lt]; lia).
    pose proof (nodeKeyOff_mono 1 itemNo ltac:(lia)) as Op.
    pose proof (nodeKeyOff_step itemNo) as Os. fold K in Os.
    pose proof (nodeKeyOff_step n) as Osn. fold K in Osn.
    assert (Ospan : nodeKeyOff s n
                    = nodeKeyOff s itemNo + (K + 8) * (n - itemNo))
      by (rewrite !nodeKeyOff_known; fold K; ring).
    assert (Edst : sizeof_NodeHeader + (K + 8) * (itemNo - 1) = nodeKeyOff s itemNo)
      by (rewrite nodeKeyOff_known; reflexivity).
    assert (Esrc : sizeof_NodeHeader + (K + 8) * itemNo = nodeKeyOff s (itemNo + 1))
      by (rewrite nodeKeyOff_known; fold K; unfold sizeof_NodeHeader; ring).
    rewrite Esrc, Edst.
    set (len := (K + 8) * (n - itemNo)) in *.
    assert (Hlen : 0 <= len) by (unfold len; nia).
    set (o := nodeKeyOff s itemNo) in *.
    set (o' := nodeKeyOff s (itemNo + 1)) in *.
    set (mv := peek node o' (Z.to_nat len)).
    assert (Lmv : Z.of_nat (length mv) = len)
      by (unfold mv; rewrite peek_length; lia).
    set (node1 := poke node o mv).
    assert (L1 : length node1 = length node)
      by (unfold node1; rewrite poke_length_in; lia).
    split; [rewrite poke_length_in; lia|].
    intros z Hz.
    rewrite nthZ_poke by lia. unfold node1.
    rewrite nthZ_poke by lia. rewrite Lnb, Lmv. unfold mv.
    rewrite nthZ_peek_any by lia.
    replace (Z.of_nat (Z.to_nat len)) with len by lia.
    rewrite Ospan.
    replace (o' + (z - o)) with (z + (K + 8)) by lia.
    replace (1 + 2) with 3 by lia.
    destruct ((1 <=? z) && (z <? 3)) eqn:E1;
      destruct ((o <=? z) && (z <? o + len)) eqn:E2;
      destruct ((0 <=? z - o) && (z - o <? len)) eqn:E3;
      bool_cases; simpl; try reflexivity; try lia.
  - assert (C' : (1 <=? itemNo) && (itemNo <? n) = false).
    { apply andb_false_iff. apply andb_false_iff in C.
      destruct C as [C|C]; [right; exact C|left].
      rewrite Z.gtb_ltb in C. apply Z.ltb_ge in C. apply Z.leb_gt. lia. }
    rewrite C'.
    split; [rewrite poke_length_in; lia|].
    intros z Hz.
    rewrite nthZ_poke by lia. rewrite Lnb.
    replace (1 + 2) with 3 by lia. simpl.
    reflexivity.
Qed.

Lemma header_window (X Y : list Z) (off : Z) :
  3 <= off -> off + 8 <= 19 ->
  (forall z, 3 <= z < 19 -> nthZ z X = nthZ z Y) ->
  getI64 X off = getI64 Y off.
Proof.
  intros H1 H2 H. apply getI64_window. apply peek_ext; try lia.
  intros z Hz. apply H. change (Z.of_nat 8) with 8 in Hz. lia.
Qed.

Lemma numItems_window (X : list Z) (v : Z) :
  0 <= v < 65536 ->
  (forall z, 1 <= z < 3 -> nthZ z X = nthZ (z - 1) (encodeLE 2 v)) ->
  getNumItems X = v.
Proof.
  intros Hv H. unfold getNumItems. apply getU16_is; [assumption|].
  change 2%nat with (length (encodeLE 2 v)). apply peek_is; [lia|].
  intros z Hz. pose proof (encodeLE_length 2 v) as L. rewrite L in Hz.
  rewrite H by lia. f_equal. lia.
Qed.

End NodeItems.

(** ** The items of a node after [insertItem] and [deleteItem] *)

Lemma insertItem_items (s : MultiIndex) (node key : list Z) (itemNo childPos : Z) :
  hasError s = false ->
  0 <= keySize (curInfo s) -> keySize (curInfo s) + 8 < 65536 ->
  1 <= itemNo ->
  0 <= getNumItems node -> getNumItems node + 1 < 65536 ->
  nodeKeyOff s (getNumItems node + 2) <= Z.of_nat (length node) ->
  - 2 ^ 63 <= childPos < 2 ^ 63 ->
  let n := getNumItems node in
  let p := Z.min itemNo (n + 1) in
  let node' := insertItem s node itemNo key childPos in
  getNumItems node' = n + 1
  /\ length node' = length node
  /\ itemKey s node' p = peek key 0 (Z.to_nat (getKeySize s))
  /\ getChildPos s node' p = childPos
  /\ (forall q, 1 <= q < p ->
        itemKey s node' q = itemKey s node q
        /\ getChildPos s node' q = getChildPos s node q)
  /\ (forall q, p < q <= n + 1 ->
        itemKey s node' q = itemKey s node (q - 1)
        /\ getChildPos s node' q = getChildPos s node (q - 1))
  /\ getNextNode node' = getNextNode node
  /\ getPrevNode node' = getPrevNode node.
Proof.
  intros Herr Hk0 Hk1 Hi Hn0 Hn1 Hcap Hc n p node'.
  destruct (insertItem_bytes s Herr Hk0 Hk1 node key itemNo childPos Hi Hn0 Hn1 Hcap)
    as [L B].
  fold n in Hcap, B. fold node' in L, B. cbv zeta in B. fold p in B.
  set (K := keySize (curInfo s)) in *.
  pose proof (nodeKeyOff_first s Hk0 Hk1) as O1.
  assert (Hp : 1 <= p <= n + 1) by (unfold p; lia).
  pose proof (nodeKeyOff_mono s Hk0 Hk1 1 p ltac:(lia)) as Op.
  pose proof (nodeKeyOff_step s Hk0 Hk1 p) as Os. fold K in Os.
  pose proof (nodeKeyOff_mono s Hk0 Hk1 (p + 1) (n + 2) ltac:(lia)) as Om.
  assert (I1 : itemKey s node' p = peek key 0 (Z.to_nat (getKeySize s))
               /\ getChildPos s node' p = childPos).
  { apply item_is; try assumption; try lia; fold K.
    - intros z Hz. rewrite B by lia.
      replace ((1 <=? nodeKeyOff s p + z) && (nodeKeyOff s p + z <? 3)) with false
        by (symmetry; apply andb_false_iff; right; apply Z.ltb_ge; lia).
      replace ((nodeKeyOff s p <=? nodeKeyOff s p + z)
               && (nodeKeyOff s p + z <? nodeKeyOff s p + K)) with true
        by (symmetry; apply andb_true_iff; split;
            [apply Z.leb_le | apply Z.ltb_lt]; lia).
      f_equal. lia.
    - intros z Hz. rewrite B by lia.
      replace ((1 <=? nodeKeyOff s p + K + z) && (nodeKeyOff s p + K + z <? 3))
        with false
        by (symmetry; apply andb_false_iff; right; apply Z.ltb_ge; lia).
      replace ((nodeKeyOff s p <=? nodeKeyOff s p + K + z)
               && (nodeKeyOff s p + K + z <? nodeKeyOff s p + K)) with false
        by (symmetry; apply andb_false_iff; right; apply Z.ltb_ge; lia).
      replace ((nodeKeyOff s p + K <=? nodeKeyOff s p + K + z)
               && (nodeKeyOff s p + K + z <? nodeKeyOff s p + K + 8)) with true
        by (symmetry; apply andb_true_iff; split;
            [apply Z.leb_le | apply Z.ltb_lt]; lia).
      f_equal. lia. }
  assert (HB : forall z, 3 <= z < 19 -> nthZ z node' = nthZ z node).
  { intros z Hz. rewrite B by lia.
    replace ((1 <=? z) && (z <? 3)) with false
      by (symmetry; apply andb_false_iff; right; apply Z.ltb_ge; lia).
    replace ((nodeKeyOff s p <=? z) && (z <? nodeKeyOff s p + K)) with false
      by (symmetry; apply andb_false_iff; left; apply Z.leb_gt; lia).
    replace ((nodeKeyOff s p + K <=? z) && (z <? nodeKeyOff s p + K + 8)) with false
      by (symmetry; apply andb_false_iff; left; apply Z.leb_gt; lia).
    replace ((nodeKeyOff s (p + 1) <=? z) && (z <? nodeKeyOff s (n + 2))) with false
      by (symmetry; apply andb_false_iff; left; apply Z.leb_gt; lia).
    reflexivity. }
  split; [|split; [exact L|split; [apply I1|split; [apply I1|split; [|split; [|split]]]]]].
  - apply numItems_window; [lia|].
    intros z Hz. rewrite B by lia.
    replace ((1 <=? z) && (z <? 3)) with true
      by (symmetry; apply andb_true_iff; split;
          [apply Z.leb_le | apply Z.ltb_lt]; lia).
    reflexivity.
  - intros q Hq. apply item_window; try assumption; try lia. fold K.
    pose proof (nodeKeyOff_mono s Hk0 Hk1 1 q ltac:(lia)) as Oq.
    pose proof (nodeKeyOff_step s Hk0 Hk1 q) as Oqs. fold K in Oqs.
    pose proof (nodeKeyOff_mono s Hk0 Hk1 (q + 1) p ltac:(lia)) as Oqp.
    intros z Hz. rewrite B by lia.
    replace ((1 <=? nodeKeyOff s q + z) && (nodeKeyOff s q + z <? 3)) with false
      by (symmetry; apply andb_false_iff; right; apply Z.ltb_ge; lia).
    replace ((nodeKeyOff s p <=? nodeKeyOff s q + z)
             && (nodeKeyOff s q + z <? nodeKeyOff s p + K)) with false
      by (symmetry; apply andb_false_iff; left; apply Z.leb_gt; lia).
    replace ((nodeKeyOff s p + K <=? nodeKeyOff s q + z)
             && (nodeKeyOff s q + z <? nodeKeyOff s p + K + 8)) with false
      by (symmetry; apply andb_false_iff; left; apply Z.leb_gt; lia).
    replace ((nodeKeyOff s (p + 1) <=? nodeKeyOff s q + z)
             && (nodeKeyOff s q + z <? nodeKeyOff s (n + 2))) with false
      by (symmetry; apply andb_false_iff; left; apply Z.leb_gt; lia).
    reflexivity.
  - intros q Hq. apply item_window; try assumption; try lia. fold K.
    pose proof (nodeKeyOff_step s Hk0 Hk1 (q - 1)) as Oqs. fold K in Oqs.
    replace (q - 1 + 1) with q in Oqs by lia.
    pose proof (nodeKeyOff_mono s Hk0 Hk1 (p + 1) q ltac:(lia)) as Oq.
    pose proof (nodeKeyOff_step s Hk0 Hk1 q) as Oqs'. fold K in Oqs'.
    pose proof (nodeKeyOff_mono s Hk0 Hk1 (q + 1) (n + 2) ltac:(lia)) as Oqn.
    intros z Hz. rewrite B by lia.
    replace ((1 <=? nodeKeyOff s q + z) && (nodeKeyOff s q + z <? 3)) with false
      by (symmetry; apply andb_false_iff; right; apply Z.ltb_ge; lia).
    replace ((nodeKeyOff s p <=? nodeKeyOff s q + z)
             && (nodeKeyOff s q + z <? nodeKeyOff s p + K)) with false
      by (symmetry; apply andb_false_iff; right; apply Z.ltb_ge; lia).
    replace ((nodeKeyOff s p + K <=? nodeKeyOff s q + z)
             && (nodeKeyOff s q + z <? nodeKeyOff s p + K + 8)) with false
      by (symmetry; apply andb_false_iff; right; apply Z.ltb_ge; lia).
    replace ((nodeKeyOff s (p + 1) <=? nodeKeyOff s q + z)
             && (nodeKeyOff s q + z <? nodeKeyOff s (n + 2))) with true
      by (symmetry; apply andb_true_iff; split;
          [apply Z.leb_le | apply Z.ltb_lt]; lia).
    f_equal. lia.
  - unfold getNextNode. apply header_window; try lia. exact HB.
  - unfold getPrevNode. apply header_window; try lia. exact HB.
Qed.

Lemma deleteItem_items (s : MultiIndex) (node : list Z) (itemNo : Z) :
  hasError s = false ->
  0 <= keySize (curInfo s) -> keySize (curInfo s) + 8 < 65536 ->
  1 <= getNumItems node -> getNumItems node < 65536 ->
  nodeKeyOff s (getNumItems node + 1) <= Z.of_nat (length node) ->
  let n := getNumItems node in
  let d := if (1 <=? itemNo) && (itemNo <? n) then itemNo else n in
  let node' := deleteItem s node itemNo in
  getNumItems node' = n - 1
  /\ length node' = length node
  /\ (forall q, 1 <= q < d ->
        itemKey s node' q = itemKey s node q
        /\ getChildPos s node' q = getChildPos s node q)
  /\ (forall q, d <= q < n ->
        itemKey s node' q = itemKey s node (q + 1)
        /\ getChildPos s node' q = getChildPos s node (q + 1))
  /\ getNextNode node' = getNextNode node
  /\ getPrevNode node' = getPrevNode node.
Proof.
  intros Herr Hk0 Hk1 Hn0 Hn1 Hcap n d node'.
  destruct (deleteItem_bytes s Hk0 Hk1 node itemNo Hn0 Hn1 Hcap) as [L B].
  fold n in Hcap, B. fold node' in L, B.
  set (K := keySize (curInfo s)) in *.
  pose proof (nodeKeyOff_first s Hk0 Hk1) as O1.
  pose proof (nodeKeyOff_step s Hk0 Hk1 n) as Osn. fold K in Osn.
  assert (HB : forall z, 3 <= z < 19 -> nthZ z node' = nthZ z node).
  { intros z Hz. rewrite B by lia.
    replace ((1 <=? z) && (z <? 3)) with false
      by (symmetry; apply andb_false_iff; right; apply Z.ltb_ge; lia).
    destruct ((1 <=? itemNo) && (itemNo <? n)) eqn:C; [|reflexivity].
    bool_cases.
    pose proof (nodeKeyOff_mono s Hk0 Hk1 1 itemNo ltac:(lia)).
    replace ((nodeKeyOff s itemNo <=? z) && (z <? nodeKeyOff s n)) with false
      by (symmetry; apply andb_false_iff; left; apply Z.leb_gt; lia).
    reflexivity. }
  split; [|split; [exact L|split; [|split; [|split]]]].
  - apply numItems_window; [lia|].
    intros z Hz. rewrite B by lia.
    replace ((1 <=? z) && (z <? 3)) with true
      by (symmetry; apply andb_true_iff; split;
          [apply Z.leb_le | apply Z.ltb_lt]; lia).
    reflexivity.
  - intros q Hq. apply item_window; try assumption; try lia. fold K.
    pose proof (nodeKeyOff_mono s Hk0 Hk1 1 q ltac:(lia)) as Oq.
    pose proof (nodeKeyOff_step s Hk0 Hk1 q) as Oqs. fold K in Oqs.
    intros z Hz. rewrite B by lia.
    replace ((1 <=? nodeKeyOff s q + z) && (nodeKeyOff s q + z <? 3)) with false
      by (symmetry; apply andb_false_iff; right; apply Z.ltb_ge; lia).
    destruct ((1 <=? itemNo) && (itemNo <? n)) eqn:C; [|reflexivity].
    subst d. cbv iota in Hq.
    pose proof (nodeKeyOff_mono s Hk0 Hk1 (q + 1) itemNo ltac:(lia)) as Oqp.
    replace ((nodeKeyOff s itemNo <=? nodeKeyOff s q + z)
             && (nodeKeyOff s q + z <? nodeKeyOff s n)) with false
      by (symmetry; apply andb_false_iff; left; apply Z.leb_gt; lia).
    reflexivity.
  - intros q Hq. subst d.
    destruct ((1 <=? itemNo) && (itemNo <? n)) eqn:C; [|lia].
    bool_cases.
    apply item_window; try assumption; try lia. fold K.
    pose proof (nodeKeyOff_mono s Hk0 Hk1 itemNo q ltac:(lia)) as Oq.
    pose proof (nodeKeyOff_step s Hk0 Hk1 q) as Oqs. fold K in Oqs.
    pose proof (nodeKeyOff_mono s Hk0 Hk1 (q + 1) n ltac:(lia)) as Oqn.
    pose proof (nodeKeyOff_mono s Hk0 Hk1 1 itemNo ltac:(lia)) as Oi.
    intros z Hz. rewrite B by lia.
    replace ((1 <=? nodeKeyOff s q + z) && (nodeKeyOff s q + z <? 3)) with false
      by (symmetry; apply andb_false_iff; right; apply Z.ltb_ge; lia).
    replace ((nodeKeyOff s itemNo <=? nodeKeyOff s q + z)
             && (nodeKeyOff s q + z <? nodeKeyOff s n)) with true
      by (symmetry; apply andb_true_iff; split;
          [apply Z.leb_le | apply Z.ltb_lt]; lia).
    simpl. f_equal. lia.
  - unfold getNextNode. apply header_window; try lia. exact HB.
  - unfold getPrevNode. apply header_window; try lia. exact HB.
Qed.

(** [insertItem(node, itemNo, key, childPos)] on a node block with room
    for one more item makes the item at position [min(itemNo, numItems+1)]
    hold the key and the child position, keeps the items before it, moves
    the items from it on up by one, adds one to [numItems], and leaves the
    two node links alone. *)
Theorem insertItem_inserts (s : MultiIndex) (node key : list Z)
    (itemNo childPos : Z) :
  hasError s = false ->
  0 <= keySize (curInfo s) -> keySize (curInfo s) + 8 < 65536 ->
  1 <= itemNo ->
  0 <= getNumItems node -> getNumItems node + 1 < 65536 ->
  nodeKeyOff s (getNumItems node + 2) <= Z.of_nat (length node) ->
  - 2 ^ 63 <= childPos < 2 ^ 63 ->
  let n := getNumItems node in
  let p := Z.min itemNo (n + 1) in
  let node' := insertItem s node itemNo key childPos in
  getNumItems node' = n + 1
  /\ length node' = length node
  /\ itemKey s node' p = peek key 0 (Z.to_nat (getKeySize s))
  /\ getChildPos s node' p = childPos
  /\ (forall q, 1 <= q < p ->
        itemKey s node' q = itemKey s node q
        /\ getChildPos s node' q = getChildPos s node q)
  /\ (forall q, p < q <= n + 1 ->
        itemKey s node' q = itemKey s node (q - 1)
        /\ getChildPos s node' q = getChildPos s node (q - 1))
  /\ getNextNode node' = getNextNode node
  /\ getPrevNode node' = getPrevNode node.
Proof. exact (insertItem_items s node key itemNo childPos). Qed.

Lemma insertItem_inserts_witness :
  let s := oneDup in
  let node := rootBlock oneDup in
  let n := getNumItems node in
  let p := Z.min 2 (n + 1) in
  let node' := insertItem s node 2 (str3 48 48 49) 77 in
  getNumItems node' = n + 1
  /\ length node' = length node
  /\ itemKey s node' p = peek (str3 48 48 49) 0 (Z.to_nat (getKeySize s))
  /\ getChildPos s node' p = 77
  /\ (forall q, 1 <= q < p ->
        itemKey s node' q = itemKey s node q
        /\ getChildPos s node' q = getChildPos s node q)
  /\ (forall q, p < q <= n + 1 ->
        itemKey s node' q = itemKey s node (q - 1)
        /\ getChildPos s node' q = getChildPos s node (q - 1))
  /\ getNextNode node' = getNextNode node
  /\ getPrevNode node' = getPrevNode node.
Proof.
  apply (insertItem_inserts oneDup (rootBlock oneDup) (str3 48 48 49) 2 77).
  - vm_compute. reflexivity.
  - vm_compute. discriminate.
  - vm_compute. reflexivity.
  - lia.
  - vm_compute. discriminate.
  - vm_compute. reflexivity.
  - vm_compute. discriminate.
  - simpl. lia.
Defined.

(** [deleteItem(node, itemNo)] on a node with items takes one from
    [numItems]; for [1 <= itemNo < numItems] the items after [itemNo] move
    down by one over it, and for every other [itemNo] (the last item, 0,
    or a number beyond the items) no item moves, so it is the last
    item that goes.  The items before stay and the node links are left
    alone. *)
Theorem deleteItem_deletes (s : MultiIndex) (node : list Z) (itemNo : Z) :
  hasError s = false ->
  0 <= keySize (curInfo s) -> keySize (curInfo s) + 8 < 65536 ->
  1 <= getNumItems node -> getNumItems node < 65536 ->
  nodeKeyOff s (getNumItems node + 1) <= Z.of_nat (length node) ->
  let n := getNumItems node in
  let d := if (1 <=? itemNo) && (itemNo <? n) then itemNo else n in
  let node' := deleteItem s node itemNo in
  getNumItems node' = n - 1
  /\ length node' = length node
  /\ (forall q, 1 <= q < d ->
        itemKey s node' q = itemKey s node q
        /\ getChildPos s node' q = getChildPos s node q)
  /\ (forall q, d <= q < n ->
        itemKey s node' q = itemKey s node (q + 1)
        /\ getChildPos s node' q = getChildPos s node (q + 1))
  /\ getNextNode node' = getNextNode node
  /\ getPrevNode node' = getPrevNode node.
Proof. exact (deleteItem_items s node itemNo). Qed.

Lemma deleteItem_deletes_witness :
  let s := twoKeys in
  let node := rootBlock twoKeys in
  let n := getNumItems node in
  let d := if (1 <=? 1) && (1 <? n) then 1 else n in
  let node' := deleteItem s node 1 in
  getNumItems node' = n - 1
  /\ length node' = length node
  /\ (forall q, 1 <= q < d ->
        itemKey s node' q = itemKey s node q
        /\ getChildPos s node' q = getChildPos s node q)
  /\ (forall q, d <= q < n ->
        itemKey s node' q = itemKey s node (q + 1)
        /\ getChildPos s node' q = getChildPos s node (q + 1))
  /\ getNextNode node' = getNextNode node
  /\ getPrevNode node' = getPrevNode node.
Proof.
  apply (deleteItem_deletes twoKeys (rootBlock twoKeys) 1).
  - vm_compute. reflexivity.
  - vm_compute. discriminate.
  - vm_compute. reflexivity.
  - vm_compute. discriminate.
  - vm_compute. reflexivity.
  - vm_compute. discriminate.
Defined.

(** Deleting the item that was just inserted gives the items back:
    after [insertItem] at a position [itemNo] from 1 to [numItems + 1]
    and [deleteItem] at that position the node has its [numItems] items,
    each with the key and the child position it had. *)
Theorem deleteItem_after_insertItem (s : MultiIndex) (node key : list Z)
    (itemNo childPos : Z) :
  hasError s = false ->
  0 <= keySize (curInfo s) -> keySize (curInfo s) + 8 < 65536 ->
  0 <= getNumItems node -> getNumItems node + 1 < 65536 ->
  1 <= itemNo <= getNumItems node + 1 ->
  nodeKeyOff s (getNumItems node + 2) <= Z.of_nat (length node) ->
  - 2 ^ 63 <= childPos < 2 ^ 63 ->
  let node' := deleteItem s (insertItem s node itemNo key childPos) itemNo in
  getNumItems node' = getNumItems node
  /\ forall q, 1 <= q <= getNumItems node ->
       itemKey s node' q = itemKey s node q
       /\ getChildPos s node' q = getChildPos s node q.
Proof.
  intros Herr Hk0 Hk1 Hn0 Hn1 Hi Hcap Hc node'.
  destruct (insertItem_items s node key itemNo childPos Herr Hk0 Hk1
              ltac:(lia) Hn0 Hn1 Hcap Hc)
    as (N1 & L1 & _ & _ & Before & After & _).
  cbv zeta in *.
  set (n := getNumItems node) in *.
  set (node1 := insertItem s node itemNo key childPos) in *.
  replace (Z.min itemNo (n + 1)) with itemNo in Before, After by lia.
  assert (Hcap1 : nodeKeyOff s (getNumItems node1 + 1) <= Z.of_nat (length node1)).
  { rewrite N1, L1. replace (n + 1 + 1) with (n + 2) by lia. exact Hcap. }
  destruct (deleteItem_items s node1 itemNo Herr Hk0 Hk1
              ltac:(lia) ltac:(lia) Hcap1)
    as (N2 & _ & Before2 & After2 & _).
  cbv zeta in *. fold node' in N2, Before2, After2. rewrite N1 in *.
  split; [lia|].
  intros q Hq.
  destruct ((1 <=? itemNo) && (itemNo <? n + 1)) eqn:C.
  - apply andb_true_iff in C. destruct C as [C1 C2].
    apply Z.leb_le in C1. apply Z.ltb_lt in C2.
    destruct (Z_lt_le_dec q itemNo) as [Lt|Ge].
    + destruct (Before2 q ltac:(lia)) as [A B].
      destruct (Before q ltac:(lia)) as [A' B']. split; congruence.
    + destruct (After2 q ltac:(lia)) as [A B].
      destruct (After (q + 1) ltac:(lia)) as [A' B'].
      replace (q + 1 - 1) with q in A', B' by lia. split; congruence.
  - assert (itemNo = n + 1).
    { apply andb_false_iff in C. destruct C as [C|C];
        [apply Z.leb_gt in C | apply Z.ltb_ge in C]; lia. }
    destruct (Before2 q ltac:(lia)) as [A B].
    destruct (Before q ltac:(lia)) as [A' B']. split; congruence.
Qed.

Lemma deleteItem_after_insertItem_witness :
  let node' := deleteItem oneDup
                 (insertItem oneDup (rootBlock oneDup) 1 (str3 48 48 49) 77) 1 in
  getNumItems node' = getNumItems (rootBlock oneDup)
  /\ forall q, 1 <= q <= getNumItems (rootBlock oneDup) ->
       itemKey oneDup node' q = itemKey oneDup (rootBlock oneDup) q
       /\ getChildPos oneDup node' q = getChildPos oneDup (rootBlock oneDup) q.
Proof.
  apply (deleteItem_after_insertItem oneDup (rootBlock oneDup) (str3 48 48 49) 1 77).
  - vm_compute. reflexivity.
  - vm_compute. discriminate.
  - vm_compute. reflexivity.
  - vm_compute. discriminate.
  - vm_compute. reflexivity.
  - vm_compute. split; discriminate.
  - vm_compute. discriminate.
  - simpl. lia.
Defined.

(** ** What every operation leaves alone *)

Lemma framed_refl (s : MultiIndex) : framed s s.
Proof. unfold framed. repeat split; auto. Qed.

Lemma framed_trans (s1 s2 s3 : MultiIndex) :
  framed s1 s2 -> framed s2 s3 -> framed s1 s3.
Proof.
  unfold framed.
  intros (A1 & A2 & A3 & A4 & A5 & A6 & A7 & A8)
         (B1 & B2 & B3 & B4 & B5 & B6 & B7 & B8).
  repeat split; try congruence; try lia.
  - destruct (A6 j H) as [X _]. rewrite A1 in B6. destruct (B6 j H) as [Y _].
    congruence.
  - destruct (A6 j H) as [_ X]. rewrite A1 in B6. destruct (B6 j H) as [_ Y].
    congruence.
Qed.

Lemma behaves_ret {A} (a : A) : behaves (ret a).
Proof. intros s. split; [apply framed_refl | reflexivity]. Qed.

Lemma behaves_gets {A} (f : MultiIndex -> A) : behaves (gets f).
Proof. intros s. split; [apply framed_refl | reflexivity]. Qed.

Lemma behaves_outOfFuel {A} : behaves (@outOfFuel A).
Proof. intros s. split; [apply framed_refl | reflexivity]. Qed.

Lemma framed_same (s s' : MultiIndex) :
  m_currentIndex s' = m_currentIndex s ->
  m_header_numIndexes s' = m_header_numIndexes s ->
  m_header_checksum s' = m_header_checksum s ->
  m_indexInfo s' = m_indexInfo s ->
  m_positions s' = m_positions s ->
  (length (m_file s) <= length (m_file s'))%nat ->
  framed s s'.
Proof.
  intros A B C D E F. unfold framed, curInfo. rewrite A, B, C, D, E.
  repeat split; auto.
Qed.

Lemma behaves_throw {A} (e : ErrorCode) : e <> OK -> behaves (@throw A e).
Proof.
  intros He s. split; [|split; [reflexivity | exact He]].
  apply framed_same; reflexivity.
Qed.

Lemma behaves_bind {A B} (c : M A) (f : A -> M B) :
  behaves c -> (forall a, behaves (f a)) -> behaves (bind c f).
Proof.
  intros Hc Hf s. unfold bind. specialize (Hc s).
  destruct (c s) as [[a| |] s1]; cbn [fst snd] in *; try exact Hc.
  destruct Hc as [F1 E1]. specialize (Hf a s1).
  destruct (f a s1) as [r s2]; cbn [fst snd] in *.
  destruct Hf as [F2 E2]. split; [eapply framed_trans; eassumption|].
  destruct r; congruence.
Qed.

Lemma behaves_modify (f : MultiIndex -> MultiIndex) :
  (forall s, framed s (f s) /\ m_errorCode (f s) = m_errorCode s) ->
  behaves (modify f).
Proof. intros H s. exact (H s). Qed.

Lemma nth_vector_set_other {A} (d x : A) : forall (l : list A) (i j : nat),
  j <> i -> nth j (vector_set l i x) d = nth j l d.
Proof.
  induction l as [|h t IH]; intros [|i] [|j] H; simpl; try reflexivity;
    try congruence.
  apply IH. congruence.
Qed.

Lemma length_vector_set {A} (x : A) : forall (l : list A) (i : nat),
  length (vector_set l i x) = length l.
Proof.
  induction l as [|h t IH]; intros [|i]; simpl; try reflexivity.
  now rewrite IH.
Qed.

Lemma nth_vector_set_any {A} (d x : A) (P : A -> Prop) (l : list A) (i : nat) :
  P x -> P (nth i l d) -> P (nth i (vector_set l i x) d).
Proof.
  intros Hx Hn. destruct (Nat.lt_ge_cases i (length l)) as [L|L].
  - now rewrite nth_vector_set.
  - rewrite nth_overflow in * by (rewrite ?length_vector_set; lia). exact Hn.
Qed.

Lemma framed_updInfo (g : IndexInfo -> IndexInfo) (s : MultiIndex) :
  (forall i, configOf (g i) = configOf i) ->
  framed s (updInfo g s) /\ m_errorCode (updInfo g s) = m_errorCode s.
Proof.
  intros Hg. split; [|reflexivity].
  unfold framed, updInfo, curInfo.
  cbn [set_indexInfo m_currentIndex m_header_numIndexes m_header_checksum
       m_indexInfo m_positions m_file].
  repeat split; auto.
  - apply length_vector_set.
  - now apply nth_vector_set_other.
  - apply (nth_vector_set_any defaultIndexInfo _
             (fun x => configOf x
                       = configOf (nth (Z.to_nat (m_currentIndex s)) (m_indexInfo s)
                                     defaultIndexInfo))).
    + apply Hg.
    + reflexivity.
Qed.

Lemma framed_updPos (g : PositionInfo -> PositionInfo) (s : MultiIndex) :
  framed s (updPos g s) /\ m_errorCode (updPos g s) = m_errorCode s.
Proof.
  split; [|reflexivity].
  unfold framed, updPos, curInfo.
  cbn [set_positions m_currentIndex m_header_numIndexes m_header_checksum
       m_indexInfo m_positions m_file].
  repeat split; auto.
  - apply length_vector_set.
  - now apply nth_vector_set_other.
Qed.

Lemma behaves_updInfo (g : IndexInfo -> IndexInfo) :
  (forall i, configOf (g i) = configOf i) -> behaves (modify (updInfo g)).
Proof. intros H. apply behaves_modify. intros s. now apply framed_updInfo. Qed.

Lemma behaves_updPos (g : PositionInfo -> PositionInfo) :
  behaves (modify (updPos g)).
Proof. apply behaves_modify. intros s. apply framed_updPos. Qed.

Lemma behaves_File_read (buffer : list Z) (size pos : Z) :
  behaves (File_read buffer size pos).
Proof.
  intros s. unfold File_read.
  destruct ((if pos =? INVALID_POSITION then m_filePos s else pos) <? 0).
  - apply behaves_throw. discriminate.
  - cbn [fst snd]. split; [|reflexivity]. apply framed_same; reflexivity.
Qed.

Lemma behaves_File_write (buffer : list Z) (size pos : Z) :
  behaves (File_write buffer size pos).
Proof.
  intros s. unfold File_write.
  set (p := if pos =? INVALID_POSITION then m_filePos s else pos).
  destruct (p <? 0) eqn:Hp.
  - apply behaves_throw. discriminate.
  - destruct (size <=? 0) eqn:Hs; cbn [fst snd].
    + split; [|reflexivity]. apply framed_same; reflexivity.
    + split; [|reflexivity]. apply framed_same; try reflexivity.
      cbn [set_file m_file].
      rewrite !length_app, length_firstn, repeat_length, peek_length, length_skipn.
      apply Z.ltb_ge in Hp. apply Z.leb_gt in Hs. lia.
Qed.

Lemma behaves_File_seek (pos : Z) : behaves (File_seek pos).
Proof.
  intros s. unfold File_seek. destruct (pos <? 0).
  - apply behaves_throw. discriminate.
  - cbn [fst snd]. split; [|reflexivity]. apply framed_same; reflexivity.
Qed.

Lemma behaves_File_size : behaves File_size.
Proof. apply behaves_gets. Qed.

Create HintDb beh.
#[local] Hint Resolve behaves_File_read behaves_File_write behaves_File_seek
  behaves_File_size behaves_updPos : beh.

(** One step of a proof that a function [behaves]: the shape of the
    function decides it. *)
Ltac beh_step :=
  match goal with
  | |- behaves (ret _) => apply behaves_ret
  | |- behaves (gets _) => apply behaves_gets
  | |- behaves outOfFuel => apply behaves_outOfFuel
  | |- behaves (throw _) => apply behaves_throw; discriminate
  | |- behaves (bind _ _) => apply behaves_bind; [|intros ?]
  | |- behaves (modify (updInfo _)) =>
      apply behaves_updInfo; intros []; reflexivity
  | |- behaves (if ?b then _ else _) => destruct b
  | |- behaves (match ?x with _ => _ end) => destruct x
  | |- behaves _ => solve [auto with beh]
  end.

Ltac beh := repeat beh_step.

Lemma behaves_readNode node pos : behaves (readNode node pos).
Proof. unfold readNode. beh. Qed.
Lemma behaves_writeNode node pos : behaves (writeNode node pos).
Proof. unfold writeNode. beh. Qed.
Lemma behaves_readLeave leave pos : behaves (readLeave leave pos).
Proof. unfold readLeave. beh. Qed.
Lemma behaves_writeLeave leave pos : behaves (writeLeave leave pos).
Proof. unfold writeLeave. beh. Qed.
#[local] Hint Resolve behaves_readNode behaves_writeNode behaves_readLeave
  behaves_writeLeave : beh.

Lemma behaves_setFreeNode pos : behaves (setFreeNode pos).
Proof. unfold setFreeNode. beh. Qed.
Lemma behaves_setFreeLeave pos : behaves (setFreeLeave pos).
Proof. unfold setFreeLeave. beh. Qed.
Lemma behaves_setRootNode pos : behaves (setRootNode pos).
Proof. unfold setRootNode. beh. Qed.
Lemma behaves_setFirstLeave pos : behaves (setFirstLeave pos).
Proof. unfold setFirstLeave. beh. Qed.
Lemma behaves_setLastLeave pos : behaves (setLastLeave pos).
Proof. unfold setLastLeave. beh. Qed.
Lemma behaves_setNumLevels num : behaves (setNumLevels num).
Proof. unfold setNumLevels. beh. Qed.
Lemma behaves_incNumLevels : behaves incNumLevels.
Proof.
  unfold incNumLevels. apply behaves_modify. intros s.
  apply framed_updInfo. intros []; reflexivity.
Qed.
Lemma behaves_decNumLevels : behaves decNumLevels.
Proof.
  unfold decNumLevels. apply behaves_modify. intros s.
  apply framed_updInfo. intros []; reflexivity.
Qed.
#[local] Hint Resolve behaves_setFreeNode behaves_setFreeLeave behaves_setRootNode
  behaves_setFirstLeave behaves_setLastLeave behaves_setNumLevels
  behaves_incNumLevels behaves_decNumLevels : beh.

Lemma behaves_resetPosition : behaves resetPosition.
Proof. unfold resetPosition. beh. Qed.
Lemma behaves_setPosition a b c d : behaves (setPosition a b c d).
Proof. unfold setPosition, setBOF, resetBOF, setEOF, resetEOF. beh. Qed.
Lemma behaves_setPositionFromLeave pos leave :
  behaves (setPositionFromLeave pos leave).
Proof. unfold setPositionFromLeave. apply behaves_setPosition. Qed.
#[local] Hint Resolve behaves_resetPosition behaves_setPosition
  behaves_setPositionFromLeave : beh.

Lemma behaves_createNodesLoop n : forall fileSize tempNode,
  behaves (createNodesLoop n fileSize tempNode).
Proof. induction n as [|n IH]; intros; simpl; beh. Qed.
Lemma behaves_createLeavesLoop n : forall fileSize tempLeave,
  behaves (createLeavesLoop n fileSize tempLeave).
Proof. induction n as [|n IH]; intros; simpl; beh. Qed.
#[local] Hint Resolve behaves_createNodesLoop behaves_createLeavesLoop : beh.

Lemma behaves_createNodes n : behaves (createNodes n).
Proof. unfold createNodes. beh. Qed.
Lemma behaves_createLeaves n : behaves (createLeaves n).
Proof. unfold createLeaves. beh. Qed.
#[local] Hint Resolve behaves_createNodes behaves_createLeaves : beh.

Lemma behaves_allocateNode : behaves allocateNode.
Proof. unfold allocateNode. beh. Qed.
Lemma behaves_allocateLeave : behaves allocateLeave.
Proof. unfold allocateLeave. beh. Qed.
Lemma behaves_freeNodeAt pos : behaves (freeNodeAt pos).
Proof. unfold freeNodeAt. beh. Qed.
Lemma behaves_freeLeaveAt pos : behaves (freeLeaveAt pos).
Proof. unfold freeLeaveAt. beh. Qed.
#[local] Hint Resolve behaves_allocateNode behaves_allocateLeave
  behaves_freeNodeAt behaves_freeLeaveAt : beh.

Lemma behaves_writeNewNode node : behaves (writeNewNode node).
Proof. unfold writeNewNode. beh. Qed.
Lemma behaves_writeNewLeave leave : behaves (writeNewLeave leave).
Proof. unfold writeNewLeave. beh. Qed.
#[local] Hint Resolve behaves_writeNewNode behaves_writeNewLeave : beh.

Lemma behaves_bringLeave pos : behaves (bringLeave pos).
Proof. unfold bringLeave. beh. Qed.
#[local] Hint Resolve behaves_bringLeave : beh.

Lemma behaves_getFirst : behaves getFirst.
Proof. unfold getFirst. beh. Qed.
Lemma behaves_getNext : behaves getNext.
Proof. unfold getNext. beh. Qed.
Lemma behaves_getPrev : behaves getPrev.
Proof. unfold getPrev. beh. Qed.
Lemma behaves_getCurrent : behaves getCurrent.
Proof. unfold getCurrent. beh. Qed.

Lemma behaves_descendLoop n : forall key node nodePos,
  behaves (descendLoop n key node nodePos).
Proof. induction n as [|n IH]; intros; simpl; beh. Qed.
#[local] Hint Resolve behaves_descendLoop : beh.

Lemma behaves_findLeave key : behaves (findLeave key).
Proof. unfold findLeave. beh. Qed.
#[local] Hint Resolve behaves_findLeave : beh.

Lemma behaves_find leavePos0 key : behaves (find leavePos0 key).
Proof. unfold find. beh. Qed.

Lemma behaves_findPathLoop fuel :
  forall key node nodePos remainLevels notFirstLevel stack lastLevelChild,
  behaves (findPathLoop fuel key node nodePos remainLevels notFirstLevel stack
             lastLevelChild).
Proof.
  induction fuel as [|fuel IH]; intros; simpl; beh.
Qed.
#[local] Hint Resolve behaves_findPathLoop : beh.

Lemma behaves_findPath key : behaves (findPath key).
Proof. unfold findPath. beh. Qed.
#[local] Hint Resolve behaves_findPath : beh.

Lemma behaves_insertKey nodePos newKey newChildPos changedKeyNo changedKeyVal :
  behaves (insertKey nodePos newKey newChildPos changedKeyNo changedKeyVal).
Proof. unfold insertKey. beh. Qed.
#[local] Hint Resolve behaves_insertKey : beh.

Lemma behaves_updateParents stack : forall parentKey node,
  behaves (updateParents stack parentKey node).
Proof. induction stack as [|[a b] rest IH]; intros; simpl; beh. Qed.
#[local] Hint Resolve behaves_updateParents : beh.

Lemma behaves_appendLoop stack :
  forall node nodePos newKeyBlock newChildPos changedKeyNo changedKeyVal,
  behaves (appendLoop stack node nodePos newKeyBlock newChildPos changedKeyNo
             changedKeyVal).
Proof.
  induction stack as [|[a b] rest IH]; intros; simpl; beh.
Qed.
#[local] Hint Resolve behaves_appendLoop : beh.

Lemma behaves_append key dataPos : behaves (append key dataPos).
Proof. unfold append. beh. Qed.

Lemma behaves_modifyLeave key pos : behaves (modifyLeave key pos).
Proof. unfold modifyLeave. beh. Qed.
#[local] Hint Resolve behaves_modifyLeave : beh.

Lemma behaves_removeKey nodePos removeKeyNo :
  behaves (removeKey nodePos removeKeyNo).
Proof. unfold removeKey. beh. Qed.
#[local] Hint Resolve behaves_removeKey : beh.

Lemma behaves_deleteKeyFromNodesLoop stack :
  forall nodePos keyNoToRemove leavePos,
  behaves (deleteKeyFromNodesLoop stack nodePos keyNoToRemove leavePos).
Proof.
  induction stack as [|[a b] rest IH]; intros; simpl; beh.
Qed.
#[local] Hint Resolve behaves_deleteKeyFromNodesLoop : beh.

Lemma behaves_deleteKeyFromNodes key : behaves (deleteKeyFromNodes key).
Proof. unfold deleteKeyFromNodes. beh. Qed.
#[local] Hint Resolve behaves_deleteKeyFromNodes : beh.

Lemma behaves_deleteLeavesLoop fuel : forall key pos leave,
  behaves (deleteLeavesLoop fuel key pos leave).
Proof. induction fuel as [|fuel IH]; intros; simpl; beh. Qed.
#[local] Hint Resolve behaves_deleteLeavesLoop : beh.

Lemma behaves_deleteKey key : behaves (deleteKey key).
Proof. unfold deleteKey. beh. Qed.

Lemma behaves_deleteCurrent : behaves deleteCurrent.
Proof. unfold deleteCurrent. beh. Qed.

Lemma behaves_runOp (op : Operation) : behaves (runOp op).
Proof.
  destruct op; unfold runOp;
    (apply behaves_bind;
     [first [apply behaves_append | apply behaves_find | apply behaves_deleteKey
            | apply behaves_deleteCurrent | apply behaves_getFirst
            | apply behaves_getNext | apply behaves_getPrev
            | apply behaves_getCurrent]
     | intros; try match goal with a : (_ * _)%type |- _ => destruct a end;
       apply behaves_ret]).
Qed.

(** [append], [find], [deleteKey], [deleteCurrent], [getFirst], [getNext],
    [getPrev] and [getCurrent], however they end, leave alone which index
    is active, the header, the number of descriptors and cursors, the
    descriptor and the cursor of every index but the active one, and the
    configuration of the active index (attributes, key type, key size,
    items per node, the two pre-allocation counts); and they never make
    the file shorter. *)
Theorem operations_frame (op : Operation) (s : MultiIndex) :
  framed s (exec (runOp op) s).
Proof. apply behaves_runOp. Qed.

Lemma runOp_latched (op : Operation) (s : MultiIndex) :
  hasError s = true -> runOp op s = (Ret (failure op), s).
Proof.
  intros H.
  destruct op; unfold runOp, append, find, deleteKey, deleteCurrent, getFirst,
    getNext, getPrev, getCurrent, bind, gets, ret; rewrite H; reflexivity.
Qed.

(** An operation that leaves by an exception has latched the code of the
    exception on the handle, and the code is not [OK]; from then on every
    operation returns at once with its failure answer ([false], or
    [INVALID_POSITION]) and leaves the handle, file included, exactly as
    the failed operation left it. *)
Theorem exceptions_are_sticky (op1 op2 : Operation) (s s1 : MultiIndex)
    (e : ErrorCode) :
  runOp op1 s = (Throw e, s1) ->
  m_errorCode s1 = e
  /\ hasError s1 = true
  /\ runOp op2 s1 = (Ret (failure op2), s1).
Proof.
  intros H. destruct (behaves_runOp op1 s) as [_ E]. rewrite H in E.
  cbn [fst snd] in E. destruct E as [E1 E2].
  assert (Herr : hasError s1 = true).
  { unfold hasError. rewrite E1. destruct e; try reflexivity. congruence. }
  split; [exact E1|]. split; [exact Herr|]. now apply runOp_latched.
Qed.

Lemma exceptions_are_sticky_witness :
  m_errorCode (exec (runOp (Find 0 (long 1))) corruptedRoot) = BAD_DATA
  /\ hasError (exec (runOp (Find 0 (long 1))) corruptedRoot) = true
  /\ runOp (Append (long 2) 20) (exec (runOp (Find 0 (long 1))) corruptedRoot)
     = (Ret (failure (Append (long 2) 20)),
        exec (runOp (Find 0 (long 1))) corruptedRoot).
Proof.
  apply (exceptions_are_sticky (Find 0 (long 1)) (Append (long 2) 20) corruptedRoot
           (exec (runOp (Find 0 (long 1))) corruptedRoot) BAD_DATA).
  vm_compute. reflexivity.
Defined.

(** A normal return leaves the error code as it was: the operations latch
    an error only by an exception. *)
Lemma runOp_returns_keep_error (op : Operation) (s s1 : MultiIndex) (a : Answer) :
  runOp op s = (Ret a, s1) -> m_errorCode s1 = m_errorCode s.
Proof.
  intros H. destruct (behaves_runOp op s) as [_ E]. rewrite H in E. exact E.
Qed.

(** ** A new file *)

Lemma flat_map_IndexInfo_length (l : list IndexInfo) :
  length (flat_map IndexInfo_bytes l) = (67 * length l)%nat.
Proof.
  induction l as [|i l IH]; [reflexivity|].
  cbn [flat_map length]. rewrite length_app, IndexInfo_bytes_length, IH. lia.
Qed.

Lemma MultiIndexHeader_bytes_length (s : MultiIndex) :
  length (MultiIndexHeader_bytes s) = 3%nat.
Proof. reflexivity. Qed.

Lemma MultiIndex_new_result (numIndexes : Z) :
  0 <= numIndexes < 65536 ->
  exists (s1 : MultiIndex) (p : Z),
    let infos := repeat (setInfoChecksumOf initialIndexInfo) (Z.to_nat numIndexes) in
    MultiIndex_new numIndexes
    = (Ret tt,
       set_file (MultiIndexHeader_bytes s1 ++ flat_map IndexInfo_bytes infos) p
         (set_indexInfo infos s1))
    /\ testHeaderChecksum s1 = true
    /\ m_errorCode s1 = OK /\ m_currentIndex s1 = 0
    /\ m_header_numIndexes s1 = numIndexes.
Proof.
  intros Hn. unfold MultiIndex_new.
  set (s0 := mkMultiIndex [] 0 OK 0 numIndexes
               (repeat initialIndexInfo (Z.to_nat numIndexes))
               (repeat initialPositionInfo (Z.to_nat numIndexes)) 0).
  destruct (setHeaderChecksum_valid s0) as [T [c E]].
  unfold bind at 1. unfold writeHeader. unfold bind at 1.
  unfold exec in T, E.
  destruct (setHeaderChecksum s0) as [[[]| |] s1] eqn:S;
    try (unfold setHeaderChecksum, bind, modify in S; discriminate).
  cbn [snd] in T, E. unfold bind at 1. unfold gets at 1.
  set (hdr := MultiIndexHeader_bytes s1).
  assert (W1 : File_write hdr sizeof_MultiIndexHeader 0 s1
               = (Ret tt, set_file hdr 3 s1)).
  { unfold File_write. rewrite E. simpl. reflexivity. }
  rewrite W1.
  unfold writeAllInfo. unfold bind at 1. unfold modify at 1.
  unfold bind at 1. unfold gets at 1. unfold bind at 1. unfold gets at 1.
  set (infos := map setInfoChecksumOf (m_indexInfo (set_file hdr 3 s1))).
  set (s2 := set_indexInfo infos (set_file hdr 3 s1)).
  assert (Ei : infos = repeat (setInfoChecksumOf initialIndexInfo)
                         (Z.to_nat numIndexes)).
  { unfold infos. rewrite E. cbn [set_file set_header_checksum m_indexInfo s0].
    apply map_repeat. }
  assert (Li : length infos = Z.to_nat numIndexes)
    by (rewrite Ei; apply repeat_length).
  assert (En : m_header_numIndexes s2 = numIndexes) by (unfold s2; rewrite E; reflexivity).
  change (m_indexInfo s2) with infos.
  set (bytes := flat_map IndexInfo_bytes infos).
  assert (Lb : length bytes = (67 * Z.to_nat numIndexes)%nat)
    by (unfold bytes; rewrite flat_map_IndexInfo_length, Li; reflexivity).
  assert (W2 : exists p,
             File_write bytes (sizeof_IndexInfo * m_header_numIndexes s2)
               sizeof_MultiIndexHeader s2
             = (Ret tt, set_file (hdr ++ bytes) p s2)).
  { unfold File_write. rewrite En.
    simpl (sizeof_MultiIndexHeader =? INVALID_POSITION).
    simpl (sizeof_MultiIndexHeader <? 0). cbv iota.
    unfold sizeof_IndexInfo, sizeof_MultiIndexHeader.
    destruct (67 * numIndexes <=? 0) eqn:Z0.
    - apply Z.leb_le in Z0.
      exists 3.
      assert (B0 : bytes = []) by (apply length_zero_iff_nil; lia).
      rewrite B0, app_nil_r. reflexivity.
    - eexists. f_equal. f_equal.
      change (m_file s2) with hdr.
      rewrite peek_whole by (rewrite Lb; lia).
      simpl firstn. simpl repeat.
      apply Z.leb_gt in Z0.
      rewrite skipn_all2 by (change (length hdr) with 3%nat; lia).
      now rewrite app_nil_r. }
  destruct W2 as [p W2]. rewrite W2.
  exists s1, p. cbv zeta. rewrite <- Ei.
  split; [reflexivity|]. split; [exact T|].
  rewrite E. repeat split.
Qed.

(** The constructor for a new file, [MultiIndex(filename, numIndexes)],
    does not fail and leaves a file of [3 + 67 * numIndexes] bytes: the
    header, which passes its checksum test, and after it the descriptors,
    each with no root, no leaves, no free blocks and a checksum that
    passes its test.  No error is latched and index 1 is active. *)
Theorem new_file_layout (numIndexes : Z) :
  0 <= numIndexes < 65536 ->
  let s := snd (MultiIndex_new numIndexes) in
  fst (MultiIndex_new numIndexes) = Ret tt
  /\ hasError s = false
  /\ getActiveIndex s = 1
  /\ m_indexInfo s
     = repeat (setInfoChecksumOf initialIndexInfo) (Z.to_nat numIndexes)
  /\ m_file s = MultiIndexHeader_bytes s ++ flat_map IndexInfo_bytes (m_indexInfo s)
  /\ Z.of_nat (length (m_file s)) = 3 + 67 * numIndexes
  /\ testHeaderChecksum s = true
  /\ (forall i, testInfoChecksum s i = true).
Proof.
  intros Hn.
  destruct (MultiIndex_new_result numIndexes Hn) as (s1 & p & R & T & E1 & E2 & E3).
  cbv zeta in *. rewrite R. cbn [fst snd].
  set (infos := repeat (setInfoChecksumOf initialIndexInfo) (Z.to_nat numIndexes)).
  split; [reflexivity|].
  split; [unfold hasError; cbn [set_file set_indexInfo m_errorCode];
          rewrite E1; reflexivity|].
  split; [unfold getActiveIndex; cbn [set_file set_indexInfo m_currentIndex];
          rewrite E2; reflexivity|].
  split; [reflexivity|].
  split; [reflexivity|].
  split.
  - cbn [set_file m_file]. rewrite length_app, flat_map_IndexInfo_length.
    unfold infos. rewrite repeat_length.
    change (length (MultiIndexHeader_bytes s1)) with 3%nat. lia.
  - split; [exact T|].
    intros i. unfold testInfoChecksum.
    cbn [set_file set_indexInfo m_indexInfo]. unfold infos.
    destruct (Nat.lt_ge_cases (Z.to_nat i) (Z.to_nat numIndexes)) as [L|L].
    + rewrite nth_repeat_lt by assumption.
      now rewrite setInfoChecksumOf_valid.
    + rewrite nth_overflow by (now rewrite repeat_length). reflexivity.
Qed.

Lemma new_file_layout_witness :
  let s := snd (MultiIndex_new 2) in
  fst (MultiIndex_new 2) = Ret tt
  /\ hasError s = false
  /\ getActiveIndex s = 1
  /\ m_indexInfo s = repeat (setInfoChecksumOf initialIndexInfo) (Z.to_nat 2)
  /\ m_file s = MultiIndexHeader_bytes s ++ flat_map IndexInfo_bytes (m_indexInfo s)
  /\ Z.of_nat (length (m_file s)) = 3 + 67 * 2
  /\ testHeaderChecksum s = true
  /\ (forall i, testInfoChecksum s i = true).
Proof.
  apply (new_file_layout 2). lia.
Defined.

(** ** A newly initialised index *)

Lemma bind_returns {A B} (c : M A) (f : A -> M B) (s s' : MultiIndex) (b : B) :
  bind c f s = (Ret b, s') ->
  exists a s1, c s = (Ret a, s1) /\ f a s1 = (Ret b, s').
Proof.
  unfold bind. destruct (c s) as [[a| |] s1]; try discriminate.
  intros H. now exists a, s1.
Qed.

Lemma behaves_writeInfo : behaves writeInfo.
Proof.
  unfold writeInfo.
  apply behaves_bind; [apply behaves_updInfo; intros []; reflexivity|]. intros _.
  apply behaves_bind; [apply behaves_gets|]. intros bytes.
  apply behaves_bind; [apply behaves_gets|]. intros pos.
  apply behaves_File_write.
Qed.

Lemma endsKept_refl (s : MultiIndex) : endsKept s s.
Proof. unfold endsKept. auto. Qed.

Lemma endsKept_trans (s1 s2 s3 : MultiIndex) :
  endsKept s1 s2 -> endsKept s2 s3 -> endsKept s1 s3.
Proof. unfold endsKept. intros (A & B & C & D) (A' & B' & C' & D'). repeat split; congruence. Qed.

Lemma endsKept_same (s s' : MultiIndex) :
  m_currentIndex s' = m_currentIndex s -> m_indexInfo s' = m_indexInfo s ->
  endsKept s s'.
Proof. intros A B. unfold endsKept, curInfo. rewrite A, B. auto. Qed.

Lemma keepsEnds_ret {A} (a : A) : keepsEnds (ret a).
Proof. intros s. apply endsKept_refl. Qed.
Lemma keepsEnds_gets {A} (f : MultiIndex -> A) : keepsEnds (gets f).
Proof. intros s. apply endsKept_refl. Qed.
Lemma keepsEnds_throw {A} (e : ErrorCode) : keepsEnds (@throw A e).
Proof. intros s. now apply endsKept_same. Qed.
Lemma keepsEnds_bind {A B} (c : M A) (f : A -> M B) :
  keepsEnds c -> (forall a, keepsEnds (f a)) -> keepsEnds (bind c f).
Proof.
  intros Hc Hf s. unfold bind. specialize (Hc s).
  destruct (c s) as [[a| |] s1]; cbn [snd] in *; try exact Hc.
  eapply endsKept_trans; [exact Hc | apply Hf].
Qed.
Lemma keepsEnds_updInfo (g : IndexInfo -> IndexInfo) :
  (forall i, firstLeave (g i) = firstLeave i /\ lastLeave (g i) = lastLeave i) ->
  keepsEnds (modify (updInfo g)).
Proof.
  intros Hg s. unfold modify, updInfo, endsKept, curInfo.
  cbn [snd set_indexInfo m_currentIndex m_indexInfo].
  split; [reflexivity|]. split; [apply length_vector_set|].
  split.
  - apply (nth_vector_set_any defaultIndexInfo _
             (fun x => firstLeave x
                       = firstLeave (nth (Z.to_nat (m_currentIndex s)) (m_indexInfo s)
                                       defaultIndexInfo))); [apply Hg | reflexivity].
  - apply (nth_vector_set_any defaultIndexInfo _
             (fun x => lastLeave x
                       = lastLeave (nth (Z.to_nat (m_currentIndex s)) (m_indexInfo s)
                                      defaultIndexInfo))); [apply Hg | reflexivity].
Qed.
Lemma keepsEnds_File_read b n p : keepsEnds (File_read b n p).
Proof.
  intros s. unfold File_read.
  destruct ((if p =? INVALID_POSITION then m_filePos s else p) <? 0);
    now apply endsKept_same.
Qed.
Lemma keepsEnds_File_write b n p : keepsEnds (File_write b n p).
Proof.
  intros s. unfold File_write.
  destruct ((if p =? INVALID_POSITION then m_filePos s else p) <? 0);
    [now apply endsKept_same|].
  destruct (n <=? 0); now apply endsKept_same.
Qed.
Lemma keepsEnds_File_seek p : keepsEnds (File_seek p).
Proof. intros s. unfold File_seek. destruct (p <? 0); now apply endsKept_same. Qed.

Create HintDb ends.
#[local] Hint Resolve keepsEnds_File_read keepsEnds_File_write keepsEnds_File_seek
  : ends.

Ltac ends_step :=
  match goal with
  | |- keepsEnds (ret _) => apply keepsEnds_ret
  | |- keepsEnds (gets _) => apply keepsEnds_gets
  | |- keepsEnds File_size => apply keepsEnds_gets
  | |- keepsEnds (throw _) => apply keepsEnds_throw
  | |- keepsEnds (bind _ _) => apply keepsEnds_bind; [|intros ?]
  | |- keepsEnds (modify (updInfo _)) =>
      apply keepsEnds_updInfo; intros []; split; reflexivity
  | |- keepsEnds (if ?b then _ else _) => destruct b
  | |- keepsEnds (match ?x with _ => _ end) => destruct x
  | |- keepsEnds _ => solve [auto with ends]
  end.

Ltac ends := repeat ends_step.

Lemma keepsEnds_readNode node pos : keepsEnds (readNode node pos).
Proof. unfold readNode. ends. Qed.
Lemma keepsEnds_writeNode node pos : keepsEnds (writeNode node pos).
Proof. unfold writeNode. ends. Qed.
Lemma keepsEnds_setFreeNode pos : keepsEnds (setFreeNode pos).
Proof. unfold setFreeNode. ends. Qed.
Lemma keepsEnds_setRootNode pos : keepsEnds (setRootNode pos).
Proof. unfold setRootNode. ends. Qed.
Lemma keepsEnds_setNumLevels n : keepsEnds (setNumLevels n).
Proof. unfold setNumLevels. ends. Qed.
#[local] Hint Resolve keepsEnds_readNode keepsEnds_writeNode keepsEnds_setFreeNode
  keepsEnds_setRootNode keepsEnds_setNumLevels : ends.
Lemma keepsEnds_createNodesLoop n : forall fileSize tempNode,
  keepsEnds (createNodesLoop n fileSize tempNode).
Proof. induction n as [|n IH]; intros; simpl; ends. Qed.
#[local] Hint Resolve keepsEnds_createNodesLoop : ends.
Lemma keepsEnds_createNodes n : keepsEnds (createNodes n).
Proof. unfold createNodes. ends. Qed.
#[local] Hint Resolve keepsEnds_createNodes : ends.
Lemma keepsEnds_allocateNode : keepsEnds allocateNode.
Proof. unfold allocateNode. ends. Qed.
#[local] Hint Resolve keepsEnds_allocateNode : ends.
Lemma keepsEnds_writeNewNode node : keepsEnds (writeNewNode node).
Proof. unfold writeNewNode. ends. Qed.
#[local] Hint Resolve keepsEnds_writeNewNode : ends.

Lemma curInfo_updInfo (g : IndexInfo -> IndexInfo) (s : MultiIndex) :
  activeIn s -> curInfo (updInfo g s) = g (curInfo s).
Proof.
  intros H. unfold curInfo, updInfo. cbn [set_indexInfo m_indexInfo m_currentIndex].
  now apply nth_vector_set.
Qed.

Lemma activeIn_updInfo (g : IndexInfo -> IndexInfo) (s : MultiIndex) :
  activeIn s -> activeIn (updInfo g s).
Proof.
  unfold activeIn, updInfo. cbn [set_indexInfo m_indexInfo m_currentIndex].
  now rewrite length_vector_set.
Qed.

Lemma activeIn_framed (s s' : MultiIndex) : framed s s' -> activeIn s -> activeIn s'.
Proof. unfold framed, activeIn. intros (A & _ & _ & B & _). rewrite A, B. auto. Qed.

Lemma activeIn_endsKept (s s' : MultiIndex) :
  endsKept s s' -> activeIn s -> activeIn s'.
Proof. unfold endsKept, activeIn. intros (A & B & _). rewrite A, B. auto. Qed.

(** [createFirstNode], when it returns, has made the two ends of the leaf
    chain the same leaf. *)
Lemma createFirstNode_ends (s s' : MultiIndex) :
  activeIn s -> createFirstNode s = (Ret tt, s') ->
  firstLeave (curInfo s') = lastLeave (curInfo s').
Proof.
  intros Act H. unfold createFirstNode in H.
  repeat (apply bind_returns in H; destruct H as (? & ? & ?H & H)).
  unfold gets in *.
  repeat match goal with
         | E : (Ret _, _) = (Ret _, _) |- _ => inversion E; subst; clear E
         end.
  match goal with
  | W : writeNewLeave ?lv ?t0 = (Ret ?lp, ?t1),
    F : setFirstLeave _ _ = (Ret _, ?t2),
    L : setLastLeave _ _ = (Ret _, ?t3),
    N : writeNewNode ?nd _ = (Ret ?np, ?t4),
    R : setRootNode _ _ = (Ret tt, _) |- _ =>
      pose proof (behaves_writeNewLeave lv t0) as B; rewrite W in B;
      pose proof (keepsEnds_writeNewNode nd t3) as K1; rewrite N in K1;
      pose proof (keepsEnds_setRootNode np t4) as K2; rewrite R in K2;
      cbn [fst snd] in B, K1, K2;
      assert (A1 : activeIn t1) by (eapply activeIn_framed; [apply B | exact Act]);
      unfold setFirstLeave, setLastLeave, modify in F, L;
      inversion F; inversion L; subst t2 t3
  end.
  destruct K1 as (_ & _ & F1 & L1). destruct K2 as (_ & _ & F2 & L2).
  rewrite F2, L2, F1, L1.
  rewrite !curInfo_updInfo by (try apply activeIn_updInfo; assumption).
  reflexivity.
Qed.

Lemma returns_behaves {A} (c : M A) (s s' : MultiIndex) (a : A) :
  behaves c -> c s = (Ret a, s') ->
  framed s s' /\ m_errorCode s' = m_errorCode s.
Proof. intros B H. specialize (B s). rewrite H in B. exact B. Qed.

Lemma returns_keepsEnds {A} (c : M A) (s s' : MultiIndex) (r : Result A) :
  keepsEnds c -> c s = (r, s') -> endsKept s s'.
Proof. intros K H. specialize (K s). now rewrite H in K. Qed.

(** What [initIndex], when it returns on a good handle, has done to the
    descriptors: the configuration is the one it was given, there is one
    level, the two ends of the leaf chain are equal so that [getFirst]
    finds no entry, and the other indexes are as they were. *)
Lemma initIndex_descriptor
    (kt : KeyType) (ks attrs numItems nodes leaves : Z) (s s' : MultiIndex) :
  hasError s = false -> activeIn s ->
  initIndex kt ks attrs numItems nodes leaves s = (Ret tt, s') ->
  hasError s' = false
  /\ configOf (curInfo s') = (attrs, kt, ks, numItems, nodes, leaves)
  /\ getNumLevels s' = 1
  /\ getFirstLeave s' = getLastLeave s'
  /\ getFirst s' = (Ret (INVALID_POSITION, []), s')
  /\ (forall j, j <> Z.to_nat (m_currentIndex s) ->
        nth j (m_indexInfo s') defaultIndexInfo
        = nth j (m_indexInfo s) defaultIndexInfo).
Proof.
  intros Herr Act H. unfold initIndex in H.
  unfold bind at 1 in H. unfold gets at 1 in H. rewrite Herr in H.
  apply bind_returns in H. destruct H as ([] & s0 & H0 & H).
  unfold modify in H0. inversion H0 as [E0]. clear H0.
  set (g := fun i : IndexInfo => mkIndexInfo _ _ _ _ _ _ _ _ _ _ _ _ _) in E0.
  assert (A0 : activeIn s0) by (subst s0; now apply activeIn_updInfo).
  assert (C0 : configOf (curInfo s0) = (attrs, kt, ks, numItems, nodes, leaves))
    by (subst s0; rewrite curInfo_updInfo by assumption; reflexivity).
  assert (O0 : forall j, j <> Z.to_nat (m_currentIndex s) ->
             nth j (m_indexInfo s0) defaultIndexInfo
             = nth j (m_indexInfo s) defaultIndexInfo).
  { intros j Hj. subst s0. unfold updInfo. cbn [set_indexInfo m_indexInfo].
    apply nth_vector_set_other. congruence. }
  assert (I0 : m_currentIndex s0 = m_currentIndex s) by (subst s0; reflexivity).
  assert (R0 : m_errorCode s0 = m_errorCode s) by (subst s0; reflexivity).
  clearbody g. clear E0.
  apply bind_returns in H. destruct H as ([] & s1 & H1 & H).
  apply bind_returns in H. destruct H as ([] & s2 & H2 & H).
  apply bind_returns in H. destruct H as ([] & s3 & H3 & H).
  apply bind_returns in H. destruct H as ([] & s4 & H4 & H).
  destruct (returns_behaves _ _ _ _ behaves_writeInfo H1) as (F1 & R1).
  destruct (returns_behaves _ _ _ _ (behaves_createNodes _) H2) as (F2 & R2).
  destruct (returns_behaves _ _ _ _ (behaves_createLeaves _) H3) as (F3 & R3).
  assert (A3 : activeIn s3).
  { eapply activeIn_framed; [exact F3|]. eapply activeIn_framed; [exact F2|].
    eapply activeIn_framed; [exact F1|]. exact A0. }
  pose proof (createFirstNode_ends _ _ A3 H4) as E4.
  assert (B4 : behaves createFirstNode).
  { unfold createFirstNode.
    repeat first
      [ apply behaves_gets | apply behaves_writeNewLeave | apply behaves_writeNewNode
      | apply behaves_setFirstLeave | apply behaves_setLastLeave
      | apply behaves_setRootNode
      | apply behaves_bind; [|intros ?] ]. }
  destruct (returns_behaves _ _ _ _ B4 H4) as (F4 & R4).
  assert (A4 : activeIn s4) by (eapply activeIn_framed; [exact F4 | exact A3]).
  destruct (returns_behaves _ _ _ _ (behaves_setNumLevels 1) H) as (F5 & R5).
  assert (F : framed s0 s').
  { eapply framed_trans; [exact F1|]. eapply framed_trans; [exact F2|].
    eapply framed_trans; [exact F3|]. eapply framed_trans; [exact F4|]. exact F5. }
  assert (Herr' : hasError s' = false).
  { unfold hasError in *. rewrite R5, R4, R3, R2, R1, R0. exact Herr. }
  assert (E5 : updInfo (with_numLevels 1) s4 = s')
    by (unfold setNumLevels, modify in H; congruence).
  assert (Ends : getFirstLeave s' = getLastLeave s').
  { unfold getFirstLeave, getLastLeave. rewrite <- E5.
    rewrite !curInfo_updInfo by assumption.
    destruct (curInfo s4). exact E4. }
  split; [exact Herr'|].
  split; [destruct F as (_ & _ & _ & _ & _ & _ & C & _); congruence|].
  split; [unfold getNumLevels; rewrite <- E5, curInfo_updInfo by assumption;
          destruct (curInfo s4); reflexivity|].
  split; [exact Ends|].
  split.
  - unfold getFirst. unfold bind at 1. unfold gets at 1.
    rewrite Herr'. unfold bind, gets. rewrite Ends, Z.eqb_refl. reflexivity.
  - intros j Hj. destruct F as (_ & _ & _ & _ & _ & O & _).
    rewrite <- (O0 j Hj). apply O. congruence.
Qed.

(** ** The free lists *)

(** The file after a write, byte by byte: the bytes of the buffer where
    the write went, and the bytes there were elsewhere (a gap past the old
    end of the file reads as zeros before and after). *)
Lemma File_write_bytes (buffer : list Z) (size pos : Z) (s : MultiIndex) :
  0 <= pos -> 0 < size -> length buffer = Z.to_nat size ->
  exists d,
    File_write buffer size pos s = (Ret tt, set_file d (pos + size) s)
    /\ firstn (Z.to_nat size) (skipn (Z.to_nat pos) d) = buffer
    /\ (forall z, ~ (pos <= z < pos + size) -> nthZ z d = nthZ z (m_file s)).
Proof.
  intros Hp Hs Hb.
  destruct (File_write_state buffer size pos s Hp Hs) as (d & W & G).
  exists d. split; [exact W|]. split; [now rewrite G, peek_whole|].
  intros z Hz.
  assert (E : d = firstn (Z.to_nat pos) (m_file s)
                  ++ repeat 0 (Z.to_nat pos - length (m_file s))
                  ++ peek buffer 0 (Z.to_nat size)
                  ++ skipn (Z.to_nat (pos + size)) (m_file s)).
  { revert W. unfold File_write.
    replace (pos =? INVALID_POSITION) with false
      by (symmetry; apply Z.eqb_neq; unfold INVALID_POSITION; lia).
    replace (pos <? 0) with false by (symmetry; apply Z.ltb_ge; lia).
    replace (size <=? 0) with false by (symmetry; apply Z.leb_gt; lia).
    unfold set_file. intros W. now inversion W. }
  rewrite E. unfold nthZ. destruct (z <? 0) eqn:Z0; [reflexivity|].
  apply Z.ltb_ge in Z0.
  set (f := m_file s). set (n := length f).
  assert (L1 : length (firstn (Z.to_nat pos) f) = Nat.min (Z.to_nat pos) n)
    by apply length_firstn.
  destruct (Z_lt_ge_dec z pos) as [Lt|Ge].
  - destruct (Nat.lt_ge_cases (Z.to_nat z) n) as [In|Out].
    + rewrite app_nth1 by lia. rewrite nth_firstn.
      replace (Z.to_nat z <? Z.to_nat pos)%nat with true
        by (symmetry; apply Nat.ltb_lt; lia).
      reflexivity.
    + rewrite (nth_overflow f) by exact Out.
      rewrite app_nth2 by lia.
      rewrite app_nth1 by (rewrite repeat_length; lia).
      apply nth_repeat.
  - assert (Hz' : pos + size <= z) by lia.
    rewrite app_nth2 by lia. rewrite app_nth2 by (rewrite repeat_length; lia).
    rewrite repeat_length.
    rewrite app_nth2 by (rewrite peek_length; lia).
    rewrite peek_length, nth_skipn. f_equal. lia.
Qed.

Lemma vector_set_same {A} (d : A) : forall (l : list A) (i : nat) (x : A),
  vector_set (vector_set l i x) i (nth i l d) = l.
Proof.
  induction l as [|h t IH]; intros [|i] x; simpl; try reflexivity.
  now rewrite IH.
Qed.

Lemma vector_set_over {A} : forall (l : list A) (i : nat) (x y : A),
  vector_set (vector_set l i x) i y = vector_set l i y.
Proof.
  induction l as [|h t IH]; intros [|i] x y; simpl; try reflexivity.
  now rewrite IH.
Qed.

(** A 64-bit field of a block survives the checksum byte being set. *)
Lemma getI64_checksummed (b : list Z) (off v c : Z) :
  1 <= off -> off + 8 <= Z.of_nat (length b) ->
  - 2 ^ 63 <= v < 2 ^ 63 ->
  getI64 (poke (poke (setI64 b off v) 0 [0]) 0 [c]) off = v.
Proof.
  intros Ho Hl Hv. destruct b as [|c0 t]; [simpl in Hl; lia|].
  rewrite setI64_cons by lia. rewrite !poke_cons_0.
  rewrite getI64_cons by lia.
  apply getI64_is; [exact Hv|].
  apply setI64_window_same; [lia|]. simpl length in Hl. lia.
Qed.

(** Setting a field of the active descriptor and then setting it back. *)
Lemma updInfo_back (g h : IndexInfo -> IndexInfo) (s t : MultiIndex) :
  activeIn s ->
  m_indexInfo t = m_indexInfo (updInfo g s) ->
  m_currentIndex t = m_currentIndex s ->
  h (g (curInfo s)) = curInfo s ->
  m_indexInfo (updInfo h t) = m_indexInfo s.
Proof.
  intros A Ht Hc Hb. unfold updInfo at 1. cbn [set_indexInfo m_indexInfo].
  unfold curInfo at 1. rewrite Ht, Hc.
  unfold updInfo. cbn [set_indexInfo m_indexInfo].
  rewrite nth_vector_set by exact A. fold (curInfo s). rewrite Hb.
  rewrite vector_set_over. apply vector_set_nth.
Qed.

Lemma resetNode_length (b : list Z) :
  (19 <= length b)%nat -> length (resetNode b) = length b.
Proof.
  intros H. unfold resetNode, setPrevNode, setNextNode, setNumItems, setU16.
  assert (F : length (fill0 b) = length b) by apply repeat_length.
  assert (F0 : length (poke (fill0 b) 1 (encodeLE 2 0)) = length b)
    by (rewrite poke_length; lia).
  assert (F1 : length (setI64 (poke (fill0 b) 1 (encodeLE 2 0)) 3 INVALID_POSITION)
               = length b) by (rewrite setI64_length; lia).
  rewrite setI64_length; lia.
Qed.

(** A leaf put on the free list by [freeLeaveAt] is the one [allocateLeave]
    takes next, and the list is then what it was. *)
Lemma freeLeaveAt_allocateLeave (s : MultiIndex) (pos : Z) :
  activeIn s -> 0 <= pos ->
  sizeof_LeafHeader <= getLeaveSize s ->
  - 2 ^ 63 <= getFreeLeave s < 2 ^ 63 ->
  exists s',
    (freeLeaveAt pos ;;; allocateLeave) s = (Ret pos, s')
    /\ m_indexInfo s' = m_indexInfo s
    /\ m_errorCode s' = m_errorCode s
    /\ (forall z, ~ (pos <= z < pos + getLeaveSize s) ->
          nthZ z (m_file s') = nthZ z (m_file s)).
Proof.
  intros A Hp Hsz Hfree. unfold sizeof_LeafHeader in Hsz.
  set (sz := getLeaveSize s) in *.
  set (blk := setNextLeave (resetLeave (allocateLeaveBlock s)) (getFreeLeave s)).
  assert (Lr : length (resetLeave (allocateLeaveBlock s)) = Z.to_nat sz).
  { rewrite resetLeave_length; unfold allocateLeaveBlock; rewrite zeros_length;
      fold sz; lia. }
  assert (Lb : length blk = Z.to_nat sz).
  { unfold blk, setNextLeave. rewrite setI64_length; lia. }
  assert (Lc : length (setLeaveChecksum s blk) = Z.to_nat sz)
    by now rewrite setLeaveChecksum_length.
  destruct (File_write_bytes (setLeaveChecksum s blk) sz pos s Hp ltac:(lia) Lc)
    as (d & W & G & O).
  set (s1 := updInfo (with_freeLeave pos) (set_file d (pos + sz) s)).
  assert (F1 : freeLeaveAt pos s = (Ret tt, s1)).
  { unfold freeLeaveAt. rewrite !bind_gets. fold blk.
    unfold writeLeave. repeat (rewrite bind_assoc || rewrite bind_gets). fold sz.
    erewrite bind_eq by exact W.
    rewrite bind_ret. reflexivity. }
  assert (A1 : activeIn s1) by (apply activeIn_updInfo; exact A).
  assert (C1 : curInfo s1 = with_freeLeave pos (curInfo s))
    by (unfold s1; now rewrite curInfo_updInfo).
  assert (S1 : getLeaveSize s1 = sz) by (unfold getLeaveSize; now rewrite C1).
  set (s2 := updInfo (with_freeLeave (getFreeLeave s)) (set_filePos (pos + sz) s1)).
  exists s2. split.
  - erewrite bind_eq by exact F1. unfold allocateLeave.
    rewrite bind_gets.
    assert (P1 : getFreeLeave s1 = pos) by (unfold getFreeLeave; now rewrite C1).
    rewrite !P1.
    replace (pos =? INVALID_POSITION) with false
      by (symmetry; apply Z.eqb_neq; unfold INVALID_POSITION; lia).
    rewrite bind_ret, bind_gets.
    unfold readLeave. repeat (rewrite bind_assoc || rewrite bind_gets). rewrite S1.
    erewrite bind_eq.
    2:{ apply (File_read_got _ sz pos s1 (setLeaveChecksum s blk));
          [lia | lia | unfold resize; apply peek_length | exact Lc | exact G]. }
    rewrite bind_assoc, bind_gets. unfold testLeaveChecksum.
    change (getLeaveSize (set_filePos (pos + sz) s1)) with (getLeaveSize s1).
    rewrite S1. unfold setLeaveChecksum at 1. fold sz.
    rewrite checksum_after_set, Z.eqb_refl. rewrite bind_ret.
    unfold setFreeLeave. rewrite bind_modify. unfold ret.
    replace (getNextLeave (setLeaveChecksum s blk)) with (getFreeLeave s);
      [reflexivity|].
    symmetry. unfold getNextLeave, setLeaveChecksum, blk, setNextLeave.
    apply getI64_checksummed; lia.
  - split; [|split].
    + apply (updInfo_back (with_freeLeave pos)); try exact A; try reflexivity.
      unfold getFreeLeave. now destruct (curInfo s).
    + reflexivity.
    + intros z Hz. exact (O z Hz).
Qed.

(** The same for nodes, with [freeNodeAt] and [allocateNode]. *)
Lemma freeNodeAt_allocateNode (s : MultiIndex) (pos : Z) :
  activeIn s -> 0 <= pos ->
  sizeof_NodeHeader <= getNodeSize s ->
  - 2 ^ 63 <= getFreeNode s < 2 ^ 63 ->
  exists s',
    (freeNodeAt pos ;;; allocateNode) s = (Ret pos, s')
    /\ m_indexInfo s' = m_indexInfo s
    /\ m_errorCode s' = m_errorCode s
    /\ (forall z, ~ (pos <= z < pos + getNodeSize s) ->
          nthZ z (m_file s') = nthZ z (m_file s)).
Proof.
  intros A Hp Hsz Hfree. unfold sizeof_NodeHeader in Hsz.
  set (sz := getNodeSize s) in *.
  set (blk := setNextNode (resetNode (allocateNodeBlock s)) (getFreeNode s)).
  assert (Lr : length (resetNode (allocateNodeBlock s)) = Z.to_nat sz).
  { rewrite resetNode_length; unfold allocateNodeBlock; rewrite zeros_length;
      fold sz; lia. }
  assert (Lb : length blk = Z.to_nat sz).
  { unfold blk, setNextNode. rewrite setI64_length; lia. }
  assert (Lc : length (setNodeChecksum s blk) = Z.to_nat sz)
    by now rewrite setNodeChecksum_length.
  destruct (File_write_bytes (setNodeChecksum s blk) sz pos s Hp ltac:(lia) Lc)
    as (d & W & G & O).
  set (s1 := updInfo (with_freeNode pos) (set_file d (pos + sz) s)).
  assert (F1 : freeNodeAt pos s = (Ret tt, s1)).
  { unfold freeNodeAt. rewrite !bind_gets. fold blk.
    unfold writeNode. repeat (rewrite bind_assoc || rewrite bind_gets). fold sz.
    erewrite bind_eq by exact W.
    rewrite bind_ret. reflexivity. }
  assert (A1 : activeIn s1) by (apply activeIn_updInfo; exact A).
  assert (C1 : curInfo s1 = with_freeNode pos (curInfo s))
    by (unfold s1; now rewrite curInfo_updInfo).
  assert (S1 : getNodeSize s1 = sz)
    by (unfold getNodeSize, getItemSize, getMaxItems; now rewrite C1).
  set (s2 := updInfo (with_freeNode (getFreeNode s)) (set_filePos (pos + sz) s1)).
  exists s2. split.
  - erewrite bind_eq by exact F1. unfold allocateNode.
    rewrite bind_gets.
    assert (P1 : getFreeNode s1 = pos) by (unfold getFreeNode; now rewrite C1).
    rewrite !P1.
    replace (pos =? INVALID_POSITION) with false
      by (symmetry; apply Z.eqb_neq; unfold INVALID_POSITION; lia).
    rewrite bind_ret, bind_gets.
    unfold readNode. repeat (rewrite bind_assoc || rewrite bind_gets). rewrite S1.
    erewrite bind_eq.
    2:{ apply (File_read_got _ sz pos s1 (setNodeChecksum s blk));
          [lia | lia | unfold resize; apply peek_length | exact Lc | exact G]. }
    rewrite bind_assoc, bind_gets. unfold testNodeChecksum.
    change (getNodeSize (set_filePos (pos + sz) s1)) with (getNodeSize s1).
    rewrite S1. unfold setNodeChecksum at 1. fold sz.
    rewrite checksum_after_set, Z.eqb_refl. rewrite bind_ret.
    unfold setFreeNode. rewrite bind_modify. unfold ret.
    replace (getNextNode (setNodeChecksum s blk)) with (getFreeNode s);
      [reflexivity|].
    symmetry. unfold getNextNode, setNodeChecksum, blk, setNextNode.
    apply getI64_checksummed; lia.
  - split; [|split].
    + apply (updInfo_back (with_freeNode pos)); try exact A; try reflexivity.
      unfold getFreeNode. now destruct (curInfo s).
    + reflexivity.
    + intros z Hz. exact (O z Hz).
Qed.

(** The free lists are stacks: a leaf that [freeLeaveAt] has put on the
    free-leaf list is the one [allocateLeave] returns next, and a node that
    [freeNodeAt] has put on the free-node list is the one [allocateNode]
    returns next.  After the two calls every index descriptor (so the head
    of the list too) and the error code are what they were, and the file
    differs from what it was at most inside the block. *)
Theorem freed_block_is_reused (s : MultiIndex) (leavePos nodePos : Z) :
  activeIn s -> 0 <= leavePos -> 0 <= nodePos ->
  sizeof_LeafHeader <= getLeaveSize s ->
  sizeof_NodeHeader <= getNodeSize s ->
  - 2 ^ 63 <= getFreeLeave s < 2 ^ 63 ->
  - 2 ^ 63 <= getFreeNode s < 2 ^ 63 ->
  (exists s',
     (freeLeaveAt leavePos ;;; allocateLeave) s = (Ret leavePos, s')
     /\ m_indexInfo s' = m_indexInfo s
     /\ m_errorCode s' = m_errorCode s
     /\ (forall z, ~ (leavePos <= z < leavePos + getLeaveSize s) ->
           nthZ z (m_file s') = nthZ z (m_file s)))
  /\ (exists s',
        (freeNodeAt nodePos ;;; allocateNode) s = (Ret nodePos, s')
        /\ m_indexInfo s' = m_indexInfo s
        /\ m_errorCode s' = m_errorCode s
        /\ (forall z, ~ (nodePos <= z < nodePos + getNodeSize s) ->
              nthZ z (m_file s') = nthZ z (m_file s))).
Proof.
  intros A Hl Hn Sl Sn Fl Fn. split.
  - now apply freeLeaveAt_allocateLeave.
  - now apply freeNodeAt_allocateNode.
Qed.

Lemma freed_block_is_reused_witness :
  (exists s',
     (freeLeaveAt 257 ;;; allocateLeave) oneLong = (Ret 257, s')
     /\ m_indexInfo s' = m_indexInfo oneLong
     /\ m_errorCode s' = m_errorCode oneLong
     /\ (forall z, ~ (257 <= z < 257 + getLeaveSize oneLong) ->
           nthZ z (m_file s') = nthZ z (m_file oneLong)))
  /\ (exists s',
        (freeNodeAt 70 ;;; allocateNode) oneLong = (Ret 70, s')
        /\ m_indexInfo s' = m_indexInfo oneLong
        /\ m_errorCode s' = m_errorCode oneLong
        /\ (forall z, ~ (70 <= z < 70 + getNodeSize oneLong) ->
              nthZ z (m_file s') = nthZ z (m_file oneLong))).
Proof.
  apply (freed_block_is_reused oneLong 257 70).
  - unfold activeIn. vm_compute. lia.
  - lia.
  - lia.
  - vm_compute. discriminate.
  - vm_compute. discriminate.
  - vm_compute. split; [discriminate | reflexivity].
  - vm_compute. split; [discriminate | reflexivity].
Defined.

(** ** Pre-allocation *)

(** A write at the end of the file, with the file position there. *)
Lemma File_write_append (buffer : list Z) (size : Z) (s : MultiIndex) :
  m_filePos s = Z.of_nat (length (m_file s)) -> 0 < size ->
  length buffer = Z.to_nat size ->
  File_write buffer size INVALID_POSITION s
  = (Ret tt, set_file (m_file s ++ buffer) (m_filePos s + size) s).
Proof.
  intros Hp Hs Hb. unfold File_write. rewrite Z.eqb_refl.
  replace (m_filePos s <? 0) with false by (symmetry; apply Z.ltb_ge; lia).
  replace (size <=? 0) with false by (symmetry; apply Z.leb_gt; lia).
  f_equal. f_equal.
  rewrite firstn_all2 by lia. rewrite skipn_all2 by lia.
  replace (Z.to_nat (m_filePos s) - length (m_file s))%nat with 0%nat by lia.
  rewrite peek_whole by exact Hb. simpl. now rewrite app_nil_r.
Qed.

Lemma writeLeave_append (s : MultiIndex) (blk : list Z) :
  m_filePos s = Z.of_nat (length (m_file s)) -> 0 < getLeaveSize s ->
  length blk = Z.to_nat (getLeaveSize s) ->
  writeLeave blk INVALID_POSITION s
  = (Ret (setLeaveChecksum s blk),
     set_file (m_file s ++ setLeaveChecksum s blk)
       (m_filePos s + getLeaveSize s) s).
Proof.
  intros Hp Hs Hb. unfold writeLeave.
  repeat (rewrite bind_assoc || rewrite bind_gets).
  erewrite bind_eq
    by (apply File_write_append; [exact Hp | exact Hs
                                 | now rewrite setLeaveChecksum_length]).
  reflexivity.
Qed.

Lemma setLeaveChecksum_valid (s : MultiIndex) (blk : list Z) :
  calculateBlockChecksum (setLeaveChecksum s blk) (getLeaveSize s) = 0.
Proof. unfold setLeaveChecksum. apply checksum_after_set. Qed.

Lemma getNextLeave_written (s : MultiIndex) (blk : list Z) (v : Z) :
  9 <= Z.of_nat (length blk) -> - 2 ^ 63 <= v < 2 ^ 63 ->
  getNextLeave (setLeaveChecksum s (setNextLeave blk v)) = v.
Proof.
  intros Hl Hv. unfold getNextLeave, setLeaveChecksum, setNextLeave.
  apply getI64_checksummed; lia.
Qed.

(** The blocks that the loop of [createLeaves] writes. *)
Lemma createLeavesLoop_chain (sz : Z) (n : nat) : forall (t : MultiIndex) (temp : list Z),
  getLeaveSize t = sz -> 25 <= sz ->
  m_filePos t = Z.of_nat (length (m_file t)) ->
  length temp = Z.to_nat sz ->
  Z.of_nat (length (m_file t)) + Z.of_nat n * sz < 2 ^ 63 ->
  exists blocks temp',
    createLeavesLoop n (Z.of_nat (length (m_file t))) temp t
    = (Ret temp',
       set_file (m_file t ++ concat blocks)
         (Z.of_nat (length (m_file t)) + Z.of_nat n * sz) t)
    /\ length temp' = Z.to_nat sz
    /\ length blocks = n
    /\ (forall k, (k < n)%nat ->
          length (nth k blocks []) = Z.to_nat sz
          /\ calculateBlockChecksum (nth k blocks []) sz = 0
          /\ getNextLeave (nth k blocks [])
             = Z.of_nat (length (m_file t)) + (Z.of_nat k + 1) * sz).
Proof.
  induction n as [|n IH]; intros t temp Hsz H25 Hp Ht Hr.
  - exists [], temp. cbn [createLeavesLoop concat]. rewrite app_nil_r.
    split; [|split; [exact Ht|split; [reflexivity|intros k Hk; lia]]].
    unfold ret. f_equal. destruct t; unfold set_file; cbn in *.
    f_equal. lia.
  - cbn [createLeavesLoop]. set (L := Z.of_nat (length (m_file t))) in *.
    set (blk := setLeaveChecksum t (setNextLeave temp (L + sz))).
    assert (Lb : length blk = Z.to_nat sz).
    { unfold blk, setNextLeave.
      rewrite setLeaveChecksum_length, setI64_length; lia. }
    set (t1 := set_file (m_file t ++ blk) (m_filePos t + sz) t).
    assert (W : writeLeave (setNextLeave temp (L + sz)) INVALID_POSITION t
                = (Ret blk, t1)).
    { pose proof (writeLeave_append t (setNextLeave temp (L + sz)) Hp) as W'.
      rewrite Hsz in W'. apply W'; [lia|].
      unfold setNextLeave. rewrite setI64_length; lia. }
    assert (L1 : Z.of_nat (length (m_file t1)) = L + sz).
    { unfold t1. cbn [m_file set_file]. rewrite length_app. unfold L. lia. }
    destruct (IH t1 blk) as (blocks & temp' & R & Lt' & Lbs & Hk).
    + exact Hsz.
    + exact H25.
    + unfold t1 at 1. cbn [m_filePos set_file]. rewrite L1, Hp. reflexivity.
    + exact Lb.
    + rewrite L1. lia.
    + exists (blk :: blocks), temp'.
      split; [|split; [exact Lt'|split; [simpl; now rewrite Lbs|]]].
      * rewrite bind_gets, Hsz. erewrite bind_eq by exact W.
        rewrite <- L1, R. f_equal.
        unfold t1, set_file. cbn [m_file m_errorCode m_header_checksum
          m_header_numIndexes m_indexInfo m_positions m_currentIndex concat].
        rewrite <- app_assoc. f_equal.
        rewrite length_app. fold L. lia.
      * intros [|k] Hlt; cbn [nth].
        -- split; [exact Lb|]. split.
           ++ unfold blk. rewrite <- Hsz. apply setLeaveChecksum_valid.
           ++ unfold blk. rewrite getNextLeave_written; lia.
        -- destruct (Hk k ltac:(lia)) as (K1 & K2 & K3).
           split; [exact K1|]. split; [exact K2|]. rewrite K3, L1. lia.
Qed.

(** Where the blocks of a run of equal-sized blocks lie. *)
Lemma skipn_concat (sz : nat) : forall (blocks : list (list Z)) (k : nat),
  (forall j, (j < length blocks)%nat -> length (nth j blocks []) = sz) ->
  (k < length blocks)%nat ->
  exists rest, skipn (k * sz) (concat blocks) = nth k blocks [] ++ rest.
Proof.
  induction blocks as [|b bs IH]; intros k Hl Hk; [simpl in Hk; lia|].
  destruct k as [|k].
  - exists (concat bs). reflexivity.
  - assert (Lb : length b = sz) by (apply (Hl 0%nat); simpl; lia).
    destruct (IH k) as (rest & R).
    + intros j Hj. apply (Hl (S j)). simpl. lia.
    + simpl in Hk. lia.
    + exists rest. cbn [concat nth].
      replace (S k * sz)%nat with (length b + k * sz)%nat by lia.
      rewrite skipn_app, skipn_all2 by lia.
      replace (length b + k * sz - length b)%nat with (k * sz)%nat by lia.
      exact R.
Qed.

Lemma peek_concat (d : list Z) (sz : Z) (blocks : list (list Z)) (k : Z) :
  0 <= sz ->
  (forall j, (j < length blocks)%nat -> length (nth j blocks []) = Z.to_nat sz) ->
  0 <= k < Z.of_nat (length blocks) ->
  peek (d ++ concat blocks) (Z.of_nat (length d) + k * sz) (Z.to_nat sz)
  = nth (Z.to_nat k) blocks [].
Proof.
  intros Hs Hl Hk.
  destruct (skipn_concat (Z.to_nat sz) blocks (Z.to_nat k) Hl ltac:(lia))
    as (rest & R).
  assert (Lk : length (nth (Z.to_nat k) blocks []) = Z.to_nat sz)
    by (apply Hl; lia).
  unfold peek.
  replace (Z.to_nat (Z.of_nat (length d) + k * sz))
    with (length d + Z.to_nat k * Z.to_nat sz)%nat by nia.
  rewrite skipn_app, skipn_all2 by lia.
  replace (length d + Z.to_nat k * Z.to_nat sz - length d)%nat
    with (Z.to_nat k * Z.to_nat sz)%nat by lia.
  cbn [app]. rewrite R.
  assert (F : firstn (Z.to_nat sz) (nth (Z.to_nat k) blocks [] ++ rest)
              = nth (Z.to_nat k) blocks []).
  { rewrite <- Lk, firstn_app, firstn_all, Nat.sub_diag. simpl.
    apply app_nil_r. }
  rewrite F, Lk, Nat.sub_diag. simpl. apply app_nil_r.
Qed.

Lemma length_concat_uniform (m : nat) : forall (blocks : list (list Z)),
  (forall j, (j < length blocks)%nat -> length (nth j blocks []) = m) ->
  length (concat blocks) = (length blocks * m)%nat.
Proof.
  induction blocks as [|b bs IH]; intros Hl; [reflexivity|].
  cbn [concat length]. rewrite length_app, IH.
  - pose proof (Hl 0%nat ltac:(simpl; lia)) as H0. cbn [nth] in H0.
    rewrite H0. simpl. lia.
  - intros j Hj. apply (Hl (S j)). simpl. lia.
Qed.

(** [createLeaves]: the new leaves lie one after the other from the old
    end of the file and make a chain that ends in the old free list. *)
Lemma createLeaves_chain (s : MultiIndex) (n : Z) :
  activeIn s -> 0 < n ->
  sizeof_LeafHeader <= getLeaveSize s ->
  - 2 ^ 63 <= getFreeLeave s < 2 ^ 63 ->
  Z.of_nat (length (m_file s)) + n * getLeaveSize s < 2 ^ 63 ->
  exists s',
    createLeaves n s = (Ret tt, s')
    /\ m_errorCode s' = m_errorCode s
    /\ curInfo s' = with_freeLeave (Z.of_nat (length (m_file s))) (curInfo s)
    /\ firstn (length (m_file s)) (m_file s') = m_file s
    /\ Z.of_nat (length (m_file s'))
       = Z.of_nat (length (m_file s)) + n * getLeaveSize s
    /\ (forall k, 0 <= k < n ->
          let pos := Z.of_nat (length (m_file s)) + k * getLeaveSize s in
          let b := peek (m_file s') pos (Z.to_nat (getLeaveSize s)) in
          calculateBlockChecksum b (getLeaveSize s) = 0
          /\ getNextLeave b
             = (if k =? n - 1 then getFreeLeave s else pos + getLeaveSize s)).
Proof.
  intros A Hn H25 Hfree Hr. unfold sizeof_LeafHeader in H25.
  set (sz := getLeaveSize s) in *. set (L := Z.of_nat (length (m_file s))) in *.
  set (temp := resetLeave (allocateLeaveBlock s)).
  assert (Lt : length temp = Z.to_nat sz).
  { unfold temp. rewrite resetLeave_length; unfold allocateLeaveBlock;
      rewrite zeros_length; fold sz; lia. }
  set (t0 := set_filePos L s).
  destruct (createLeavesLoop_chain sz (Z.to_nat (n - 1)) t0 temp)
    as (blocks & temp1 & R & Lt1 & Lbs & Hk); try assumption; try reflexivity.
  { change (Z.of_nat (length (m_file t0))) with L. nia. }
  change (m_file t0) with (m_file s) in R, Hk. fold L in R, Hk.
  set (t1 := set_file (m_file s ++ concat blocks)
               (L + Z.of_nat (Z.to_nat (n - 1)) * sz) t0) in *.
  assert (Hlen : forall j, (j < length blocks)%nat ->
                 length (nth j blocks []) = Z.to_nat sz)
    by (intros j Hj; apply Hk; lia).
  pose proof (length_concat_uniform _ _ Hlen) as Lc.
  set (last := setLeaveChecksum s (setNextLeave temp1 (getFreeLeave s))).
  assert (Ll : length last = Z.to_nat sz).
  { unfold last, setNextLeave.
    rewrite setLeaveChecksum_length, setI64_length; lia. }
  set (t2 := set_file (m_file t1 ++ last) (m_filePos t1 + sz) t1).
  assert (W : writeLeave (setNextLeave temp1 (getFreeLeave s)) INVALID_POSITION t1
              = (Ret last, t2)).
  { apply (writeLeave_append t1 (setNextLeave temp1 (getFreeLeave s))).
    - unfold t1. cbn [m_filePos m_file set_file]. rewrite length_app, Lc, Lbs.
      unfold L. nia.
    - change (getLeaveSize t1) with sz. lia.
    - change (getLeaveSize t1) with sz. unfold setNextLeave.
      rewrite setI64_length; lia. }
  exists (updInfo (with_freeLeave L) t2).
  assert (Hall : forall j, (j < length (blocks ++ [last]))%nat ->
                   length (nth j (blocks ++ [last]) []) = Z.to_nat sz).
  { intros j Hj. rewrite length_app in Hj. simpl in Hj.
    destruct (Nat.lt_ge_cases j (length blocks)) as [In|Out].
    - rewrite app_nth1 by exact In. now apply Hlen.
    - rewrite app_nth2 by exact Out.
      replace (j - length blocks)%nat with 0%nat by lia. exact Ll. }
  assert (Hfile : m_file (updInfo (with_freeLeave L) t2)
                  = m_file s ++ concat (blocks ++ [last])).
  { rewrite concat_app. cbn [concat]. rewrite app_nil_r, app_assoc. reflexivity. }
  split; [|split; [reflexivity|split; [|split; [|split]]]].
  - unfold createLeaves.
    replace (n <=? 0) with false by (symmetry; apply Z.leb_gt; lia).
    unfold File_size. rewrite !bind_gets. fold L. fold temp.
    unfold File_seek at 1. unfold bind at 1.
    replace (L <? 0) with false by (symmetry; apply Z.ltb_ge; unfold L; lia).
    fold t0. erewrite bind_eq by exact R.
    rewrite bind_gets. change (getFreeLeave t1) with (getFreeLeave s).
    erewrite bind_eq by exact W. reflexivity.
  - change (curInfo s) with (curInfo t2). apply curInfo_updInfo. exact A.
  - rewrite Hfile. rewrite firstn_app, firstn_all, Nat.sub_diag. simpl.
    apply app_nil_r.
  - rewrite Hfile, length_app, (length_concat_uniform _ _ Hall), length_app, Lbs.
    simpl length. unfold L. nia.
  - intros k Hk0. cbv zeta. rewrite Hfile.
    unfold L. rewrite peek_concat; [|lia|exact Hall|].
    2:{ rewrite length_app, Lbs. simpl. lia. }
    destruct (k =? n - 1) eqn:E.
    + apply Z.eqb_eq in E.
      rewrite app_nth2 by lia.
      replace (Z.to_nat k - length blocks)%nat with 0%nat by lia. cbn [nth].
      split; [apply setLeaveChecksum_valid|].
      unfold last. apply getNextLeave_written; lia.
    + apply Z.eqb_neq in E.
      rewrite app_nth1 by lia.
      destruct (Hk (Z.to_nat k) ltac:(lia)) as (K1 & K2 & K3).
      split; [exact K2|]. rewrite K3. fold L. lia.
Qed.

Lemma writeNode_append (s : MultiIndex) (blk : list Z) :
  m_filePos s = Z.of_nat (length (m_file s)) -> 0 < getNodeSize s ->
  length blk = Z.to_nat (getNodeSize s) ->
  writeNode blk INVALID_POSITION s
  = (Ret (setNodeChecksum s blk),
     set_file (m_file s ++ setNodeChecksum s blk)
       (m_filePos s + getNodeSize s) s).
Proof.
  intros Hp Hs Hb. unfold writeNode.
  repeat (rewrite bind_assoc || rewrite bind_gets).
  erewrite bind_eq
    by (apply File_write_append; [exact Hp | exact Hs
                                 | now rewrite setNodeChecksum_length]).
  reflexivity.
Qed.

Lemma setNodeChecksum_valid (s : MultiIndex) (blk : list Z) :
  calculateBlockChecksum (setNodeChecksum s blk) (getNodeSize s) = 0.
Proof. unfold setNodeChecksum. apply checksum_after_set. Qed.

Lemma getNextNode_written (s : MultiIndex) (blk : list Z) (v : Z) :
  11 <= Z.of_nat (length blk) -> - 2 ^ 63 <= v < 2 ^ 63 ->
  getNextNode (setNodeChecksum s (setNextNode blk v)) = v.
Proof.
  intros Hl Hv. unfold getNextNode, setNodeChecksum, setNextNode.
  apply getI64_checksummed; lia.
Qed.

(** The same for the loop of [createNodes]. *)
Lemma createNodesLoop_chain (sz : Z) (n : nat) : forall (t : MultiIndex) (temp : list Z),
  getNodeSize t = sz -> 19 <= sz ->
  m_filePos t = Z.of_nat (length (m_file t)) ->
  length temp = Z.to_nat sz ->
  Z.of_nat (length (m_file t)) + Z.of_nat n * sz < 2 ^ 63 ->
  exists blocks temp',
    createNodesLoop n (Z.of_nat (length (m_file t))) temp t
    = (Ret temp',
       set_file (m_file t ++ concat blocks)
         (Z.of_nat (length (m_file t)) + Z.of_nat n * sz) t)
    /\ length temp' = Z.to_nat sz
    /\ length blocks = n
    /\ (forall k, (k < n)%nat ->
          length (nth k blocks []) = Z.to_nat sz
          /\ calculateBlockChecksum (nth k blocks []) sz = 0
          /\ getNextNode (nth k blocks [])
             = Z.of_nat (length (m_file t)) + (Z.of_nat k + 1) * sz).
Proof.
  induction n as [|n IH]; intros t temp Hsz H19 Hp Ht Hr.
  - exists [], temp. cbn [createNodesLoop concat]. rewrite app_nil_r.
    split; [|split; [exact Ht|split; [reflexivity|intros k Hk; lia]]].
    unfold ret. f_equal. destruct t; unfold set_file; cbn in *.
    f_equal. lia.
  - cbn [createNodesLoop]. set (L := Z.of_nat (length (m_file t))) in *.
    set (blk := setNodeChecksum t (setNextNode temp (L + sz))).
    assert (Lb : length blk = Z.to_nat sz).
    { unfold blk, setNextNode.
      rewrite setNodeChecksum_length, setI64_length; lia. }
    set (t1 := set_file (m_file t ++ blk) (m_filePos t + sz) t).
    assert (W : writeNode (setNextNode temp (L + sz)) INVALID_POSITION t
                = (Ret blk, t1)).
    { pose proof (writeNode_append t (setNextNode temp (L + sz)) Hp) as W'.
      rewrite Hsz in W'. apply W'; [lia|].
      unfold setNextNode. rewrite setI64_length; lia. }
    assert (L1 : Z.of_nat (length (m_file t1)) = L + sz).
    { unfold t1. cbn [m_file set_file]. rewrite length_app. unfold L. lia. }
    destruct (IH t1 blk) as (blocks & temp' & R & Lt' & Lbs & Hk).
    + exact Hsz.
    + exact H19.
    + unfold t1 at 1. cbn [m_filePos set_file]. rewrite L1, Hp. reflexivity.
    + exact Lb.
    + rewrite L1. lia.
    + exists (blk :: blocks), temp'.
      split; [|split; [exact Lt'|split; [simpl; now rewrite Lbs|]]].
      * rewrite bind_gets, Hsz. erewrite bind_eq by exact W.
        rewrite <- L1, R. f_equal.
        unfold t1, set_file. cbn [m_file m_errorCode m_header_checksum
          m_header_numIndexes m_indexInfo m_positions m_currentIndex concat].
        rewrite <- app_assoc. f_equal.
        rewrite length_app. fold L. lia.
      * intros [|k] Hlt; cbn [nth].
        -- split; [exact Lb|]. split.
           ++ unfold blk. rewrite <- Hsz. apply setNodeChecksum_valid.
           ++ unfold blk. rewrite getNextNode_written; lia.
        -- destruct (Hk k ltac:(lia)) as (K1 & K2 & K3).
           split; [exact K1|]. split; [exact K2|]. rewrite K3, L1. lia.
Qed.

(** [createNodes]: the new nodes lie one after the other from the old
    end of the file and make a chain that ends in the old free list. *)
Lemma createNodes_chain (s : MultiIndex) (n : Z) :
  activeIn s -> 0 < n ->
  sizeof_NodeHeader <= getNodeSize s ->
  - 2 ^ 63 <= getFreeNode s < 2 ^ 63 ->
  Z.of_nat (length (m_file s)) + n * getNodeSize s < 2 ^ 63 ->
  exists s',
    createNodes n s = (Ret tt, s')
    /\ m_errorCode s' = m_errorCode s
    /\ curInfo s' = with_freeNode (Z.of_nat (length (m_file s))) (curInfo s)
    /\ firstn (length (m_file s)) (m_file s') = m_file s
    /\ Z.of_nat (length (m_file s'))
       = Z.of_nat (length (m_file s)) + n * getNodeSize s
    /\ (forall k, 0 <= k < n ->
          let pos := Z.of_nat (length (m_file s)) + k * getNodeSize s in
          let b := peek (m_file s') pos (Z.to_nat (getNodeSize s)) in
          calculateBlockChecksum b (getNodeSize s) = 0
          /\ getNextNode b
             = (if k =? n - 1 then getFreeNode s else pos + getNodeSize s)).
Proof.
  intros A Hn H19 Hfree Hr. unfold sizeof_NodeHeader in H19.
  set (sz := getNodeSize s) in *. set (L := Z.of_nat (length (m_file s))) in *.
  set (temp := resetNode (allocateNodeBlock s)).
  assert (Lt : length temp = Z.to_nat sz).
  { unfold temp. rewrite resetNode_length; unfold allocateNodeBlock;
      rewrite zeros_length; fold sz; lia. }
  set (t0 := set_filePos L s).
  destruct (createNodesLoop_chain sz (Z.to_nat (n - 1)) t0 temp)
    as (blocks & temp1 & R & Lt1 & Lbs & Hk); try assumption; try reflexivity.
  { change (Z.of_nat (length (m_file t0))) with L. nia. }
  change (m_file t0) with (m_file s) in R, Hk. fold L in R, Hk.
  set (t1 := set_file (m_file s ++ concat blocks)
               (L + Z.of_nat (Z.to_nat (n - 1)) * sz) t0) in *.
  assert (Hlen : forall j, (j < length blocks)%nat ->
                 length (nth j blocks []) = Z.to_nat sz)
    by (intros j Hj; apply Hk; lia).
  pose proof (length_concat_uniform _ _ Hlen) as Lc.
  set (last := setNodeChecksum s (setNextNode temp1 (getFreeNode s))).
  assert (Ll : length last = Z.to_nat sz).
  { unfold last, setNextNode.
    rewrite setNodeChecksum_length, setI64_length; lia. }
  set (t2 := set_file (m_file t1 ++ last) (m_filePos t1 + sz) t1).
  assert (W : writeNode (setNextNode temp1 (getFreeNode s)) INVALID_POSITION t1
              = (Ret last, t2)).
  { apply (writeNode_append t1 (setNextNode temp1 (getFreeNode s))).
    - unfold t1. cbn [m_filePos m_file set_file]. rewrite length_app, Lc, Lbs.
      unfold L. nia.
    - change (getNodeSize t1) with sz. lia.
    - change (getNodeSize t1) with sz. unfold setNextNode.
      rewrite setI64_length; lia. }
  exists (updInfo (with_freeNode L) t2).
  assert (Hall : forall j, (j < length (blocks ++ [last]))%nat ->
                   length (nth j (blocks ++ [last]) []) = Z.to_nat sz).
  { intros j Hj. rewrite length_app in Hj. simpl in Hj.
    destruct (Nat.lt_ge_cases j (length blocks)) as [In|Out].
    - rewrite app_nth1 by exact In. now apply Hlen.
    - rewrite app_nth2 by exact Out.
      replace (j - length blocks)%nat with 0%nat by lia. exact Ll. }
  assert (Hfile : m_file (updInfo (with_freeNode L) t2)
                  = m_file s ++ concat (blocks ++ [last])).
  { rewrite concat_app. cbn [concat]. rewrite app_nil_r, app_assoc. reflexivity. }
  split; [|split; [reflexivity|split; [|split; [|split]]]].
  - unfold createNodes.
    replace (n <=? 0) with false by (symmetry; apply Z.leb_gt; lia).
    unfold File_size. rewrite !bind_gets. fold L. fold temp.
    unfold File_seek at 1. unfold bind at 1.
    replace (L <? 0) with false by (symmetry; apply Z.ltb_ge; unfold L; lia).
    fold t0. erewrite bind_eq by exact R.
    rewrite bind_gets. change (getFreeNode t1) with (getFreeNode s).
    erewrite bind_eq by exact W. reflexivity.
  - change (curInfo s) with (curInfo t2). apply curInfo_updInfo. exact A.
  - rewrite Hfile. rewrite firstn_app, firstn_all, Nat.sub_diag. simpl.
    apply app_nil_r.
  - rewrite Hfile, length_app, (length_concat_uniform _ _ Hall), length_app, Lbs.
    simpl length. unfold L. nia.
  - intros k Hk0. cbv zeta. rewrite Hfile.
    unfold L. rewrite peek_concat; [|lia|exact Hall|].
    2:{ rewrite length_app, Lbs. simpl. lia. }
    destruct (k =? n - 1) eqn:E.
    + apply Z.eqb_eq in E.
      rewrite app_nth2 by lia.
      replace (Z.to_nat k - length blocks)%nat with 0%nat by lia. cbn [nth].
      split; [apply setNodeChecksum_valid|].
      unfold last. apply getNextNode_written; lia.
    + apply Z.eqb_neq in E.
      rewrite app_nth1 by lia.
      destruct (Hk (Z.to_nat k) ltac:(lia)) as (K1 & K2 & K3).
      split; [exact K2|]. rewrite K3. fold L. lia.
Qed.

(** Pre-allocation appends to the file and pushes on the free list:
    [createLeaves n] with [n > 0] leaves the old bytes of the file alone
    and writes [n] leaf blocks after them; each of them passes the checksum
    test, each but the last has the position of the block after it as its
    next link, the last has the old head of the free-leaf list, and the new
    head is the first new block.  No other field of the descriptor changes
    and no error is latched.  [createNodes] does the same with node blocks
    and the free-node list. *)
Theorem preallocation_extends_free_list (s : MultiIndex) (numLeaves numNodes : Z) :
  activeIn s -> 0 < numLeaves -> 0 < numNodes ->
  sizeof_LeafHeader <= getLeaveSize s ->
  sizeof_NodeHeader <= getNodeSize s ->
  - 2 ^ 63 <= getFreeLeave s < 2 ^ 63 ->
  - 2 ^ 63 <= getFreeNode s < 2 ^ 63 ->
  Z.of_nat (length (m_file s)) + numLeaves * getLeaveSize s < 2 ^ 63 ->
  Z.of_nat (length (m_file s)) + numNodes * getNodeSize s < 2 ^ 63 ->
  (exists s',
     createLeaves numLeaves s = (Ret tt, s')
     /\ m_errorCode s' = m_errorCode s
     /\ curInfo s' = with_freeLeave (Z.of_nat (length (m_file s))) (curInfo s)
     /\ firstn (length (m_file s)) (m_file s') = m_file s
     /\ Z.of_nat (length (m_file s'))
        = Z.of_nat (length (m_file s)) + numLeaves * getLeaveSize s
     /\ (forall k, 0 <= k < numLeaves ->
           let pos := Z.of_nat (length (m_file s)) + k * getLeaveSize s in
           let b := peek (m_file s') pos (Z.to_nat (getLeaveSize s)) in
           calculateBlockChecksum b (getLeaveSize s) = 0
           /\ getNextLeave b
              = (if k =? numLeaves - 1 then getFreeLeave s
                 else pos + getLeaveSize s)))
  /\ (exists s',
        createNodes numNodes s = (Ret tt, s')
        /\ m_errorCode s' = m_errorCode s
        /\ curInfo s' = with_freeNode (Z.of_nat (length (m_file s))) (curInfo s)
        /\ firstn (length (m_file s)) (m_file s') = m_file s
        /\ Z.of_nat (length (m_file s'))
           = Z.of_nat (length (m_file s)) + numNodes * getNodeSize s
        /\ (forall k, 0 <= k < numNodes ->
              let pos := Z.of_nat (length (m_file s)) + k * getNodeSize s in
              let b := peek (m_file s') pos (Z.to_nat (getNodeSize s)) in
              calculateBlockChecksum b (getNodeSize s) = 0
              /\ getNextNode b
                 = (if k =? numNodes - 1 then getFreeNode s
                    else pos + getNodeSize s))).
Proof.
  intros A Hl Hn Sl Sn Fl Fn Rl Rn. split.
  - now apply createLeaves_chain.
  - now apply createNodes_chain.
Qed.

Lemma preallocation_extends_free_list_witness :
  (exists s',
     createLeaves 3 oneLong = (Ret tt, s')
     /\ m_errorCode s' = m_errorCode oneLong
     /\ curInfo s'
        = with_freeLeave (Z.of_nat (length (m_file oneLong))) (curInfo oneLong)
     /\ firstn (length (m_file oneLong)) (m_file s') = m_file oneLong
     /\ Z.of_nat (length (m_file s'))
        = Z.of_nat (length (m_file oneLong)) + 3 * getLeaveSize oneLong
     /\ (forall k, 0 <= k < 3 ->
           let pos := Z.of_nat (length (m_file oneLong)) + k * getLeaveSize oneLong in
           let b := peek (m_file s') pos (Z.to_nat (getLeaveSize oneLong)) in
           calculateBlockChecksum b (getLeaveSize oneLong) = 0
           /\ getNextLeave b
              = (if k =? 3 - 1 then getFreeLeave oneLong
                 else pos + getLeaveSize oneLong)))
  /\ (exists s',
        createNodes 2 oneLong = (Ret tt, s')
        /\ m_errorCode s' = m_errorCode oneLong
        /\ curInfo s'
           = with_freeNode (Z.of_nat (length (m_file oneLong))) (curInfo oneLong)
        /\ firstn (length (m_file oneLong)) (m_file s') = m_file oneLong
        /\ Z.of_nat (length (m_file s'))
           = Z.of_nat (length (m_file oneLong)) + 2 * getNodeSize oneLong
        /\ (forall k, 0 <= k < 2 ->
              let pos := Z.of_nat (length (m_file oneLong)) + k * getNodeSize oneLong in
              let b := peek (m_file s') pos (Z.to_nat (getNodeSize oneLong)) in
              calculateBlockChecksum b (getNodeSize oneLong) = 0
              /\ getNextNode b
                 = (if k =? 2 - 1 then getFreeNode oneLong
                    else pos + getNodeSize oneLong))).
Proof.
  apply (preallocation_extends_free_list oneLong 3 2).
  - unfold activeIn. vm_compute. lia.
  - lia.
  - lia.
  - vm_compute. discriminate.
  - vm_compute. discriminate.
  - vm_compute. split; [discriminate | reflexivity].
  - vm_compute. split; [discriminate | reflexivity].
  - vm_compute. reflexivity.
  - vm_compute. reflexivity.
Defined.

(** ** Inserting into a node and searching it *)

Lemma peek_0_S (b : list Z) (n : nat) :
  peek b 0 (S n) = hd 0 b :: peek (tl b) 0 n.
Proof.
  unfold peek. simpl. destruct b as [|c t]; simpl.
  - rewrite firstn_nil. simpl. rewrite Nat.sub_0_r. reflexivity.
  - reflexivity.
Qed.

Lemma memcmp_peek (n : nat) : forall a b,
  memcmp a (peek b 0 n) n = memcmp a b n.
Proof.
  induction n as [|n IH]; intros a b; [reflexivity|].
  rewrite peek_0_S. cbn [memcmp hd tl]. rewrite IH. reflexivity.
Qed.

Lemma nth_peek_0 (b : list Z) (n j : nat) :
  (j < n)%nat -> nth j (peek b 0 n) 0 = nth j b 0.
Proof.
  revert b j. induction n as [|n IH]; intros b j Hj; [lia|].
  rewrite peek_0_S. destruct j as [|j].
  - destruct b; reflexivity.
  - cbn [nth]. rewrite IH by lia. destruct b; [now destruct j|reflexivity].
Qed.

Lemma numBlockCmp_peek (n : nat) (a b : list Z) : forall i, (i <= n)%nat ->
  numBlockCmp a (peek b 0 n) i = numBlockCmp a b i.
Proof.
  induction i as [|i IH]; intros Hi; [reflexivity|].
  cbn [numBlockCmp]. rewrite nth_peek_0 by lia. rewrite IH by lia. reflexivity.
Qed.

Lemma peek_peek_0 (b : list Z) (n m : nat) :
  (n <= m)%nat -> peek (peek b 0 m) 0 n = peek b 0 n.
Proof.
  revert b m. induction n as [|n IH]; intros b m H.
  - reflexivity.
  - destruct m as [|m]; [lia|]. rewrite (peek_0_S b m), !peek_0_S.
    cbn [hd tl]. rewrite IH by lia. reflexivity.
Qed.

Lemma strcmp_peek (n : nat) : forall a b,
  existsb (fun c => c =? 0) (peek a 0 n) = true ->
  strcmp a (peek b 0 n) = strcmp a b.
Proof.
  induction n as [|n IH]; intros a b H; [discriminate|].
  rewrite peek_0_S in H. rewrite peek_0_S.
  destruct a as [|c1 t1]; [reflexivity|].
  cbn [strcmp hd tl]. cbn [existsb hd tl] in H.
  destruct (c1 =? hd 0 b); [|reflexivity].
  destruct (c1 =? 0); [reflexivity|].
  apply IH. exact H.
Qed.

(** A comparison with a key that is [keyInBlock] depends on the first
    [keySize] bytes of the other block alone. *)
Lemma compare_in_block (s : MultiIndex) (key k2 : list Z) :
  keyInBlock s key = true ->
  compare s key (peek k2 0 (Z.to_nat (getKeySize s))) = compare s key k2.
Proof.
  unfold keyInBlock, compare. intros H.
  destruct (hasError s); [reflexivity|].
  destruct (getKeyType s).
  - reflexivity.
  - apply memcmp_peek.
  - apply numBlockCmp_peek. lia.
  - apply Z.leb_le in H. rewrite peek_peek_0 by lia. reflexivity.
  - apply Z.leb_le in H. rewrite peek_peek_0 by lia. reflexivity.
  - now apply strcmp_peek.
  - apply Z.leb_le in H.
    destruct (Z.to_nat (getKeySize s)) as [|n] eqn:E; [lia|].
    rewrite peek_0_S. reflexivity.
  - apply Z.leb_le in H.
    destruct (Z.to_nat (getKeySize s)) as [|n] eqn:E; [lia|].
    rewrite peek_0_S. reflexivity.
Qed.

Lemma compare_same_item (s : MultiIndex) (key k2 k2' : list Z) :
  keyInBlock s key = true ->
  peek k2 0 (Z.to_nat (getKeySize s)) = peek k2' 0 (Z.to_nat (getKeySize s)) ->
  compare s key k2 = compare s key k2'.
Proof.
  intros H E. rewrite <- (compare_in_block s key k2 H),
                <- (compare_in_block s key k2' H), E. reflexivity.
Qed.

(** The loop of [binarySearchNode] when the search predicate is monotone
    along the node. *)
Lemma binarySearchLoop_monotone (s : MultiIndex) (node key : list Z) (numItems : Z)
    (mono : forall i j, 1 <= i <= j -> j <= numItems ->
              compare s key (getNodeKey s node i) <= 0 ->
              compare s key (getNodeKey s node j) <= 0)
    (fuel : nat) : forall left right,
  1 <= left <= right -> right <= numItems ->
  right - left < Z.of_nat fuel ->
  compare s key (getNodeKey s node right) <= 0 ->
  (forall q, 1 <= q < left -> compare s key (getNodeKey s node q) > 0) ->
  let p := binarySearchLoop s node key fuel left right in
  left <= p <= right
  /\ compare s key (getNodeKey s node p) <= 0
  /\ (forall q, 1 <= q < p -> compare s key (getNodeKey s node q) > 0).
Proof.
  induction fuel as [|fuel IH]; intros left right Hlr Hr Hf Hright Hleft;
    [lia|].
  simpl. destruct (left <? right) eqn:L.
  - apply Z.ltb_lt in L.
    set (mid := left + (right - left) / 2).
    assert (Hmid : left <= mid < right)
      by (unfold mid; Z.div_mod_to_equations; lia).
    destruct (compare s key (getNodeKey s node mid) <=? 0) eqn:C.
    + apply Z.leb_le in C.
      destruct (IH left mid) as (P1 & P2 & P3); try lia; auto.
      repeat split; auto; lia.
    + apply Z.leb_gt in C.
      destruct (IH (mid + 1) right) as (P1 & P2 & P3); try lia; auto.
      * intros q Hq.
        destruct (Z_le_gt_dec (compare s key (getNodeKey s node q)) 0) as [Le|Gt];
          [|assumption].
        pose proof (mono q mid ltac:(lia) ltac:(lia) Le). lia.
      * repeat split; auto; lia.
  - apply Z.ltb_ge in L. assert (left = right) by lia. subst.
    repeat split; auto; lia.
Qed.

(** Where the search predicate is monotone, the search finds the one
    position that has the key and nothing smaller or equal before it. *)
Lemma binarySearchNode_finds (s : MultiIndex) (node key : list Z) (numItems p : Z) :
  (forall i j, 1 <= i <= j -> j <= numItems ->
     compare s key (getNodeKey s node i) <= 0 ->
     compare s key (getNodeKey s node j) <= 0) ->
  1 <= p <= numItems ->
  compare s key (getNodeKey s node p) = 0 ->
  (forall q, 1 <= q < p -> compare s key (getNodeKey s node q) > 0) ->
  binarySearchNode s node key numItems = (p, true).
Proof.
  intros mono Hp Heq Hbefore. unfold binarySearchNode.
  replace (numItems =? 0) with false by (symmetry; apply Z.eqb_neq; lia).
  cbv zeta.
  assert (Hlast : compare s key (getNodeKey s node numItems) <= 0)
    by (apply (mono p numItems); lia).
  assert (Hnone : forall q, 1 <= q < 1 -> compare s key (getNodeKey s node q) > 0)
    by (intros q Hq; lia).
  destruct (binarySearchLoop_monotone s node key numItems mono
              (Z.to_nat numItems) 1 numItems
              ltac:(lia) ltac:(lia) ltac:(lia) Hlast Hnone) as (P1 & P2 & P3).
  set (r := binarySearchLoop s node key (Z.to_nat numItems) 1 numItems) in *.
  assert (E : r = p).
  { destruct (Z.lt_trichotomy r p) as [Lt|[Eq|Gt]]; [|exact Eq|].
    - pose proof (Hbefore r ltac:(lia)). lia.
    - pose proof (P3 p ltac:(lia)). lia. }
  rewrite E, Heq. reflexivity.
Qed.

(** A key that the search does not find in a sorted node is found, at the
    position the search gave, once [insertItem] has put it there, and the
    item found has the child position that was inserted. *)
Theorem insertItem_then_binarySearch (s : MultiIndex) (node key : list Z)
    (p childPos : Z) :
  hasError s = false ->
  0 <= keySize (curInfo s) -> keySize (curInfo s) + 8 < 65536 ->
  1 <= getNumItems node -> getNumItems node + 1 < 65536 ->
  nodeKeyOff s (getNumItems node + 2) <= Z.of_nat (length node) ->
  - 2 ^ 63 <= childPos < 2 ^ 63 ->
  keyInBlock s key = true ->
  (forall i, 1 <= i < getNumItems node ->
     compare s (getNodeKey s node i) (getNodeKey s node (i + 1)) <= 0) ->
  compare s key (getNodeKey s node (getNumItems node)) <= 0 ->
  binarySearchNode s node key (getNumItems node) = (p, false) ->
  let node' := insertItem s node p key childPos in
  getNumItems node' = getNumItems node + 1
  /\ binarySearchNode s node' key (getNumItems node') = (p, true)
  /\ getChildPos s node' p = childPos.
Proof.
  intros Herr Hk0 Hk1 Hn1 Hn2 Hcap Hc Hfit Hsorted Hlast Hsearch node'.
  set (n := getNumItems node) in *.
  assert (Hnone : forall q, 1 <= q < 1 -> compare s key (getNodeKey s node q) > 0)
    by (intros q Hq; lia).
  destruct (binarySearchLoop_spec s node key n Hsorted (Z.to_nat n) 1 n
              ltac:(lia) ltac:(lia) ltac:(lia) Hlast Hnone) as (P1 & P2 & P3).
  unfold binarySearchNode in Hsearch.
  replace (n =? 0) with false in Hsearch by (symmetry; apply Z.eqb_neq; lia).
  cbv zeta in Hsearch.
  assert (Ep : binarySearchLoop s node key (Z.to_nat n) 1 n = p) by congruence.
  rewrite Ep in *.
  assert (Hne : compare s key (getNodeKey s node p) <> 0).
  { apply Z.eqb_neq. congruence. }
  pose proof (key_le_mono s node key n Hsorted) as mono.
  destruct (insertItem_items s node key p childPos Herr Hk0 Hk1 ltac:(lia)
              ltac:(fold n; lia) Hn2 Hcap Hc)
    as (I1 & I2 & I3 & I4 & I5 & I6 & _).
  fold n in I1, I3, I4, I5, I6. fold node' in I1, I2, I3, I4, I5, I6.
  replace (Z.min p (n + 1)) with p in I3, I4, I5, I6 by lia.
  assert (Cp : compare s key (getNodeKey s node' p) = 0).
  { rewrite (compare_same_item s key (getNodeKey s node' p) key Hfit I3).
    apply compare_refl. }
  assert (Cb : forall q, 1 <= q < p ->
            compare s key (getNodeKey s node' q)
            = compare s key (getNodeKey s node q)).
  { intros q Hq. apply compare_same_item; [exact Hfit|]. apply (I5 q Hq). }
  assert (Ca : forall q, p < q <= n + 1 ->
            compare s key (getNodeKey s node' q)
            = compare s key (getNodeKey s node (q - 1))).
  { intros q Hq. apply compare_same_item; [exact Hfit|]. apply (I6 q Hq). }
  split; [exact I1|]. split; [|exact I4].
  rewrite I1. apply binarySearchNode_finds.
  - intros i j Hij Hj Hi.
    destruct (Z_lt_ge_dec i p) as [Lt|Ge].
    + rewrite Cb in Hi by lia. pose proof (P3 i ltac:(lia)). lia.
    + destruct (Z.eq_dec j p) as [->|Nj]; [lia|].
      rewrite Ca by lia. apply (mono p (j - 1)); lia.
  - lia.
  - exact Cp.
  - intros q Hq. rewrite Cb by exact Hq. apply P3. exact Hq.
Qed.

(** The root of [oneLong] holds the key 1 and the sentinel; the key 5 goes
    between them. *)
Lemma insertItem_then_binarySearch_witness :
  let node' := insertItem oneLong (rootBlock oneLong) 2 (long 5) 77 in
  getNumItems node' = getNumItems (rootBlock oneLong) + 1
  /\ binarySearchNode oneLong node' (long 5) (getNumItems node') = (2, true)
  /\ getChildPos oneLong node' 2 = 77.
Proof.
  apply (insertItem_then_binarySearch oneLong (rootBlock oneLong) (long 5) 2 77).
  - vm_compute. reflexivity.
  - vm_compute. discriminate.
  - vm_compute. reflexivity.
  - vm_compute. discriminate.
  - vm_compute. reflexivity.
  - vm_compute. discriminate.
  - vm_compute. split; [discriminate | reflexivity].
  - vm_compute. reflexivity.
  - intros i Hi.
    replace (getNumItems (rootBlock oneLong)) with 2 in Hi by (vm_compute; reflexivity).
    assert (i = 1) by lia. subst i. vm_compute. discriminate.
  - vm_compute. discriminate.
  - vm_compute. reflexivity.
Defined.

(** ** [find] twice *)

(** In a state where [findLeave] does not return without assigning
    [leavePos], a [find(k)] that returns is repeated by a second
    [find(k)], whatever the uninitialised local of either call holds: the
    same data position comes back and the handle, cursor and flags
    included, stays exactly as the first call left it.  And [find],
    however it ends and whatever that local holds, leaves every byte of
    the file and the index descriptors as they were. *)
Theorem find_idempotent (key : list Z) (s : MultiIndex) :
  ((forall found s1, findLeave key s <> (Ret (found, None), s1)) ->
   forall leavePos0 leavePos1 r s',
     find leavePos0 key s = (Ret r, s') ->
     find leavePos1 key s' = (Ret r, s'))
  /\ (forall leavePos0,
        m_file (exec (find leavePos0 key) s) = m_file s
        /\ m_indexInfo (exec (find leavePos0 key) s) = m_indexInfo s).
Proof.
  split; [|intros leavePos0; apply keepsDisk_find].
  intros H leavePos0 leavePos1 r s' F.
  destruct (find_twice leavePos0 key s s' r F) as (T & p & q & E).
  rewrite <- T. apply find_assigned.
  rewrite E. now apply findLeave_assigns_touch.
Qed.

(** Looking up "002" twice in [twoKeys], with different values in the
    uninitialised local. *)
Lemma find_idempotent_witness :
  find 7 (str3 48 48 50) (exec (find 0 (str3 48 48 50)) twoKeys)
  = (Ret 2, exec (find 0 (str3 48 48 50)) twoKeys).
Proof.
  apply (proj1 (find_idempotent (str3 48 48 50) twoKeys)) with (leavePos0 := 0).
  - intros found s1. vm_compute. discriminate.
  - vm_compute. reflexivity.
Defined.

(** ** Handles that agree on the keys *)

Lemma sameKeys_stOf s d p X Q :
  activeIn s ->
  keyType X = keyType (curInfo s) -> keySize X = keySize (curInfo s) ->
  maxItems X = maxItems (curInfo s) ->
  sameKeys s (stOf s d p X Q).
Proof.
  intros A H1 H2 H3. unfold sameKeys. rewrite curInfo_stOf by exact A.
  repeat split; assumption.
Qed.

Section SameKeys.

Variables s t : MultiIndex.
Hypothesis same : sameKeys s t.

Lemma same_getKeySize : getKeySize t = getKeySize s.
Proof. destruct same as (E & _ & K & _). unfold getKeySize. now rewrite E, K. Qed.

Lemma same_getKeyType : getKeyType t = getKeyType s.
Proof. destruct same as (E & T & _). unfold getKeyType. now rewrite E, T. Qed.

Lemma same_getItemSize : getItemSize t = getItemSize s.
Proof. destruct same as (_ & _ & K & _). unfold getItemSize. now rewrite K. Qed.

Lemma same_getMaxItems : getMaxItems t = getMaxItems s.
Proof. destruct same as (_ & _ & _ & I). exact I. Qed.

Lemma same_getNodeSize : getNodeSize t = getNodeSize s.
Proof. unfold getNodeSize. now rewrite same_getItemSize, same_getMaxItems. Qed.

Lemma same_getLeaveSize : getLeaveSize t = getLeaveSize s.
Proof. destruct same as (_ & _ & K & _). unfold getLeaveSize. now rewrite K. Qed.

Lemma same_nodeKeyOff (itemNo : Z) : nodeKeyOff t itemNo = nodeKeyOff s itemNo.
Proof. unfold nodeKeyOff. now rewrite same_getItemSize. Qed.

Lemma same_setChildPos (node : list Z) (itemNo pos : Z) :
  setChildPos t node itemNo pos = setChildPos s node itemNo pos.
Proof. unfold setChildPos. now rewrite same_nodeKeyOff, same_getKeySize. Qed.

Lemma same_fillEOFKey : fillEOFKey t = fillEOFKey s.
Proof. unfold fillEOFKey. now rewrite same_getKeySize, same_getKeyType. Qed.

Lemma same_allocateNodeBlock : allocateNodeBlock t = allocateNodeBlock s.
Proof. unfold allocateNodeBlock. now rewrite same_getNodeSize. Qed.

Lemma same_allocateLeaveBlock : allocateLeaveBlock t = allocateLeaveBlock s.
Proof. unfold allocateLeaveBlock. now rewrite same_getLeaveSize. Qed.

End SameKeys.

(** ** Node blocks on a handle in normal form *)

Lemma getNodeSize_stOf s d p X Q :
  activeIn s -> getNodeSize (stOf s d p X Q) = nodeSizeOf X.
Proof.
  intros H. unfold getNodeSize, getItemSize, getMaxItems, nodeSizeOf.
  now rewrite curInfo_stOf.
Qed.

Lemma nodeSizeOf_nonneg X : 0 <= nodeSizeOf X.
Proof. unfold nodeSizeOf, u16. apply Z.mod_pos_bound. lia. Qed.

Lemma readNode_stOf s d p X Q buf pos :
  activeIn s -> 0 <= pos ->
  pos + nodeSizeOf X <= Z.of_nat (length d) ->
  calculateBlockChecksum (peek d pos (Z.to_nat (nodeSizeOf X))) (nodeSizeOf X) = 0 ->
  readNode buf pos (stOf s d p X Q)
  = (Ret (peek d pos (Z.to_nat (nodeSizeOf X))), stOf s d (pos + nodeSizeOf X) X Q).
Proof.
  intros A Hp Hin Hc. pose proof (nodeSizeOf_nonneg X) as Hn.
  unfold readNode. rewrite bind_gets, getNodeSize_stOf by assumption.
  erewrite bind_eq
    by (apply File_read_in; simpl; try assumption; apply peek_length).
  rewrite bind_gets. unfold testNodeChecksum.
  change (set_filePos ?a (stOf s d p X Q)) with (stOf s d a X Q).
  rewrite getNodeSize_stOf by assumption.
  change (m_file (stOf s d p X Q)) with d. rewrite Hc. reflexivity.
Qed.

Lemma writeNode_stOf s d p X Q blk pos :
  activeIn s -> 0 <= pos -> 0 < nodeSizeOf X ->
  pos + nodeSizeOf X <= Z.of_nat (length d) ->
  length blk = Z.to_nat (nodeSizeOf X) ->
  writeNode blk pos (stOf s d p X Q)
  = (Ret (setChecksumOf (nodeSizeOf X) blk),
     stOf s (poke d pos (setChecksumOf (nodeSizeOf X) blk))
       (pos + nodeSizeOf X) X Q).
Proof.
  intros A Hp Hn Hin Hb.
  unfold writeNode. rewrite bind_gets.
  change (setNodeChecksum (stOf s d p X Q) blk)
    with (setChecksumOf (getNodeSize (stOf s d p X Q)) blk).
  rewrite bind_gets, getNodeSize_stOf by assumption.
  erewrite bind_eq
    by (apply File_write_in; simpl; try assumption;
        now rewrite setChecksumOf_length).
  reflexivity.
Qed.

Lemma allocateNode_stOf s d p X Q :
  activeIn s ->
  freeNode X <> INVALID_POSITION ->
  0 <= freeNode X ->
  freeNode X + nodeSizeOf X <= Z.of_nat (length d) ->
  calculateBlockChecksum (peek d (freeNode X) (Z.to_nat (nodeSizeOf X)))
    (nodeSizeOf X) = 0 ->
  allocateNode (stOf s d p X Q)
  = (Ret (freeNode X),
     stOf s d (freeNode X + nodeSizeOf X)
       (with_freeNode
          (getNextNode (peek d (freeNode X) (Z.to_nat (nodeSizeOf X)))) X) Q).
Proof.
  intros A Hf H0 H1 Hc. unfold allocateNode.
  rewrite bind_gets. unfold getFreeNode. rewrite !curInfo_stOf by assumption.
  apply Z.eqb_neq in Hf. rewrite Hf. rewrite bind_ret, bind_gets.
  unfold allocateNodeBlock.
  erewrite bind_eq by (apply readNode_stOf; assumption).
  unfold setFreeNode. rewrite bind_modify, updInfo_stOf by assumption.
  reflexivity.
Qed.

(** ** The checksum byte and the fields of a block *)

Lemma getItemSize_nonneg (s : MultiIndex) : 0 <= getItemSize s.
Proof. unfold getItemSize, u16. apply Z.mod_pos_bound. lia. Qed.

Lemma nodeKeyOff_header (s : MultiIndex) (q : Z) :
  1 <= q -> sizeof_NodeHeader <= nodeKeyOff s q.
Proof.
  intros H. unfold nodeKeyOff. pose proof (getItemSize_nonneg s). nia.
Qed.

Lemma itemKey_checksummed (s : MultiIndex) (n : Z) (node : list Z) (q : Z) :
  1 <= q -> itemKey s (setChecksumOf n node) q = itemKey s node q.
Proof.
  intros H. destruct node as [|c t]; [reflexivity|].
  rewrite setChecksumOf_cons. unfold itemKey, getNodeKey.
  pose proof (nodeKeyOff_header s q H) as Ho. unfold sizeof_NodeHeader in Ho.
  replace (Z.to_nat (nodeKeyOff s q)) with (S (Z.to_nat (nodeKeyOff s q - 1)))
    by lia.
  reflexivity.
Qed.

Lemma getChildPos_checksummed (s : MultiIndex) (n : Z) (node : list Z) (q : Z) :
  1 <= q -> 0 <= getKeySize s ->
  getChildPos s (setChecksumOf n node) q = getChildPos s node q.
Proof.
  intros H Hk. destruct node as [|c t]; [reflexivity|].
  rewrite setChecksumOf_cons. unfold getChildPos.
  pose proof (nodeKeyOff_header s q H) as Ho. unfold sizeof_NodeHeader in Ho.
  rewrite !getI64_cons by lia. reflexivity.
Qed.

Lemma getNumItems_checksummed (n : Z) (node : list Z) :
  getNumItems (setChecksumOf n node) = getNumItems node.
Proof.
  destruct node as [|c t]; [reflexivity|].
  rewrite setChecksumOf_cons. unfold getNumItems, getU16.
  rewrite !peek_cons by lia. reflexivity.
Qed.

Lemma getI64_of_checksummed (n : Z) (b : list Z) (off : Z) :
  1 <= off -> getI64 (setChecksumOf n b) off = getI64 b off.
Proof.
  intros H. destruct b as [|c t]; [reflexivity|].
  rewrite setChecksumOf_cons, !getI64_cons by lia. reflexivity.
Qed.

Lemma getLeaveKey_checksummed (n : Z) (b : list Z) :
  getLeaveKey (setChecksumOf n b) = getLeaveKey b.
Proof.
  destruct b as [|c t]; [reflexivity|].
  rewrite setChecksumOf_cons. reflexivity.
Qed.

(** ** The blocks that [createFirstNode] writes *)

Lemma getI64_setI64_same (b : list Z) (off v : Z) :
  0 <= off -> off + 8 <= Z.of_nat (length b) -> - 2 ^ 63 <= v < 2 ^ 63 ->
  getI64 (setI64 b off v) off = v.
Proof.
  intros H0 H1 Hv. apply getI64_is; [exact Hv|]. now apply setI64_window_same.
Qed.

Lemma getI64_setI64_apart (b : list Z) (off off' v : Z) :
  0 <= off -> 0 <= off' -> off + 8 <= Z.of_nat (length b) ->
  off' + 8 <= off \/ off + 8 <= off' ->
  getI64 (setI64 b off v) off' = getI64 b off'.
Proof.
  intros H0 H1 H2 H3. apply getI64_window.
  apply setI64_window_apart; assumption.
Qed.

Lemma fillEOFKey_length (t : MultiIndex) :
  0 < getKeySize t -> length (fillEOFKey t) = Z.to_nat (getKeySize t).
Proof.
  intros H. unfold fillEOFKey.
  destruct (getKeyType t);
    rewrite ?poke_length_in; rewrite ?repeat_length; simpl length; lia.
Qed.

Section FirstBlocks.

Variable t : MultiIndex.
Hypothesis Herr : hasError t = false.
Hypothesis Hk0 : 0 < keySize (curInfo t).
Hypothesis Hk1 : keySize (curInfo t) + 8 < 65536.
Hypothesis HLS : getLeaveSize t = keySize (curInfo t) + 25.
Hypothesis HNS : keySize (curInfo t) + 27 <= getNodeSize t.

Let n := keySize (curInfo t).

Lemma keySize_is : getKeySize t = n.
Proof. unfold getKeySize. now rewrite Herr. Qed.

Lemma eofKey_length : length (fillEOFKey t) = Z.to_nat n.
Proof. rewrite <- keySize_is. apply fillEOFKey_length. rewrite keySize_is. exact Hk0. Qed.

Lemma leafBuffer_length :
  length (poke (allocateLeaveBlock t) sizeof_LeafHeader (fillEOFKey t))
  = Z.to_nat (n + 25).
Proof.
  unfold allocateLeaveBlock, sizeof_LeafHeader.
  rewrite poke_length_in; rewrite zeros_length, ?eofKey_length, HLS; fold n; lia.
Qed.

Lemma sentinelLeaf_length : length (sentinelLeaf t) = Z.to_nat (getLeaveSize t).
Proof.
  pose proof leafBuffer_length as L0. rewrite HLS. fold n.
  unfold sentinelLeaf, setDataPos, setPrevLeave, setNextLeave.
  set (b0 := poke _ _ _) in *.
  assert (L1 : length (setI64 b0 1 INVALID_POSITION) = Z.to_nat (n + 25))
    by (rewrite setI64_length; [exact L0 | rewrite L0; lia]).
  assert (L2 : length (setI64 (setI64 b0 1 INVALID_POSITION) 9 INVALID_POSITION)
               = Z.to_nat (n + 25))
    by (rewrite setI64_length; [exact L1 | rewrite L1; lia]).
  rewrite setI64_length; [exact L2 | rewrite L2; lia].
Qed.

Lemma sentinelLeaf_fields :
  getNextLeave (sentinelLeaf t) = INVALID_POSITION
  /\ getPrevLeave (sentinelLeaf t) = INVALID_POSITION
  /\ getDataPos (sentinelLeaf t) = INVALID_POSITION.
Proof.
  pose proof leafBuffer_length as L0.
  unfold sentinelLeaf, getNextLeave, getPrevLeave, getDataPos,
    setDataPos, setPrevLeave, setNextLeave.
  set (b0 := poke _ _ _) in *.
  assert (L1 : length (setI64 b0 1 INVALID_POSITION) = Z.to_nat (n + 25))
    by (rewrite setI64_length; [exact L0 | rewrite L0; lia]).
  assert (L2 : length (setI64 (setI64 b0 1 INVALID_POSITION) 9 INVALID_POSITION)
               = Z.to_nat (n + 25))
    by (rewrite setI64_length; [exact L1 | rewrite L1; lia]).
  assert (R : - 2 ^ 63 <= INVALID_POSITION < 2 ^ 63)
    by (unfold INVALID_POSITION; lia).
  repeat split.
  - rewrite getI64_setI64_apart by (rewrite ?L2; lia).
    rewrite getI64_setI64_apart by (rewrite ?L1; lia).
    apply getI64_setI64_same; [lia | rewrite L0; lia | exact R].
  - rewrite getI64_setI64_apart by (rewrite ?L2; lia).
    apply getI64_setI64_same; [lia | rewrite L1; lia | exact R].
  - apply getI64_setI64_same; [lia | rewrite L2; lia | exact R].
Qed.

Lemma sentinelLeaf_key :
  peek (getLeaveKey (sentinelLeaf t)) 0 (Z.to_nat (getKeySize t)) = fillEOFKey t.
Proof.
  pose proof leafBuffer_length as L0. pose proof eofKey_length as LK.
  unfold sentinelLeaf, getLeaveKey, setDataPos, setPrevLeave, setNextLeave.
  set (b0 := poke _ _ _) in *.
  assert (L1 : length (setI64 b0 1 INVALID_POSITION) = Z.to_nat (n + 25))
    by (rewrite setI64_length; [exact L0 | rewrite L0; lia]).
  assert (L2 : length (setI64 (setI64 b0 1 INVALID_POSITION) 9 INVALID_POSITION)
               = Z.to_nat (n + 25))
    by (rewrite setI64_length; [exact L1 | rewrite L1; lia]).
  unfold sizeof_LeafHeader in *.
  rewrite skipn_setI64 by (rewrite ?L2; lia).
  rewrite skipn_setI64 by (rewrite ?L1; lia).
  rewrite skipn_setI64 by (rewrite ?L0; lia).
  rewrite keySize_is, <- LK. apply peek_is; [lia|].
  intros z Hz. rewrite Z.add_0_l, nthZ_skipn by lia.
  unfold b0. rewrite nthZ_poke
    by (unfold allocateLeaveBlock; rewrite ?zeros_length, ?HLS; fold n; lia).
  replace ((25 <=? 25 + z) && (25 + z <? 25 + Z.of_nat (length (fillEOFKey t))))
    with true by (symmetry; apply andb_true_iff; split;
                  [apply Z.leb_le | apply Z.ltb_lt]; lia).
  f_equal. lia.
Qed.

Lemma firstRoot_length (leavePos : Z) :
  length (firstRoot t leavePos) = Z.to_nat (getNodeSize t).
Proof.
  pose proof eofKey_length as LK.
  unfold firstRoot, setChildPos, setNumItems, setU16.
  assert (O1 : nodeKeyOff t 1 = 19) by (apply nodeKeyOff_first; lia).
  rewrite O1, keySize_is. fold n.
  assert (L0 : length (resetNode (allocateNodeBlock t)) = Z.to_nat (getNodeSize t))
    by (rewrite resetNode_length; unfold allocateNodeBlock; rewrite zeros_length; lia).
  set (b0 := resetNode _) in *.
  assert (L1 : length (poke b0 1 (encodeLE 2 1)) = Z.to_nat (getNodeSize t))
    by (rewrite poke_length_in; [exact L0 | rewrite L0, encodeLE_length; lia]).
  assert (L2 : length (poke (poke b0 1 (encodeLE 2 1)) 19 (fillEOFKey t))
               = Z.to_nat (getNodeSize t))
    by (rewrite poke_length_in; [exact L1 | rewrite L1, LK; lia]).
  rewrite setI64_length; [exact L2 | rewrite L2; lia].
Qed.

Lemma firstRoot_item (leavePos : Z) :
  - 2 ^ 63 <= leavePos < 2 ^ 63 ->
  getNumItems (firstRoot t leavePos) = 1
  /\ itemKey t (firstRoot t leavePos) 1 = fillEOFKey t
  /\ getChildPos t (firstRoot t leavePos) 1 = leavePos.
Proof.
  intros Hp. pose proof eofKey_length as LK.
  assert (Hk0' : 0 <= keySize (curInfo t)) by lia.
  unfold firstRoot, setChildPos, setNumItems, setU16, setI64.
  assert (O1 : nodeKeyOff t 1 = 19) by (apply nodeKeyOff_first; lia).
  rewrite O1, keySize_is. fold n.
  assert (L0 : length (resetNode (allocateNodeBlock t)) = Z.to_nat (getNodeSize t))
    by (rewrite resetNode_length; unfold allocateNodeBlock; rewrite zeros_length; lia).
  set (b0 := resetNode _) in *.
  assert (L1 : length (poke b0 1 (encodeLE 2 1)) = Z.to_nat (getNodeSize t))
    by (rewrite poke_length_in; [exact L0 | rewrite L0, encodeLE_length; lia]).
  set (b1 := poke b0 1 _) in *.
  assert (L2 : length (poke b1 19 (fillEOFKey t)) = Z.to_nat (getNodeSize t))
    by (rewrite poke_length_in; [exact L1 | rewrite L1, LK; lia]).
  set (b2 := poke b1 19 _) in *.
  assert (B : forall z, 0 <= z ->
            nthZ z (poke b2 (19 + n) (encodeLE 8 leavePos))
            = if (19 + n <=? z) && (z <? 19 + n + 8) then nthZ (z - (19 + n)) (encodeLE 8 leavePos)
              else if (19 <=? z) && (z <? 19 + n) then nthZ (z - 19) (fillEOFKey t)
              else if (1 <=? z) && (z <? 3) then nthZ (z - 1) (encodeLE 2 1)
              else nthZ z b0).
  { intros z Hz.
    rewrite nthZ_poke by (rewrite ?encodeLE_length, ?L2; lia).
    rewrite encodeLE_length. change (Z.of_nat 8) with 8.
    destruct ((19 + n <=? z) && (z <? 19 + n + 8)); [reflexivity|].
    unfold b2. rewrite nthZ_poke by (rewrite ?LK, ?L1; lia).
    rewrite LK. replace (Z.of_nat (Z.to_nat n)) with n by lia.
    destruct ((19 <=? z) && (z <? 19 + n)); [reflexivity|].
    unfold b1. rewrite nthZ_poke by (rewrite ?encodeLE_length, ?L0; lia).
    rewrite encodeLE_length. change (1 + Z.of_nat 2) with 3. reflexivity. }
  split.
  - apply numItems_window; [lia|]. intros z Hz. rewrite B by lia.
    replace ((19 + n <=? z) && (z <? 19 + n + 8)) with false
      by (symmetry; apply andb_false_iff; left; apply Z.leb_gt; lia).
    replace ((19 <=? z) && (z <? 19 + n)) with false
      by (symmetry; apply andb_false_iff; left; apply Z.leb_gt; lia).
    replace ((1 <=? z) && (z <? 3)) with true
      by (symmetry; apply andb_true_iff; split;
          [apply Z.leb_le | apply Z.ltb_lt]; lia).
    reflexivity.
  - rewrite <- (peek_whole (fillEOFKey t) (Z.to_nat (getKeySize t)))
      by (rewrite keySize_is; exact LK).
    apply (item_is t Herr Hk0' Hk1); [lia | exact Hp | |].
    + intros z Hz. rewrite O1. fold n in Hz |- *. rewrite B by lia.
      replace ((19 + n <=? 19 + z) && (19 + z <? 19 + n + 8)) with false
        by (symmetry; apply andb_false_iff; left; apply Z.leb_gt; lia).
      replace ((19 <=? 19 + z) && (19 + z <? 19 + n)) with true
        by (symmetry; apply andb_true_iff; split;
            [apply Z.leb_le | apply Z.ltb_lt]; lia).
      rewrite peek_whole by exact LK. f_equal. lia.
    + intros z Hz. rewrite O1. fold n. rewrite B by lia.
      replace ((19 + n <=? 19 + n + z) && (19 + n + z <? 19 + n + 8)) with true
        by (symmetry; apply andb_true_iff; split;
            [apply Z.leb_le | apply Z.ltb_lt]; lia).
      f_equal. lia.
Qed.

End FirstBlocks.

(** ** [createFirstNode] on a handle in normal form *)

Lemma sameKeys_normal s d p X Q d' p' X' Q' :
  activeIn s ->
  keyType X' = keyType X -> keySize X' = keySize X -> maxItems X' = maxItems X ->
  sameKeys (stOf s d p X Q) (stOf s d' p' X' Q').
Proof.
  intros A H1 H2 H3. unfold sameKeys. rewrite !curInfo_stOf by exact A.
  split; [reflexivity|]. repeat split; assumption.
Qed.

Lemma same_sentinelLeaf (s t : MultiIndex) :
  sameKeys s t -> sentinelLeaf t = sentinelLeaf s.
Proof.
  intros H. unfold sentinelLeaf.
  now rewrite (same_allocateLeaveBlock s t H), (same_fillEOFKey s t H).
Qed.

Lemma same_firstRoot (s t : MultiIndex) (leavePos : Z) :
  sameKeys s t -> firstRoot t leavePos = firstRoot s leavePos.
Proof.
  intros H. unfold firstRoot.
  now rewrite (same_setChildPos s t H), (same_allocateNodeBlock s t H),
    (same_nodeKeyOff s t H), (same_fillEOFKey s t H).
Qed.

(** With a free leaf and, before it in the file, a free node at the
    heads of the two free lists, [createFirstNode] takes them, writes the
    sentinel leaf and the root there, and makes the leaf both ends of the
    chain. *)
Lemma createFirstNode_stOf s d p X Q :
  activeIn s -> hasError s = false ->
  0 < keySize X -> keySize X + 8 < 65536 ->
  leaveSizeOf X = keySize X + 25 ->
  keySize X + 27 <= nodeSizeOf X ->
  0 <= freeNode X -> freeNode X + nodeSizeOf X <= freeLeave X ->
  freeLeave X + leaveSizeOf X <= Z.of_nat (length d) ->
  calculateBlockChecksum (peek d (freeNode X) (Z.to_nat (nodeSizeOf X)))
    (nodeSizeOf X) = 0 ->
  calculateBlockChecksum (peek d (freeLeave X) (Z.to_nat (leaveSizeOf X)))
    (leaveSizeOf X) = 0 ->
  createFirstNode (stOf s d p X Q)
  = (Ret tt,
     stOf s
       (poke
          (poke d (freeLeave X)
             (setChecksumOf (leaveSizeOf X) (sentinelLeaf (stOf s d p X Q))))
          (freeNode X)
          (setChecksumOf (nodeSizeOf X)
             (firstRoot (stOf s d p X Q) (freeLeave X))))
       (freeNode X + nodeSizeOf X)
       (with_rootNode (freeNode X)
          (with_freeNode
             (getNextNode (peek d (freeNode X) (Z.to_nat (nodeSizeOf X))))
             (with_lastLeave (freeLeave X)
                (with_firstLeave (freeLeave X)
                   (with_freeLeave
                      (getNextLeave
                         (peek d (freeLeave X) (Z.to_nat (leaveSizeOf X))))
                      X)))))
       Q).
Proof.
  intros A Herr Hk0 Hk1 HLS HNS HN0 HNL HLd CN CL.
  set (t := stOf s d p X Q).
  set (LS := leaveSizeOf X) in *. set (NS := nodeSizeOf X) in *.
  set (L := freeLeave X) in *. set (N := freeNode X) in *.
  assert (Et : hasError t = false) by exact Herr.
  assert (Ct : curInfo t = X) by (apply curInfo_stOf; exact A).
  assert (SLt : getLeaveSize t = keySize (curInfo t) + 25)
    by (rewrite Ct; unfold t; rewrite getLeaveSize_stOf by exact A; exact HLS).
  assert (SNt : keySize (curInfo t) + 27 <= getNodeSize t)
    by (rewrite Ct; unfold t; rewrite getNodeSize_stOf by exact A; exact HNS).
  assert (Hk0t : 0 < keySize (curInfo t)) by (rewrite Ct; exact Hk0).
  assert (Hk1t : keySize (curInfo t) + 8 < 65536) by (rewrite Ct; exact Hk1).
  pose proof (sentinelLeaf_length t Et Hk0t SLt) as LsL.
  pose proof (firstRoot_length t Et Hk0t Hk1t SNt L) as LfR.
  unfold t in LsL at 2. rewrite getLeaveSize_stOf in LsL by exact A. fold LS in LsL.
  unfold t in LfR at 2. rewrite getNodeSize_stOf in LfR by exact A. fold NS in LfR.
  unfold createFirstNode. rewrite !bind_gets. cbv zeta.
  fold t. fold (sentinelLeaf t).
  (* the leaf *)
  unfold writeNewLeave. rewrite bind_assoc.
  erewrite bind_eq
    by (apply allocateLeave_stOf; fold LS L;
        try assumption; unfold INVALID_POSITION; lia).
  fold LS L. set (X1 := with_freeLeave _ X).
  rewrite bind_assoc.
  erewrite bind_eq
    by (apply writeLeave_stOf; change (leaveSizeOf X1) with LS;
        try assumption; lia).
  change (leaveSizeOf X1) with LS.
  set (leafB := setChecksumOf LS (sentinelLeaf t)).
  assert (LlB : length leafB = Z.to_nat LS)
    by (unfold leafB; rewrite setChecksumOf_length; exact LsL).
  set (d1 := poke d L leafB).
  assert (Ld1 : length d1 = length d)
    by (apply poke_length_in; rewrite LlB; lia).
  rewrite bind_ret.
  erewrite bind_eq by (apply setFirstLeave_stOf; exact A).
  unfold setLastLeave. rewrite bind_modify, updInfo_stOf by exact A.
  set (X3 := with_lastLeave L (with_firstLeave L X1)).
  (* the node *)
  rewrite !bind_gets.
  set (t3 := stOf s d1 (L + LS) X3 Q).
  assert (S3 : sameKeys t t3) by (apply sameKeys_normal; [exact A | reflexivity ..]).
  rewrite <- (same_allocateNodeBlock t t3 S3).
  fold (firstRoot t3 L). rewrite (same_firstRoot t t3 L S3).
  assert (PN : peek d1 N (Z.to_nat NS) = peek d N (Z.to_nat NS))
    by (apply peek_poke_apart; rewrite LlB; lia).
  unfold writeNewNode. rewrite bind_assoc.
  erewrite bind_eq
    by (apply allocateNode_stOf; change (nodeSizeOf X3) with NS;
        change (freeNode X3) with N; rewrite ?PN, ?Ld1;
        try assumption; unfold INVALID_POSITION; lia).
  change (nodeSizeOf X3) with NS. change (freeNode X3) with N. rewrite PN.
  set (X4 := with_freeNode _ X3).
  rewrite bind_assoc.
  erewrite bind_eq
    by (apply writeNode_stOf; change (nodeSizeOf X4) with NS; rewrite ?Ld1;
        try assumption; lia).
  change (nodeSizeOf X4) with NS.
  rewrite bind_ret. unfold setRootNode, modify.
  rewrite updInfo_stOf by exact A. reflexivity.
Qed.

(** ** [initIndex]: what it needs from the file *)

Lemma writeInfo_in (s : MultiIndex) :
  activeIn s -> 0 <= m_currentIndex s ->
  getIndexInfoPos s + sizeof_IndexInfo <= Z.of_nat (length (m_file s)) ->
  writeInfo s
  = (Ret tt,
     set_file
       (poke (m_file s) (getIndexInfoPos s)
          (IndexInfo_bytes (setInfoChecksumOf (curInfo s))))
       (getIndexInfoPos s + sizeof_IndexInfo) (updInfo setInfoChecksumOf s)).
Proof.
  intros A Hi Hin. unfold writeInfo.
  rewrite bind_modify, !bind_gets, curInfo_updInfo by exact A.
  change (getIndexInfoPos (updInfo setInfoChecksumOf s)) with (getIndexInfoPos s).
  rewrite File_write_in; [reflexivity | | | exact Hin | apply IndexInfo_bytes_length].
  - unfold getIndexInfoPos, sizeof_MultiIndexHeader, sizeof_IndexInfo. lia.
  - unfold sizeof_IndexInfo. lia.
Qed.

Lemma peek_of_prefix (a b : list Z) (off : Z) (n : nat) :
  firstn (length a) b = a -> 0 <= off ->
  off + Z.of_nat n <= Z.of_nat (length a) ->
  peek b off n = peek a off n.
Proof.
  intros P H0 H1. apply peek_ext; try assumption.
  intros z Hz.
  transitivity (nthZ (off + z) (firstn (length a) b)); [|now rewrite P].
  unfold nthZ. destruct (off + z <? 0); [reflexivity|].
  rewrite nth_firstn.
  replace (Z.to_nat (off + z) <? length a)%nat with true; [reflexivity|].
  symmetry. apply Nat.ltb_lt. lia.
Qed.

Lemma chainFrom_end (s : MultiIndex) (fuel : nat) :
  chainFrom s fuel INVALID_POSITION = [].
Proof. destruct fuel; reflexivity. Qed.

(** ** [initIndex] with blocks to pre-allocate *)

(** [initIndex] on a good handle whose descriptor lies in the file, with a
    key size and a node capacity that fit 16-bit block sizes and with
    nodes and leaves to pre-allocate, returns and leaves an empty index
    with the configuration it was given: one level; one leaf, the
    sentinel, that is both ends of the leaf chain, holds the EOF key,
    has no neighbour and no data, and passes its checksum test; a root
    that passes its checksum test and has one item, the EOF key with the
    sentinel below it; [getFirst] finds no entry; and the other indexes
    of the file are as they were. *)
Theorem initIndex_makes_empty_index
    (kt : KeyType) (ks attrs numItems nodes leaves : Z) (s : MultiIndex) :
  hasError s = false -> activeIn s -> 0 <= m_currentIndex s ->
  getIndexInfoPos s + sizeof_IndexInfo <= Z.of_nat (length (m_file s)) ->
  0 < ks -> 1 <= numItems -> (ks + 8) * numItems + 19 < 65536 ->
  0 < nodes -> 0 < leaves ->
  Z.of_nat (length (m_file s)) + nodes * ((ks + 8) * numItems + 19)
    + leaves * (ks + 25) < 2 ^ 63 ->
  exists s',
    initIndex kt ks attrs numItems nodes leaves s = (Ret tt, s')
    /\ hasError s' = false
    /\ configOf (curInfo s') = (attrs, kt, ks, numItems, nodes, leaves)
    /\ getNumLevels s' = 1
    /\ (forall j, j <> Z.to_nat (m_currentIndex s) ->
          nth j (m_indexInfo s') defaultIndexInfo
          = nth j (m_indexInfo s) defaultIndexInfo)
    /\ getFirst s' = (Ret (INVALID_POSITION, []), s')
    /\ getFirstLeave s' = getLastLeave s'
    /\ leafChain s' = [getFirstLeave s']
    /\ validLeaf s' (getFirstLeave s')
    /\ leafKeyAt s' (getFirstLeave s') = fillEOFKey s'
    /\ getNextLeave (leafAt s' (getFirstLeave s')) = INVALID_POSITION
    /\ getPrevLeave (leafAt s' (getFirstLeave s')) = INVALID_POSITION
    /\ getDataPos (leafAt s' (getFirstLeave s')) = INVALID_POSITION
    /\ validNode s' (getRootNode s')
    /\ getNumItems (rootBlock s') = 1
    /\ itemKey s' (rootBlock s') 1 = fillEOFKey s'
    /\ getChildPos s' (rootBlock s') 1 = getFirstLeave s'.
Proof.
  intros Herr A Hi Hin Hk Hm Hsz Hn Hl Hr.
  assert (Run : exists s', initIndex kt ks attrs numItems nodes leaves s = (Ret tt, s')
     /\ exists t d p X L N,
          s' = stOf t d p X (m_positions t) /\ activeIn t /\ hasError t = false
          /\ keySize X = ks /\ maxItems X = numItems
          /\ firstLeave X = L /\ lastLeave X = L /\ rootNode X = N
          /\ 0 <= N /\ N + ((ks + 8) * numItems + 19) <= L
          /\ L + (ks + 25) <= Z.of_nat (length d) /\ L < 2 ^ 63
          /\ peek d L (Z.to_nat (ks + 25))
             = setChecksumOf (ks + 25) (sentinelLeaf (stOf t d p X (m_positions t)))
          /\ peek d N (Z.to_nat ((ks + 8) * numItems + 19))
             = setChecksumOf ((ks + 8) * numItems + 19)
                 (firstRoot (stOf t d p X (m_positions t)) L)).
  {

    
    set (NS := (ks + 8) * numItems + 19) in *.
    set (LS := ks + 25).
    set (len := Z.of_nat (length (m_file s))) in *.
    assert (HNS : ks + 27 <= NS) by (clear - Hk Hm; subst NS; nia).
    assert (HnN : NS <= nodes * NS) by (clear - Hn HNS Hk; nia).
    assert (HlL : LS <= leaves * LS) by (clear - Hl Hk; subst LS; nia).
    assert (Hr2 : len + nodes * NS < 2 ^ 63) by (clear - Hr HlL Hk; subst LS; lia).
    assert (Hlen : 0 <= len) by (subst len; lia).
    unfold initIndex. rewrite bind_gets, Herr, bind_modify.
    set (g := fun i : IndexInfo => mkIndexInfo _ _ _ _ _ _ _ _ _ _ _ _ _).
    set (s0 := updInfo g s).
    assert (A0 : activeIn s0) by (apply activeIn_updInfo; exact A).
    assert (C0 : curInfo s0 = g (curInfo s)) by (apply curInfo_updInfo; exact A).
    erewrite bind_eq by (apply writeInfo_in; assumption).
    set (s1 := set_file _ _ _).
    assert (A1 : activeIn s1) by (apply activeIn_updInfo; exact A0).
    assert (C1 : curInfo s1 = setInfoChecksumOf (g (curInfo s)))
      by (rewrite <- C0; apply (curInfo_updInfo setInfoChecksumOf s0 A0)).
    assert (L1 : Z.of_nat (length (m_file s1)) = len).
    { unfold s1. cbn [m_file set_file]. rewrite poke_length_in; [reflexivity|].
      rewrite IndexInfo_bytes_length.
      unfold getIndexInfoPos, sizeof_MultiIndexHeader, sizeof_IndexInfo in *.
      change (m_file s0) with (m_file s). change (m_currentIndex s0) with (m_currentIndex s).
      lia. }
    assert (E1 : m_errorCode s1 = m_errorCode s) by reflexivity.
    assert (N1 : getNodeSize s1 = NS).
    { unfold getNodeSize, getItemSize, getMaxItems, getNodeHeaderSize, sizeof_NodeHeader.
      rewrite C1. cbn [keySize maxItems setInfoChecksumOf with_checksum g].
      unfold u16. rewrite (Z.mod_small (ks + 8)) by lia.
      apply Z.mod_small. fold NS. lia. }
    assert (S1 : getLeaveSize s1 = LS).
    { unfold getLeaveSize, sizeof_LeafHeader.
      rewrite C1. cbn [keySize setInfoChecksumOf with_checksum g].
      unfold u16. apply Z.mod_small. subst LS. lia. }
    assert (F1 : getFreeNode s1 = INVALID_POSITION /\ getFreeLeave s1 = INVALID_POSITION)
      by (unfold getFreeNode, getFreeLeave; rewrite C1; split; reflexivity).
    destruct F1 as (FN1 & FL1).
    destruct (createNodes_chain s1 nodes) as (s2 & R2 & E2 & C2 & P2 & L2 & B2);
      [exact A1 | exact Hn | rewrite N1; unfold sizeof_NodeHeader; lia
      | rewrite FN1; unfold INVALID_POSITION; lia | rewrite L1, N1; exact Hr2 |].
    rewrite L1, N1 in L2. rewrite L1 in C2.
    specialize (B2 0 ltac:(lia)). cbv zeta in B2. rewrite L1, N1 in B2.
    replace (len + 0 * NS) with len in B2 by lia. destruct B2 as (K2 & _).
    destruct (returns_behaves _ _ _ _ (behaves_createNodes _) R2) as (Fr2 & _).
    assert (A2 : activeIn s2) by (eapply activeIn_framed; [exact Fr2 | exact A1]).
    erewrite bind_eq by exact R2.
    assert (S2 : getLeaveSize s2 = LS)
      by (unfold getLeaveSize; rewrite C2; cbn [keySize with_freeNode];
          rewrite <- S1; unfold getLeaveSize; reflexivity).
    assert (FL2 : getFreeLeave s2 = INVALID_POSITION)
      by (unfold getFreeLeave; rewrite C2; cbn [freeLeave with_freeNode]; exact FL1).
    destruct (createLeaves_chain s2 leaves) as (s3 & R3 & E3 & C3 & P3 & L3 & B3);
      [exact A2 | exact Hl | rewrite S2; unfold sizeof_LeafHeader; subst LS; lia
      | rewrite FL2; unfold INVALID_POSITION; lia | rewrite L2, S2; exact Hr |].
    rewrite L2, S2 in L3. rewrite L2 in C3.
    specialize (B3 0 ltac:(lia)). cbv zeta in B3. rewrite L2, S2 in B3.
    replace (len + nodes * NS + 0 * LS) with (len + nodes * NS) in B3 by lia.
    destruct B3 as (K3 & _).
    destruct (returns_behaves _ _ _ _ (behaves_createLeaves _) R3) as (Fr3 & _).
    assert (A3 : activeIn s3) by (eapply activeIn_framed; [exact Fr3 | exact A2]).
    erewrite bind_eq by exact R3.
    assert (E3' : hasError s3 = false)
      by (unfold hasError in *; rewrite E3, E2, E1; exact Herr).

    assert (C3' : curInfo s3 = with_freeLeave (len + nodes * NS)
                    (with_freeNode len (setInfoChecksumOf (g (curInfo s)))))
      by (rewrite C3, C2, C1; reflexivity).
    assert (KS3 : keySize (curInfo s3) = ks) by (rewrite C3'; reflexivity).
    assert (MI3 : maxItems (curInfo s3) = numItems) by (rewrite C3'; reflexivity).
    assert (N3 : nodeSizeOf (curInfo s3) = NS).
    { unfold nodeSizeOf, sizeof_NodeHeader. rewrite KS3, MI3.
      unfold u16. rewrite (Z.mod_small (ks + 8)) by lia.
      apply Z.mod_small. fold NS. lia. }
    assert (S3 : leaveSizeOf (curInfo s3) = LS).
    { unfold leaveSizeOf, sizeof_LeafHeader. rewrite KS3.
      unfold u16. apply Z.mod_small. subst LS. lia. }
    assert (FN3 : freeNode (curInfo s3) = len) by (rewrite C3'; reflexivity).
    assert (FL3 : freeLeave (curInfo s3) = len + nodes * NS) by (rewrite C3'; reflexivity).
    assert (PN3 : peek (m_file s3) len (Z.to_nat NS) = peek (m_file s2) len (Z.to_nat NS))
      by (apply peek_of_prefix; [exact P3 | exact Hlen | lia]).
    pose proof (createFirstNode_stOf s3 (m_file s3) (m_filePos s3) (curInfo s3)
                  (m_positions s3) A3 E3') as R4.
    rewrite stOf_self, N3, S3, KS3, FN3, FL3, PN3 in R4.
    specialize (R4 Hk ltac:(lia) ltac:(reflexivity) HNS Hlen ltac:(lia)
                  ltac:(lia) K2 K3).
    rewrite <- PN3 in R4.
    erewrite bind_eq by exact R4.
    unfold setNumLevels, modify. rewrite updInfo_stOf by exact A3.
    set (leafB := setChecksumOf LS _). set (nodeB := setChecksumOf NS _).
    assert (LlB : length leafB = Z.to_nat LS).
    { unfold leafB. rewrite setChecksumOf_length.
      rewrite (sentinelLeaf_length s3 E3'); fold (leaveSizeOf (curInfo s3));
        unfold getLeaveSize; fold (leaveSizeOf (curInfo s3));
        rewrite ?S3, ?KS3; subst LS; lia. }
    assert (LnB : length nodeB = Z.to_nat NS).
    { unfold nodeB. rewrite setChecksumOf_length.
      rewrite (firstRoot_length s3 E3');
        change (getNodeSize s3) with (nodeSizeOf (curInfo s3));
        rewrite ?N3, ?KS3; lia. }
    set (L := len + nodes * NS) in *.
    set (d4 := poke (m_file s3) L leafB).
    assert (Ld4 : length d4 = length (m_file s3))
      by (apply poke_length_in; rewrite LlB; lia).
    set (d5 := poke d4 len nodeB).
    assert (Ld5 : length d5 = length (m_file s3))
      by (unfold d5; rewrite poke_length_in; [exact Ld4 | rewrite LnB, Ld4; lia]).
    set (X5 := with_numLevels 1 _).
    assert (SK : sameKeys s3 (stOf s3 d5 (len + NS) X5 (m_positions s3)))
      by (apply sameKeys_stOf; [exact A3 | reflexivity ..]).
    eexists. split; [reflexivity|].
    exists s3, d5, (len + NS), X5, L, len.
    split; [reflexivity|]. split; [exact A3|]. split; [exact E3'|].
    split; [exact KS3|]. split; [exact MI3|].
    split; [reflexivity|]. split; [reflexivity|]. split; [reflexivity|].
    split; [exact Hlen|]. split; [lia|]. split; [rewrite Ld5; lia|].
    split; [exact Hr2|].
    split.
    - rewrite (same_sentinelLeaf _ _ SK). fold leafB.
      unfold d5. rewrite peek_poke_apart by (rewrite LnB, ?Ld4; lia).
      rewrite <- LlB. apply peek_poke_same. rewrite LlB. lia.
    - rewrite (same_firstRoot _ _ L SK). fold nodeB.
      rewrite <- LnB. apply peek_poke_same. rewrite LnB, Ld4. lia. }
  destruct Run as (s' & R & t & d & p & X & L & N & Es & At & Et & KS & MI
                   & FL & LL & RN & HN0 & HNL & HLd & HL63 & PL & PR).
  exists s'. split; [exact R|].
  destruct (initIndex_descriptor kt ks attrs numItems nodes leaves s s'
              Herr A R) as (D1 & D2 & D3 & D4 & D5 & D6).
  split; [exact D1|]. split; [exact D2|]. split; [exact D3|].
  split; [exact D6|]. split; [exact D5|]. split; [exact D4|].
  clear D2 D3 D4 D5 D6 R.
  set (NS := (ks + 8) * numItems + 19) in *. set (LS := ks + 25) in *.
  assert (HNS : ks + 27 <= NS) by (clear - Hk Hm; subst NS; nia).
  clear Hr.
  rewrite <- Es in PL, PR.
  assert (C : curInfo s' = X) by (rewrite Es; apply curInfo_stOf; exact At).
  assert (F : getFirstLeave s' = L) by (unfold getFirstLeave; rewrite C; exact FL).
  assert (Rt : getRootNode s' = N) by (unfold getRootNode; rewrite C; exact RN).
  assert (Fd : m_file s' = d) by (rewrite Es; reflexivity).
  assert (K : getKeySize s' = ks) by (unfold getKeySize; rewrite D1, C; exact KS).
  assert (GL : getLeaveSize s' = LS).
  { unfold getLeaveSize, sizeof_LeafHeader. rewrite C, KS.
    unfold u16. apply Z.mod_small. subst LS. lia. }
  assert (GN : getNodeSize s' = NS).
  { unfold getNodeSize, getItemSize, getMaxItems, getNodeHeaderSize,
      sizeof_NodeHeader. rewrite C, KS, MI.
    unfold u16. rewrite (Z.mod_small (ks + 8)) by lia.
    apply Z.mod_small. fold NS. lia. }
  clearbody NS.
  assert (Hk0' : 0 < keySize (curInfo s')) by (rewrite C, KS; exact Hk).
  assert (Hk1' : keySize (curInfo s') + 8 < 65536) by (rewrite C, KS; lia).
  assert (HLS' : getLeaveSize s' = keySize (curInfo s') + 25)
    by (rewrite C, KS; exact GL).
  assert (HNS' : keySize (curInfo s') + 27 <= getNodeSize s')
    by (rewrite C, KS, GN; exact HNS).
  assert (LA : leafAt s' L = setChecksumOf LS (sentinelLeaf s'))
    by (unfold leafAt; rewrite Fd, GL; exact PL).
  assert (RB : rootBlock s' = setChecksumOf NS (firstRoot s' L))
    by (unfold rootBlock; rewrite Rt, Fd, GN; exact PR).
  destruct (sentinelLeaf_fields s' D1 Hk0' HLS') as (NX & PV & DP).
  destruct (firstRoot_item s' D1 Hk0' Hk1' HNS' L ltac:(lia)) as (I1 & I2 & I3).
  rewrite F, Rt, LA, RB.
  split.
  { unfold leafChain. rewrite F, Fd.
    destruct (length d) as [|fuel] eqn:Ed; [simpl in HLd; subst LS; lia|].
    cbn [chainFrom].
    replace (L =? INVALID_POSITION) with false
      by (symmetry; apply Z.eqb_neq; unfold INVALID_POSITION; lia).
    rewrite LA. unfold getNextLeave. rewrite getI64_of_checksummed by lia.
    fold (getNextLeave (sentinelLeaf s')). rewrite NX, chainFrom_end.
    reflexivity. }
  split.
  { unfold validLeaf, leafBlockIn. rewrite GL, Fd, LA.
    split; [lia | apply setChecksumOf_valid]. }
  split.
  { unfold leafKeyAt. rewrite LA, getLeaveKey_checksummed.
    apply (sentinelLeaf_key s' D1 Hk0' HLS'). }
  unfold getNextLeave, getPrevLeave, getDataPos.
  rewrite !getI64_of_checksummed by lia.
  split; [exact NX|]. split; [exact PV|]. split; [exact DP|].
  split.
  { unfold validNode, nodeAt. rewrite GN, Fd, PR.
    split; [subst LS; lia | apply setChecksumOf_valid]. }
  rewrite getNumItems_checksummed, itemKey_checksummed by lia.
  rewrite getChildPos_checksummed by (rewrite ?K; lia).
  split; [exact I1|]. split; [exact I2 | exact I3].
Qed.

(** The second index of a new file with two, initialised for 4-byte
    strings, 3 items per node, pre-allocating 2 nodes and 3 leaves. *)
Lemma initIndex_makes_empty_index_witness :
  let s := exec (setActiveIndex 2) (snd (MultiIndex_new 2)) in
  exists s',
    initIndex STRING 4 ATTR_ALLOW_DELETE 3 2 3 s = (Ret tt, s')
    /\ hasError s' = false
    /\ configOf (curInfo s') = (ATTR_ALLOW_DELETE, STRING, 4, 3, 2, 3)
    /\ getNumLevels s' = 1
    /\ (forall j, j <> Z.to_nat (m_currentIndex s) ->
          nth j (m_indexInfo s') defaultIndexInfo
          = nth j (m_indexInfo s) defaultIndexInfo)
    /\ getFirst s' = (Ret (INVALID_POSITION, []), s')
    /\ getFirstLeave s' = getLastLeave s'
    /\ leafChain s' = [getFirstLeave s']
    /\ validLeaf s' (getFirstLeave s')
    /\ leafKeyAt s' (getFirstLeave s') = fillEOFKey s'
    /\ getNextLeave (leafAt s' (getFirstLeave s')) = INVALID_POSITION
    /\ getPrevLeave (leafAt s' (getFirstLeave s')) = INVALID_POSITION
    /\ getDataPos (leafAt s' (getFirstLeave s')) = INVALID_POSITION
    /\ validNode s' (getRootNode s')
    /\ getNumItems (rootBlock s') = 1
    /\ itemKey s' (rootBlock s') 1 = fillEOFKey s'
    /\ getChildPos s' (rootBlock s') 1 = getFirstLeave s'.
Proof.
  intros s.
  apply (initIndex_makes_empty_index STRING 4 ATTR_ALLOW_DELETE 3 2 3 s).
  - reflexivity.
  - unfold activeIn. vm_compute. lia.
  - vm_compute. discriminate.
  - vm_compute. discriminate.
  - lia.
  - lia.
  - lia.
  - lia.
  - lia.
  - vm_compute. reflexivity.
Defined.
